(* ===== verification/_CoqProject ===== *)
-Q . S2P
Prelude.v
Format.v
FixedBuffer.v
LogStream.v
CountDownLatch.v
Thread.v
EventLoopThread.v
Handoff.v
Double.v
Gmtime.v
Timestamp.v
TimestampTheorems.v
Buffer.v
Kernel.v
State.v
CurrentThread.v
ThreadData.v
Channel.v
Descriptors.v
Poller.v
EventLoop.v
Sample.v
TimerQueue.v
TimerTheorems.v
LoopTimers.v
Registry.v
Dispatch.v
SocketsOptions.v
SocketFlags.v
Socket.v
InetAddr.v
TcpConnection.v
ConnectionTheorems.v
Acceptor.v
EventLoopThreadPool.v
TcpServer.v
Reactor.v
Ledger.v
Lifetime.v
ServerTheorems.v
Serving.v
Frames.v
ConnectionCallbacks.v
LoopFunctors.v
ServingTheorems.v
Teardown.v
Echo.v
EchoServing.v
Draining.v
