(* ===== verification/Prelude.v ===== *)
(** * YATWB: a reactor TCP library, verified

    YATWB is a small C++ network library in the manner of muduo: one event loop
    per thread, non-blocking sockets, call-backs.  This development models its
    code function by function and proves what it does and where it fails.

    ** The program and how its parts meet

    An [EventLoop] asks its [Poller] for the channels that are ready; a [Channel]
    dispatches the events of its descriptor to the callbacks of its owner, which is a
    [TcpConnection], the [Acceptor] of a [TcpServer] or a [TimerQueue].  The acceptor
    hands new descriptors to the server, the server builds connections on a loop of its
    [EventLoopThreadPool] and keeps them in a map; a closed connection leaves the map, is
    queued on its loop, taken off the poller by [destroyConnection] and deleted with the
    last [shared_ptr] to it.  Other threads reach a loop by queueing functors.  The
    example src/example is an echo server on top of all this.

    ** The model

    - Prelude: [result] and its faults (failing asserts, exceptions, deadlocks,
      undefined behaviour), machine integers, byte arrays, and the class [Build] of what
      the source leaves to the compiler: whether asserts run, and what a function that
      flows off its end returns.
    - State: a record per class with its members, the heaps that hold the objects by
      address, the trace of what was done to descriptors, and the state-and-fault
      monad [M] in which every operation of the library is written.
    - Kernel: the system calls, as the operations of a class over an abstract state, and
      [KernelLaws], what the man pages promise of them.  Descriptors adds the set of
      open descriptors.  [Scripted] and [Tabled] are kernels that meet the laws and run.
    - One file per component, an operation per function of the source:
      Buffer (include/buffer.h, buffer.cpp); Timestamp, with Format for [snprintf],
      Gmtime for [gmtime_r] and Double for [double] (timestamp.h, timestamp.cpp);
      Channel (channel.h, channel.cpp); Poller (poller.h, poller.cpp); EventLoop and
      CurrentThread (event_loop.h, event_loop.cpp, thread.cpp); SocketsOptions, Socket
      and InetAddr (sockets_options, socket, inet_addr), the [VALGRIND] build of
      sockets_options included, which SocketFlags compares with the other; TcpConnection
      (tcp_connection.h, tcp_connection.cpp); Acceptor; EventLoopThreadPool; TcpServer; Teardown
      (the destructors of the server and of what it owns); TimerQueue (timer.h, timer_queue.h, timer_queue.cpp); LoopTimers (the timers of event_loop.h); Thread and ThreadData
      (thread.h, thread.cpp); FixedBuffer and LogStream (log_stream.h); Echo
      (src/example).
    - Reactor ties the knot.  A [std::function] is data, a constructor with what was
      bound into it: the classes [Callbacks], [Functors], [ChannelLoop],
      [ConnectionOwner] and [ConnectionAcceptor] say what running one means, so that
      Channel and EventLoop do not depend on their users, and Reactor gives the
      instances.  It also decides when a [shared_ptr] is the last one.
    - Where threads interleave, the shared objects are a state of their own and each
      thread is a program counter: CountDownLatch ([wait] and [countDown] of any
      number of threads), EventLoopThread ([startLoop] and the thread it creates) and
      Handoff ([queueInLoop], [quit] and the joining destructor against the running
      loop).  A step is one action of one thread between two accesses to shared state; a
      schedule is a list of actions, and theorems are about all schedules.

    ** What is shown

    - The server as a whole.  Serving states the invariant of a process whose server runs
      on one loop.  ConnectionCallbacks takes it through the callbacks of a connection,
      LoopFunctors through accepting and through the queued functors to the deletion of
      connections, and ServingTheorems proves that an iteration of the loop keeps it, whatever
      the kernel answers and the application sends within their laws: no assert fails, no
      deleted object is touched, no connection leaks, no mutex is taken twice.  Ledger is an interface
      for what an application wants to know of the bytes of its connections; the
      invariant keeps it.  EchoServing proves the laws of the echo application, that its
      construction and [start] reach the invariant, and with an instance of Ledger that the
      server echoes every byte it reads, in order; and that the program as it is dies
      before, since no constructor creates a poller.  The invariant also follows an
      automaton per descriptor along the trace of the calls (Ledger): none is used before it
      is accepted or after it is closed, and between two iterations the open ones are those of
      the connections in the map.  It leaves the servers and loops elsewhere in the
      process as they are.  Frames says what a callback leaves of the connections it is not
      called for, and Draining, with it, that a server makes progress: the array of the poller
      asks for output exactly for the connections with bytes pending, and so an iteration
      sends some of them and as many iterations as there are bytes send them all
      (pending_bytes_leave); so the echo server answers all that it has read
      (echo_server_answers).  Teardown ends the server: all connections are deleted and
      their descriptors closed, from construction to the end of the life of the server
      (echo_server_full_life), but the channels it leaves in the poller dangle.
    - Connections (ConnectionTheorems, ServerTheorems, Lifetime): bytes leave in the order
      they were sent and no sooner than the shutdown allows, and what is pending drains as
      long as the kernel takes bytes; what a read, an end of file and
      an error do; sends of other threads; how a connection is established, ended and deleted;
      the failures (deadlock of a queued send, abort with I/O threads, use after free of a
      late send).
    - The reactor (Poller, Registry, Dispatch): the array, the map and the indices refine
      a table of watched descriptors; a poll reports exactly what is ready; callbacks and
      functors run in order, once; a loop ends when it is told to.
    - Threads: no functor that is handed over is lost, repeated or reordered; a round of the
      loop runs all that was queued; a loop that is told to quit ends, unless it is told too
      early; no wake-up of a latch is lost, and its waiters return exactly if there are enough
      calls of [countDown]; [startLoop] does not hang, unless the thread cannot be created, in which
      case it always does; the life cycle
      of a [Thread], its name, and what a [fork] leaves of its identity.
    - Data: two buffers with all operations but [shrink] refine byte queues with room at their ends;
      the type of a buffer survives every sequence of calls with sizes of objects in a
      debug build, [readFd] equals [append]; texts of addresses and times can be
      read back; a log line is bounded for texts below 2^31 characters and overflows for longer ones;
      timers stay sorted, except that one with the time of another is dropped or aborts, and alarms
      are normalised.

    ** Bounds and fuel

    Integers have the width of the source: [size_t] wraps at 2^64, the overflow of a signed
    type is the fault [SignedOverflow], a [resize] above 2^63 - 1 throws.  The only fuel is
    that of [EventLoop.loop], the number of iterations of a [while] that may run for ever:
    [Dispatch.loop_returns_at_quit] shows that any fuel from the iteration that sets [quit_]
    on gives the result of the loop, and the safety theorems hold for every fuel.

    ** What is assumed

    [KernelLaws] and [DescriptorLaws], met by [Tabled]; [BuildLaws], that [tid] without its
    [return] still returns the cached id, met by the two builds; [AppLaws], that the
    callbacks of the application work on their own connection through its operations, met by
    the echo server.  The theorems about a server at work need a loop with a poller, which no
    constructor creates ([EchoServing.main_dies_in_start] is the program without one), and, in a build
    with assertions, new memory that happens to hold the loop in [owner_loop_], which the library never
    sets and asserts ([owned]); a release build needs nothing of [owner_loop_].  The theorems about
    the echo server from its construction on (EchoServing) also need [socket()] to give the
    listening socket.  Progress needs a kernel that reports a
    socket writable when asked and then takes a byte ([reports_writable], [takes_bytes]), met by the
    kernel at the end of Draining.  The application keeps no
    [TcpConnectionPtr] of its own.

    ** What is not modelled

    Logging ([LOG], include/logging.h, include/async_logging.h: declarations only) has no
    effect.  [TimerQueue::addTimer] binds a copy of a [unique_ptr], for which there is no reading: it is the
    operation of a class for [runAt], [runAfter] and [runEvery] (LoopTimers).  [cancel] and
    [removeConnectionInLoop] have no bodies.  The rest of the timer queue is in the reading that
    TimerQueue states, since the file does not compile.  The static object that ignores SIGPIPE is the assumption
    that a write to a closed socket fails instead of ending the process. *)

From Stdlib Require Export ZArith Lia.
From Stdlib Require Export Strings.Byte.
From stdpp Require Export base tactics option list list_numbers gmap strings.

#[global] Open Scope Z_scope.

(** ** Faults

    The ways a run of the program stops other than by returning.  [Assertion]
    is a failing [assert] (abort), [NotInLoopThread] the call of
    [EventLoop::abortNotInLoopThread], [LengthError] the exception
    [std::length_error] of [std::vector::resize], [BadFunctionCall] the
    exception of calling an empty [std::function], [Deadlock] the relocking of
    a [std::mutex] by its holder, [Blocked] a wait for another thread, and the remaining ones undefined behaviour
    of the language: an access outside an object, a null or dangling pointer
    and the overflow of a signed integer. *)
Inductive fault : Set :=
  | Assertion
  | NotInLoopThread
  | LengthError
  | BadFunctionCall
  | Deadlock
  | Blocked
  | OutOfBounds
  | NullPointer
  | DanglingPointer
  | SignedOverflow.

#[export] Instance fault_eq_dec : EqDecision fault.
Proof. solve_decision. Defined.

(** ** Results: a value, or the fault that stopped the run *)
Inductive result (A : Type) : Type :=
  | Ok (a : A)
  | Fault (f : fault).
Arguments Ok {A} _.
Arguments Fault {A} _.

#[export] Instance result_ret : MRet result := λ A a, Ok a.
#[export] Instance result_bind : MBind result := λ A B k r,
  match r with
  | Ok a => k a
  | Fault f => Fault f
  end.

Definition is_ok {A} (r : result A) : bool :=
  match r with Ok _ => true | Fault _ => false end.

Definition result_of_option {A} (f : fault) (o : option A) : result A :=
  match o with Some a => Ok a | None => Fault f end.

Lemma Ok_inj {A} (a b : A) : Ok a = Ok b → a = b.
Proof. by intros [= ]. Qed.

Lemma bind_ok {A B} (a : A) (k : A → result B) : (Ok a ≫= k) = k a.
Proof. reflexivity. Qed.

Lemma bind_fault {A B} f (k : A → result B) : (Fault f ≫= k) = Fault f.
Proof. reflexivity. Qed.

Lemma bind_ok_inv {A B} (r : result A) (k : A → result B) b :
  r ≫= k = Ok b → ∃ a, r = Ok a ∧ k a = Ok b.
Proof. destruct r as [a|f]; [exists a; done | discriminate]. Qed.

(** ** The build

    Two properties of the compiled program that the source leaves open.
    [NDEBUG] is the macro of [<cassert>]: when it is defined, an [assert] is
    not evaluated.  [tid_fall_off c] is the value a caller receives when
    [CurrentThread::tid] flows off its end with [t_cachedTid = c]. *)
Class Build : Type := {
  NDEBUG : bool;
  tid_fall_off : Z → Z
}.

(** The builds used in concrete runs: with and without asserts; in both,
    the register that held the cached id still holds it at the end of
    [CurrentThread::tid]. *)
Definition debug_build : Build := {| NDEBUG := false; tid_fall_off := λ c, c |}.
Definition release_build : Build := {| NDEBUG := true; tid_fall_off := λ c, c |}.

Definition assert_ `{Build} (b : bool) : result unit :=
  if NDEBUG then Ok () else if b then Ok () else Fault Assertion.

Lemma assert_true `{Build} b : b = true → assert_ b = Ok ().
Proof. intros ->. unfold assert_. by destruct NDEBUG. Qed.

Lemma assert_false `{Build} b : NDEBUG = false → b = false → assert_ b = Fault Assertion.
Proof. unfold assert_. by intros -> ->. Qed.

Lemma bind_assert `{Build} {A} b (k : unit → result A) :
  b = true → (assert_ b ≫= k) = k ().
Proof. intros Hb. by rewrite assert_true. Qed.

(** ** Machine integers *)

(** [size_t] and [uint64_t] arithmetic wraps modulo 2^64. *)
Definition u64 (z : Z) : Z := z mod 2 ^ 64.

Lemma u64_small z : 0 ≤ z < 2 ^ 64 → u64 z = z.
Proof. apply Z.mod_small. Qed.

Lemma u64_range z : 0 ≤ u64 z < 2 ^ 64.
Proof. apply Z.mod_pos_bound. lia. Qed.

(** [int], [short] and [int64_t]: arithmetic that leaves the range is
    undefined; a conversion into the type is modulo its width. *)
Definition in_range (bits : Z) (z : Z) : bool :=
  (- 2 ^ (bits - 1) <=? z) && (z <? 2 ^ (bits - 1)).

Definition checked (bits : Z) (z : Z) : result Z :=
  if in_range bits z then Ok z else Fault SignedOverflow.

Definition wrap_signed (bits : Z) (z : Z) : Z :=
  (z + 2 ^ (bits - 1)) mod 2 ^ bits - 2 ^ (bits - 1).

Lemma in_range_true bits z : - 2 ^ (bits - 1) ≤ z < 2 ^ (bits - 1) → in_range bits z = true.
Proof. intros. apply andb_true_intro. split; [apply Z.leb_le|apply Z.ltb_lt]; lia. Qed.

Lemma checked_ok bits z : - 2 ^ (bits - 1) ≤ z < 2 ^ (bits - 1) → checked bits z = Ok z.
Proof. intros. unfold checked. by rewrite in_range_true. Qed.

Lemma wrap_signed_small bits z :
  0 < bits → - 2 ^ (bits - 1) ≤ z < 2 ^ (bits - 1) → wrap_signed bits z = z.
Proof.
  intros Hb Hz. unfold wrap_signed.
  assert (2 ^ bits = 2 * 2 ^ (bits - 1)) by (rewrite <- Z.pow_succ_r by lia; f_equal; lia).
  rewrite Z.mod_small; lia.
Qed.

(** ** Byte arrays

    [std::vector<char>] and character arrays are lists of bytes. *)
#[export] Instance byte_eq_decision : EqDecision byte := Byte.byte_eq_dec.

Definition zlen {A} (l : list A) : Z := Z.of_nat (length l).

Lemma zlen_nonneg {A} (l : list A) : 0 ≤ zlen l.
Proof. unfold zlen. lia. Qed.

Lemma zlen_app {A} (l k : list A) : zlen (l ++ k) = zlen l + zlen k.
Proof. unfold zlen. rewrite length_app. lia. Qed.

Lemma zlen_nil {A} : zlen (@nil A) = 0.
Proof. reflexivity. Qed.

Lemma zlen_0_nil {A} (l : list A) : zlen l = 0 → l = [].
Proof. destruct l; [done|]. unfold zlen. simpl. lia. Qed.

Lemma zlen_replicate {A} n (x : A) : 0 ≤ n → zlen (replicate (Z.to_nat n) x) = n.
Proof. intros. unfold zlen. rewrite length_replicate. lia. Qed.

Lemma zlen_take {A} n (l : list A) : 0 ≤ n ≤ zlen l → zlen (take (Z.to_nat n) l) = n.
Proof. unfold zlen. intros. rewrite length_take. lia. Qed.

Lemma zlen_drop {A} n (l : list A) :
  0 ≤ n ≤ zlen l → zlen (drop (Z.to_nat n) l) = zlen l - n.
Proof. unfold zlen. intros. rewrite length_drop. lia. Qed.

(** [slice a b l] is the content of [l + a, l + b). *)
Definition slice {A} (a b : Z) (l : list A) : list A :=
  take (Z.to_nat (b - a)) (drop (Z.to_nat a) l).

(** Reading [l + a, l + b) as a range of iterators or pointers. *)
Definition read_range {A} (a b : Z) (l : list A) : result (list A) :=
  if (0 <=? a) && (a <=? b) && (b <=? zlen l) then Ok (slice a b l) else Fault OutOfBounds.

(** [std::copy] of [d] to [l + pos]. *)
Definition write_range {A} (pos : Z) (d l : list A) : result (list A) :=
  if (0 <=? pos) && (pos + zlen d <=? zlen l)
  then Ok (take (Z.to_nat pos) l ++ d ++ drop (Z.to_nat (pos + zlen d)) l)
  else Fault OutOfBounds.

(** [std::vector<char>::resize]: new elements are zero; a size above
    [max_size()] throws. *)
Definition vector_max_size : Z := 2 ^ 63 - 1.

Definition vector_resize (n : Z) (l : list byte) : result (list byte) :=
  if vector_max_size <? n then Fault LengthError
  else if n <=? zlen l then Ok (take (Z.to_nat n) l)
  else Ok (l ++ replicate (Z.to_nat (n - zlen l)) x00).

Lemma read_range_ok {A} a b (l : list A) :
  0 ≤ a → a ≤ b → b ≤ zlen l → read_range a b l = Ok (slice a b l).
Proof.
  intros. unfold read_range.
  rewrite (proj2 (Z.leb_le _ _)), (proj2 (Z.leb_le _ _)), (proj2 (Z.leb_le _ _)) by lia.
  done.
Qed.

Lemma write_range_ok {A} pos (d l : list A) :
  0 ≤ pos → pos + zlen d ≤ zlen l →
  write_range pos d l = Ok (take (Z.to_nat pos) l ++ d ++ drop (Z.to_nat (pos + zlen d)) l).
Proof.
  intros. unfold write_range.
  rewrite (proj2 (Z.leb_le _ _)), (proj2 (Z.leb_le _ _)) by lia. done.
Qed.

Lemma zlen_slice {A} a b (l : list A) :
  0 ≤ a → a ≤ b → b ≤ zlen l → zlen (slice a b l) = b - a.
Proof.
  intros. unfold slice. rewrite zlen_take; [lia|]. rewrite zlen_drop; lia.
Qed.

(** A slice of a list that agrees with [l] around a written block. *)
Lemma slice_app_mid {A} (p d s : list A) a b :
  a = zlen p → b = zlen p + zlen d → slice a b (p ++ d ++ s) = d.
Proof.
  intros -> ->. unfold slice, zlen.
  replace (Z.to_nat (Z.of_nat (length p))) with (length p) by lia.
  rewrite drop_app_length.
  replace (Z.to_nat _) with (length d) by lia.
  apply take_app_length.
Qed.

Lemma slice_split {A} a m b (l : list A) :
  0 ≤ a → a ≤ m → m ≤ b → b ≤ zlen l → slice a b l = slice a m l ++ slice m b l.
Proof.
  intros. unfold slice.
  replace (Z.to_nat (b - a)) with (Z.to_nat (m - a) + Z.to_nat (b - m))%nat by lia.
  rewrite <- take_take_drop, drop_drop. do 3 f_equal. lia.
Qed.

Lemma slice_app_l {A} a b (l k : list A) :
  0 ≤ a → b ≤ zlen l → slice a b (l ++ k) = slice a b l.
Proof.
  unfold zlen. intros. unfold slice.
  destruct (decide (a ≤ b)).
  - rewrite (drop_app_le l k) by lia. apply take_app_le. rewrite length_drop. lia.
  - replace (Z.to_nat (b - a)) with 0%nat by lia. done.
Qed.

Lemma slice_take {A} a b n (l : list A) :
  0 ≤ a → b ≤ n → slice a b (take (Z.to_nat n) l) = slice a b l.
Proof.
  intros. unfold slice. rewrite skipn_firstn_comm, take_take.
  f_equal. lia.
Qed.

Lemma slice_drop {A} n a b (l : list A) :
  0 ≤ n → n ≤ b - a → 0 ≤ a → slice (a + n) b l = drop (Z.to_nat n) (slice a b l).
Proof.
  intros. unfold slice. rewrite skipn_firstn_comm, drop_drop.
  f_equal; [lia|]. f_equal. lia.
Qed.

Lemma slice_empty {A} a b (l : list A) : b ≤ a → slice a b l = [].
Proof. intros. unfold slice. replace (Z.to_nat (b - a)) with 0%nat by lia. done. Qed.

(** ** Counting *)
Definition count_pos (l : list Z) : Z := zlen (filter (λ z, 0 < z) l).

(** ** Sums *)
Lemma sum_list_insert {A} (g : A → nat) l i x x' :
  l !! i = Some x → (sum_list (g <$> <[i := x']> l) + g x = sum_list (g <$> l) + g x')%nat.
Proof.
  revert i. induction l as [|y l IH]; intros [|i] Hi; simplify_eq/=; [lia|].
  specialize (IH i Hi). lia.
Qed.
