(* ===== verification/Format.v ===== *)
(** * Formatted output

    The conversions of [snprintf] that the library uses on machine integers,
    and the truncation of its result to the buffer. *)

From Stdlib Require Import Ascii.
From S2P Require Import Prelude.

Module Format.

Definition digit_char (d : Z) : ascii := ascii_of_nat (48 + Z.to_nat d).
Definition char_digit (c : ascii) : Z := Z.of_nat (nat_of_ascii c) - 48.

(** The decimal digits of a number below [10 ^ fuel]. *)
Fixpoint digits (fuel : nat) (z : Z) : string :=
  match fuel with
  | O => ""
  | S fuel => (if z <? 10 then "" else digits fuel (z / 10)) +:+ String (digit_char (z mod 10)) ""
  end.

(** A 64-bit integer has at most 20 digits. *)
Definition max_digits : nat := 20.

(** [%d], [%ld] and, of a non-negative number, [%u] *)
Definition dec (z : Z) : string :=
  if z <? 0 then String "-"%char (digits max_digits (- z)) else digits max_digits z.

Fixpoint fill (c : ascii) (n : nat) (s : string) : string :=
  match n with O => s | S n => String c (fill c n s) end.

(** [%<w>d]: padded with blanks; [%0<w>d]: with zeros, after the sign. *)
Definition dec_pad (width : nat) (z : Z) : string :=
  fill " "%char (width - String.length (dec z)) (dec z).

Definition dec_zero (width : nat) (z : Z) : string :=
  if z <? 0
  then String "-"%char (fill "0"%char (pred width - String.length (digits max_digits (- z)))
                          (digits max_digits (- z)))
  else fill "0"%char (width - String.length (digits max_digits z)) (digits max_digits z).

(** At most [size - 1] characters are stored. *)
Definition snprintf (size : nat) (s : string) : string := String.substring 0 (pred size) s.

(** Reading a number back. *)
Fixpoint parse (s : string) (acc : Z) : Z :=
  match s with
  | EmptyString => acc
  | String c s => parse s (10 * acc + char_digit c)
  end.

Lemma char_digit_char d : 0 ≤ d < 10 → char_digit (digit_char d) = d.
Proof.
  intros Hd. unfold char_digit, digit_char.
  rewrite nat_ascii_embedding by lia. lia.
Qed.

Lemma parse_app s s' acc : parse (s +:+ s') acc = parse s' (parse s acc).
Proof. revert acc. induction s as [|c s IH]; intros acc; [done|]. apply IH. Qed.

Lemma digits_step fuel z :
  digits (S fuel) z =
  (if z <? 10 then "" else digits fuel (z / 10)) +:+ String (digit_char (z mod 10)) "".
Proof. done. Qed.

Lemma pow10_succ n : 10 ^ Z.of_nat (S n) = 10 * 10 ^ Z.of_nat n.
Proof. rewrite Nat2Z.inj_succ, Z.pow_succ_r by lia. done. Qed.

Lemma parse_digits fuel z : 0 ≤ z < 10 ^ Z.of_nat fuel → parse (digits fuel z) 0 = z.
Proof.
  revert z. induction fuel as [|fuel IH]; intros z Hz; [simpl in *; lia|].
  rewrite pow10_succ in Hz. rewrite digits_step, parse_app. cbn [parse].
  rewrite char_digit_char by (apply Z.mod_pos_bound; lia).
  pose proof (Z.div_mod z 10). case Z.ltb_spec; intros Hlt; cbn [parse].
  - rewrite Z.mod_small; lia.
  - rewrite IH; [lia|]. split; [apply Z.div_pos; lia|apply Z.div_lt_upper_bound; lia].
Qed.

Lemma digits_inj fuel z z' :
  0 ≤ z < 10 ^ Z.of_nat fuel → 0 ≤ z' < 10 ^ Z.of_nat fuel →
  digits fuel z = digits fuel z' → z = z'.
Proof. intros Hz Hz' H. by rewrite <- (parse_digits fuel z), H, parse_digits. Qed.

Lemma length_string_app (s s' : string) :
  String.length (s +:+ s') = (String.length s + String.length s')%nat.
Proof. induction s as [|c s IH]; simpl; [done|]. by rewrite IH. Qed.

Lemma length_digits fuel n z :
  (0 < n)%nat → 0 ≤ z < 10 ^ Z.of_nat n → (String.length (digits fuel z) ≤ n)%nat.
Proof.
  revert n z. induction fuel as [|fuel IH]; intros n z Hn Hz; [simpl; lia|].
  rewrite digits_step, length_string_app. cbn [String.length].
  case Z.ltb_spec; intros Hlt; [simpl; lia|].
  destruct n as [|[|n]]; [lia|simpl in *; lia|].
  rewrite pow10_succ in Hz.
  assert (String.length (digits fuel (z / 10)) ≤ S n)%nat; [|lia].
  apply IH; [lia|]. split; [apply Z.div_pos; lia|apply Z.div_lt_upper_bound; lia].
Qed.

Lemma substring_prefix n s : (String.length s ≤ n)%nat → String.substring 0 n s = s.
Proof.
  revert n. induction s as [|c s IH]; intros [|n] H; simpl in *; [done..|lia|].
  f_equal. apply IH. lia.
Qed.

Lemma snprintf_fits size s : (String.length s < size)%nat → snprintf size s = s.
Proof. intros. apply substring_prefix. lia. Qed.

Lemma dec_inj z z' : 0 ≤ z < 10 ^ 20 → 0 ≤ z' < 10 ^ 20 → dec z = dec z' → z = z'.
Proof.
  intros Hz Hz'. unfold dec. rewrite !(proj2 (Z.ltb_ge _ _)) by lia.
  apply digits_inj; done.
Qed.

Lemma length_dec n z :
  (0 < n)%nat → 0 ≤ z < 10 ^ Z.of_nat n → (String.length (dec z) ≤ n)%nat.
Proof. intros. unfold dec. rewrite (proj2 (Z.ltb_ge _ _)) by lia. by apply length_digits. Qed.

(** ** Fixed-width fields *)

Lemma length_fill c n s : String.length (fill c n s) = (n + String.length s)%nat.
Proof. induction n as [|n IH]; simpl; [done|]. by rewrite IH. Qed.

Lemma parse_fill_zero n s : parse (fill "0"%char n s) 0 = parse s 0.
Proof. by induction n. Qed.

(** A number of at most [w] digits is printed with [w] characters by [%0<w>d]. *)
Lemma dec_zero_field w z :
  (0 < w ≤ max_digits)%nat → 0 ≤ z < 10 ^ Z.of_nat w →
  String.length (dec_zero w z) = w ∧ parse (dec_zero w z) 0 = z.
Proof.
  intros Hw Hz. unfold dec_zero. rewrite (proj2 (Z.ltb_ge _ _)) by lia.
  pose proof (length_digits max_digits w z ltac:(lia) Hz).
  rewrite length_fill, parse_fill_zero. split; [lia|]. apply parse_digits.
  assert (10 ^ Z.of_nat w ≤ 10 ^ Z.of_nat max_digits); [|lia]. apply Z.pow_le_mono_r; lia.
Qed.

Lemma length_digits_ge fuel n z :
  10 ^ Z.of_nat n ≤ z < 10 ^ Z.of_nat fuel → (n < String.length (digits fuel z))%nat.
Proof.
  revert n z. induction fuel as [|fuel IH]; intros n z Hz.
  { pose proof (Z.pow_pos_nonneg 10 (Z.of_nat n)). simpl in *. lia. }
  rewrite digits_step, length_string_app. cbn [String.length].
  destruct n as [|n]; [lia|]. rewrite !pow10_succ in Hz.
  pose proof (Z.pow_pos_nonneg 10 (Z.of_nat n)).
  rewrite (proj2 (Z.ltb_ge _ _)) by lia.
  assert (n < String.length (digits fuel (z / 10)))%nat; [|lia].
  apply IH. split; [apply Z.div_le_lower_bound; lia|apply Z.div_lt_upper_bound; lia].
Qed.

(** A number of [w] digits is printed with [w] characters by [%<w>d]. *)
Lemma dec_pad_field w z :
  (S w ≤ max_digits)%nat → 10 ^ Z.of_nat w ≤ z < 10 ^ Z.of_nat (S w) →
  String.length (dec_pad (S w) z) = S w ∧ parse (dec_pad (S w) z) 0 = z.
Proof.
  intros Hw Hz. pose proof (Z.pow_pos_nonneg 10 (Z.of_nat w)).
  assert (10 ^ Z.of_nat (S w) ≤ 10 ^ Z.of_nat max_digits) by (apply Z.pow_le_mono_r; lia).
  unfold dec_pad, dec. rewrite (proj2 (Z.ltb_ge _ _)) by lia.
  pose proof (length_digits max_digits (S w) z ltac:(lia) ltac:(lia)).
  pose proof (length_digits_ge max_digits w z ltac:(lia)).
  replace (S w - _)%nat with 0%nat by lia. split; [cbn [fill]; lia|]. apply parse_digits. lia.
Qed.

(** Reading the [len] characters at [pos] as a number. *)
Definition field (pos len : nat) (s : string) : Z := parse (String.substring pos len s) 0.

Lemma substring_app_r (s s' : string) n len :
  String.substring (String.length s + n) len (s +:+ s') = String.substring n len s'.
Proof. by induction s. Qed.

Lemma substring_app_l (s s' : string) : String.substring 0 (String.length s) (s +:+ s') = s.
Proof.
  induction s as [|c s IH]; simpl; [|by rewrite IH]. by destruct s'.
Qed.

(** The field after a prefix, and the one at the front. *)
Lemma field_skip pos n len s s' :
  String.length s = n → (n ≤ pos)%nat → field pos len (s +:+ s') = field (pos - n) len s'.
Proof.
  intros <- Hpos. unfold field. replace pos with (String.length s + (pos - String.length s))%nat at 1
    by lia. by rewrite substring_app_r.
Qed.

Lemma field_front len s s' :
  String.length s = len → field 0 len (s +:+ s') = parse s 0.
Proof. intros <-. unfold field. by rewrite substring_app_l. Qed.

End Format.
