(* ===== verification/FixedBuffer.v ===== *)
(** * The fixed log buffer (src/src/include/log_stream.h)

    [FixedBuffer<SIZE>] is a character array with a write position; text that
    does not fit is dropped whole. *)

From Stdlib Require Import Ascii.
From S2P Require Import Prelude.

Module FixedBuffer.

Definition kSmallBuffer : Z := 4000.
Definition kLargeBuffer : Z := 4000 * 1000.

(** [cur_] is the offset of the pointer into [data_], an array of [SIZE]
    characters. *)
Record FixedBuffer : Type := mkFixedBuffer { data_ : list byte; cur_ : Z }.

(** The constructor leaves the array as it finds it. *)
Definition FixedBuffer_ctor (garbage : list byte) : FixedBuffer := mkFixedBuffer garbage 0.

(** [static_cast<int>] of a pointer difference *)
Definition length (b : FixedBuffer) : Z := wrap_signed 32 (cur_ b).
Definition avail (b : FixedBuffer) : Z := wrap_signed 32 (zlen (data_ b) - cur_ b).

Definition data (b : FixedBuffer) : list byte := data_ b.
Definition current (b : FixedBuffer) : Z := cur_ b.

Definition add (len : Z) (b : FixedBuffer) : FixedBuffer :=
  mkFixedBuffer (data_ b) (cur_ b + len).

Definition reset (b : FixedBuffer) : FixedBuffer := mkFixedBuffer (data_ b) 0.

Definition bzero (b : FixedBuffer) : FixedBuffer :=
  mkFixedBuffer (replicate (Datatypes.length (data_ b)) x00) (cur_ b).

(** [append(const char* buf, size_t len)]: the comparison is of [int]s. *)
Definition append (buf : list byte) (len : Z) (b : FixedBuffer) : result FixedBuffer :=
  if wrap_signed 32 len <? avail b then
    d ← read_range 0 len buf;
    data' ← write_range (cur_ b) d (data_ b);
    mret (add len (mkFixedBuffer data' (cur_ b)))
  else mret b.

(** ** What the buffer holds *)

Record wf (b : FixedBuffer) : Prop := {
  wf_cur : 0 ≤ cur_ b < zlen (data_ b);
  wf_size : zlen (data_ b) < 2 ^ 31
}.

Definition contents (b : FixedBuffer) : list byte := slice 0 (cur_ b) (data_ b).

Lemma ctor_wf garbage :
  0 < zlen garbage < 2 ^ 31 →
  wf (FixedBuffer_ctor garbage) ∧ contents (FixedBuffer_ctor garbage) = [].
Proof. intros. split; [by constructor; simpl; lia|]. by apply slice_empty. Qed.

Lemma avail_wf b : wf b → avail b = zlen (data_ b) - cur_ b.
Proof. intros []. apply wrap_signed_small; lia. Qed.

Lemma zlen_contents b : wf b → zlen (contents b) = cur_ b.
Proof. intros []. unfold contents. rewrite zlen_slice by lia. lia. Qed.

Lemma append_fits buf b :
  wf b → cur_ b + zlen buf < zlen (data_ b) →
  ∃ b', append buf (zlen buf) b = Ok b' ∧ wf b' ∧ zlen (data_ b') = zlen (data_ b) ∧
        contents b' = contents b ++ buf.
Proof.
  intros Hwf Hfit. pose proof (zlen_nonneg buf). pose proof Hwf as [].
  unfold append. rewrite avail_wf, wrap_signed_small, (proj2 (Z.ltb_lt _ _)) by (done || lia).
  rewrite read_range_ok, bind_ok by lia.
  assert (slice 0 (zlen buf) buf = buf) as ->.
  { unfold slice. rewrite Z.sub_0_r. simpl. apply take_ge. unfold zlen. lia. }
  rewrite write_range_ok, bind_ok by lia.
  set (data' := take _ _ ++ _).
  assert (zlen data' = zlen (data_ b)) as Hlen.
  { unfold data'. rewrite !zlen_app, zlen_take, zlen_drop by lia. lia. }
  eexists. split; [done|]. split; [|split; [done|]].
  - constructor; simpl; lia.
  - unfold contents. simpl. rewrite (slice_split 0 (cur_ b)) by lia. f_equal.
    + unfold data'. rewrite slice_app_l by (rewrite ?zlen_take; lia). by rewrite slice_take by lia.
    + unfold data'. apply slice_app_mid; rewrite zlen_take by lia; lia.
Qed.

Lemma append_dropped buf b :
  wf b → zlen buf < 2 ^ 31 → zlen (data_ b) ≤ cur_ b + zlen buf → append buf (zlen buf) b = Ok b.
Proof.
  intros Hwf Hlen Hfit. pose proof (zlen_nonneg buf). unfold append.
  by rewrite avail_wf, wrap_signed_small, (proj2 (Z.ltb_ge _ _)) by (done || lia).
Qed.

End FixedBuffer.
