(* ===== verification/LogStream.v ===== *)
(** * The log stream (src/src/include/log_stream.h)

    [LogStream] writes texts into a [FixedBuffer] of [kSmallBuffer] characters.  The
    operators that the header declares without a body are not modelled. *)

From Stdlib Require Import Ascii.
From S2P Require Import Prelude FixedBuffer.

Module LogStream.

(** The operators with a body: [bool], [char], C strings (null or not), and
    strings; a C string is its characters before the terminator. *)
Inductive piece : Type :=
  | PBool (v : bool)
  | PChar (v : byte)
  | PCString (str : option (list byte))
  | PString (v : list byte).

Definition null_text : list byte := [x28; x6e; x75; x6c; x6c; x29].

(** The characters an operator appends. *)
Definition text (p : piece) : list byte :=
  match p with
  | PBool v => if v then [x31] else [x30]
  | PChar v => [v]
  | PCString None => null_text
  | PCString (Some str) => str
  | PString v => v
  end.

(** [operator<<]; each ends with [return *this]. *)
Definition put (p : piece) (buffer_ : FixedBuffer.FixedBuffer) : result FixedBuffer.FixedBuffer :=
  match p with
  | PBool v => FixedBuffer.append (if v then [x31] else [x30]) 1 buffer_
  | PChar v => FixedBuffer.append [v] 1 buffer_
  | PCString None => FixedBuffer.append null_text 6 buffer_
  | PCString (Some str) => FixedBuffer.append str (zlen str) buffer_
  | PString v => FixedBuffer.append v (zlen v) buffer_
  end.

(** [append(const char* data, int len)]: the length converts to [size_t]. *)
Definition append (data : list byte) (len : Z) (buffer_ : FixedBuffer.FixedBuffer)
    : result FixedBuffer.FixedBuffer :=
  FixedBuffer.append data (u64 len) buffer_.

Definition resetBuffer : FixedBuffer.FixedBuffer → FixedBuffer.FixedBuffer := FixedBuffer.reset.

Fixpoint put_all (ps : list piece) (b : FixedBuffer.FixedBuffer) : result FixedBuffer.FixedBuffer :=
  match ps with
  | [] => mret b
  | p :: ps => b' ← put p b; put_all ps b'
  end.

(** The specification: a line of fewer than [size] characters, where a text
    that does not fit leaves the line as it is. *)
Definition log_step (size : Z) (line : list byte) (p : piece) : list byte :=
  if zlen line + zlen (text p) <? size then line ++ text p else line.

Lemma put_append p b : put p b = FixedBuffer.append (text p) (zlen (text p)) b.
Proof. by destruct p as [[]| |[]|]. Qed.

Lemma put_step p b :
  FixedBuffer.wf b → zlen (text p) < 2 ^ 31 →
  ∃ b', put p b = Ok b' ∧ FixedBuffer.wf b' ∧
    zlen (FixedBuffer.data_ b') = zlen (FixedBuffer.data_ b) ∧
    FixedBuffer.contents b' = log_step (zlen (FixedBuffer.data_ b)) (FixedBuffer.contents b) p.
Proof.
  intros Hwf Hlen. rewrite put_append. unfold log_step.
  rewrite FixedBuffer.zlen_contents by done. case Z.ltb_spec; intros Hfit.
  - by apply FixedBuffer.append_fits.
  - exists b. split; [by apply FixedBuffer.append_dropped|done].
Qed.

Lemma put_all_steps ps b :
  FixedBuffer.wf b → Forall (λ p, zlen (text p) < 2 ^ 31) ps →
  ∃ b', put_all ps b = Ok b' ∧ FixedBuffer.wf b' ∧
    zlen (FixedBuffer.data_ b') = zlen (FixedBuffer.data_ b) ∧
    FixedBuffer.contents b' =
      foldl (log_step (zlen (FixedBuffer.data_ b))) (FixedBuffer.contents b) ps.
Proof.
  intros Hwf Hps. revert b Hwf. induction Hps as [|p ps Hp _ IH]; intros b Hwf; simpl.
  { exists b. done. }
  destruct (put_step p b Hwf Hp) as (b1 & -> & Hwf1 & Hlen1 & Hc1). simpl.
  destruct (IH b1 Hwf1) as (b2 & Hrun & Hwf2 & Hlen2 & Hc2).
  exists b2. split; [done|]. split; [done|]. split; [congruence|].
  by rewrite Hc2, Hc1, Hlen1.
Qed.

(** A text of 2^31 to 2^32 - 1 characters is not dropped: its length
    converts to a negative [int], which is below what is free, and [memcpy] runs
    past the array. *)
Lemma huge_text_overflows buf len b :
  FixedBuffer.wf b → 2 ^ 31 ≤ len < 2 ^ 32 → len ≤ zlen buf →
  FixedBuffer.append buf len b = Fault OutOfBounds.
Proof.
  intros Hwf Hlen Hbuf. pose proof Hwf as []. unfold FixedBuffer.append.
  assert (wrap_signed 32 len = len - 2 ^ 32) as Hw.
  { unfold wrap_signed. replace (len + 2 ^ (32 - 1)) with (len - 2 ^ 31 + 1 * 2 ^ 32) by lia.
    rewrite Z.mod_add, Z.mod_small by lia. lia. }
  rewrite Hw, FixedBuffer.avail_wf, (proj2 (Z.ltb_lt _ _)) by (done || lia).
  rewrite read_range_ok, bind_ok by lia. unfold write_range.
  rewrite zlen_slice by lia. by rewrite (proj2 (Z.leb_gt _ (zlen _))), andb_false_r by lia.
Qed.

Lemma put_all_overflows ps b :
  FixedBuffer.wf b → Forall (λ p, zlen (text p) < 2 ^ 32) ps →
  ¬ Forall (λ p, zlen (text p) < 2 ^ 31) ps → put_all ps b = Fault OutOfBounds.
Proof.
  intros Hwf Hps Hbig. revert b Hwf. induction Hps as [|p ps Hp Hps IH]; intros b Hwf; simpl.
  { by destruct Hbig. }
  destruct (Z.lt_ge_cases (zlen (text p)) (2 ^ 31)) as [Hlt|Hge].
  - destruct (put_step p b Hwf Hlt) as (b1 & -> & Hwf1 & _). apply IH; [|done].
    contradict Hbig. by constructor.
  - by rewrite put_append, huge_text_overflows by (done || lia).
Qed.

(** C34: what is streamed into a log buffer, texts shorter than 2^32 characters.  If all are
    shorter than 2^31, no write leaves the array: each text is appended whole or, when fewer than
    one more than its characters are free, dropped whole, so that the content is the line the
    specification computes and always shorter than the array.  A text of 2^31 characters or
    more is not dropped: its length converts to a negative [int], and [memcpy] runs past the
    array. *)
Theorem log_lines_bounded ps garbage :
  0 < zlen garbage < 2 ^ 31 → Forall (λ p, zlen (text p) < 2 ^ 32) ps →
  if decide (Forall (λ p, zlen (text p) < 2 ^ 31) ps) then
    ∃ b, put_all ps (FixedBuffer.FixedBuffer_ctor garbage) = Ok b ∧
      FixedBuffer.contents b = foldl (log_step (zlen garbage)) [] ps ∧
      FixedBuffer.length b = zlen (FixedBuffer.contents b) ∧
      zlen (FixedBuffer.contents b) < zlen garbage
  else put_all ps (FixedBuffer.FixedBuffer_ctor garbage) = Fault OutOfBounds.
Proof.
  intros Hg Hps. destruct (FixedBuffer.ctor_wf garbage Hg) as [Hwf Hc].
  case_decide as Hsmall; [|by apply put_all_overflows].
  destruct (put_all_steps ps _ Hwf Hsmall) as (b & Hrun & Hwf' & Hlen & Hc').
  exists b. rewrite Hc' at 1. rewrite Hc. simpl in Hlen |- *.
  split; [done|]. split; [done|]. rewrite FixedBuffer.zlen_contents by done.
  pose proof Hwf' as [Hcur Hsz]. rewrite Hlen in *. split; [|lia].
  apply wrap_signed_small; lia.
Qed.

Definition sample_pieces : list piece := [PBool true; PString [x61; x62; x63]; PCString None; PChar x7a].

(** In eight characters, and with a text of 2^31 characters behind *)
Lemma log_lines_bounded_witness :
  (∃ b, put_all sample_pieces (FixedBuffer.FixedBuffer_ctor (replicate 8 x00)) = Ok b ∧
    FixedBuffer.contents b = [x31; x61; x62; x63; x7a]) ∧
  ∃ huge, zlen huge = 2 ^ 31 ∧
    put_all [PBool true; PString huge] (FixedBuffer.FixedBuffer_ctor (replicate 8 x00)) =
      Fault OutOfBounds.
Proof.
  split.
  - pose proof (log_lines_bounded sample_pieces (replicate 8 x00)) as H.
    rewrite decide_True in H by (repeat constructor).
    destruct H as (b & Hrun & Hc & _); [vm_compute; done|repeat constructor|].
    exists b. split; [exact Hrun|exact Hc].
  - assert (∀ huge, zlen huge = 2 ^ 31 →
      put_all [PBool true; PString huge] (FixedBuffer.FixedBuffer_ctor (replicate 8 x00)) =
        Fault OutOfBounds) as Hhuge.
    { intros huge Hlen. pose proof (log_lines_bounded [PBool true; PString huge] (replicate 8 x00)) as H.
      rewrite decide_False in H.
      - apply H; [vm_compute; done|].
        apply Forall_cons_2; [done|]. apply Forall_cons_2; [|apply Forall_nil_2].
        cbn [text]. rewrite Hlen. lia.
      - intros [_ [Hlt _]%Forall_cons]%Forall_cons. cbn [text] in Hlt. lia. }
    exists (replicate (Z.to_nat (2 ^ 31)) x61).
    assert (zlen (replicate (Z.to_nat (2 ^ 31)) x61) = 2 ^ 31) as Hlen by (apply zlen_replicate; lia).
    split; [exact Hlen|exact (Hhuge _ Hlen)].
Defined.

End LogStream.
