(* ===== verification/CountDownLatch.v ===== *)
(** * The count-down latch (src/src/include/countdown_latch.h,
      src/src/count_down_latch.cpp)

    Several threads share a latch; each of them calls [wait] or [countDown]
    once.  A step is one action of one thread, chosen by a scheduler: a lock, a
    test, a blocking wait, a decrement, a notification, an unlock.  [step] is
    executable, and the theorems are about all schedules. *)

From S2P Require Import Prelude.

Module CountDownLatch.

(** Where a thread stands.  In [wait]: before the lock, at the test of the
    [while], blocked in [cv_.wait] with the mutex released, woken up and about to
    lock again, leaving the loop, returned.  In [countDown]: before the lock, at
    the decrement, at the notification, before the unlock, returned. *)
Inductive pc : Type :=
  | WLock | WTest | WBlocked | WRelock | WUnlock | WDone
  | CLock | CDec | CNotify | CUnlock | CDone.

#[export] Instance pc_eq_dec : EqDecision pc.
Proof. solve_decision. Defined.

(** The members of the latch and the threads; [mutex_] is the thread holding it. *)
Record latch : Type := mkLatch { count_ : Z; mutex_ : option nat; threads : list pc }.

(** [cv_.notify_all] *)
Definition notify_all (l : list pc) : list pc :=
  (λ c, if decide (c = WBlocked) then WRelock else c) <$> l.

Definition at_pc (i : nat) (c : pc) (s : latch) : latch :=
  mkLatch (count_ s) (mutex_ s) (<[i := c]> (threads s)).

(** Locking is possible when the mutex is free. *)
Definition locking (i : nat) (c : pc) (s : latch) : option latch :=
  match mutex_ s with
  | None => Some (mkLatch (count_ s) (Some i) (<[i := c]> (threads s)))
  | Some _ => None
  end.

(** [CountDownLatch::wait] *)
Definition wait_step (i : nat) (c : pc) (s : latch) : option latch :=
  match c with
  | WLock => locking i WTest s
  | WTest =>
      if 0 <? count_ s
      then Some (mkLatch (count_ s) None (<[i := WBlocked]> (threads s)))
      else Some (at_pc i WUnlock s)
  | WRelock => locking i WTest s
  | WUnlock => Some (mkLatch (count_ s) None (<[i := WDone]> (threads s)))
  | _ => None
  end.

(** [CountDownLatch::countDown] *)
Definition countDown_step (i : nat) (c : pc) (s : latch) : option latch :=
  match c with
  | CLock => locking i CDec s
  | CDec =>
      let count := count_ s - 1 in
      Some (mkLatch count (mutex_ s)
              (<[i := if count =? 0 then CNotify else CUnlock]> (threads s)))
  | CNotify => Some (mkLatch (count_ s) (mutex_ s) (<[i := CUnlock]> (notify_all (threads s))))
  | CUnlock => Some (mkLatch (count_ s) None (<[i := CDone]> (threads s)))
  | _ => None
  end.

(** One step of the thread [i], when it can go on. *)
Definition thread_step (i : nat) (s : latch) : option latch :=
  match threads s !! i with
  | None => None
  | Some c =>
      match wait_step i c s with
      | Some s' => Some s'
      | None => countDown_step i c s
      end
  end.

(** A blocked thread may also wake up spuriously. *)
Definition spurious (i : nat) (s : latch) : option latch :=
  match threads s !! i with
  | Some WBlocked => Some (at_pc i WRelock s)
  | _ => None
  end.

Inductive action : Type := Run (i : nat) | Spurious (i : nat).

Definition step (a : action) (s : latch) : option latch :=
  match a with Run i => thread_step i s | Spurious i => spurious i s end.

(** The actions of a schedule. *)
Fixpoint run (sched : list action) (s : latch) : option latch :=
  match sched with
  | [] => Some s
  | a :: sched => s' ← step a s; run sched s'
  end.

(** [CountDownLatch(n)] with [waiters] threads that wait and [counters] threads
    that count down. *)
Definition init (n : Z) (waiters counters : nat) : latch :=
  mkLatch n None (replicate waiters WLock ++ replicate counters CLock).

(** ** The invariant *)

Definition holds (c : pc) : bool :=
  match c with WTest | WUnlock | CDec | CNotify | CUnlock => true | _ => false end.

(** The thread has decremented. *)
Definition counted (c : pc) : bool :=
  match c with CNotify | CUnlock | CDone => true | _ => false end.

Definition is_counter (c : pc) : bool :=
  match c with CLock | CDec | CNotify | CUnlock | CDone => true | _ => false end.

Definition tally (f : pc → bool) (l : list pc) : Z := zlen (filter (λ c, f c = true) l).

Record ok (n : Z) (counters : nat) (s : latch) : Prop := {
  ok_holder i : mutex_ s = Some i ↔ ∃ c, threads s !! i = Some c ∧ holds c = true;
  ok_count : count_ s = n - tally counted (threads s);
  ok_counters : tally is_counter (threads s) = Z.of_nat counters;
  ok_passed i c : threads s !! i = Some c → c = WUnlock ∨ c = WDone → count_ s ≤ 0;
  ok_notify i : threads s !! i = Some CNotify → count_ s = 0;
  ok_blocked i : threads s !! i = Some WBlocked →
    0 < count_ s ∨ ∃ j, threads s !! j = Some CNotify
}.

Lemma tally_insert f i c c' l :
  l !! i = Some c → tally f (<[i := c']> l) =
    tally f l - (if f c then 1 else 0) + (if f c' then 1 else 0).
Proof.
  revert i. induction l as [|x l IH]; intros [|i] Hi; simplify_eq/=.
  - unfold tally. rewrite !filter_cons. destruct (f c), (f c'); simpl;
      unfold zlen; simpl; lia.
  - unfold tally in *. rewrite !filter_cons. specialize (IH i Hi).
    destruct (f x); simpl; unfold zlen in *; simpl in *; lia.
Qed.

Lemma lookup_notify_all i l :
  notify_all l !! i = (λ c, if decide (c = WBlocked) then WRelock else c) <$> l !! i.
Proof. apply list_lookup_fmap. Qed.

Lemma tally_notify_all f l :
  f WBlocked = f WRelock → tally f (notify_all l) = tally f l.
Proof.
  intros Hf. unfold tally. induction l as [|c l IH]; [done|]. simpl. rewrite !filter_cons.
  destruct (decide (c = WBlocked)) as [->|Hc]; [rewrite Hf|].
  - destruct (f WRelock); simpl; unfold zlen in *; simpl; lia.
  - destruct (f c); simpl; unfold zlen in *; simpl; lia.
Qed.

(** In a state with the invariant, the steps of the holder are those of the
    thread in the mutex. *)
Lemma ok_holding n c s i x :
  ok n c s → threads s !! i = Some x → holds x = true → mutex_ s = Some i.
Proof. intros Hok Hi Hx. apply (ok_holder _ _ _ Hok). eauto. Qed.

Lemma ok_free n c s i x :
  ok n c s → mutex_ s = None → threads s !! i = Some x → holds x = false.
Proof.
  intros Hok Hm Hi. destruct (holds x) eqn:Hx; [|done].
  by rewrite (ok_holding _ _ _ _ _ Hok Hi Hx) in Hm.
Qed.

Lemma lookup_inserted (l : list pc) i j c c' x :
  l !! i = Some c → <[i := c']> l !! j = Some x → (j = i ∧ x = c') ∨ (j ≠ i ∧ l !! j = Some x).
Proof.
  intros Hi Hj. destruct (decide (j = i)) as [->|Hne].
  - left. rewrite list_lookup_insert_eq in Hj by (by eapply lookup_lt_Some). by simplify_eq.
  - right. by rewrite list_lookup_insert_ne in Hj.
Qed.

Lemma lookup_inserted_same (l : list pc) i c c' : l !! i = Some c → <[i := c']> l !! i = Some c'.
Proof. intros. apply list_lookup_insert_eq. by eapply lookup_lt_Some. Qed.

(** The mutex after thread [i] went from [c] to [c'] and [m] is the mutex. *)
Lemma holder_moved n k s i c c' m :
  ok n k s → threads s !! i = Some c →
  (mutex_ s = None ∨ mutex_ s = Some i) →
  m = (if holds c' then Some i else None) →
  ∀ j, m = Some j ↔ ∃ x, <[i := c']> (threads s) !! j = Some x ∧ holds x = true.
Proof.
  intros Hok Hi Hm -> j. pose proof (ok_holder _ _ _ Hok) as Hh. split.
  - destruct (holds c') eqn:Hc'; [|done]. intros [= <-]. exists c'.
    split; [by eapply lookup_inserted_same|done].
  - intros (x & Hx & Hhx). destruct (lookup_inserted _ _ _ _ _ _ Hi Hx) as [[-> ->]|[Hne Hj]].
    + by rewrite Hhx.
    + assert (mutex_ s = Some j) as Hmj by (apply Hh; eauto). destruct Hm; congruence.
Qed.

(** A step that moves thread [i] from [c] to [c'], changes the mutex to [m] and
    leaves the count. *)
Lemma ok_moved n k s i c c' m :
  ok n k s → threads s !! i = Some c →
  (mutex_ s = None ∨ mutex_ s = Some i) → m = (if holds c' then Some i else None) →
  is_counter c' = is_counter c → counted c' = counted c → c ≠ CNotify → c' ≠ CNotify →
  (c' = WUnlock ∨ c' = WDone → count_ s ≤ 0) →
  (c' = WBlocked → 0 < count_ s) →
  ok n k (mkLatch (count_ s) m (<[i := c']> (threads s))).
Proof.
  intros Hok Hi Hm Hm' Hrole Hcnt Hcn Hcn' Hpass Hblock. pose proof Hok as [Hh Hc Hr Hp Hn Hb].
  constructor; simpl.
  - by eapply holder_moved.
  - rewrite (tally_insert _ _ c) by done. rewrite Hcnt. lia.
  - rewrite (tally_insert _ _ c) by done. rewrite Hrole. lia.
  - intros j x Hx Hxp. destruct (lookup_inserted _ _ _ _ _ _ Hi Hx) as [[-> ->]|[_ Hj]]; eauto.
  - intros j Hj. destruct (lookup_inserted _ _ _ _ _ _ Hi Hj) as [[_ Heq]|[_ Hj']];
      [congruence|eauto].
  - intros j Hj. destruct (lookup_inserted _ _ _ _ _ _ Hi Hj) as [[_ Heq]|[_ Hj']]; [left; auto|].
    destruct (Hb j Hj') as [|(j' & Hj2)]; [by left|]. right. exists j'.
    rewrite list_lookup_insert_ne; [done|]. intros <-. congruence.
Qed.

(** Only the holder of the mutex can stand at a notification. *)
Lemma notify_holder n k s i j x :
  ok n k s → threads s !! i = Some x → holds x = true → threads s !! j = Some CNotify → j = i.
Proof.
  intros Hok Hi Hx Hj. pose proof (ok_holding _ _ _ _ _ Hok Hi Hx) as Hm.
  by rewrite (ok_holding _ _ _ _ _ Hok Hj eq_refl) in Hm; simplify_eq.
Qed.

Lemma ok_dec n k s i :
  ok n k s → threads s !! i = Some CDec →
  ok n k (mkLatch (count_ s - 1) (mutex_ s)
              (<[i := if count_ s - 1 =? 0 then CNotify else CUnlock]> (threads s))).
Proof.
  intros Hok Hi. pose proof Hok as [Hh Hc Hr Hp Hn Hb].
  pose proof (ok_holding _ _ _ _ _ Hok Hi eq_refl) as Hm.
  set (c' := if count_ s - 1 =? 0 then CNotify else CUnlock).
  assert (holds c' = true ∧ is_counter c' = true ∧ counted c' = true) as (Hc1 & Hc2 & Hc3).
  { unfold c'. by case Z.eqb. }
  constructor; simpl.
  - eapply holder_moved; [done..|by right|by rewrite Hc1].
  - rewrite (tally_insert _ _ CDec) by done. rewrite Hc3. simpl. lia.
  - rewrite (tally_insert _ _ CDec) by done. rewrite Hc2. simpl. lia.
  - intros j x Hx Hxp. destruct (lookup_inserted _ _ _ _ _ _ Hi Hx) as [[-> ->]|[_ Hj]].
    + unfold c' in Hxp. destruct (_ =? 0); by destruct Hxp as [?|?].
    + specialize (Hp j x Hj Hxp). lia.
  - intros j Hj. destruct (lookup_inserted _ _ _ _ _ _ Hi Hj) as [[_ Heq]|[Hne Hj']].
    + unfold c' in Heq. revert Heq. by case Z.eqb_spec.
    + by rewrite (notify_holder _ _ _ _ _ _ Hok Hi eq_refl Hj') in Hne.
  - intros j Hj. destruct (lookup_inserted _ _ _ _ _ _ Hi Hj) as [[_ Heq]|[Hne Hj']].
    + unfold c' in Heq. by destruct (_ =? 0).
    + destruct (Hb j Hj') as [Hpos|(j' & Hj2)].
      * destruct (Z.eqb_spec (count_ s - 1) 0) as [Hz|Hz]; [right|left; lia].
        exists i. unfold c'. by eapply lookup_inserted_same.
      * pose proof (notify_holder _ _ _ _ _ _ Hok Hi eq_refl Hj2). simplify_eq.
Qed.

Lemma ok_notified n k s i :
  ok n k s → threads s !! i = Some CNotify →
  ok n k (mkLatch (count_ s) (mutex_ s) (<[i := CUnlock]> (notify_all (threads s)))).
Proof.
  intros Hok Hi. pose proof Hok as [Hh Hc Hr Hp Hn Hb].
  pose proof (ok_holding _ _ _ _ _ Hok Hi eq_refl) as Hm. pose proof (Hn i Hi) as Hzero.
  assert (notify_all (threads s) !! i = Some CNotify) as Hi' by by rewrite lookup_notify_all, Hi.
  assert (∀ j x, <[i := CUnlock]> (notify_all (threads s)) !! j = Some x →
    (j = i ∧ x = CUnlock) ∨ (j ≠ i ∧ x = WRelock ∧ threads s !! j = Some WBlocked) ∨
    (j ≠ i ∧ x ≠ WBlocked ∧ threads s !! j = Some x)) as Hinv.
  { intros j x Hx. destruct (lookup_inserted _ _ _ _ _ _ Hi' Hx) as [?|[Hne Hj]]; [by left|right].
    rewrite lookup_notify_all in Hj. destruct (threads s !! j) as [y|]; [|done]. simpl in Hj.
    destruct (decide (y = WBlocked)); simplify_eq; [by left|by right]. }
  constructor; simpl.
  - intros j. rewrite Hm. split.
    + intros [= <-]. exists CUnlock. split; [by eapply lookup_inserted_same|done].
    + intros (x & Hx & Hhx). destruct (Hinv _ _ Hx) as [[-> ->]|[(_ & -> & _)|(Hne & _ & Hj)]];
        [done..|]. rewrite <- Hm. apply Hh. eauto.
  - rewrite (tally_insert _ _ CNotify), tally_notify_all by done. simpl. lia.
  - rewrite (tally_insert _ _ CNotify), tally_notify_all by done. simpl. lia.
  - intros. lia.
  - intros j Hj. done.
  - intros j Hj. destruct (Hinv _ _ Hj) as [[_ ?]|[(_ & ? & _)|(_ & ? & _)]]; done.
Qed.

(** Closes a step that is a [move] of one thread. *)
Ltac moved Hok Hi :=
  eapply ok_moved; [exact Hok|exact Hi|auto|try done|done|done|done|done| |];
  intros; try done; repeat (match goal with H : _ ∨ _ |- _ => destruct H end; try done); try lia.

(** Every step keeps the invariant. *)
Lemma ok_thread_step n k i s s' : ok n k s → thread_step i s = Some s' → ok n k s'.
Proof.
  intros Hok Hstep. unfold thread_step in Hstep. destruct (threads s !! i) as [c|] eqn:Hi; [|done].
  assert (holds c = true → mutex_ s = Some i) as Hm by by eapply ok_holding.
  pose proof (λ H, ok_passed _ _ _ Hok i c Hi H) as Hp.
  destruct c; simpl in Hstep; unfold locking in Hstep; try done.
  - destruct (mutex_ s) eqn:Hmu; simplify_eq. moved Hok Hi.
  - destruct (Z.ltb_spec 0 (count_ s)); simplify_eq.
    + moved Hok Hi.
    + unfold at_pc. rewrite Hm by done. moved Hok Hi.
  - destruct (mutex_ s) eqn:Hmu; simplify_eq. moved Hok Hi.
  - simplify_eq. moved Hok Hi. auto.
  - destruct (mutex_ s) eqn:Hmu; simplify_eq. moved Hok Hi.
  - simplify_eq. by apply ok_dec.
  - simplify_eq. by apply ok_notified.
  - simplify_eq. moved Hok Hi.
Qed.

Lemma ok_spurious n k i s s' : ok n k s → spurious i s = Some s' → ok n k s'.
Proof.
  intros Hok Hs. unfold spurious in Hs. destruct (threads s !! i) as [c|] eqn:Hi; [|done].
  destruct c; try done. simplify_eq. unfold at_pc. pose proof Hok as [Hh Hc Hr Hp Hn Hb].
  constructor; simpl.
  - intros j. rewrite Hh. split; intros (x & Hx & Hhx).
    + exists x. split; [|done]. rewrite list_lookup_insert_ne; [done|]. intros <-. by simplify_eq.
    + destruct (lookup_inserted _ _ _ _ _ _ Hi Hx) as [[-> ->]|[_ Hj]]; [done|eauto].
  - rewrite (tally_insert _ _ WBlocked) by done. simpl. lia.
  - rewrite (tally_insert _ _ WBlocked) by done. simpl. lia.
  - intros j x Hx Hxp. destruct (lookup_inserted _ _ _ _ _ _ Hi Hx) as [[-> ->]|[_ Hj]]; [|eauto].
    by destruct Hxp.
  - intros j Hj. destruct (lookup_inserted _ _ _ _ _ _ Hi Hj) as [[_ ?]|[_ Hj']]; [done|eauto].
  - intros j Hj. destruct (lookup_inserted _ _ _ _ _ _ Hi Hj) as [[_ ?]|[_ Hj']]; [done|].
    destruct (Hb j Hj') as [|(j' & Hj2)]; [by left|]. right. exists j'.
    rewrite list_lookup_insert_ne; [done|]. intros <-. congruence.
Qed.

Lemma ok_step n k a s s' : ok n k s → step a s = Some s' → ok n k s'.
Proof. destruct a; [apply ok_thread_step|apply ok_spurious]. Qed.

Lemma ok_run n k sched s s' : ok n k s → run sched s = Some s' → ok n k s'.
Proof.
  revert s. induction sched as [|i sched IH]; intros s Hok Hrun; simplify_eq/=; [done|].
  apply bind_Some in Hrun as (s1 & Hs & Hrun). eapply IH; [|done]. by eapply ok_step.
Qed.

Lemma lookup_init w k i c :
  (replicate w WLock ++ replicate k CLock) !! i = Some c →
  (i < w)%nat ∧ c = WLock ∨ (w ≤ i)%nat ∧ c = CLock.
Proof.
  intros [Hl|[Hle Hl]]%lookup_app_Some.
  - apply lookup_replicate in Hl as [-> Hi]. by left.
  - rewrite length_replicate in *. apply lookup_replicate in Hl as [-> Hi]. by right.
Qed.

Lemma tally_replicate f m x :
  tally f (replicate m x) = if f x then Z.of_nat m else 0.
Proof.
  unfold tally. induction m as [|m IH]; [by destruct (f x)|]. simpl. rewrite filter_cons.
  destruct (f x); simpl in *; unfold zlen in *; simpl; lia.
Qed.

Lemma tally_app f l l' : tally f (l ++ l') = tally f l + tally f l'.
Proof. unfold tally. by rewrite filter_app, zlen_app. Qed.

Lemma ok_init n w k : ok n k (init n w k).
Proof.
  constructor; simpl.
  - intros i. split; [done|]. intros (c & [[_ ->]|[_ ->]]%lookup_init & Hc); done.
  - rewrite tally_app, !tally_replicate. simpl. lia.
  - rewrite tally_app, !tally_replicate. simpl. lia.
  - intros i c [[_ ->]|[_ ->]]%lookup_init [|]; done.
  - intros i [[_ ?]|[_ ?]]%lookup_init; done.
  - intros i [[_ ?]|[_ ?]]%lookup_init; done.
Qed.

(** ** Progress *)

Definition finished (c : pc) : bool := bool_decide (c = WDone) || bool_decide (c = CDone).

Definition blocked (c : pc) : bool := bool_decide (c = WBlocked).

Lemma holder_steps i s c : threads s !! i = Some c → holds c = true → is_Some (thread_step i s).
Proof.
  intros Hi Hc. unfold thread_step. rewrite Hi. destruct c; simpl; try done; [|by eexists..].
  destruct (0 <? count_ s); by eexists.
Qed.

Lemma free_steps i s c :
  mutex_ s = None → threads s !! i = Some c → finished c = false → blocked c = false →
  is_Some (thread_step i s).
Proof.
  intros Hm Hi Hf Hb. destruct (holds c) eqn:Hh; [by eapply holder_steps|].
  unfold thread_step. rewrite Hi. destruct c; simpl in *; try done; unfold locking; rewrite Hm; by eexists.
Qed.

Lemma tally_ext f g l : (∀ c, c ∈ l → f c = g c) → tally f l = tally g l.
Proof.
  unfold tally. induction l as [|c l IH]; intros Hfg; [done|]. rewrite !filter_cons.
  rewrite (Hfg c) by left. specialize (IH (λ c' H, Hfg c' (list_elem_of_further _ _ _ H))).
  destruct (g c); simpl; unfold zlen in *; simpl; lia.
Qed.

Lemma tally_le f g l : (∀ c, f c = true → g c = true) → tally f l ≤ tally g l.
Proof.
  intros Hfg. unfold tally. induction l as [|c l IH]; [done|]. rewrite !filter_cons.
  specialize (Hfg c). destruct (f c); [rewrite Hfg by done|destruct (g c)];
    simpl; unfold zlen in *; simpl; lia.
Qed.

(** The count stays between what it was and what is left when all counters are through. *)
Lemma ok_count_range n k s : ok n k s → n - Z.of_nat k ≤ count_ s ≤ n.
Proof.
  intros Hok. rewrite (ok_count _ _ _ Hok), <- (ok_counters _ _ _ Hok).
  assert (tally counted (threads s) ≤ tally is_counter (threads s)) by (apply tally_le; by intros []).
  assert (0 ≤ tally counted (threads s)) by apply zlen_nonneg. lia.
Qed.

(** In a state where no thread can go on, every counter is through, and a thread that
    waits is through or blocked. *)
Lemma stuck_cases n k s :
  ok n k s → (∀ i, thread_step i s = None) →
  (∀ i c, threads s !! i = Some c → finished c = true ∨ c = WBlocked) ∧
  count_ s = n - Z.of_nat k.
Proof.
  intros Hok Hstuck.
  assert (mutex_ s = None) as Hm.
  { destruct (mutex_ s) as [i|] eqn:Hm; [|done].
    destruct (proj1 (ok_holder _ _ _ Hok i) Hm) as (c & Hi & Hc).
    destruct (holder_steps _ _ _ Hi Hc). by rewrite Hstuck in *. }
  assert (∀ i c, threads s !! i = Some c → finished c = true ∨ c = WBlocked) as Hcases.
  { intros i c Hi. destruct (finished c) eqn:Hf; [by left|]. right.
    destruct (blocked c) eqn:Hb; [by apply bool_decide_eq_true in Hb|].
    destruct (free_steps _ _ _ Hm Hi Hf Hb). by rewrite Hstuck in *. }
  split; [done|]. rewrite (ok_count _ _ _ Hok), <- (ok_counters _ _ _ Hok). f_equal.
  apply tally_ext. intros c [i Hi]%list_elem_of_lookup.
  by destruct (Hcases i c Hi) as [Hf| ->]; [destruct c|].
Qed.

(** With enough counters every call has returned. *)
Lemma stuck_finished n k s :
  ok n k s → n ≤ Z.of_nat k → (∀ i, thread_step i s = None) →
  ∀ i c, threads s !! i = Some c → finished c = true.
Proof.
  intros Hok Hn Hstuck i c Hi. destruct (stuck_cases _ _ _ Hok Hstuck) as [Hcases Hcount].
  destruct (Hcases i c Hi) as [ | -> ]; [done|]. exfalso.
  destruct (ok_blocked _ _ _ Hok i Hi) as [|(j & Hj)]; [lia|].
  by destruct (Hcases j _ Hj).
Qed.

(** With too few, those that wait are blocked. *)
Lemma stuck_blocked n k s :
  ok n k s → Z.of_nat k < n → (∀ i, thread_step i s = None) →
  ∀ i c, threads s !! i = Some c → c = WBlocked ∨ c = CDone.
Proof.
  intros Hok Hn Hstuck i c Hi. destruct (stuck_cases _ _ _ Hok Hstuck) as [Hcases Hcount].
  destruct (Hcases i c Hi) as [Hf| -> ]; [|by left].
  apply orb_true_iff in Hf as [->%bool_decide_eq_true|?%bool_decide_eq_true]; [|by right].
  pose proof (ok_passed _ _ _ Hok i _ Hi (or_intror eq_refl)). lia.
Qed.

(** The steps a thread can still take, given whether the count is positive. *)
Definition left (positive : bool) (c : pc) : nat :=
  match c with
  | WLock => 6 | WTest => if positive then 5 else 2 | WBlocked => 4 | WRelock => if positive then 6 else 3 | WUnlock => 1
  | CLock => 4 | CDec => 3 | CNotify => 2 | CUnlock => 1
  | WDone | CDone => 0
  end%nat.

Definition total_left (s : latch) : nat := sum_list (left (0 <? count_ s) <$> threads s).

Lemma sum_mono (g g' : pc → nat) l :
  (∀ c, (g' c ≤ g c)%nat) → (sum_list (g' <$> l) ≤ sum_list (g <$> l))%nat.
Proof. intros Hg. induction l as [|c l IH]; csimpl; [lia|]. specialize (Hg c). lia. Qed.

Lemma left_mono (b b' : bool) c : (b' = true → b = true) → (left b' c ≤ left b c)%nat.
Proof. intros Hb. destruct c, b, b'; simpl; lia || (exfalso; by specialize (Hb eq_refl)). Qed.

Lemma sum_notify l :
  (sum_list (left false <$> notify_all l) ≤ sum_list (left false <$> l))%nat.
Proof.
  induction l as [|c l IH]; [done|]. unfold notify_all in *. csimpl.
  destruct (decide (c = WBlocked)) as [->|]; simpl; lia.
Qed.

(** Every step of a thread uses up one of the steps left. *)
Lemma step_decreases n k i s s' :
  ok n k s → thread_step i s = Some s' → (total_left s' < total_left s)%nat.
Proof.
  intros Hok Hstep. unfold thread_step in Hstep. destruct (threads s !! i) as [c|] eqn:Hi; [|done].
  pose proof (λ H, ok_passed _ _ _ Hok i c Hi H) as Hp. unfold total_left.
  destruct c; simpl in Hstep; unfold locking in Hstep; try done.
  - destruct (mutex_ s); simplify_eq/=.
    pose proof (sum_list_insert (left (0 <? count_ s)) _ _ _ WTest Hi). simpl in *.
    destruct (0 <? count_ s); lia.
  - destruct (0 <? count_ s) eqn:Hpos; simplify_eq/=; rewrite Hpos.
    + pose proof (sum_list_insert (left true) _ _ _ WBlocked Hi). simpl in *. lia.
    + pose proof (sum_list_insert (left false) _ _ _ WUnlock Hi). simpl in *. lia.
  - destruct (mutex_ s); simplify_eq/=.
    pose proof (sum_list_insert (left (0 <? count_ s)) _ _ _ WTest Hi). simpl in *.
    destruct (0 <? count_ s); lia.
  - simplify_eq/=. pose proof (sum_list_insert (left (0 <? count_ s)) _ _ _ WDone Hi). simpl in *. lia.
  - destruct (mutex_ s); simplify_eq/=.
    pose proof (sum_list_insert (left (0 <? count_ s)) _ _ _ CDec Hi). simpl in *. lia.
  - simplify_eq/=. set (c' := if count_ s - 1 =? 0 then CNotify else CUnlock).
    pose proof (sum_list_insert (left (0 <? count_ s)) _ _ _ c' Hi) as Hsum.
    assert (left (0 <? count_ s)%Z c' ≤ 2)%nat by (unfold c'; case Z.eqb; simpl; lia).
    change (left (0 <? count_ s) CDec) with 3%nat in Hsum.
    assert ((0 <? count_ s - 1) = true → (0 <? count_ s) = true) as Hmono.
    { intros ?%Z.ltb_lt. apply Z.ltb_lt. lia. }
    pose proof (sum_mono (left (0 <? count_ s)) (left (0 <? count_ s - 1)) (<[i:=c']> (threads s))
      (λ c, left_mono _ _ c Hmono)). lia.
  - simplify_eq/=. rewrite (proj2 (Z.ltb_ge _ _)) by by rewrite (ok_notify _ _ _ Hok i Hi).
    assert (notify_all (threads s) !! i = Some CNotify) as Hi' by by rewrite lookup_notify_all, Hi.
    pose proof (sum_list_insert (left false) _ _ _ CUnlock Hi'). simpl in *.
    pose proof (sum_notify (threads s)). lia.
  - simplify_eq/=. pose proof (sum_list_insert (left (0 <? count_ s)) _ _ _ CDone Hi). simpl in *. lia.
Qed.

(** A spurious wake-up gives a thread two more steps. *)
Lemma spurious_increases i s s' :
  spurious i s = Some s' → (total_left s' ≤ total_left s + 2)%nat.
Proof.
  unfold spurious. destruct (threads s !! i) as [c|] eqn:Hi; [|done]. destruct c; try done.
  intros [= <-]. unfold total_left. simpl.
  pose proof (sum_list_insert (left (0 <? count_ s)) _ _ _ WRelock Hi). simpl in *.
  destruct (0 <? count_ s); lia.
Qed.

Definition is_spurious (a : action) : bool := match a with Spurious _ => true | Run _ => false end.

Definition spurious_wakeups (sched : list action) : nat :=
  length (filter (λ a, is_spurious a = true) sched).

Lemma run_bounded n k sched s s' :
  ok n k s → run sched s = Some s' →
  (length sched + total_left s' ≤ total_left s + 3 * spurious_wakeups sched)%nat.
Proof.
  revert s. induction sched as [|a sched IH]; intros s Hok Hrun; simplify_eq/=; [lia|].
  apply bind_Some in Hrun as (s1 & Hs & Hrun).
  specialize (IH s1 (ok_step _ _ _ _ _ Hok Hs) Hrun). unfold spurious_wakeups in *.
  destruct a as [i|i]; simpl in Hs.
  - pose proof (step_decreases _ _ _ _ _ Hok Hs). rewrite filter_cons_False by auto. lia.
  - pose proof (spurious_increases _ _ _ Hs). rewrite filter_cons_True by done. simpl. lia.
Qed.

Lemma total_left_init n w k : (total_left (init n w k) = 6 * w + 4 * k)%nat.
Proof.
  unfold total_left, init. simpl. rewrite fmap_app, !fmap_replicate. simpl.
  rewrite sum_list_with_app, !sum_list_replicate. lia.
Qed.

(** ** Theorems *)

(** C23: no [wait] of a latch of [n] returns before [n] calls of [countDown] have
    decremented it, whatever the schedule of the threads and the spurious wake-ups. *)
Theorem wait_returns_after_countdowns n w k sched s i :
  run sched (init n w k) = Some s → threads s !! i = Some WDone → n ≤ tally counted (threads s).
Proof.
  intros Hrun Hi. pose proof (ok_run _ _ _ _ _ (ok_init n w k) Hrun) as Hok.
  pose proof (ok_count _ _ _ Hok).
  assert (count_ s ≤ 0) by (eapply (ok_passed _ _ _ Hok); eauto). lia.
Qed.

(** C22: of [k] threads that count a latch of [n] down and [w] that wait for it: every
    schedule has at most 6 steps per waiting and 4 per counting thread, and 3 more for
    each spurious wake-up.  When no thread can go on, every call has returned if at least
    [n] threads count down, so that no wake-up is lost; if fewer do, every [countDown]
    has returned and every [wait] is blocked for ever.  The count is never below [n - k]. *)
Theorem all_calls_return n w k sched s :
  run sched (init n w k) = Some s →
  (length sched ≤ 6 * w + 4 * k + 3 * spurious_wakeups sched)%nat ∧
  n - Z.of_nat k ≤ count_ s ≤ n ∧
  ((∀ i, thread_step i s = None) → ∀ i c, threads s !! i = Some c →
   if decide (n ≤ Z.of_nat k) then c = WDone ∨ c = CDone else c = WBlocked ∨ c = CDone).
Proof.
  intros Hrun. pose proof (ok_init n w k) as Hok. pose proof (ok_run _ _ _ _ _ Hok Hrun) as Hend.
  split; [|split; [by apply ok_count_range|]].
  - pose proof (run_bounded _ _ _ _ _ Hok Hrun). rewrite total_left_init in *. lia.
  - intros Hstuck i c Hi. case_decide as Hn; [|eapply stuck_blocked; [done|lia|done..]].
    pose proof (stuck_finished _ _ _ Hend Hn Hstuck i c Hi) as Hf.
    apply orb_true_iff in Hf as [?%bool_decide_eq_true|?%bool_decide_eq_true]; auto.
Qed.

(** A waiter blocks, wakes up spuriously and blocks again, the counter runs to
    its end, the waiter is woken up. *)
Definition sample_sched : list action :=
  [Run 0; Run 0; Spurious 0; Run 0; Run 0; Run 1; Run 1; Run 1; Run 1; Run 0; Run 0; Run 0].

Lemma wait_returns_after_countdowns_witness :
  ∃ s, run sample_sched (init 1 1 1) = Some s ∧ 1 ≤ tally counted (threads s).
Proof.
  eexists. split; [reflexivity|].
  apply (wait_returns_after_countdowns 1 1 1 sample_sched _ 0); reflexivity.
Defined.

(** The same threads with a latch of 2: the waiter is left alone. *)
Definition sample_alone : list action :=
  [Run 0; Run 0; Run 1; Run 1; Run 1; Spurious 0; Run 0; Run 0].

Lemma all_calls_return_witness :
  (∃ s, run sample_sched (init 1 1 1) = Some s ∧ threads s = [WDone; CDone] ∧
    ∀ i c, threads s !! i = Some c → c = WDone ∨ c = CDone) ∧
  ∃ s, run sample_alone (init 2 1 1) = Some s ∧ threads s = [WBlocked; CDone] ∧
    1 ≤ count_ s ≤ 2 ∧ ∀ i c, threads s !! i = Some c → c = WBlocked ∨ c = CDone.
Proof.
  split; (eexists; split; [reflexivity|]; split; [reflexivity|]).
  - apply (all_calls_return 1 1 1 sample_sched _); [reflexivity|]. by intros [|[|i]].
  - destruct (all_calls_return 2 1 1 sample_alone _ eq_refl) as (_ & Hc & Hend).
    split; [exact Hc|]. apply Hend. by intros [|[|i]].
Defined.

End CountDownLatch.
