(* ===== verification/Thread.v ===== *)
(** * Thread objects (src/src/include/thread.h, src/src/thread.cpp)

    The members of a [Thread] and its sequential operations; the two threads that
    meet in [start] are in EventLoopThread. *)

From Stdlib Require Import Ascii.
From S2P Require Import Prelude Format.

Module Thread.

Record Thread : Type := mkThread {
  started_ : bool;
  joined_ : bool;
  pthread_id_ : Z;
  tid_ : Z;
  name_ : string
}.

(** The constructor, with the counter [num_created_]; an atomic increment wraps. *)
Definition Thread_ctor (n : string) (num_created_ : Z) : Thread * Z :=
  (mkThread false false 0 0 n, wrap_signed 32 (num_created_ + 1)).

(** The destructor: the thread it detaches, if any. *)
Definition Thread_dtor (t : Thread) : option Z :=
  if started_ t && negb (joined_ t) then Some (pthread_id_ t) else None.

Definition setDefaultName (num_created_ : Z) (t : Thread) : Thread :=
  match name_ t with
  | EmptyString => mkThread (started_ t) (joined_ t) (pthread_id_ t) (tid_ t)
                     (Format.snprintf 32 ("Thread" +:+ Format.dec num_created_))
  | _ => t
  end.

Definition setStarted (b : bool) (t : Thread) : Thread :=
  mkThread b (joined_ t) (pthread_id_ t) (tid_ t) (name_ t).

(** [start] up to the wait for the latch; [r] is what [pthread_create] returned,
    the id of the new thread or an error. *)
Definition start_create `{Build} (r : option Z) (t : Thread) : result Thread :=
  _ ← assert_ (negb (started_ t));
  let t := setStarted true t in
  match r with
  | Some id => mret (mkThread (started_ t) (joined_ t) id (tid_ t) (name_ t))
  | None => mret (setStarted false t)
  end.

(** [start]; a new thread comes with its id in the process and with the id it has
    stored in [tid_] when the latch lets the caller go on. *)
Definition start `{Build} (r : option (Z * Z)) (t : Thread) : result Thread :=
  t ← start_create (fst <$> r) t;
  match r with
  | Some (_, tid) =>
      let t := mkThread (started_ t) (joined_ t) (pthread_id_ t) tid (name_ t) in
      _ ← assert_ (0 <? tid_ t);
      mret t
  | None => mret t
  end.

(** [join]; [r] is what [pthread_join] returned. *)
Definition join `{Build} (r : Z) (t : Thread) : result (Z * Thread) :=
  _ ← assert_ (started_ t);
  _ ← assert_ (negb (joined_ t));
  mret (r, mkThread (started_ t) true (pthread_id_ t) (tid_ t) (name_ t)).

(** ** The life of a thread object

    The abstract object: not started, running with its two ids, or joined. *)
Inductive life : Type := New | Running (id tid : Z) | Joined (id tid : Z).

Inductive op : Type := Start (r : option (Z * Z)) | Join (r : Z).

Definition op_run `{Build} (o : op) (t : Thread) : result Thread :=
  match o with
  | Start r => start r t
  | Join r => p ← join r t; mret p.2
  end.

Fixpoint ops_run `{Build} (os : list op) (t : Thread) : result Thread :=
  match os with [] => mret t | o :: os => t ← op_run o t; ops_run os t end.

(** A thread is started once and joined once, after its start; a failed start may
    be repeated. *)
Definition life_step (o : op) (a : life) : option life :=
  match o, a with
  | Start None, New => Some New
  | Start (Some (id, tid)), New => if 0 <? tid then Some (Running id tid) else None
  | Join _, Running id tid => Some (Joined id tid)
  | _, _ => None
  end.

Fixpoint life_steps (os : list op) (a : life) : option life :=
  match os with [] => Some a | o :: os => a ← life_step o a; life_steps os a end.

Definition represents (t : Thread) (a : life) : Prop :=
  match a with
  | New => started_ t = false ∧ joined_ t = false ∧ tid_ t = 0
  | Running id tid => started_ t = true ∧ joined_ t = false ∧ pthread_id_ t = id ∧ tid_ t = tid
  | Joined id tid => started_ t = true ∧ joined_ t = true ∧ pthread_id_ t = id ∧ tid_ t = tid
  end.

Lemma op_run_step `{Build} o t a :
  NDEBUG = false → represents t a →
  match life_step o a with
  | Some a' => ∃ t', op_run o t = Ok t' ∧ represents t' a' ∧ name_ t' = name_ t
  | None => op_run o t = Fault Assertion
  end.
Proof.
  intros Hd Hrep. destruct t as [st jo id ti n].
  destruct o as [[[id' tid]|]|r], a; simpl in *; destruct_and?; simplify_eq/=;
    unfold start, start_create, join, assert_; rewrite Hd; simpl; eauto 10.
  destruct (0 <? tid); simpl; eauto 10.
Qed.

Lemma ops_run_steps `{Build} os t a :
  NDEBUG = false → represents t a →
  match life_steps os a with
  | Some a' => ∃ t', ops_run os t = Ok t' ∧ represents t' a' ∧ name_ t' = name_ t
  | None => ops_run os t = Fault Assertion
  end.
Proof.
  intros Hd. revert t a. induction os as [|o os IH]; intros t a Hrep; simpl; [eauto|].
  pose proof (op_run_step o t a Hd Hrep) as Ho. destruct (life_step o a) as [a'|]; simpl.
  - destruct Ho as (t' & -> & Hrep' & <-). apply (IH t' a' Hrep').
  - by rewrite Ho.
Qed.

(** What the destructor does in each state. *)
Definition detached (a : life) : option Z :=
  match a with Running id _ => Some id | _ => None end.

(** C32: starts and joins of a thread object keep to the life cycle: in the debug
    build a sequence of them stops at an assertion exactly when it starts a thread
    twice, joins one that does not run, or gets an id that is not positive; otherwise
    the destructor detaches the thread exactly when it is running. *)
Theorem thread_life_cycle `{Build} os n num :
  NDEBUG = false →
  match life_steps os New with
  | Some a => ∃ t, ops_run os (Thread_ctor n num).1 = Ok t ∧ represents t a ∧
                   name_ t = n ∧ Thread_dtor t = detached a
  | None => ops_run os (Thread_ctor n num).1 = Fault Assertion
  end.
Proof.
  intros Hd. pose proof (ops_run_steps os (Thread_ctor n num).1 New Hd) as Hrun.
  destruct (life_steps os New) as [a|]; [|by apply Hrun].
  destruct Hrun as (t & Ht & Hrep & Hn); [done|]. exists t. repeat split; [done..|].
  unfold Thread_dtor. by destruct a; simpl in Hrep; destruct_and?; simplify_eq/=;
    rewrite ?Hrep; repeat match goal with H : started_ _ = _ |- _ => rewrite H
      | H : joined_ _ = _ |- _ => rewrite H end.
Qed.

#[local] Existing Instance debug_build.

(** A failed start, a start, a join, and a second join. *)
Lemma thread_life_cycle_witness :
  (∃ t, ops_run [Start None; Start (Some (5, 77)); Join 0] (Thread_ctor "t" 0).1 = Ok t ∧
     represents t (Joined 5 77) ∧ name_ t = "t"%string ∧ Thread_dtor t = None) ∧
  ops_run [Start (Some (5, 77)); Join 0; Join 0] (Thread_ctor "t" 0).1 = Fault Assertion.
Proof.
  split.
  - exact (thread_life_cycle [Start None; Start (Some (5, 77)); Join 0] "t" 0 eq_refl).
  - exact (thread_life_cycle [Start (Some (5, 77)); Join 0; Join 0] "t" 0 eq_refl).
Defined.

End Thread.
