(* ===== verification/EventLoopThread.v ===== *)
(** * The start of a loop in a thread (src/src/include/event_loop_thread.h,
      src/src/event_loop_thread.cpp, with [Thread::start] and [ThreadData::runInThread]
      of src/src/thread.cpp)

    The hand-shake of two threads: the caller of [startLoop] and the thread it
    creates, which tells its id through a latch and its loop through a condition
    variable. *)

From S2P Require Import Prelude CountDownLatch.

Module EventLoopThread.
Import CountDownLatch.

(** Where the caller of [startLoop] stands: inside [latch_.wait()], at the
    assertion of [Thread::start], before the lock, at the test of the predicate,
    blocked in [cv_.wait], woken up, before the unlock, returned. *)
Inductive caller : Type :=
  | PWait | PAssert | PLock | PTest | PBlocked | PRelock | PUnlock | PReturned (loop : option Z).

(** Where the new thread stands: before [*tid_ = tid()], inside
    [latch_->countDown()], before the construction of the loop, before the lock,
    at [loop_ = &loop], at the notification, before the unlock, in [loop.loop()].
    [QNone]: there is no new thread, [pthread_create] failed. *)
Inductive worker : Type :=
  | QTid | QCount | QCtor | QLock | QSet | QNotify | QUnlock | QLoop | QNone.

#[export] Instance caller_eq_dec : EqDecision caller.
Proof. solve_decision. Defined.
#[export] Instance worker_eq_dec : EqDecision worker.
Proof. solve_decision. Defined.

(** The objects the two threads share: the latch and the id of the [Thread],
    [loop_] and [mutex_] of the [EventLoopThread]; the mutex is held by the caller
    ([true]) or by the worker ([false]). *)
Record system : Type := mkSystem {
  latch_ : latch;
  tid_ : Z;
  loop_ : option Z;
  mutex_ : option bool;
  at_caller : caller;
  at_worker : worker
}.

Section steps.
(** The id of the new thread and the address of the loop on its stack. *)
Context (tid loop : Z).

Definition latch_step (a : action) (s : system) : option latch := step a (latch_ s).

(** The threads of the latch: 0 is the caller, 1 the worker. *)
Definition caller_step (s : system) : option system :=
  match at_caller s with
  | PWait =>
      if decide (threads (latch_ s) !! 0%nat = Some WDone)
      then Some (mkSystem (latch_ s) (tid_ s) (loop_ s) (mutex_ s) PAssert (at_worker s))
      else l ← latch_step (Run 0) s;
           Some (mkSystem l (tid_ s) (loop_ s) (mutex_ s) PWait (at_worker s))
  | PAssert =>
      if 0 <? tid_ s
      then Some (mkSystem (latch_ s) (tid_ s) (loop_ s) (mutex_ s) PLock (at_worker s))
      else None
  | PLock | PRelock =>
      match mutex_ s with
      | None => Some (mkSystem (latch_ s) (tid_ s) (loop_ s) (Some true) PTest (at_worker s))
      | Some _ => None
      end
  | PTest =>
      match loop_ s with
      | None => Some (mkSystem (latch_ s) (tid_ s) (loop_ s) None PBlocked (at_worker s))
      | Some _ => Some (mkSystem (latch_ s) (tid_ s) (loop_ s) (mutex_ s) PUnlock (at_worker s))
      end
  | PUnlock =>
      Some (mkSystem (latch_ s) (tid_ s) (loop_ s) None (PReturned (loop_ s)) (at_worker s))
  | PBlocked | PReturned _ => None
  end.

Definition worker_step (s : system) : option system :=
  match at_worker s with
  | QTid => Some (mkSystem (latch_ s) tid (loop_ s) (mutex_ s) (at_caller s) QCount)
  | QCount =>
      if decide (threads (latch_ s) !! 1%nat = Some CDone)
      then Some (mkSystem (latch_ s) (tid_ s) (loop_ s) (mutex_ s) (at_caller s) QCtor)
      else l ← latch_step (Run 1) s;
           Some (mkSystem l (tid_ s) (loop_ s) (mutex_ s) (at_caller s) QCount)
  | QCtor => Some (mkSystem (latch_ s) (tid_ s) (loop_ s) (mutex_ s) (at_caller s) QLock)
  | QLock =>
      match mutex_ s with
      | None => Some (mkSystem (latch_ s) (tid_ s) (loop_ s) (Some false) (at_caller s) QSet)
      | Some _ => None
      end
  | QSet => Some (mkSystem (latch_ s) (tid_ s) (Some loop) (mutex_ s) (at_caller s) QNotify)
  | QNotify =>
      Some (mkSystem (latch_ s) (tid_ s) (loop_ s) (mutex_ s)
              (if decide (at_caller s = PBlocked) then PRelock else at_caller s) QUnlock)
  | QUnlock => Some (mkSystem (latch_ s) (tid_ s) (loop_ s) None (at_caller s) QLoop)
  | QLoop | QNone => None
  end.

(** A spurious wake-up of the caller, in either condition variable. *)
Definition spurious_step (s : system) : option system :=
  match at_caller s with
  | PWait => l ← latch_step (Spurious 0) s;
             Some (mkSystem l (tid_ s) (loop_ s) (mutex_ s) PWait (at_worker s))
  | PBlocked => Some (mkSystem (latch_ s) (tid_ s) (loop_ s) (mutex_ s) PRelock (at_worker s))
  | _ => None
  end.

(** [Thread::start] after [pthread_create], which succeeded or not: the caller waits for the
    new thread, or it logs the failure and returns to [startLoop], which goes on. *)
Definition started (created : bool) : system :=
  if created then mkSystem (init 1 1 1) 0 None None PWait QTid
  else mkSystem (init 1 0 0) 0 None None PLock QNone.

Inductive actor : Type := Caller | Worker | Wakeup.

Definition step (a : actor) (s : system) : option system :=
  match a with
  | Caller => caller_step s
  | Worker => worker_step s
  | Wakeup => spurious_step s
  end.

Fixpoint run (sched : list actor) (s : system) : option system :=
  match sched with
  | [] => Some s
  | a :: sched => s' ← step a s; run sched s'
  end.

(** ** The invariant *)

Definition caller_holds (c : caller) : bool :=
  match c with PTest | PUnlock => true | _ => false end.
Definition worker_holds (w : worker) : bool :=
  match w with QSet | QNotify | QUnlock => true | _ => false end.
Definition loop_set (w : worker) : bool :=
  match w with QNotify | QUnlock | QLoop => true | _ => false end.
Definition notified (w : worker) : bool :=
  match w with QUnlock | QLoop => true | _ => false end.

(** What the progress of the two threads in the latch says about their progress
    outside of it, and what follows from the place of each thread. *)
Definition worker_in_latch (w : worker) (c : pc) : Prop :=
  match w with QTid => c = CLock | QCount => is_counter c = true | QNone => False | _ => c = CDone end.
Definition caller_in_latch (p : caller) (c : pc) : Prop :=
  match p with PWait => is_counter c = false | _ => c = WDone end.
Definition caller_knows (p : caller) (w : worker) (l : option Z) : Prop :=
  match p with
  | PBlocked => notified w = false
  | PUnlock => loop_set w = true
  | PReturned r => r = Some loop ∧ loop_set w = true
  | _ => True
  end.

Record inv (s : system) : Prop := {
  inv_latch : ok 1 1 (latch_ s);
  inv_threads : ∃ c0 c1, threads (latch_ s) = [c0; c1] ∧
    caller_in_latch (at_caller s) c0 ∧ worker_in_latch (at_worker s) c1;
  inv_tid : at_worker s ≠ QTid → tid_ s = tid;
  inv_mutex : mutex_ s = if caller_holds (at_caller s) then Some true
    else if worker_holds (at_worker s) then Some false else None;
  inv_exclusive : caller_holds (at_caller s) = true → worker_holds (at_worker s) = false;
  inv_loop : loop_ s = if loop_set (at_worker s) then Some loop else None;
  inv_caller : caller_knows (at_caller s) (at_worker s) (loop_ s)
}.

Lemma inv_started : inv (started true).
Proof. split; try done; [apply ok_init|]. by exists WLock, CLock. Qed.

(** A step of the caller inside the latch, and of the worker. *)
Lemma latch_caller_step l l' c0 c1 :
  threads l = [c0; c1] → is_counter c0 = false →
  (thread_step 0 l = Some l' ∨ spurious 0 l = Some l') →
  ∃ c0', threads l' = [c0'; c1] ∧ is_counter c0' = false.
Proof.
  unfold thread_step, spurious. intros Hl Hc Hstep. rewrite Hl in Hstep. simpl in Hstep.
  destruct c0; try done; destruct Hstep as [Hstep|Hstep]; simpl in Hstep; unfold locking in Hstep;
    repeat case_match; simplify_eq/=; rewrite ?Hl; simpl; eauto.
Qed.

Lemma latch_worker_step l l' c0 c1 p :
  threads l = [c0; c1] → is_counter c1 = true → caller_in_latch p c0 →
  thread_step 1 l = Some l' →
  ∃ c0' c1', threads l' = [c0'; c1'] ∧ caller_in_latch p c0' ∧ is_counter c1' = true.
Proof.
  unfold thread_step. intros Hl Hc Hp Hstep. rewrite Hl in Hstep. simpl in Hstep.
  assert (caller_in_latch p (if decide (c0 = WBlocked) then WRelock else c0)) as Hp'.
  { destruct (decide (c0 = WBlocked)) as [->|]; [by destruct p|done]. }
  destruct c1; try done; simpl in Hstep; unfold locking in Hstep;
    repeat case_match; simplify_eq/=; rewrite ?Hl; simpl; eauto;
    do 2 eexists; (split; [done|]); split; try done; by case_match.
Qed.

(** [wait] returned: the worker has stored its id. *)
Lemma waited_tid s c1 :
  inv s → threads (latch_ s) = [WDone; c1] → tid_ s = tid.
Proof.
  intros Hinv Hl. apply (inv_tid _ Hinv). intros Hw.
  destruct (inv_threads _ Hinv) as (c0' & c1' & Hl' & _ & Hc). rewrite Hl in Hl'. simplify_eq.
  rewrite Hw in Hc. simpl in Hc. subst. pose proof (inv_latch _ Hinv) as Hok.
  pose proof (ok_count _ _ _ Hok). pose proof (ok_passed _ _ _ Hok 0 WDone) as Hp.
  rewrite Hl in *. change (tally counted [WDone; CLock]) with 0 in *.
  specialize (Hp eq_refl (or_intror eq_refl)). lia.
Qed.

(** The parts of the invariant that a step leaves as they are. *)
Ltac keep_inv :=
  split; simpl in *;
  [ try assumption
  | try (do 2 eexists; split; [eassumption|]; split; [try assumption|try assumption]; done)
  | try (assumption || intros _; match goal with H : _ ≠ QTid → ?t = _ |- ?t = _ => by apply H end)
  | try done | try done | try done | try done ].

Lemma caller_step_inv s s' : inv s → caller_step s = Some s' → inv s'.
Proof.
  intros Hinv Hstep. pose proof Hinv as [Hok (c0 & c1 & Hl & Hc0 & Hc1) Ht Hm He Hp Hk].
  destruct s as [l t lp m p w]; simpl in *. unfold caller_step in Hstep; simpl in *.
  subst m lp. destruct p; simpl in *; try discriminate Hstep.
  - rewrite Hl in Hstep. simpl in Hstep. case_decide as Hd; [injection Hstep as <-; injection Hd as ->; keep_inv|].
    apply bind_Some in Hstep as (l' & Hs & [= <-]).
    destruct (latch_caller_step l l' c0 c1 Hl Hc0 (or_introl Hs)) as (c0' & Hl' & Hc').
    keep_inv. by eapply (ok_step _ _ (Run 0)).
  - destruct (0 <? t); [injection Hstep as <-|discriminate]. keep_inv.
  - destruct (worker_holds w) eqn:Hw; [discriminate|injection Hstep as <-]. keep_inv.
  - destruct (loop_set w) eqn:Hw; injection Hstep as <-; keep_inv; rewrite ?Hw; try done;
      try (by rewrite He). by destruct w.
  - destruct (worker_holds w) eqn:Hw; [discriminate|injection Hstep as <-]. keep_inv.
  - injection Hstep as <-. keep_inv; [by rewrite He|]. by rewrite Hk.
Qed.

Lemma worker_step_inv s s' : inv s → worker_step s = Some s' → inv s'.
Proof.
  intros Hinv Hstep. pose proof Hinv as [Hok (c0 & c1 & Hl & Hc0 & Hc1) Ht Hm He Hp Hk].
  destruct s as [l t lp m p w]; simpl in *. unfold worker_step in Hstep; simpl in *.
  subst m lp. destruct w; simpl in *; try discriminate Hstep.
  2: { rewrite Hl in Hstep. simpl in Hstep. case_decide as Hd.
       - injection Hstep as <-; injection Hd as ->. keep_inv.
       - apply bind_Some in Hstep as (l' & Hs & [= <-]).
         destruct (latch_worker_step l l' c0 c1 p Hl Hc1 Hc0 Hs) as (c0' & c1' & Hl' & Hc0' & Hc1').
         keep_inv. by eapply (ok_step _ _ (Run 1)). }
  all: destruct (caller_holds p) eqn:Hcp; try discriminate Hstep; try discriminate (He eq_refl);
    injection Hstep as <-.
  all: keep_inv; rewrite ?Hcp; try done; try (by subst c1; exists c0, CLock).
  all: destruct p; simpl in *; try done; try (by destruct Hk); by exists c0, c1.
Qed.

Lemma spurious_step_inv s s' : inv s → spurious_step s = Some s' → inv s'.
Proof.
  intros Hinv Hstep. pose proof Hinv as [Hok (c0 & c1 & Hl & Hc0 & Hc1) Ht Hm He Hp Hk].
  destruct s as [l t lp m p w]; simpl in *. unfold spurious_step in Hstep; simpl in *.
  subst m lp. destruct p; simpl in *; try discriminate Hstep.
  - apply bind_Some in Hstep as (l' & Hs & [= <-]).
    destruct (latch_caller_step l l' c0 c1 Hl Hc0 (or_intror Hs)) as (c0' & Hl' & Hc').
    keep_inv. by eapply (ok_step _ _ (Spurious 0)).
  - injection Hstep as <-. keep_inv.
Qed.

Lemma inv_run sched s s' : inv s → run sched s = Some s' → inv s'.
Proof.
  revert s. induction sched as [|a sched IH]; intros s Hinv Hrun; simplify_eq/=; [done|].
  apply bind_Some in Hrun as (s1 & Hs & Hrun). apply (IH s1); [|done].
  destruct a; eauto using caller_step_inv, worker_step_inv, spurious_step_inv.
Qed.

(** The steps each thread can still take outside the latch. *)
Definition caller_left (unset : bool) (p : caller) : nat :=
  match p with
  | PWait => 7 | PAssert => 6 | PLock => 5 | PTest => if unset then 4 else 2 | PBlocked => 3
  | PRelock => if unset then 5 else 3 | PUnlock => 1 | PReturned _ => 0
  end.
Definition worker_left (w : worker) : nat :=
  match w with
  | QTid => 7 | QCount => 6 | QCtor => 5 | QLock => 4 | QSet => 3 | QNotify => 2 | QUnlock => 1
  | QLoop | QNone => 0
  end.

Definition all_left (s : system) : nat :=
  total_left (latch_ s) +
  (caller_left (bool_decide (loop_ s = None)) (at_caller s) + worker_left (at_worker s)).

Lemma caller_left_loop p l : (caller_left (bool_decide (Some (l : Z) = None)) p ≤ caller_left true p)%nat.
Proof. destruct p; simpl; lia. Qed.

Lemma caller_decreases s s' : inv s → caller_step s = Some s' → (all_left s' < all_left s)%nat.
Proof.
  intros Hinv Hstep. pose proof (inv_latch _ Hinv) as Hok.
  destruct s as [l t lp m p w]; unfold caller_step, all_left in *; simpl in *.
  destruct p; simpl in *; try discriminate Hstep.
  - case_decide; [injection Hstep as <-; simpl; lia|].
    apply bind_Some in Hstep as (l' & Hs & [= <-]). simpl.
    pose proof (step_decreases _ _ _ _ _ Hok Hs). lia.
  - case_match; [injection Hstep as <-|discriminate]. simpl. lia.
  - destruct m; [discriminate|injection Hstep as <-]. simpl. destruct lp; simpl; lia.
  - destruct lp; injection Hstep as <-; simpl; lia.
  - destruct m; [discriminate|injection Hstep as <-]. simpl. destruct lp; simpl; lia.
  - injection Hstep as <-. simpl. lia.
Qed.

Lemma worker_decreases s s' : inv s → worker_step s = Some s' → (all_left s' < all_left s)%nat.
Proof.
  intros Hinv Hstep. pose proof (inv_latch _ Hinv) as Hok. pose proof (inv_loop _ Hinv) as Hlp.
  destruct s as [l t lp m p w]; unfold worker_step, all_left in *; simpl in *.
  destruct w; simpl in *; try discriminate Hstep; subst lp.
  2: { case_decide; [injection Hstep as <-; simpl; lia|].
       apply bind_Some in Hstep as (l' & Hs & [= <-]). simpl.
       pose proof (step_decreases _ _ _ _ _ Hok Hs). lia. }
  3: { destruct m; [discriminate|injection Hstep as <-]. simpl. lia. }
  all: injection Hstep as <-; simpl; try lia.
  - pose proof (caller_left_loop p loop) as H. simpl in H. lia.
  - destruct p; simpl; lia.
Qed.

Lemma wakeup_increases s s' :
  spurious_step s = Some s' → (all_left s' ≤ all_left s + 2)%nat.
Proof.
  intros Hstep. destruct s as [l t lp m p w]; unfold spurious_step, all_left in *; simpl in *.
  destruct p; simpl in *; try discriminate Hstep.
  - apply bind_Some in Hstep as (l' & Hs & [= <-]). simpl.
    pose proof (spurious_increases _ _ _ Hs). lia.
  - injection Hstep as <-. simpl. destruct lp; simpl; lia.
Qed.

Definition wakeups (sched : list actor) : nat :=
  length (filter (λ a, match a with Wakeup => true | _ => false end = true) sched).

Lemma run_length sched s s' :
  inv s → run sched s = Some s' →
  (length sched + all_left s' ≤ all_left s + 3 * wakeups sched)%nat.
Proof.
  revert s. induction sched as [|a sched IH]; intros s Hinv Hrun; simplify_eq/=; [lia|].
  apply bind_Some in Hrun as (s1 & Hs & Hrun). unfold wakeups in *.
  assert (inv s1) as Hinv1 by (destruct a;
    eauto using caller_step_inv, worker_step_inv, spurious_step_inv).
  specialize (IH s1 Hinv1 Hrun). destruct a; simpl in Hs.
  - pose proof (caller_decreases _ _ Hinv Hs). rewrite filter_cons_False by auto. lia.
  - pose proof (worker_decreases _ _ Hinv Hs). rewrite filter_cons_False by auto. lia.
  - pose proof (wakeup_increases _ _ Hs). rewrite filter_cons_True by done. simpl. lia.
Qed.

(** When neither thread can go on, neither can their parts of the latch. *)
Lemma stuck_latch s :
  inv s → caller_step s = None → worker_step s = None →
  ∀ i, thread_step i (latch_ s) = None.
Proof.
  intros Hinv Hc Hw. destruct (inv_threads _ Hinv) as (c0 & c1 & Hl & Hc0 & Hc1).
  unfold caller_step, worker_step, latch_step in Hc, Hw. simpl in Hc, Hw.
  rewrite Hl in Hc, Hw. simpl in Hc, Hw.
  assert (∀ i c, threads (latch_ s) !! i = Some c → c = WDone ∨ c = CDone →
    thread_step i (latch_ s) = None) as Hdone.
  { intros i c Hi Hd. unfold thread_step. rewrite Hi. by destruct Hd as [->| ->]. }
  intros [|[|i]].
  - destruct (at_caller s) eqn:Hp; try (eapply Hdone; [by rewrite Hl|by left]).
    destruct (decide (Some c0 = Some WDone)); [discriminate|]. by apply bind_None in Hc as [|(? & _ & [=])].
  - destruct (at_worker s) eqn:Hq; try (eapply Hdone; [by rewrite Hl|by right]).
    destruct (decide (Some c1 = Some CDone)); [discriminate|]. by apply bind_None in Hw as [|(? & _ & [=])].
  - unfold thread_step. by rewrite Hl.
Qed.

(** A state with the invariant in which nothing can go on is the end. *)
Lemma stuck_returned s :
  0 < tid → inv s → caller_step s = None → worker_step s = None →
  at_caller s = PReturned (Some loop) ∧ at_worker s = QLoop.
Proof.
  intros Htid Hinv Hc Hw. pose proof (stuck_latch _ Hinv Hc Hw) as Hstuck.
  pose proof (stuck_finished _ _ _ (inv_latch _ Hinv) ltac:(done) Hstuck) as Hfin.
  pose proof (waited_tid s) as Hwait.
  destruct (inv_threads _ Hinv) as (c0 & c1 & Hl & Hc0 & Hc1).
  pose proof (Hfin 0%nat c0) as Hf0. pose proof (Hfin 1%nat c1) as Hf1.
  rewrite Hl in Hf0, Hf1, Hwait. specialize (Hf0 eq_refl). specialize (Hf1 eq_refl).
  pose proof (inv_mutex _ Hinv) as Hm. pose proof (inv_caller _ Hinv) as Hk.
  pose proof (inv_loop _ Hinv) as Hlp. unfold caller_step, worker_step in *. rewrite Hl in *.
  destruct s as [l t lp m p w]; simpl in *.
  assert (w = QLoop ∨ w = QLock ∧ caller_holds p = true) as [->|[-> Hh]].
  { destruct w; simpl in *; auto; try discriminate Hw; try done.
    - by destruct c1.
    - destruct m; [|discriminate]. right. destruct (caller_holds p); done. }
  2: { subst lp. by destruct p. }
  subst m lp. destruct p; simpl in *; try done.
  - by destruct c0.
  - subst c0. rewrite (proj2 (Z.ltb_lt 0 t)) in Hc; [done|]. by rewrite (Hwait c1).
  - by destruct Hk as [-> _].
Qed.

(** Without a new thread the caller goes from the lock to the condition variable and
    back when it wakes up spuriously. *)
Record orphan (s : system) : Prop := {
  or_worker : at_worker s = QNone;
  or_loop : loop_ s = None;
  or_mutex : mutex_ s = if caller_holds (at_caller s) then Some true else None;
  or_caller : match at_caller s with PLock | PTest | PBlocked | PRelock => True | _ => False end
}.

Definition orphan_left (s : system) : nat :=
  match at_caller s with PLock | PRelock => 2 | PTest => 1 | _ => 0 end.

Lemma orphan_started : orphan (started false).
Proof. done. Qed.

Lemma orphan_step a s s' :
  orphan s → step a s = Some s' →
  orphan s' ∧ (1 + orphan_left s' ≤ orphan_left s + if a is Wakeup then 3 else 0)%nat.
Proof.
  intros [Hw Hl Hm Hc] Hs. destruct s as [l t lp m p w]; simpl in *; subst w lp m.
  destruct a, p; simpl in *; try done; injection Hs as <-; (split; [done|]); unfold orphan_left; simpl; lia.
Qed.

Lemma orphan_run sched s s' :
  orphan s → run sched s = Some s' →
  orphan s' ∧ (length sched + orphan_left s' ≤ orphan_left s + 3 * wakeups sched)%nat.
Proof.
  revert s. induction sched as [|a sched IH]; intros s Hor Hrun; simplify_eq/=; [split; [done|lia]|].
  apply bind_Some in Hrun as (s1 & Hs & Hrun). destruct (orphan_step _ _ _ Hor Hs) as [Hor1 Hle].
  destruct (IH s1 Hor1 Hrun) as [Hor' Hle']. split; [done|]. unfold wakeups in *.
  destruct a; rewrite ?filter_cons_False, ?filter_cons_True by auto; simpl; lia.
Qed.

Lemma orphan_stuck s : orphan s → caller_step s = None → at_caller s = PBlocked.
Proof.
  intros [Hw Hl Hm Hc] Hs. destruct s as [l t lp m p w]; simpl in *; subst w lp m.
  by destruct p.
Qed.

(** ** Theorems *)

(** However the two threads are scheduled, [startLoop] returns the loop that
    the new thread has constructed, never a null pointer, and the assertion of
    [Thread::start] on the id of the thread holds when it is reached. *)
Theorem startLoop_returns_loop sched s :
  0 < tid → run sched (started true) = Some s →
  (at_caller s = PAssert → tid_ s = tid ∧ 0 < tid_ s) ∧
  (∀ r, at_caller s = PReturned r → r = Some loop ∧ loop_ s = Some loop ∧ tid_ s = tid).
Proof.
  intros Htid Hrun. pose proof (inv_run _ _ _ inv_started Hrun) as Hinv.
  destruct (inv_threads _ Hinv) as (c0 & c1 & Hl & Hc0 & _).
  pose proof (waited_tid _ c1 Hinv) as Ht. rewrite Hl in Ht.
  pose proof (inv_caller _ Hinv) as Hk. pose proof (inv_loop _ Hinv) as Hlp. split.
  - intros Hp. rewrite Hp in Hc0. simpl in Hc0. subst c0. rewrite Ht by done. done.
  - intros r Hp. rewrite Hp in Hc0, Hk. simpl in Hc0, Hk. subst c0.
    destruct Hk as [-> Hset]. rewrite Hset in Hlp. by rewrite Ht.
Qed.

(** C24: the start of a loop in a thread.  If [pthread_create] succeeds it never hangs: every
    schedule has at most 24 steps, and 3 more for each spurious wake-up, and when neither
    thread can go on [startLoop] has returned the loop and the new thread is in [loop.loop()].
    If [pthread_create] fails, [Thread::start] only logs it and [startLoop] waits for a loop that
    nobody makes: no schedule lets it return, and after 2 steps, and 3 for each spurious wake-up,
    it is blocked for ever. *)
Theorem startLoop_outcomes created sched s :
  0 < tid → run sched (started created) = Some s →
  if created then
    (length sched ≤ 24 + 3 * wakeups sched)%nat ∧
    (caller_step s = None → worker_step s = None →
     at_caller s = PReturned (Some loop) ∧ at_worker s = QLoop)
  else
    (length sched ≤ 2 + 3 * wakeups sched)%nat ∧ (∀ r, at_caller s ≠ PReturned r) ∧
    (caller_step s = None → worker_step s = None → at_caller s = PBlocked ∧ loop_ s = None).
Proof.
  intros Htid Hrun. destruct created.
  - split; [|apply stuck_returned; [done|]; exact (inv_run _ _ _ inv_started Hrun)].
    pose proof (run_length _ _ _ inv_started Hrun) as H.
    change (all_left (started true)) with 24%nat in H. lia.
  - destruct (orphan_run _ _ _ orphan_started Hrun) as [Hor Hle]. pose proof Hor as [_ Hl _ Hc].
    split; [change (orphan_left (started false)) with 2%nat in Hle; lia|].
    split; [intros r Hr; by rewrite Hr in Hc|]. intros Hs _. split; [by apply orphan_stuck|done].
Qed.

End steps.

(** The caller waits in the latch and then for the loop, with a spurious wake-up
    before the new thread has made it. *)
Definition sample_sched : list actor :=
  [Caller; Caller; Worker; Worker; Worker; Worker; Worker; Caller; Caller; Caller; Caller;
   Caller; Caller; Caller; Worker; Wakeup; Caller; Caller; Worker; Worker; Worker; Worker;
   Worker; Caller; Caller; Caller].

Lemma startLoop_returns_loop_witness :
  ∃ s, run 7 100 sample_sched (started true) = Some s ∧ at_caller s = PReturned (Some 100) ∧
    loop_ s = Some 100 ∧ tid_ s = 7.
Proof.
  eexists. split; [vm_compute; reflexivity|]. split; [reflexivity|].
  assert (H := startLoop_returns_loop 7 100 sample_sched _ ltac:(lia)
    ltac:(vm_compute; reflexivity)).
  destruct (proj2 H (Some 100) eq_refl) as (_ & Hl & Ht). by split.
Defined.

(** The caller alone, which wakes up once *)
Definition sample_alone : list actor := [Caller; Caller; Wakeup; Caller; Caller].

Lemma startLoop_outcomes_witness :
  (∃ s, run 7 100 sample_sched (started true) = Some s ∧ (length sample_sched ≤ 27)%nat ∧
    at_caller s = PReturned (Some 100) ∧ at_worker s = QLoop) ∧
  ∃ s, run 7 100 sample_alone (started false) = Some s ∧ (length sample_alone ≤ 5)%nat ∧
    at_caller s = PBlocked ∧ loop_ s = None.
Proof.
  split; (eexists; split; [vm_compute; reflexivity|]).
  - destruct (startLoop_outcomes 7 100 true sample_sched _ ltac:(lia)
      ltac:(vm_compute; reflexivity)) as [Hlen Hend].
    split; [exact Hlen|]. apply Hend; reflexivity.
  - destruct (startLoop_outcomes 7 100 false sample_alone _ ltac:(lia)
      ltac:(vm_compute; reflexivity)) as (Hlen & _ & Hend).
    split; [exact Hlen|]. apply Hend; reflexivity.
Defined.

End EventLoopThread.
