(* ===== verification/Handoff.v ===== *)
(** * Work handed to a loop by other threads (src/src/event_loop.cpp)

    The loop runs in its thread while other threads call [queueInLoop] and
    [quit]; the mutex, the flags and the list of pending functors are shared.  A
    step is one action of one thread between two accesses of shared state: a
    lock, a push, a swap, a call of one functor, a store or a test of a flag.
    [step] is executable, and the theorems are about all schedules.

    The functors of this file do not call [queueInLoop] themselves:
    [ServerTheorems.queued_send_with_write_callback_deadlocks] shows what happens
    when one does.  A poll may return at any time: [wakeup_channel_] is never
    created, so the writes of [wakeup] are counted and wake nobody, and what ends
    a poll is an event of another channel or the time-out. *)

From S2P Require Import Prelude.

Module Handoff.

Section handoff.
Context {F : Type}.

(** A functor of [pending_functors_], with the thread that queued it: [None] for a
    handler that ran in the loop's thread.  The thread is not in the code; it only
    serves to state what becomes of the functors of one thread. *)
Definition entry : Type := option nat * F.

(** Where the loop's thread stands: in [loop], before [looping_ = true], before
    [quit_ = false], at the test of the [while], in the poll; in the handlers of
    the active channels, which are to queue the functors [fs]: before the lock of
    [queueInLoop], at its push, at the rest of it; in [doPendingFunctors]: before
    [calling_pending_functors_ = true], before the lock, at the swap, in the [for]
    with [functors] to go, at the end of the guard's scope; after the [while], and
    returned. *)
Inductive loop_pc : Type :=
  | LLooping | LClearQuit | LTest | LPoll
  | LHandle (fs : list F) | LPush (f : F) (fs : list F) | LPushed (fs : list F)
  | LCalling | LLock | LSwap | LRun (functors : list entry) | LUnlock
  | LStop | LDone.

(** A thread that queues one functor after the other: before the lock (or done,
    when nothing is left), at the push of [f], at [wakeup], at the end of the
    guard's scope. *)
Inductive producer_pc : Type := PLock | PPush (f : F) | PWake | PUnlock.

(** A thread that calls [quit]: at the store, at [wakeup], at [thread_.join()], returned. *)
Inductive quitter_pc : Type := QStore | QWake | QJoin | QDone.

(** A [Quitter] that [joins] is in the destructor of [EventLoopThread], which waits for
    the loop's thread after [quit]. *)
Inductive thread : Type :=
  | Producer (c : producer_pc) (todo : list F)
  | Quitter (c : quitter_pc) (joins : bool).

Inductive holder : Type := ByLoop | By (i : nat).

(** The members of the loop, what it ran, the rounds of [doPendingFunctors] it
    completed, the writes to [wakeup_fd_], and the other threads. *)
Record system : Type := mkSystem {
  at_loop : loop_pc;
  looping_ : bool;
  quit_ : bool;
  calling_pending_functors_ : bool;
  mutex_ : option holder;
  pending_functors_ : list entry;
  ran : list entry;
  rounds : nat;
  wakeups : Z;
  threads : list thread
}.

Definition goto (c : loop_pc) (s : system) : system :=
  mkSystem c (looping_ s) (quit_ s) (calling_pending_functors_ s) (mutex_ s) (pending_functors_ s)
    (ran s) (rounds s) (wakeups s) (threads s).

Definition set_looping (b : bool) (s : system) : system :=
  mkSystem (at_loop s) b (quit_ s) (calling_pending_functors_ s) (mutex_ s) (pending_functors_ s)
    (ran s) (rounds s) (wakeups s) (threads s).

Definition set_quit (b : bool) (s : system) : system :=
  mkSystem (at_loop s) (looping_ s) b (calling_pending_functors_ s) (mutex_ s) (pending_functors_ s)
    (ran s) (rounds s) (wakeups s) (threads s).

Definition set_calling (b : bool) (s : system) : system :=
  mkSystem (at_loop s) (looping_ s) (quit_ s) b (mutex_ s) (pending_functors_ s)
    (ran s) (rounds s) (wakeups s) (threads s).

Definition set_mutex (m : option holder) (s : system) : system :=
  mkSystem (at_loop s) (looping_ s) (quit_ s) (calling_pending_functors_ s) m (pending_functors_ s)
    (ran s) (rounds s) (wakeups s) (threads s).

Definition set_pending (l : list entry) (s : system) : system :=
  mkSystem (at_loop s) (looping_ s) (quit_ s) (calling_pending_functors_ s) (mutex_ s) l
    (ran s) (rounds s) (wakeups s) (threads s).

Definition push_back (e : entry) (s : system) : system :=
  set_pending (pending_functors_ s ++ [e]) s.

(** The call of one functor *)
Definition call (e : entry) (s : system) : system :=
  mkSystem (at_loop s) (looping_ s) (quit_ s) (calling_pending_functors_ s) (mutex_ s)
    (pending_functors_ s) (ran s ++ [e]) (rounds s) (wakeups s) (threads s).

Definition next_round (s : system) : system :=
  mkSystem (at_loop s) (looping_ s) (quit_ s) (calling_pending_functors_ s) (mutex_ s)
    (pending_functors_ s) (ran s) (S (rounds s)) (wakeups s) (threads s).

(** [EventLoop::wakeup] *)
Definition wakeup (s : system) : system :=
  mkSystem (at_loop s) (looping_ s) (quit_ s) (calling_pending_functors_ s) (mutex_ s)
    (pending_functors_ s) (ran s) (rounds s) (wakeups s + 1) (threads s).

Definition set_thread (i : nat) (t : thread) (s : system) : system :=
  mkSystem (at_loop s) (looping_ s) (quit_ s) (calling_pending_functors_ s) (mutex_ s)
    (pending_functors_ s) (ran s) (rounds s) (wakeups s) (<[i := t]> (threads s)).

(** The constructor of [std::lock_guard]: it waits while the mutex is taken. *)
Definition locking (h : holder) (s : system) : option system :=
  match mutex_ s with
  | None => Some (set_mutex (Some h) s)
  | Some _ => None
  end.

(** [queueInLoop] called by a handler in the loop's thread; [fs] are the functors
    that the handlers have still to queue. *)
Definition handler_step (c : loop_pc) (s : system) : option system :=
  match c with
  | LHandle [] => Some (goto LCalling s)
  | LHandle (f :: fs) => goto (LPush f fs) <$> locking ByLoop s
  | LPush f fs => Some (goto (LPushed fs) (push_back (None, f) s))
  | LPushed fs =>
      let s := if calling_pending_functors_ s then wakeup s else s in
      Some (goto (LHandle fs) (set_mutex None s))
  | _ => None
  end.

(** [EventLoop::doPendingFunctors] *)
Definition doPendingFunctors_step (c : loop_pc) (s : system) : option system :=
  match c with
  | LCalling => Some (goto LLock (set_calling true s))
  | LLock => goto LSwap <$> locking ByLoop s
  | LSwap => Some (goto (LRun (pending_functors_ s)) (set_pending [] s))
  | LRun (f :: functors) => Some (goto (LRun functors) (call f s))
  | LRun [] => Some (goto LUnlock (set_calling false s))
  | LUnlock => Some (goto LTest (next_round (set_mutex None s)))
  | _ => None
  end.

(** [EventLoop::loop], the poll and what it calls apart *)
Definition loop_step (c : loop_pc) (s : system) : option system :=
  match c with
  | LLooping => Some (goto LClearQuit (set_looping true s))
  | LClearQuit => Some (goto LTest (set_quit false s))
  | LTest => Some (goto (if quit_ s then LStop else LPoll) s)
  | LStop => Some (goto LDone (set_looping false s))
  | LHandle _ | LPush _ _ | LPushed _ => handler_step c s
  | LCalling | LLock | LSwap | LRun _ | LUnlock => doPendingFunctors_step c s
  | LPoll | LDone => None
  end.

(** The poll returns; the handlers of the channels it reported will queue [fs]. *)
Definition poll_step (fs : list F) (s : system) : option system :=
  match at_loop s with
  | LPoll => Some (goto (LHandle fs) s)
  | _ => None
  end.

(** [EventLoop::queueInLoop] in the thread [i], which is not the loop's *)
Definition queueInLoop_step (i : nat) (c : producer_pc) (todo : list F) (s : system) : option system :=
  match c, todo with
  | PLock, [] => None
  | PLock, f :: todo => set_thread i (Producer (PPush f) todo) <$> locking (By i) s
  | PPush f, _ => Some (set_thread i (Producer PWake todo) (push_back (Some i, f) s))
  | PWake, _ => Some (set_thread i (Producer PUnlock todo) (wakeup s))
  | PUnlock, _ => Some (set_thread i (Producer PLock todo) (set_mutex None s))
  end.

(** [pthread_join] of the loop's thread: it waits until [loop] has returned. *)
Definition joining (s : system) : option system :=
  match at_loop s with LDone => Some s | _ => None end.

(** [EventLoop::quit] in the thread [i], which is not the loop's, and the join of
    [EventLoopThread::~EventLoopThread] *)
Definition quit_step (i : nat) (c : quitter_pc) (joins : bool) (s : system) : option system :=
  match c with
  | QStore => Some (set_thread i (Quitter QWake joins) (set_quit true s))
  | QWake => Some (set_thread i (Quitter (if joins then QJoin else QDone) joins) (wakeup s))
  | QJoin => set_thread i (Quitter QDone joins) <$> joining s
  | QDone => None
  end.

Definition thread_step (i : nat) (s : system) : option system :=
  match threads s !! i with
  | None => None
  | Some (Producer c todo) => queueInLoop_step i c todo s
  | Some (Quitter c joins) => quit_step i c joins s
  end.

(** The scheduler lets the loop go on, lets its poll return, or lets the thread [i]
    go on. *)
Inductive action : Type := Loop | PollReturns (fs : list F) | Run (i : nat).

Definition step (a : action) (s : system) : option system :=
  match a with
  | Loop => loop_step (at_loop s) s
  | PollReturns fs => poll_step fs s
  | Run i => thread_step i s
  end.

Fixpoint run (sched : list action) (s : system) : option system :=
  match sched with
  | [] => Some s
  | a :: sched => s' ← step a s; run sched s'
  end.

(** A loop about to be entered, threads with the functors they will queue, and
    threads that will call [quit], with whether they then join the loop's thread. *)
Definition init (programs : list (list F)) (quitters : list bool) : system :=
  mkSystem LLooping false true false None [] [] 0 0
    ((Producer PLock <$> programs) ++ (Quitter QStore <$> quitters)).

(** ** The invariant *)

(** The functors that the loop has taken and not called yet. *)
Definition batch (c : loop_pc) : list entry :=
  match c with LRun functors => functors | _ => [] end.

(** All functors queued so far, in the order in which they were pushed. *)
Definition queued (s : system) : list entry := ran s ++ batch (at_loop s) ++ pending_functors_ s.

Definition loop_holds (c : loop_pc) : bool :=
  match c with LPush _ _ | LPushed _ | LSwap | LRun _ | LUnlock => true | _ => false end.

Definition thread_holds (t : thread) : bool :=
  match t with Producer (PPush _ | PWake | PUnlock) _ => true | _ => false end.

(** What a thread has still to push. *)
Definition to_push (t : thread) : list F :=
  match t with
  | Producer (PPush f) todo => f :: todo
  | Producer _ todo => todo
  | Quitter _ _ => []
  end.

(** The functors of [l] that the thread [i] queued. *)
Definition of_thread (i : nat) (l : list entry) : list F :=
  omap (λ e, if decide (e.1 = Some i) then Some e.2 else None) l.

(** After the swap and before the guard's end nobody can push. *)
Definition swapped (c : loop_pc) : bool :=
  match c with LRun _ | LUnlock => true | _ => false end.

Record ok (programs : list (list F)) (s : system) : Prop := {
  ok_loop : mutex_ s = Some ByLoop ↔ loop_holds (at_loop s) = true;
  ok_thread i : mutex_ s = Some (By i) ↔ ∃ t, threads s !! i = Some t ∧ thread_holds t = true;
  ok_order i t : threads s !! i = Some t →
    of_thread i (queued s) ++ to_push t = default [] (programs !! i);
  ok_swapped : swapped (at_loop s) = true → pending_functors_ s = [];
  ok_done : at_loop s = LDone → looping_ s = false
}.

Lemma of_thread_app i l k : of_thread i (l ++ k) = of_thread i l ++ of_thread i k.
Proof. apply omap_app. Qed.

(** The ways in which a step of [h] can change the mutex, by what [h] held. *)
Definition mutex_moved (h : holder) (before after : bool) (m m' : option holder) : Prop :=
  (after = before ∧ m' = m) ∨
  (after = true ∧ m = None ∧ m' = Some h) ∨
  (before = true ∧ after = false ∧ m' = None).

(** A step of the loop's thread *)
Lemma ok_loop_moved ps s s' :
  ok ps s → threads s' = threads s →
  mutex_moved ByLoop (loop_holds (at_loop s)) (loop_holds (at_loop s')) (mutex_ s) (mutex_ s') →
  (∀ i, of_thread i (queued s') = of_thread i (queued s)) →
  (swapped (at_loop s') = true → pending_functors_ s' = []) →
  (at_loop s' = LDone → looping_ s' = false) →
  ok ps s'.
Proof.
  intros [Hl Ht Ho _ _] Hth Hm Hq Hsw Hd. constructor; [| |by intros i t; rewrite Hth, Hq; apply Ho|done..].
  - destruct Hm as [[-> ->]|[(-> & _ & ->)|(_ & -> & ->)]]; [done|done|done].
  - intros i. rewrite Hth, <- Ht. destruct Hm as [[_ ->]|[(_ & -> & ->)|(Hb & _ & ->)]]; [done|done|].
    apply Hl in Hb. rewrite Hb. done.
Qed.

Lemma lookup_set_thread (l : list thread) i j t t' u :
  l !! i = Some t → <[i := t']> l !! j = Some u → (j = i ∧ u = t') ∨ (j ≠ i ∧ l !! j = Some u).
Proof.
  intros Hi Hj. destruct (decide (j = i)) as [->|Hne].
  - rewrite list_lookup_insert_eq in Hj by (by eapply lookup_lt_Some). simplify_eq. by left.
  - rewrite list_lookup_insert_ne in Hj by done. by right.
Qed.

(** A step of the thread [i], from [t] to [t'], that pushes [sent] *)
Lemma ok_thread_moved sent ps s s' i t t' :
  ok ps s → threads s !! i = Some t → threads s' = <[i := t']> (threads s) →
  at_loop s' = at_loop s → looping_ s' = looping_ s →
  mutex_moved (By i) (thread_holds t) (thread_holds t') (mutex_ s) (mutex_ s') →
  (∀ j, of_thread j (queued s') = of_thread j (queued s) ++
     if decide (j = i) then sent else []) →
  to_push t = sent ++ to_push t' →
  (pending_functors_ s' = pending_functors_ s ∨ thread_holds t = true) →
  ok ps s'.
Proof.
  intros Hok Hi Hth Hat Hlo Hm Hq Hp Hpend. pose proof Hok as [Hl Ht Ho Hsw Hd].
  constructor; rewrite ?Hat, ?Hlo, ?Hth; [| | | |done].
  - rewrite <- Hl. destruct Hm as [[_ ->]|[(_ & -> & ->)|(Hb & _ & ->)]]; [done|done|].
    assert (mutex_ s = Some (By i)) as -> by (apply Ht; eauto). done.
  - intros j. assert (mutex_ s = Some (By j) ↔ ∃ u, threads s !! j = Some u ∧ thread_holds u = true)
      as Hj by apply Ht.
    destruct (decide (j = i)) as [->|Hne].
    + rewrite list_lookup_insert_eq by (by eapply lookup_lt_Some).
      transitivity (thread_holds t' = true); [|split; [eauto|by intros (u & [= <-] & ?)]].
      destruct Hm as [[-> ->]|[(-> & _ & ->)|(Hb & -> & ->)]]; [|done|done].
      rewrite Hj. split; [intros (u & Hu & ?); by simplify_eq|eauto].
    + rewrite list_lookup_insert_ne by done. rewrite <- Hj.
      destruct Hm as [[_ ->]|[(_ & -> & ->)|(Hb & _ & ->)]]; [done| |].
      * split; [intros [= ->]; done|done].
      * assert (mutex_ s = Some (By i)) as -> by (apply Ht; eauto). split; [done|congruence].
  - intros j u Hu. rewrite Hq. destruct (lookup_set_thread _ _ _ _ _ _ Hi Hu) as [[-> ->]|[Hne Hj]].
    + rewrite decide_True by done. rewrite <- app_assoc, <- Hp. by apply Ho.
    + rewrite decide_False by done. rewrite app_nil_r. by apply Ho.
  - intros Hs. destruct Hpend as [->|Hh]; [by apply Hsw|].
    assert (mutex_ s = Some (By i)) as Hi' by (apply Ht; eauto).
    assert (mutex_ s = Some ByLoop) as Hl' by (apply Hl; by destruct (at_loop s)). congruence.
Qed.

(** Rewrites the functors of a thread in a concatenation. *)
Ltac entries := unfold queued; simpl; rewrite ?of_thread_app; simpl; rewrite ?app_nil_r, ?app_assoc.

Lemma ok_loop_step ps s s' : ok ps s → loop_step (at_loop s) s = Some s' → ok ps s'.
Proof.
  intros Hok Hs. pose proof Hok as [Hl _ _ Hsw _].
  destruct s as [c lo q ca m pe ra ro wa th]. simpl in *.
  destruct c as [| | | |[|f fs]|f fs|fs| | | |[|e b]| | |]; simpl in Hs; unfold locking, joining in Hs;
    simpl in Hs; repeat case_match; simplify_eq/=;
    (eapply ok_loop_moved; [exact Hok|try done|unfold mutex_moved; simpl; auto|..]);
    try done; try (by apply Hsw); try (intros i; entries; done).
  intros i. unfold queued. simpl. by rewrite <- app_assoc.
Qed.

Lemma ok_poll_step ps fs s s' : ok ps s → poll_step fs s = Some s' → ok ps s'.
Proof.
  intros Hok Hs. unfold poll_step in Hs. destruct (at_loop s) eqn:Hat; simplify_eq.
  apply (ok_loop_moved ps s); try done.
  - left. by rewrite Hat.
  - intros i. unfold queued. by rewrite Hat.
Qed.

Lemma of_thread_self i f : of_thread i [(Some i, f)] = [f].
Proof. unfold of_thread. simpl. by rewrite decide_True. Qed.

Lemma of_thread_other i j f : j ≠ i → of_thread j [(Some i, f)] = [].
Proof. intros. unfold of_thread. simpl. rewrite decide_False by congruence. done. Qed.

(** What one push adds to the functors of each thread *)
Lemma of_thread_push i j f :
  of_thread j [(Some i, f)] = if decide (j = i) then [f] else [].
Proof. case_decide; subst; [apply of_thread_self|by apply of_thread_other]. Qed.

Lemma ok_other_step ps i s s' : ok ps s → thread_step i s = Some s' → ok ps s'.
Proof.
  intros Hok Hs. unfold thread_step in Hs. destruct (threads s !! i) as [t|] eqn:Hi; [|done].
  assert (thread_holds t = true → mutex_ s = Some (By i)) as Hm by (intros; apply (ok_thread _ _ Hok); eauto).
  destruct s as [c lo q ca m pe ra ro wa th]. simpl in *.
  assert (∀ j, of_thread j (queued (mkSystem c lo q ca m pe ra ro wa th)) =
    of_thread j (queued (mkSystem c lo q ca m pe ra ro wa th)) ++ if decide (j = i) then [] else []) as Hnone
    by (intros; case_decide; by rewrite app_nil_r).
  destruct t as [[|f| |] [|f' todo]|[] []]; simpl in Hs; unfold locking, joining in Hs; simpl in Hs;
    repeat case_match; simplify_eq/=.
  all: try (eapply (ok_thread_moved []); [exact Hok|exact Hi|reflexivity|..]; try done; try exact Hnone;
    unfold mutex_moved; simpl; auto; done).
  all: eapply (ok_thread_moved [f]); [exact Hok|exact Hi|reflexivity|..]; try done; try (by left); try (by right).
  all: intros j; rewrite <- of_thread_push, <- of_thread_app; f_equal; unfold queued; simpl;
    by rewrite <- !app_assoc.
Qed.

Lemma ok_action ps a s s' : ok ps s → step a s = Some s' → ok ps s'.
Proof. destruct a; [apply ok_loop_step|apply ok_poll_step|apply ok_other_step]. Qed.

Lemma run_app l k s : run (l ++ k) s = s' ← run l s; run k s'.
Proof. revert s. induction l as [|a l IH]; intros s; [done|]. simpl. destruct (step a s); simpl; [apply IH|done]. Qed.

Lemma ok_schedule ps l s s' : ok ps s → run l s = Some s' → ok ps s'.
Proof.
  revert s. induction l as [|a l IH]; intros s Hok Hr; simplify_eq/=; [done|].
  apply bind_Some in Hr as (s1 & Hs & Hr). eapply IH; [|exact Hr]. by eapply ok_action.
Qed.

Lemma ok_started ps q : ok ps (init ps q).
Proof.
  constructor; simpl; try done.
  - intros i. split; [done|]. intros (t & [Ht|[_ Ht]]%lookup_app_Some & Hh).
    + apply list_lookup_fmap_Some in Ht as (l & -> & _). done.
    + apply list_lookup_fmap_Some in Ht as (j & -> & _). done.
  - intros i t [Ht|[Hle Ht]]%lookup_app_Some.
    + apply list_lookup_fmap_Some in Ht as (l & -> & Hl). simpl. by rewrite Hl.
    + apply list_lookup_fmap_Some in Ht as (j & -> & _). rewrite length_fmap in Hle.
      by rewrite (lookup_ge_None_2 ps i).
Qed.

Lemma ok_reachable ps q l s : run l (init ps q) = Some s → ok ps s.
Proof. apply ok_schedule, ok_started. Qed.

(** ** Monotonicity *)

Definition grows (s s' : system) : Prop :=
  queued s `prefix_of` queued s' ∧ ran s `prefix_of` ran s' ∧
  (rounds s' = rounds s ∨ rounds s' = S (rounds s) ∧ ran s' = queued s') ∧
  length (threads s') = length (threads s).

Lemma grows_same s s' :
  queued s' = queued s → ran s `prefix_of` ran s' → rounds s' = rounds s →
  length (threads s') = length (threads s) → grows s s'.
Proof. intros Hq Hr Hn Hl. split_and!; [by rewrite Hq|done|by left|done]. Qed.

Lemma grows_push e s s' :
  queued s' = queued s ++ [e] → ran s' = ran s → rounds s' = rounds s →
  length (threads s') = length (threads s) → grows s s'.
Proof. intros Hq Hr Hn Hl. split_and!; [rewrite Hq; by eexists|by rewrite Hr|by left|done]. Qed.

Lemma grows_step ps a s s' : ok ps s → step a s = Some s' → grows s s'.
Proof.
  intros Hok Hs. pose proof (ok_swapped _ _ Hok) as Hsw.
  destruct s as [c lo q ca m pe ra ro wa th]. destruct a as [|fs|i]; simpl in *.
  - destruct c as [| | | |[|f fs]|f fs|fs| | | |[|e b]| | |]; simpl in Hs; unfold locking, joining in Hs;
      simpl in Hs; repeat case_match; simplify_eq/=; try (by apply grows_same).
    + eapply grows_push; try done. unfold queued. simpl. by rewrite <- app_assoc.
    + apply grows_same; try done. unfold queued. simpl. by rewrite app_nil_r.
    + apply grows_same; try done; [|by eexists]. unfold queued. simpl. by rewrite <- app_assoc.
    + rewrite Hsw by done. split_and!; try done. right. unfold queued. simpl. by rewrite app_nil_r.
  - unfold poll_step in Hs. simpl in Hs. destruct c; simplify_eq. by apply grows_same.
  - unfold thread_step in Hs. simpl in Hs. destruct (th !! i) as [t|] eqn:Hi; [|done].
    destruct t as [[|f| |] [|f' todo]|[] []]; simpl in Hs; unfold locking, joining in Hs; simpl in Hs;
      repeat case_match; simplify_eq/=.
    all: try (apply grows_same; simpl; rewrite ?length_insert; done).
    all: eapply grows_push; simpl; rewrite ?length_insert; try done.
    all: unfold queued; simpl; by rewrite <- !app_assoc.
Qed.

Lemma grows_run ps l s s' :
  ok ps s → run l s = Some s' →
  queued s `prefix_of` queued s' ∧ ran s `prefix_of` ran s' ∧ (rounds s ≤ rounds s')%nat ∧
  (rounds s < rounds s' → queued s `prefix_of` ran s')%nat ∧ length (threads s') = length (threads s).
Proof.
  revert s. induction l as [|a l IH]; intros s Hok Hr; simplify_eq/=.
  { split_and!; try done. lia. }
  apply bind_Some in Hr as (s1 & Hs & Hr). pose proof (ok_action _ _ _ _ Hok Hs) as Hok1.
  destruct (grows_step _ _ _ _ Hok Hs) as (Hq & Hra & Hn & Hl).
  destruct (IH _ Hok1 Hr) as (Hq' & Hra' & Hn' & Hp & Hl').
  split_and!; [by etrans|by etrans|lia| |congruence].
  intros Hlt. destruct Hn as [Hn|[Hn Hall]].
  - etrans; [exact Hq|]. apply Hp. lia.
  - etrans; [exact Hq|]. rewrite <- Hall. exact Hra'.
Qed.

(** C17: functors handed to a loop by other threads, under every schedule: the
    pushes and the swap exclude each other, and the functors a thread queues are
    neither lost, repeated nor reordered: those that were run, then those the
    loop took, then those pending, then those the thread has still to push are
    the functors of that thread in its order. *)
Theorem functors_handed_over programs quitters sched s :
  run sched (init programs quitters) = Some s →
  (∀ i prog, programs !! i = Some prog → ∃ t, threads s !! i = Some t ∧
     of_thread i (ran s ++ batch (at_loop s) ++ pending_functors_ s) ++ to_push t = prog) ∧
  (∀ i t, threads s !! i = Some t → thread_holds t = true → loop_holds (at_loop s) = false ∧
     ∀ j u, threads s !! j = Some u → thread_holds u = true → j = i).
Proof.
  intros Hr. pose proof (ok_reachable _ _ _ _ Hr) as Hok. split.
  - intros i prog Hi.
    destruct (grows_run _ _ _ _ (ok_started programs quitters) Hr) as (_ & _ & _ & _ & Hlen).
    destruct (lookup_lt_is_Some_2 (threads s) i) as [t Ht].
    { rewrite Hlen. simpl. rewrite length_app, length_fmap. apply lookup_lt_Some in Hi. lia. }
    exists t. split; [done|]. pose proof (ok_order _ _ Hok i t Ht) as Ho. rewrite Hi in Ho. exact Ho.
  - intros i t Hi Hh. assert (mutex_ s = Some (By i)) as Hm by (apply (ok_thread _ _ Hok); eauto). split.
    + destruct (loop_holds _) eqn:Hl; [|done]. apply (ok_loop _ _ Hok) in Hl. congruence.
    + intros j u Hj Hu. assert (mutex_ s = Some (By j)) by (apply (ok_thread _ _ Hok); eauto).
      congruence.
Qed.

(** C18: whatever has been queued at some moment, by whatever threads and
    handlers, has been run, each functor once and in the order of queueing, when
    the loop next completes a round of [doPendingFunctors]. *)
Theorem round_runs_all_queued programs quitters sched1 sched2 s1 s2 :
  run sched1 (init programs quitters) = Some s1 → run sched2 s1 = Some s2 →
  (rounds s1 < rounds s2)%nat →
  queued s1 `prefix_of` ran s2.
Proof.
  intros H1 H2. by destruct (grows_run _ _ _ _ (ok_reachable _ _ _ _ H1) H2) as (_ & _ & _ & H & _).
Qed.

(** ** Quitting *)

(** A bound on the steps left once [quit_] is set *)
Definition loop_work (c : loop_pc) : nat :=
  match c with
  | LLooping | LClearQuit | LDone => 0
  | LStop => 1
  | LTest => 2
  | LUnlock => 3
  | LRun functors => 4 + length functors
  | LSwap => 5
  | LLock => 6
  | LCalling => 7
  | LHandle fs => 8 + 4 * length fs
  | LPushed fs => 9 + 4 * length fs
  | LPush _ fs => 11 + 4 * length fs
  | LPoll => 9
  end.

Definition thread_work (t : thread) : nat :=
  match t with
  | Producer PLock todo => 5 * length todo
  | Producer (PPush _) todo => 5 * length todo + 4
  | Producer PWake todo => 5 * length todo + 2
  | Producer PUnlock todo => 5 * length todo + 1
  | Quitter QStore _ => 3
  | Quitter QWake _ => 2
  | Quitter QJoin _ => 1
  | Quitter QDone _ => 0
  end.

Definition work (s : system) : nat :=
  loop_work (at_loop s) + length (pending_functors_ s) + sum_list (thread_work <$> threads s).

(** The steps that the functors of an action cost. *)
Definition cost (a : action) : nat := match a with PollReturns fs => 4 * length fs | _ => 0 end.

Definition entered (c : loop_pc) : bool :=
  match c with LLooping | LClearQuit => false | _ => true end.

Lemma work_step a s s' :
  quit_ s = true → entered (at_loop s) = true → step a s = Some s' →
  quit_ s' = true ∧ entered (at_loop s') = true ∧ (work s' < work s + cost a)%nat.
Proof.
  intros Hq He Hs. destruct s as [c lo q ca m pe ra ro wa th]. unfold work.
  destruct a as [|fs|i]; simpl in *; subst q.
  - destruct c as [| | | |[|f fs]|f fs|fs| | | |[|e b]| | |]; simpl in Hs; unfold locking, joining in Hs;
      simpl in Hs; repeat case_match; simplify_eq/=; rewrite ?length_app; simpl; split_and!; try done; lia.
  - unfold poll_step in Hs. simpl in Hs. destruct c; simplify_eq/=. split_and!; try done; lia.
  - unfold thread_step in Hs. simpl in Hs. destruct (th !! i) as [t|] eqn:Hi; [|done].
    destruct t as [[|f| |] [|f' todo]|[] []]; simpl in Hs; unfold locking, joining in Hs; simpl in Hs;
      repeat case_match; simplify_eq/=; rewrite ?length_app; simpl; split_and!; try done;
      match goal with |- context [<[i := ?t']> th] => pose proof (sum_list_insert thread_work _ _ _ t' Hi) end;
      simpl in *; lia.
Qed.

Lemma work_run l s s' :
  quit_ s = true → entered (at_loop s) = true → run l s = Some s' →
  (length l + work s' ≤ work s + sum_list (cost <$> l))%nat.
Proof.
  revert s. induction l as [|a l IH]; intros s Hq He Hr; simplify_eq/=; [lia|].
  apply bind_Some in Hr as (s1 & Hs & Hr). destruct (work_step _ _ _ Hq He Hs) as (Hq1 & He1 & Hw).
  specialize (IH _ Hq1 He1 Hr). lia.
Qed.

(** The thread has made all its calls. *)
Definition returned (t : thread) : Prop :=
  match t with
  | Producer c todo => to_push t = []
  | Quitter c _ => c = QDone
  end.

(** The holder of the mutex can go on, and so can everybody when nobody holds it. *)
Lemma stuck ps s :
  ok ps s → (∀ a, step a s = None) →
  at_loop s = LDone ∧ mutex_ s = None ∧ ∀ i t, threads s !! i = Some t → returned t.
Proof.
  intros Hok Hstuck. pose proof (Hstuck Loop) as Hloop. pose proof (Hstuck (PollReturns [])) as Hpoll.
  assert (mutex_ s = None) as Hm.
  { destruct (mutex_ s) as [[|i]|] eqn:Hm; [| |done]; exfalso.
    - apply (ok_loop _ _ Hok) in Hm. simpl in Hloop.
      by destruct (at_loop s) as [| | | |[|f fs]|f fs|fs| | | |[|e b]| | |].
    - apply (ok_thread _ _ Hok) in Hm as (t & Hi & Hh). specialize (Hstuck (Run i)). simpl in Hstuck.
      unfold thread_step in Hstuck. rewrite Hi in Hstuck. by destruct t as [[] ?|]. }
  assert (at_loop s = LDone) as Hd.
  { simpl in Hloop, Hpoll. unfold poll_step in Hpoll.
    destruct (at_loop s) as [| | | |[|f fs]|f fs|fs| | | |[|e b]| | |]; try done; simpl in Hloop;
      unfold locking in Hloop; by rewrite Hm in Hloop. }
  split_and!; [done..|]. intros i t Hi. specialize (Hstuck (Run i)). simpl in Hstuck.
  unfold thread_step in Hstuck. rewrite Hi in Hstuck.
  destruct t as [[|f| |] [|f' todo]|[] []]; try done; simpl in Hstuck;
    unfold locking, joining in Hstuck; by rewrite ?Hm, ?Hd in Hstuck.
Qed.

(** C21: once [quit_] is set and the loop was entered, every schedule ends, after a
    number of steps bounded by the work that is left; and it only ends when the loop
    has returned with [looping_] cleared, the mutex is free, every thread has pushed all
    its functors, and every call of [quit] and every destructor that joins the thread of
    the loop has returned.  No schedule deadlocks and no schedule runs on. *)
Theorem loop_ends_after_quit programs quitters sched1 sched2 s1 s2 :
  run sched1 (init programs quitters) = Some s1 → quit_ s1 = true → entered (at_loop s1) = true →
  run sched2 s1 = Some s2 →
  (length sched2 ≤ work s1 + sum_list (cost <$> sched2))%nat ∧
  ((∀ a, step a s2 = None) →
   at_loop s2 = LDone ∧ looping_ s2 = false ∧ mutex_ s2 = None ∧
   (∀ i prog, programs !! i = Some prog → of_thread i (queued s2) = prog) ∧
   ∀ i c joins, threads s2 !! i = Some (Quitter c joins) → c = QDone).
Proof.
  intros H1 Hq He H2. pose proof (work_run _ _ _ Hq He H2) as Hw. split; [lia|]. intros Hstuck.
  assert (run (sched1 ++ sched2) (init programs quitters) = Some s2) as Hr by by rewrite run_app, H1.
  pose proof (ok_reachable _ _ _ _ Hr) as Hok.
  destruct (stuck _ _ Hok Hstuck) as (Hd & Hm & Hp).
  split_and!; [done|by apply (ok_done _ _ Hok)|done| |intros i c joins Hi; apply (Hp _ _ Hi)].
  intros i prog Hi. destruct (grows_run _ _ _ _ (ok_started programs quitters) Hr) as (_ & _ & _ & _ & Hlen).
  destruct (lookup_lt_is_Some_2 (threads s2) i) as [t Ht].
  { rewrite Hlen. simpl. rewrite length_app, length_fmap. apply lookup_lt_Some in Hi. lia. }
  pose proof (ok_order _ _ Hok i t Ht) as Ho. assert (to_push t = []) as Hpt.
  { pose proof (Hp _ _ Ht) as Hret. by destruct t. }
  rewrite Hi, Hpt, app_nil_r in Ho. exact Ho.
Qed.

(** ** A call of [quit] that comes too early *)

(** The loop is over only after [quit_] was set, and joined only when it has returned. *)
Record ended (s : system) : Prop := {
  en_quit : at_loop s = LStop ∨ at_loop s = LDone → quit_ s = true;
  en_join i : threads s !! i = Some (Quitter QDone true) → at_loop s = LDone
}.

Lemma ended_init ps q : ended (init ps q).
Proof.
  constructor; simpl; [by intros [?|?]|].
  intros i [Ht|[_ Ht]]%lookup_app_Some; by apply list_lookup_fmap_Some in Ht as (? & ? & _).
Qed.

Lemma ended_step a s s' : ended s → step a s = Some s' → ended s'.
Proof.
  intros [Hq Hj] Hs. destruct s as [c lo q ca m pe ra ro wa th]. simpl in *.
  destruct a as [|fs|i]; simpl in *.
  - assert (∀ i, th !! i = Some (Quitter QDone true) → c = LDone) as Hj' by done.
    destruct c as [| | | |[|f fs]|f fs|fs| | | |[|e b]| | |]; simpl in Hs; unfold locking in Hs;
      simpl in Hs; repeat case_match; simplify_eq/=; constructor; simpl in *;
      solve [by intros [?|?] | by auto | intros i Hi; by apply Hj' in Hi | eauto].
  - unfold poll_step in Hs. simpl in Hs. destruct c; simplify_eq.
    constructor; simpl; [by intros [?|?]|]. intros i Hi. by apply Hj in Hi.
  - unfold thread_step in Hs. simpl in Hs. destruct (th !! i) as [t|] eqn:Hi; [|done].
    destruct t as [[|f| |] [|f' todo]|[] []]; simpl in Hs; unfold locking, joining in Hs; simpl in Hs;
      repeat case_match; simplify_eq/=; (constructor; simpl in *; [by auto|]);
      intros j Hjt; destruct (lookup_set_thread _ _ _ _ _ _ Hi Hjt) as [[_ ?]|[_ ?]]; eauto; done.
Qed.

(** No thread is before its store of [quit_], and the flag is clear. *)
Definition quits_lost (s : system) : Prop :=
  quit_ s = false ∧ ∀ i joins, threads s !! i ≠ Some (Quitter QStore joins).

Lemma quits_lost_step a s s' : quits_lost s → step a s = Some s' → quits_lost s'.
Proof.
  intros [Hq Ht] Hs. destruct s as [c lo q ca m pe ra ro wa th]. simpl in *.
  destruct a as [|fs|i]; simpl in *.
  - destruct c as [| | | |[|f fs]|f fs|fs| | | |[|e b]| | |]; simpl in Hs; unfold locking in Hs;
      simpl in Hs; repeat case_match; simplify_eq/=; by split.
  - unfold poll_step in Hs. simpl in Hs. destruct c; simplify_eq. by split.
  - unfold thread_step in Hs. simpl in Hs. destruct (th !! i) as [t|] eqn:Hi; [|done].
    destruct t as [[|f| |] [|f' todo]|[] joins]; simpl in Hs; unfold locking, joining in Hs; simpl in Hs;
      repeat case_match; simplify_eq/=; try (by destruct (Ht i joins)); (split; [done|]);
      intros j b Hjt; destruct (lookup_set_thread _ _ _ _ _ _ Hi Hjt) as [[_ ?]|[_ ?]]; try done;
      by eapply Ht.
Qed.

Lemma ended_run l s s' : ended s → run l s = Some s' → ended s'.
Proof.
  revert s. induction l as [|a l IH]; intros s He Hr; simplify_eq/=; [done|].
  apply bind_Some in Hr as (s1 & Hs & Hr). eapply IH; [|exact Hr]. by eapply ended_step.
Qed.

Lemma quits_lost_run l s s' : quits_lost s → run l s = Some s' → quits_lost s'.
Proof.
  revert s. induction l as [|a l IH]; intros s He Hr; simplify_eq/=; [done|].
  apply bind_Some in Hr as (s1 & Hs & Hr). eapply IH; [|exact Hr]. by eapply quits_lost_step.
Qed.

(** C25: a [quit] that is stored before the loop clears [quit_] is lost: once every
    thread that calls [quit] has made its store and the flag is clear again, the loop
    never returns, under any schedule, and the destructor of [EventLoopThread], which
    joins the loop's thread, never returns either.  [startLoop] lets its caller go on
    before the new thread enters [loop], so a destructor that follows it at once may be
    in this position. *)
Theorem early_quit_hangs programs quitters sched1 sched2 s1 s2 :
  run sched1 (init programs quitters) = Some s1 → quits_lost s1 → run sched2 s1 = Some s2 →
  at_loop s2 ≠ LDone ∧ ∀ i, threads s2 !! i ≠ Some (Quitter QDone true).
Proof.
  intros H1 Hl H2. destruct (quits_lost_run _ _ _ Hl H2) as [Hq _].
  assert (run (sched1 ++ sched2) (init programs quitters) = Some s2) as Hr by by rewrite run_app, H1.
  destruct (ended_run _ _ _ (ended_init programs quitters) Hr) as [He Hj].
  assert (at_loop s2 ≠ LDone) as Hd by (intros Hd; specialize (He (or_intror Hd)); congruence).
  split; [done|]. intros i Hi. by apply Hj in Hi.
Qed.

End handoff.

(** ** A concrete schedule

    Two threads queue 10, 11 and 20; a third calls [quit]; a handler of the
    first round queues 99.  The first thread pushes 10 before the swap, the rest is
    pushed after the first round. *)
Definition programs : list (list nat) := [[10; 11]; [20]]%nat.

Definition sched_one : list (@action nat) :=
  [Loop; Loop; Loop; Run 0; Run 0; Run 0; PollReturns [99%nat]; Run 0; Loop; Loop; Loop; Loop].

Definition sched_two : list (@action nat) :=
  [Run 1; Run 1; Loop; Run 1; Run 1; Loop; Loop; Loop; Loop; Loop; Loop; Loop; Run 0].

Definition sched_three : list (@action nat) :=
  [Run 2; Run 0; Run 0; Run 2; Run 0; Loop; Loop].

Lemma functors_handed_over_witness :
  ∃ s, run (sched_one ++ sched_two) (init programs [false]) = Some s ∧
    ran s = [(Some 0, 10); (None, 99); (Some 1, 20)]%nat ∧
    ∃ t, threads s !! 0%nat = Some t ∧
      of_thread 0 (ran s ++ batch (at_loop s) ++ pending_functors_ s) ++ to_push t = [10; 11]%nat.
Proof.
  destruct (run (sched_one ++ sched_two) (init programs [false])) as [s|] eqn:Hr; [|by vm_compute in Hr].
  exists s. split; [done|]. split; [by vm_compute in Hr; injection Hr as <-|].
  by apply (functors_handed_over _ _ _ _ Hr).
Defined.

Lemma round_runs_all_queued_witness :
  ∃ s1 s2, run sched_one (init programs [false]) = Some s1 ∧ run sched_two s1 = Some s2 ∧
    queued s1 = [(Some 0, 10); (None, 99)]%nat ∧ ran s1 = [] ∧ queued s1 `prefix_of` ran s2.
Proof.
  destruct (run sched_one (init programs [false])) as [s1|] eqn:H1; [|by vm_compute in H1].
  destruct (run sched_two s1) as [s2|] eqn:H2;
    [|vm_compute in H1; injection H1 as <-; by vm_compute in H2].
  assert (rounds s1 < rounds s2)%nat as Hlt.
  { vm_compute in H1; injection H1 as <-; vm_compute in H2; injection H2 as <-. simpl. lia. }
  exists s1, s2. split; [done|]. split; [done|].
  split; [by vm_compute in H1; injection H1 as <-|]. split; [by vm_compute in H1; injection H1 as <-|].
  exact (round_runs_all_queued _ _ _ _ _ _ H1 H2 Hlt).
Defined.

Lemma loop_ends_after_quit_witness :
  ∃ s1 s2, run (sched_one ++ sched_two ++ [Run 2%nat]) (init programs [false]) = Some s1 ∧
    run (tail sched_three) s1 = Some s2 ∧ at_loop s2 = LDone ∧ looping_ s2 = false ∧
    of_thread 0 (queued s2) = [10; 11]%nat.
Proof.
  destruct (run (sched_one ++ sched_two ++ [Run 2%nat]) (init programs [false])) as [s1|] eqn:H1;
    [|by vm_compute in H1].
  destruct (run (tail sched_three) s1) as [s2|] eqn:H2;
    [|vm_compute in H1; injection H1 as <-; by vm_compute in H2].
  assert (quit_ s1 = true ∧ entered (at_loop s1) = true) as [Hq He]
    by (vm_compute in H1; by injection H1 as <-).
  destruct (loop_ends_after_quit _ _ _ _ _ _ H1 Hq He H2) as [_ Hend].
  destruct Hend as (Hd & Hlo & _ & Hall).
  { vm_compute in H1; injection H1 as <-; vm_compute in H2; injection H2 as <-.
    intros [|fs|[|[|[|i]]]]; done. }
  exists s1, s2. split; [done|]. split; [done|]. split; [done|]. split; [done|]. by apply Hall.
Defined.

(** The destructor of an [EventLoopThread] right after [startLoop]. *)
Lemma early_quit_hangs_witness :
  ∃ s1 s2, run [Loop; Run 0%nat; Loop; Run 0%nat] (init (F := nat) [] [true]) = Some s1 ∧
    run [Loop; PollReturns []; Loop; Loop; Loop; Loop; Loop; Loop; Loop] s1 = Some s2 ∧
    threads s2 !! 0%nat = Some (Quitter QJoin true) ∧ at_loop s2 = LPoll ∧
    at_loop s2 ≠ LDone.
Proof.
  destruct (run [Loop; Run 0%nat; Loop; Run 0%nat] (init (F := nat) [] [true])) as [s1|] eqn:H1;
    [|by vm_compute in H1].
  destruct (run [Loop; PollReturns []; Loop; Loop; Loop; Loop; Loop; Loop; Loop] s1) as [s2|] eqn:H2;
    [|vm_compute in H1; injection H1 as <-; by vm_compute in H2].
  assert (quits_lost s1) as Hl.
  { vm_compute in H1. injection H1 as <-. split; [done|]. by intros [|[|i]] joins. }
  destruct (early_quit_hangs _ _ _ _ _ _ H1 Hl H2) as [Hd _].
  exists s1, s2. split; [done|]. split; [done|].
  split; [|split; [|done]]; vm_compute in H1; injection H1 as <-; vm_compute in H2; by injection H2 as <-.
Defined.

End Handoff.
