(* ===== verification/Double.v ===== *)
(** * Doubles

    [double] is IEEE 754 binary64, computed by the Standard Library's
    specification of floating-point arithmetic; this file has the conversions
    from and to 64-bit integers and shows that products of whole numbers below
    2^53 are exact. *)

From Stdlib Require Import SpecFloat.
From S2P Require Import Prelude.

Module Double.

Definition double : Type := spec_float.

(** [static_cast<double>], and the conversion of an operand: round to nearest even *)
Definition of_int (z : Z) : double := binary_normalize 53 1024 z 0 false.

Definition mul : double → double → double := SFmul 53 1024.
Definition div : double → double → double := SFdiv 53 1024.
Definition gt (x y : double) : bool := SFltb y x.

(** [static_cast<int64_t>]: towards zero; undefined outside the range *)
Definition to_int64 (x : double) : option Z :=
  match x with
  | S754_zero _ => Some 0
  | S754_finite s m e =>
      let z := if 0 <=? e then Z.shiftl (Zpos m) e else Z.shiftr (Zpos m) (- e) in
      let z := if s then - z else z in
      if in_range 64 z then Some z else None
  | S754_infinity _ | S754_nan => None
  end.

(** ** Exact products *)

Lemma digits2_bounds p :
  2 ^ (Zpos (digits2_pos p) - 1) ≤ Zpos p < 2 ^ Zpos (digits2_pos p).
Proof.
  induction p as [p IH|p IH|]; simpl digits2_pos; [..|done];
    rewrite Pos2Z.inj_succ; unfold Z.succ;
    replace (Zpos (digits2_pos p) + 1 - 1) with (Z.succ (Zpos (digits2_pos p) - 1)) by lia;
    rewrite Z.pow_succ_r, Z.pow_add_r by lia; lia.
Qed.

(** The number of digits is determined by the bounds. *)
Lemma digits2_unique p d :
  0 < d → 2 ^ (d - 1) ≤ Zpos p < 2 ^ d → Zpos (digits2_pos p) = d.
Proof.
  intros Hd Hp. pose proof (digits2_bounds p) as Hb.
  assert (d - 1 < Zpos (digits2_pos p)) by (apply (Z.pow_lt_mono_r_iff 2); lia).
  assert (Zpos (digits2_pos p) - 1 < d) by (apply (Z.pow_lt_mono_r_iff 2); lia).
  lia.
Qed.

Lemma digits2_shift p k :
  0 ≤ k → Zpos (digits2_pos (Z.to_pos (Zpos p * 2 ^ k))) = Zpos (digits2_pos p) + k.
Proof.
  intros Hk. pose proof (digits2_bounds p) as Hb. pose proof (Z.pow_pos_nonneg 2 k).
  apply digits2_unique; [lia|]. rewrite Z2Pos.id by lia.
  replace (Zpos (digits2_pos p) + k - 1) with (Zpos (digits2_pos p) - 1 + k) by lia.
  rewrite !Z.pow_add_r by lia. nia.
Qed.

(** The number of digits of a positive integer. *)
Definition nd (z : Z) : Z := Zpos (digits2_pos (Z.to_pos z)).

Lemma nd_small z d : 0 < z < 2 ^ d → nd z ≤ d.
Proof.
  intros Hz. unfold nd. pose proof (digits2_bounds (Z.to_pos z)) as Hb.
  rewrite Z2Pos.id in Hb by lia.
  assert (Zpos (digits2_pos (Z.to_pos z)) - 1 < d); [|lia].
  apply (Z.pow_lt_mono_r_iff 2); [lia| |lia].
  destruct (Z.le_gt_cases 0 d); [done|]. rewrite (Z.pow_neg_r 2 d) in Hz by lia. lia.
Qed.

Lemma nd_pos z : 0 < nd z.
Proof. unfold nd. lia. Qed.

Lemma nd_bounds z : 0 < z → 2 ^ (nd z - 1) ≤ z < 2 ^ nd z.
Proof. intros Hz. pose proof (digits2_bounds (Z.to_pos z)). by rewrite Z2Pos.id in * by lia. Qed.

(** A positive integer of at most 53 digits as a binary64 number. *)
Definition whole (s : bool) (z : Z) : double :=
  S754_finite s (Z.to_pos (z * 2 ^ (53 - nd z))) (nd z - 53).

Lemma iter_xO p d : Zpos (Pos.iter xO p d) = Zpos p * 2 ^ Zpos d.
Proof.
  induction d as [|d IH] using Pos.peano_ind; [simpl; lia|].
  rewrite Pos.iter_succ, Pos2Z.inj_succ, Z.pow_succ_r by lia. lia.
Qed.

Lemma shl_align_pow p e d :
  0 ≤ d → shl_align p e (e - d) = (Z.to_pos (Zpos p * 2 ^ d), e - d).
Proof.
  intros Hd. unfold shl_align. replace (e - d - e) with (- d) by lia.
  destruct d as [|d|d]; [|simpl|lia].
  - rewrite Z.mul_1_r. simpl. f_equal. lia.
  - f_equal. apply Pos2Z.inj. pose proof (Z.pow_pos_nonneg 2 (Zpos d)).
    by rewrite iter_xO, Z2Pos.id by lia.
Qed.

Lemma shr_1_double z :
  0 < z → shr_1 (Build_shr_record (z * 2) false false) = Build_shr_record z false false.
Proof. intros. destruct z as [|z|z]; [lia| |lia]. by rewrite Z.mul_comm. Qed.

Lemma iter_shr z k :
  0 < z → SpecFloat.iter_pos shr_1 k (Build_shr_record (z * 2 ^ Zpos k) false false) =
            Build_shr_record z false false.
Proof.
  revert z. induction k as [k IH|k IH|]; intros z Hz; cbn [SpecFloat.iter_pos].
  - replace (z * 2 ^ Zpos k~1) with (z * 2 ^ Zpos k * 2 ^ Zpos k * 2).
    2: { replace (Zpos k~1) with (Zpos k + Zpos k + 1) by lia. rewrite !Z.pow_add_r by lia. lia. }
    pose proof (Z.pow_pos_nonneg 2 (Zpos k)).
    rewrite shr_1_double, IH, IH by nia. done.
  - replace (z * 2 ^ Zpos k~0) with (z * 2 ^ Zpos k * 2 ^ Zpos k).
    2: { replace (Zpos k~0) with (Zpos k + Zpos k) by lia. rewrite !Z.pow_add_r by lia. lia. }
    pose proof (Z.pow_pos_nonneg 2 (Zpos k)). rewrite IH, IH by nia. done.
  - by apply shr_1_double.
Qed.

Lemma shr_exact z e k :
  0 < z → 0 ≤ k →
  shr (Build_shr_record (z * 2 ^ k) false false) e k = (Build_shr_record z false false, e + k).
Proof.
  intros Hz Hk. destruct k as [|k|k]; [|simpl; by rewrite iter_shr|lia].
  simpl. f_equal; [f_equal|]; lia.
Qed.

(** Rounding is exact when only zeros are cut off. *)
Lemma round_exact s z k e :
  0 < z → 0 ≤ k → nd z = 53 → -1074 ≤ e + k ≤ 971 →
  binary_round_aux 53 1024 s (z * 2 ^ k) e loc_Exact = S754_finite s (Z.to_pos z) (e + k).
Proof.
  intros Hz Hk Hnd He. unfold binary_round_aux, shr_fexp. simpl shr_record_of_loc.
  pose proof (Z.pow_pos_nonneg 2 k).
  assert (Zdigits2 (z * 2 ^ k) = 53 + k) as ->.
  { rewrite <- Hnd. unfold nd. rewrite <- digits2_shift, Z2Pos.id by lia.
    destruct (z * 2 ^ k) eqn:Hm; [nia|done|nia]. }
  assert (fexp 53 1024 (53 + k + e) - e = k) as -> by (unfold fexp, emin; lia).
  rewrite shr_exact by lia. simpl round_nearest_even.
  assert (Zdigits2 z = 53) as ->.
  { rewrite <- Hnd. unfold nd. destruct z; [lia|done|lia]. }
  assert (fexp 53 1024 (53 + (e + k)) - (e + k) = 0) as -> by (unfold fexp, emin; lia).
  simpl. destruct z as [|p|p]; [lia| |lia]. by rewrite (proj2 (Z.leb_le _ _)) by lia.
Qed.

Lemma nd_normal z : 0 < z < 2 ^ 53 → nd (z * 2 ^ (53 - nd z)) = 53.
Proof.
  intros Hz. pose proof (nd_small z 53 Hz). unfold nd at 1.
  pose proof (digits2_shift (Z.to_pos z) (53 - nd z)) as H1. unfold nd in *.
  rewrite Z2Pos.id in H1 by lia. rewrite H1; lia.
Qed.

(** A rounding of [z * 2 ^ k] at the exponent [- k] is [z]. *)
Lemma round_whole s z k :
  0 < z < 2 ^ 53 → 53 - nd z ≤ k →
  binary_round_aux 53 1024 s (z * 2 ^ k) (- k) loc_Exact = whole s z.
Proof.
  intros Hz Hk. pose proof (nd_small z 53 Hz). pose proof (nd_pos z).
  pose proof (Z.pow_pos_nonneg 2 (53 - nd z)).
  replace (z * 2 ^ k) with (z * 2 ^ (53 - nd z) * 2 ^ (k - (53 - nd z))).
  2: { rewrite <- Z.mul_assoc, <- Z.pow_add_r by lia. do 2 f_equal. lia. }
  rewrite round_exact; [|nia|lia|by apply nd_normal|lia].
  unfold whole. f_equal. lia.
Qed.

Lemma of_int_whole z : 0 < z < 2 ^ 53 → of_int z = whole false z ∧ of_int (- z) = whole true z.
Proof.
  intros Hz. destruct z as [|p|p]; try lia. unfold of_int. simpl binary_normalize.
  unfold binary_round. pose proof (nd_small _ _ Hz). pose proof (nd_pos (Zpos p)).
  assert (fexp 53 1024 (Zpos (digits2_pos p) + 0) = 0 - (53 - nd (Zpos p))) as ->
    by (unfold nd, fexp, emin in *; simpl in *; lia).
  rewrite shl_align_pow by lia. rewrite Z2Pos.id by nia. simpl.
  rewrite <- !(round_whole _ (Zpos p) (53 - nd (Zpos p))) by lia. done.
Qed.

Lemma mul_whole s s' a b :
  0 < a → 0 < b → a * b < 2 ^ 53 → mul (whole s a) (whole s' b) = whole (xorb s s') (a * b).
Proof.
  intros Ha Hb Hab. assert (a < 2 ^ 53 ∧ b < 2 ^ 53) as [Ha' Hb'] by nia.
  pose proof (nd_small a 53). pose proof (nd_small b 53). pose proof (nd_small (a * b) 53).
  unfold mul, whole at 1 2. simpl SFmul.
  rewrite Pos2Z.inj_mul, !Z2Pos.id by nia.
  replace (a * 2 ^ (53 - nd a) * (b * 2 ^ (53 - nd b)))
    with (a * b * 2 ^ (53 - nd a + (53 - nd b))) by (rewrite Z.pow_add_r by lia; lia).
  replace (nd a - 53 + (nd b - 53)) with (- (53 - nd a + (53 - nd b))) by lia.
  apply round_whole; [nia|]. assert (nd a + nd b - 2 < nd (a * b)); [|lia].
  apply (Z.pow_lt_mono_r_iff 2); [lia|pose proof (nd_pos (a * b)); lia|].
  pose proof (nd_bounds a Ha). pose proof (nd_bounds b Hb). pose proof (nd_bounds (a * b)).
  replace (nd a + nd b - 2) with (nd a - 1 + (nd b - 1)) by lia.
  pose proof (nd_pos a). pose proof (nd_pos b). rewrite Z.pow_add_r by lia. nia.
Qed.

(** The product of two whole numbers below 2^53 is exact. *)
Lemma mul_of_int a b :
  a ≠ 0 → 0 < b → - 2 ^ 53 < a * b < 2 ^ 53 → mul (of_int a) (of_int b) = of_int (a * b).
Proof.
  intros Ha Hb Hab. destruct (Z.lt_total a 0) as [Hn|[?|Hp]]; [|lia|].
  - assert (- a ≤ - a * b ∧ b ≤ - a * b) as [? ?] by (split; nia).
    replace a with (- - a) at 1 by lia. replace (a * b) with (- (- a * b)) by lia.
    rewrite (proj2 (of_int_whole (- a) ltac:(lia))), (proj1 (of_int_whole b ltac:(lia))).
    rewrite (proj2 (of_int_whole (- a * b) ltac:(lia))). apply mul_whole; lia.
  - assert (a ≤ a * b ∧ b ≤ a * b) as [? ?] by (split; nia).
    rewrite (proj1 (of_int_whole a ltac:(lia))), (proj1 (of_int_whole b ltac:(lia))).
    rewrite (proj1 (of_int_whole (a * b) ltac:(lia))). apply mul_whole; lia.
Qed.

Lemma to_int64_whole s z :
  0 < z < 2 ^ 53 → to_int64 (whole s z) = Some (if s then - z else z).
Proof.
  intros Hz. pose proof (nd_small z 53 Hz). pose proof (Z.pow_pos_nonneg 2 (53 - nd z)).
  unfold whole, to_int64. rewrite Z2Pos.id by nia.
  assert ((if 0 <=? nd z - 53 then Z.shiftl (z * 2 ^ (53 - nd z)) (nd z - 53)
           else Z.shiftr (z * 2 ^ (53 - nd z)) (- (nd z - 53))) = z) as ->.
  { case Z.leb_spec; intros Hle.
    - replace (nd z) with 53 by lia. change (53 - 53) with 0. rewrite Z.shiftl_0_r. lia.
    - replace (- (nd z - 53)) with (53 - nd z) by lia.
      rewrite Z.shiftr_div_pow2, Z.div_mul by lia. done. }
  rewrite in_range_true; [done|]. destruct s; lia.
Qed.

Lemma to_int64_of_int z : - 2 ^ 53 < z < 2 ^ 53 → to_int64 (of_int z) = Some z.
Proof.
  intros Hz. destruct (Z.lt_total z 0) as [Hn|[->|Hp]]; [|done|].
  - replace z with (- - z) at 1 by lia. rewrite (proj2 (of_int_whole (- z) ltac:(lia))).
    rewrite to_int64_whole by lia. f_equal. lia.
  - rewrite (proj1 (of_int_whole z ltac:(lia))). apply to_int64_whole. lia.
Qed.

End Double.
