(* ===== verification/Gmtime.v ===== *)
(** * The calendar of the C library

    [gmtime_r] breaks a count of seconds since the Epoch into the fields of
    [struct tm] of the proleptic Gregorian calendar.  It is computed by eras of
    400 years and related to the formula of POSIX ("Seconds Since the Epoch"). *)

From S2P Require Import Prelude.

Module Gmtime.

Record tm : Type := mkTm {
  tm_sec : Z; tm_min : Z; tm_hour : Z; tm_mday : Z; tm_mon : Z; tm_year : Z
}.

(** The date of a day of an era that starts on the first of March: the year in
    the era, the month (1 to 12) and the day. *)
Definition date_of_era_day (doe : Z) : Z * Z * Z :=
  let yoe := (doe - doe / 1460 + doe / 36524 - doe / 146096) / 365 in
  let doy := doe - (365 * yoe + yoe / 4 - yoe / 100) in
  let mp := (5 * doy + 2) / 153 in
  let d := doy - (153 * mp + 2) / 5 + 1 in
  let m := if mp <? 10 then mp + 3 else mp - 9 in
  (if m <=? 2 then yoe + 1 else yoe, m, d).

(** The date of a day since the Epoch. *)
Definition date (days : Z) : Z * Z * Z :=
  let z := days + 719468 in
  let '(y, m, d) := date_of_era_day (z mod 146097) in
  (y + z / 146097 * 400, m, d).

Definition gmtime (t : Z) : tm :=
  let '(y, m, d) := date (t / 86400) in
  let s := t mod 86400 in
  mkTm (s mod 60) (s / 60 mod 60) (s / 3600) d (m - 1) (y - 1900).

(** ** The formula of POSIX *)

Definition leap (y : Z) : bool :=
  (y mod 4 =? 0) && (negb (y mod 100 =? 0) || (y mod 400 =? 0)).

Definition month_lengths (b : bool) : list Z :=
  [31; if b then 29 else 28; 31; 30; 31; 30; 31; 31; 30; 31; 30; 31].

Definition sum : list Z → Z := foldr Z.add 0.

(** [tm_yday] *)
Definition yday (t : tm) : Z :=
  sum (take (Z.to_nat (tm_mon t)) (month_lengths (leap (tm_year t + 1900)))) + tm_mday t - 1.

Definition seconds_since_epoch (t : tm) : Z :=
  tm_sec t + tm_min t * 60 + tm_hour t * 3600 + yday t * 86400 +
  (tm_year t - 70) * 31536000 + ((tm_year t - 69) / 4) * 86400 -
  ((tm_year t - 1) / 100) * 86400 + ((tm_year t + 299) / 400) * 86400.

(** The fields are in their ranges. *)
Definition valid (t : tm) : bool :=
  (0 <=? tm_sec t) && (tm_sec t <? 60) && (0 <=? tm_min t) && (tm_min t <? 60) &&
  (0 <=? tm_hour t) && (tm_hour t <? 24) && (0 <=? tm_mon t) && (tm_mon t <? 12) &&
  (1 <=? tm_mday t) &&
  (tm_mday t <=? nth (Z.to_nat (tm_mon t)) (month_lengths (leap (tm_year t + 1900))) 0).

(** ** The calendar is the one of POSIX *)

(** A property of all numbers from [lo] to [lo + 2 ^ depth - 1]. *)
Fixpoint all_from (f : Z → bool) (depth : nat) (lo : Z) : bool :=
  match depth with
  | O => f lo
  | S depth => all_from f depth lo && all_from f depth (lo + 2 ^ Z.of_nat depth)
  end.

Lemma all_from_spec f depth lo z :
  all_from f depth lo = true → lo ≤ z < lo + 2 ^ Z.of_nat depth → f z = true.
Proof.
  revert lo. induction depth as [|depth IH]; intros lo Hall Hz; simpl all_from in Hall.
  - simpl in Hz. by replace z with lo by lia.
  - apply andb_true_iff in Hall as [Hl Hr].
    rewrite Nat2Z.inj_succ, Z.pow_succ_r in Hz by lia.
    destruct (Z.lt_ge_cases z (lo + 2 ^ Z.of_nat depth)); [apply (IH lo)|eapply IH]; eauto; lia.
Qed.

(** Midnight of a date. *)
Definition midnight (y m d : Z) : tm := mkTm 0 0 0 d (m - 1) (y - 1900).

(** The days before the year [y] of an era, which starts in March. *)
Definition before (y : Z) : Z := 365 * y + y / 4 - y / 100 + y / 400.

Definition year_of_era_day (doe : Z) : Z := (doe - doe / 1460 + doe / 36524 - doe / 146096) / 365.

Lemma year_of_era_day_mono x y : x ≤ y → year_of_era_day x ≤ year_of_era_day y.
Proof.
  intros Hxy. unfold year_of_era_day. apply Z.div_le_mono; [lia|].
  change 146096 with (36524 * 4). rewrite <- !Z.div_div by lia.
  pose proof (Z.div_le_mono x y 36524 ltac:(lia) Hxy) as Hw.
  revert Hw. generalize (x / 36524) (y / 36524). intros w v Hw.
  Z.to_euclidean_division_equations. lia.
Qed.

(** What is checked of each of the 400 years [y] of an era: the first and the last
    day are in it, and the days before January and before March in the formula. *)
Definition epoch_days (y : Z) : Z :=
  (y - 1970) * 365 + (y - 1969) / 4 - (y - 1901) / 100 + (y - 1601) / 400.

Definition bit (b : bool) : Z := if b then 1 else 0.

Definition year_ok (y : Z) : bool :=
  (400 <=? y) ||
  (year_of_era_day (before y) =? y) && (year_of_era_day (before (y + 1) - 1) =? y) &&
  (before (y + 1) - before y =? 365 + bit (leap (y + 1))) &&
  (before y =? 365 * y + y / 4 - y / 100) &&
  (epoch_days y + 59 + bit (leap y) =? before y - 719468) &&
  (epoch_days (y + 1) - 306 =? before y - 719468).

Lemma years_ok : all_from year_ok 9 0 = true.
Proof. vm_compute. reflexivity. Qed.

(** What is checked of each of the 366 days of a year: its month and day, in a year
    that is leap or not. *)
Definition month_of_day (doy : Z) : Z :=
  let mp := (5 * doy + 2) / 153 in if mp <? 10 then mp + 3 else mp - 9.
Definition mday_of_day (doy : Z) : Z :=
  let mp := (5 * doy + 2) / 153 in doy - (153 * mp + 2) / 5 + 1.

Definition day_ok (b : bool) (doy : Z) : bool :=
  let m := month_of_day doy in
  let d := mday_of_day doy in
  (365 + bit b <=? doy) ||
  (1 <=? m) && (m <=? 12) && (1 <=? d) &&
  (d <=? nth (Z.to_nat (m - 1)) (month_lengths b) 0) &&
  (sum (take (Z.to_nat (m - 1)) (month_lengths b)) + d - 1 =?
     (if m <=? 2 then doy - 306 else doy + 59 + bit b)).

Lemma days_ok :
  all_from (day_ok true) 9 0 = true ∧ all_from (day_ok false) 9 0 = true.
Proof. split; vm_compute; reflexivity. Qed.

Lemma year_exists doe n :
  0 ≤ doe < before (Z.of_nat n) →
  ∃ y, 0 ≤ y < Z.of_nat n ∧ before y ≤ doe < before (y + 1).
Proof.
  induction n as [|n IH]; intros Hdoe; [change (before (Z.of_nat 0)) with 0 in Hdoe; lia|].
  rewrite Nat2Z.inj_succ in *. unfold Z.succ in *.
  destruct (Z.lt_ge_cases doe (before (Z.of_nat n))) as [Hlt|Hge].
  - destruct IH as (y & Hy & Hd); [lia|]. exists y. lia.
  - exists (Z.of_nat n). lia.
Qed.

Lemma era_year doe :
  0 ≤ doe < 146097 →
  let y := year_of_era_day doe in
  0 ≤ y < 400 ∧ year_ok y = true ∧ before y ≤ doe < before (y + 1).
Proof.
  intros Hdoe. simpl.
  assert (∃ y, 0 ≤ y < 400 ∧ before y ≤ doe < before (y + 1)) as (y & Hy & Hdays).
  { by apply (year_exists doe 400). }
  pose proof (all_from_spec _ _ _ y years_ok ltac:(lia)) as Hok.
  assert (year_of_era_day doe = y) as ->; [|done].
  unfold year_ok in Hok. rewrite (proj2 (Z.leb_gt _ _)) in Hok by lia. simpl in Hok.
  rewrite !andb_true_iff, !Z.eqb_eq in Hok. destruct Hok as (((((Hlo & Hhi) & _) & _) & _) & _).
  pose proof (year_of_era_day_mono (before y) doe). 
  pose proof (year_of_era_day_mono doe (before (y + 1) - 1)). lia.
Qed.

Lemma march_to_december doy : doy < 366 → 2 < month_of_day doy → doy < 306.
Proof.
  intros Hd. unfold month_of_day. case Z.ltb_spec; intros Hmp Hm; Z.to_euclidean_division_equations; lia.
Qed.

(** The date of a day of an era is the one of the formula. *)
Lemma date_of_era_day_ok doe y m d :
  0 ≤ doe < 146097 → date_of_era_day doe = (y, m, d) →
  seconds_since_epoch (midnight y m d) = (doe - 719468) * 86400 ∧ valid (midnight y m d) = true.
Proof.
  intros Hdoe. destruct (era_year doe Hdoe) as (Hy & Hok & Hdays). revert Hy Hok Hdays.
  unfold date_of_era_day. fold (year_of_era_day doe). set (yoe := year_of_era_day doe).
  intros Hy Hok Hdays.
  unfold year_ok in Hok. rewrite (proj2 (Z.leb_gt _ _)) in Hok by lia. simpl in Hok.
  rewrite !andb_true_iff, !Z.eqb_eq in Hok.
  destruct Hok as (((((_ & _) & Hlen) & Hbefore) & Hmarch) & Hjan).
  rewrite <- Hbefore. set (doy := doe - before yoe). fold (mday_of_day doy) (month_of_day doy).
  set (b := leap (if month_of_day doy <=? 2 then yoe + 1 else yoe)).
  assert (day_ok b doy = true) as Hd.
  { destruct days_ok as [Ht Hf].
    destruct b; [apply (all_from_spec _ _ _ _ Ht)|apply (all_from_spec _ _ _ _ Hf)];
      unfold doy; destruct (leap (yoe + 1)); simpl in Hlen; lia. }
  assert (doy < 365 + bit b) as Hlt.
  { unfold b, doy. case Z.leb_spec; intros Hm; [lia|]. pose proof (march_to_december doy) as H. unfold doy in *.
    destruct (leap (yoe + 1)), (leap yoe); simpl in *; lia. }
  intros [= <- <- <-].
  unfold day_ok in Hd. rewrite (proj2 (Z.leb_gt _ _)) in Hd by lia. simpl in Hd.
  rewrite !andb_true_iff, !Z.leb_le, Z.eqb_eq in Hd.
  destruct Hd as ((((Hm1 & Hm2) & Hd1) & Hd2) & Hsum).
  set (year := if month_of_day doy <=? 2 then yoe + 1 else yoe) in *.
  split.
  - unfold seconds_since_epoch, yday. simpl.
    replace (year - 1900 + 1900) with year by lia. fold b. rewrite Hsum.
    assert (epoch_days year + (if month_of_day doy <=? 2 then doy - 306 else doy + 59 + bit b)
            = doe - 719468) as Heq.
    { unfold b, year, doy. case Z.leb_spec; intros; lia. }
    unfold epoch_days in Heq.
    replace (year - 1900 - 69) with (year - 1969) by lia.
    replace (year - 1900 - 1) with (year - 1901) by lia.
    replace (year - 1900 + 299) with (year - 1601) by lia. lia.
  - unfold valid. simpl. replace (year - 1900 + 1900) with year by lia. fold b.
    rewrite !andb_true_iff. repeat split; lia.
Qed.

(** 400 years are 146097 days. *)
Lemma leap_shift y e : leap (y + e * 400) = leap y.
Proof.
  unfold leap. replace (y + e * 400) with (y + (e * 100) * 4) at 1 by lia.
  replace (y + e * 400) with (y + (e * 4) * 100) at 1 by lia.
  by rewrite !Z.mod_add by lia.
Qed.

Lemma seconds_shift y m d e :
  seconds_since_epoch (midnight (y + e * 400) m d) =
  seconds_since_epoch (midnight y m d) + e * 146097 * 86400.
Proof.
  unfold seconds_since_epoch, yday, month_lengths; simpl.
  replace (y + e * 400 - 1900 + 1900) with (y + e * 400) by lia.
  replace (y - 1900 + 1900) with y by lia. rewrite leap_shift.
  replace (y + e * 400 - 1900 - 69) with (y - 1900 - 69 + (e * 100) * 4) by lia.
  replace (y + e * 400 - 1900 - 1) with (y - 1900 - 1 + (e * 4) * 100) by lia.
  replace (y + e * 400 - 1900 + 299) with (y - 1900 + 299 + e * 400) by lia.
  rewrite !Z.div_add by lia. lia.
Qed.

Lemma valid_shift y m d e : valid (midnight (y + e * 400) m d) = valid (midnight y m d).
Proof.
  unfold valid, month_lengths. simpl.
  replace (y + e * 400 - 1900 + 1900) with (y + e * 400) by lia.
  replace (y - 1900 + 1900) with y by lia. by rewrite leap_shift.
Qed.

Lemma date_ok days y m d :
  date days = (y, m, d) →
  seconds_since_epoch (midnight y m d) = days * 86400 ∧ valid (midnight y m d) = true.
Proof.
  unfold date. set (z := days + 719468).
  destruct (date_of_era_day (z mod 146097)) as [[y' m'] d'] eqn:Hdate. intros [= <- <- <-].
  pose proof (Z.mod_pos_bound z 146097 ltac:(lia)) as Hz.
  destruct (date_of_era_day_ok _ _ _ _ Hz Hdate) as [Hs Hv].
  rewrite seconds_shift, valid_shift, Hs. split; [|done].
  pose proof (Z.div_mod z 146097). lia.
Qed.

(** The fields [gmtime] computes are in range, and the formula of POSIX gives back
    the time. *)
Lemma gmtime_ok t : valid (gmtime t) = true ∧ seconds_since_epoch (gmtime t) = t.
Proof.
  unfold gmtime. destruct (date (t / 86400)) as [[y m] d] eqn:Hdate.
  apply date_ok in Hdate as [Hs Hv]. set (s := t mod 86400).
  assert (0 ≤ s < 86400) as Hs' by (apply Z.mod_pos_bound; lia).
  pose proof (Z.mod_pos_bound s 60). pose proof (Z.mod_pos_bound (s / 60) 60).
  assert (s / 3600 < 24) by (apply Z.div_lt_upper_bound; lia).
  assert (0 ≤ s / 3600) by (apply Z.div_pos; lia). split.
  - unfold valid in *. simpl in *. rewrite !andb_true_iff in *. repeat split; try apply Hv; lia.
  - unfold seconds_since_epoch, yday in *. simpl in *.
    pose proof (Z.div_mod t 86400). pose proof (Z.div_mod s 60). pose proof (Z.div_mod (s / 60) 60).
    replace (s / 3600) with (s / 60 / 60) by (by rewrite Z.div_div by lia).
    unfold s in *. lia.
Qed.

Lemma months_bounds b n : 0 ≤ sum (take n (month_lengths b)) ≤ 366 ∧
  nth n (month_lengths b) 0 ≤ 31.
Proof. destruct b; do 12 (destruct n as [|n]; [done|]); by destruct n. Qed.

Lemma valid_ranges t :
  valid t = true →
  0 ≤ tm_sec t < 60 ∧ 0 ≤ tm_min t < 60 ∧ 0 ≤ tm_hour t < 24 ∧ 0 ≤ tm_mon t < 12 ∧
  1 ≤ tm_mday t ≤ 31.
Proof.
  unfold valid. rewrite !andb_true_iff, !Z.leb_le, !Z.ltb_lt. intros Hv.
  pose proof (months_bounds (leap (tm_year t + 1900)) (Z.to_nat (tm_mon t))). lia.
Qed.

Lemma yday_bounds t : valid t = true → 0 ≤ yday t ≤ 400.
Proof.
  unfold valid, yday. rewrite !andb_true_iff, !Z.leb_le, !Z.ltb_lt. intros Hv.
  pose proof (months_bounds (leap (tm_year t + 1900)) (Z.to_nat (tm_mon t))). lia.
Qed.

(** The year has four digits until the end of 9999. *)
Lemma gmtime_year t : 0 ≤ t < 253402300800 → -900 ≤ tm_year (gmtime t) < 8100.
Proof.
  intros Ht. destruct (gmtime_ok t) as [Hv Hs]. pose proof (yday_bounds _ Hv) as Hd.
  unfold seconds_since_epoch in Hs. unfold valid in Hv.
  rewrite !andb_true_iff, !Z.leb_le, !Z.ltb_lt in Hv.
  generalize dependent (yday (gmtime t)). generalize dependent (gmtime t). intros g Hv d Hs Hd.
  destruct Hv as (((((((((? & ?) & ?) & ?) & ?) & ?) & _) & _) & _) & _).
  generalize dependent (tm_year g). intros y Hs. Z.to_euclidean_division_equations. lia.
Qed.

End Gmtime.
