(* ===== verification/Timestamp.v ===== *)
(** * Time stamps (src/src/include/timestamp.h, src/src/timestamp.cpp)

    A [Timestamp] is a signed 64-bit count of microseconds since the Epoch.  Its
    texts are those of [snprintf] (Format) and [gmtime_r] (Gmtime), and the
    differences in seconds are doubles (Double). *)

From S2P Require Import Prelude Format Double Gmtime.

Module Timestamp.

Record Timestamp : Type := mkTimestamp { microSecondsSinceEpoch : Z }.

#[export] Instance timestamp_eq_dec : EqDecision Timestamp.
Proof. solve_decision. Defined.

Definition microSecondsPerSecond : Z := 1000 * 1000.

Definition invalid : Timestamp := mkTimestamp 0.

Definition valid (t : Timestamp) : bool := 0 <? microSecondsSinceEpoch t.

Definition swap (t that : Timestamp) : Timestamp * Timestamp :=
  (mkTimestamp (microSecondsSinceEpoch that), mkTimestamp (microSecondsSinceEpoch t)).

(** [operator<] and [operator==] *)
Definition lt (lhs rhs : Timestamp) : bool :=
  microSecondsSinceEpoch lhs <? microSecondsSinceEpoch rhs.

Definition eq (lhs rhs : Timestamp) : bool :=
  microSecondsSinceEpoch lhs =? microSecondsSinceEpoch rhs.

(** [Timestamp::now], given the [timeval] that [gettimeofday] stores. *)
Definition now (tv_sec tv_usec : Z) : result Timestamp :=
  s ← checked 64 (tv_sec * microSecondsPerSecond);
  us ← checked 64 (s + tv_usec);
  mret (mkTimestamp us).

(** [toString]; the division of C truncates. *)
Definition toString (t : Timestamp) : string :=
  let seconds := Z.quot (microSecondsSinceEpoch t) microSecondsPerSecond in
  let microseconds := Z.rem (microSecondsSinceEpoch t) microSecondsPerSecond in
  Format.snprintf (32 - 1) (Format.dec seconds +:+ "." +:+ Format.dec_zero 6 microseconds).

Definition toFormattedString (t : Timestamp) : string :=
  let seconds := Z.quot (microSecondsSinceEpoch t) microSecondsPerSecond in
  let microseconds := wrap_signed 32 (Z.rem (microSecondsSinceEpoch t) microSecondsPerSecond) in
  let tm_time := Gmtime.gmtime seconds in
  Format.snprintf 64
    (Format.dec_pad 4 (Gmtime.tm_year tm_time + 1900) +:+
     Format.dec_zero 2 (Gmtime.tm_mon tm_time + 1) +:+
     Format.dec_zero 2 (Gmtime.tm_mday tm_time) +:+ " " +:+
     Format.dec_zero 2 (Gmtime.tm_hour tm_time) +:+ ":" +:+
     Format.dec_zero 2 (Gmtime.tm_min tm_time) +:+ ":" +:+
     Format.dec_zero 2 (Gmtime.tm_sec tm_time) +:+ "." +:+
     Format.dec_zero 6 microseconds).

Definition timeDifference (high low : Timestamp) : result Double.double :=
  diff ← checked 64 (microSecondsSinceEpoch high - microSecondsSinceEpoch low);
  mret (Double.div (Double.of_int diff) (Double.of_int microSecondsPerSecond)).

(** A conversion outside the range of [int64_t] is undefined, like an overflow. *)
Definition addTime (timestamp : Timestamp) (seconds : Double.double) : result Timestamp :=
  delta ← result_of_option SignedOverflow
    (Double.to_int64 (Double.mul seconds (Double.of_int microSecondsPerSecond)));
  us ← checked 64 (microSecondsSinceEpoch timestamp + delta);
  mret (mkTimestamp us).

End Timestamp.
