(* ===== verification/TimestampTheorems.v ===== *)
(** * Time stamps: texts and arithmetic in seconds

    The texts of a time can be read back, and what adding a [double] of seconds
    does to a time. *)

From Stdlib Require Import Ascii.
From S2P Require Import Prelude Format Double Gmtime Timestamp.

Module TimestampTheorems.
Import Timestamp.

Implicit Types (t : Timestamp).

(** ** Reading the texts back *)

Lemma field_whole len s : String.length s = len → Format.field 0 len s = Format.parse s 0.
Proof. intros <-. unfold Format.field. by rewrite Format.substring_prefix. Qed.

(** Seconds, a point and six digits. *)
Definition of_string (s : string) : Timestamp :=
  let n := (String.length s - 7)%nat in
  mkTimestamp (Format.field 0 n s * microSecondsPerSecond + Format.field (n + 1) 6 s).

(** "YYYYMMDD HH:MM:SS.uuuuuu", with the seconds of the formula of POSIX. *)
Definition of_formatted (s : string) : Timestamp :=
  let tm := Gmtime.mkTm (Format.field 15 2 s) (Format.field 12 2 s) (Format.field 9 2 s)
    (Format.field 6 2 s) (Format.field 4 2 s - 1) (Format.field 0 4 s - 1900) in
  mkTimestamp (Gmtime.seconds_since_epoch tm * microSecondsPerSecond + Format.field 18 6 s).

(** A non-negative time as seconds and microseconds. *)
Lemma split_time us :
  0 ≤ us →
  ∃ s m, Z.quot us microSecondsPerSecond = s ∧ Z.rem us microSecondsPerSecond = m ∧
         us = s * microSecondsPerSecond + m ∧ 0 ≤ s ≤ us ∧ 0 ≤ m < microSecondsPerSecond.
Proof.
  intros Hus. do 2 eexists. split; [done|]. split; [done|].
  pose proof (Z.quot_rem us microSecondsPerSecond ltac:(done)).
  pose proof (Z.rem_bound_pos us microSecondsPerSecond Hus ltac:(done)).
  pose proof (Z.quot_pos us microSecondsPerSecond Hus ltac:(done)).
  unfold microSecondsPerSecond in *. lia.
Qed.

Lemma toString_parts s m :
  0 ≤ s < 10 ^ 20 → 0 ≤ m < microSecondsPerSecond →
  of_string (Format.dec s +:+ "." +:+ Format.dec_zero 6 m) =
    mkTimestamp (s * microSecondsPerSecond + m).
Proof.
  intros Hs Hm. destruct (Format.dec_zero_field 6 m) as [Hlen Hval]; [unfold Format.max_digits; lia|done|].
  unfold of_string. rewrite !Format.length_string_app, Hlen. cbn [String.length].
  replace (_ - 7)%nat with (String.length (Format.dec s)) by lia.
  rewrite Format.field_front by done.
  erewrite Format.field_skip by (done || lia).
  rewrite (Format.field_skip _ 1) by (done || lia).
  replace (_ - 1)%nat with 0%nat by lia.
  rewrite field_whole by done. rewrite Hval. do 2 f_equal. f_equal.
  unfold Format.dec. rewrite (proj2 (Z.ltb_ge _ _)) by lia. by apply Format.parse_digits.
Qed.

(** the text of a time after the Epoch is never truncated, and the seconds and
    the six digits after the point give the time back: [toString] is injective. *)
Theorem toString_roundtrip t :
  0 ≤ microSecondsSinceEpoch t < 2 ^ 63 →
  of_string (toString t) = t ∧ (String.length (toString t) ≤ 27)%nat.
Proof.
  intros Ht. destruct t as [us]. unfold toString. simpl in *.
  destruct (split_time us) as (s & m & -> & -> & Hus & Hs & Hm); [lia|].
  destruct (Format.dec_zero_field 6 m) as [Hlen _]; [unfold Format.max_digits; lia|done|].
  pose proof (Format.length_dec 20 s ltac:(lia) ltac:(lia)) as Hdec.
  assert (String.length (Format.dec s +:+ "." +:+ Format.dec_zero 6 m) ≤ 27)%nat as Hl.
  { rewrite !Format.length_string_app, Hlen. cbn [String.length]. lia. }
  rewrite Format.snprintf_fits by lia. split; [|done].
  rewrite toString_parts by (done || lia). by rewrite <- Hus.
Qed.

Lemma toString_roundtrip_witness :
  of_string (toString (mkTimestamp 1700000000000042)) = mkTimestamp 1700000000000042 ∧
  toString (mkTimestamp 1700000000000042) = "1700000000.000042"%string.
Proof.
  split; [|vm_compute; reflexivity].
  apply (toString_roundtrip (mkTimestamp 1700000000000042)). simpl. lia.
Defined.

(** Reading a field of a concatenation of texts of known lengths. *)
Ltac skip_field :=
  erewrite Format.field_skip; [|first [eassumption | reflexivity]|cbn [String.length]; lia];
  cbn [Nat.sub String.length].
Ltac read_field :=
  repeat skip_field; first [by apply Format.field_front | by apply field_whole].

Lemma formatted_fields Y M D h m s u :
  String.length Y = 4%nat → String.length M = 2%nat → String.length D = 2%nat →
  String.length h = 2%nat → String.length m = 2%nat → String.length s = 2%nat →
  String.length u = 6%nat →
  let text := Y +:+ M +:+ D +:+ " " +:+ h +:+ ":" +:+ m +:+ ":" +:+ s +:+ "." +:+ u in
  String.length text = 24%nat ∧
  of_formatted text = mkTimestamp
    (Gmtime.seconds_since_epoch (Gmtime.mkTm (Format.parse s 0) (Format.parse m 0)
       (Format.parse h 0) (Format.parse D 0) (Format.parse M 0 - 1) (Format.parse Y 0 - 1900))
     * microSecondsPerSecond + Format.parse u 0).
Proof.
  intros HY HM HD Hh Hm Hs Hu text. split.
  { unfold text. rewrite !Format.length_string_app, HY, HM, HD, Hh, Hm, Hs, Hu. reflexivity. }
  assert (Format.field 0 4 text = Format.parse Y 0) as HfY by (unfold text; read_field).
  assert (Format.field 4 2 text = Format.parse M 0) as HfM by (unfold text; read_field).
  assert (Format.field 6 2 text = Format.parse D 0) as HfD by (unfold text; read_field).
  assert (Format.field 9 2 text = Format.parse h 0) as Hfh by (unfold text; read_field).
  assert (Format.field 12 2 text = Format.parse m 0) as Hfm by (unfold text; read_field).
  assert (Format.field 15 2 text = Format.parse s 0) as Hfs by (unfold text; read_field).
  assert (Format.field 18 6 text = Format.parse u 0) as Hfu by (unfold text; read_field).
  unfold of_formatted. by rewrite HfY, HfM, HfD, Hfh, Hfm, Hfs, Hfu.
Qed.

Lemma two_digits z :
  0 ≤ z < 100 →
  String.length (Format.dec_zero 2 z) = 2%nat ∧ Format.parse (Format.dec_zero 2 z) 0 = z.
Proof. intros. apply Format.dec_zero_field; [unfold Format.max_digits; lia|done]. Qed.

(** C30: until the end of the year 9999 the formatted text of a time has 24
    characters, and its fields, put into the formula of POSIX for the seconds since the
    Epoch, give the time back: the calendar date and the time of day are right. *)
Theorem toFormattedString_roundtrip t :
  0 ≤ microSecondsSinceEpoch t < 253402300800 * microSecondsPerSecond →
  String.length (toFormattedString t) = 24%nat ∧ of_formatted (toFormattedString t) = t.
Proof.
  intros Ht. destruct t as [us]. unfold toFormattedString. cbn [microSecondsSinceEpoch] in *.
  destruct (split_time us) as (s & m & -> & -> & Hus & Hs & Hm); [lia|].
  assert (0 ≤ s < 253402300800) as Hsec by (unfold microSecondsPerSecond in *; lia).
  rewrite wrap_signed_small by (unfold microSecondsPerSecond in *; lia).
  destruct (Gmtime.gmtime_ok s) as [Hv Hsum]. pose proof (Gmtime.gmtime_year s Hsec) as Hy.
  apply Gmtime.valid_ranges in Hv.
  destruct (Gmtime.gmtime s) as [sec mi h d mon y]. simpl in Hv, Hy.
  cbn [Gmtime.tm_sec Gmtime.tm_min Gmtime.tm_hour Gmtime.tm_mday Gmtime.tm_mon Gmtime.tm_year].
  destruct (Format.dec_pad_field 3 (y + 1900)) as [HlY HvY]; [unfold Format.max_digits; lia|lia|].
  destruct (two_digits (mon + 1)) as [HlM HvM]; [lia|].
  destruct (two_digits d) as [HlD HvD]; [lia|]. destruct (two_digits h) as [Hlh Hvh]; [lia|].
  destruct (two_digits mi) as [Hlm Hvm]; [lia|]. destruct (two_digits sec) as [Hls Hvs]; [lia|].
  destruct (Format.dec_zero_field 6 m) as [Hlu Hvu]; [unfold Format.max_digits; lia|done|].
  destruct (formatted_fields _ _ _ _ _ _ _ HlY HlM HlD Hlh Hlm Hls Hlu) as [Hlen Hback].
  rewrite Format.snprintf_fits by lia. split; [done|].
  rewrite Hback, HvY, HvM, HvD, Hvh, Hvm, Hvs, Hvu, Hus. f_equal. f_equal. f_equal.
  rewrite <- Hsum. f_equal. f_equal; lia.
Qed.

Lemma toFormattedString_roundtrip_witness :
  of_formatted (toFormattedString (mkTimestamp 1709210096000042)) = mkTimestamp 1709210096000042 ∧
  toFormattedString (mkTimestamp 1709210096000042) = "20240229 12:34:56.000042"%string.
Proof.
  split; [|vm_compute; reflexivity].
  apply (toFormattedString_roundtrip (mkTimestamp 1709210096000042)).
  unfold microSecondsPerSecond. simpl. lia.
Defined.

(** ** Arithmetic in seconds *)

(** Adding a whole number of seconds below 2^53 microseconds is exact, whatever
    its sign, and the only failure is a result outside 64 bits. *)
Theorem addTime_whole_seconds t n :
  - 2 ^ 53 < n * microSecondsPerSecond < 2 ^ 53 →
  addTime t (Double.of_int n) =
    (us ← checked 64 (microSecondsSinceEpoch t + n * microSecondsPerSecond);
     mret (mkTimestamp us)).
Proof.
  intros Hn. unfold addTime. destruct (decide (n = 0)) as [->|Hn0]; [done|].
  rewrite Double.mul_of_int by done. by rewrite Double.to_int64_of_int.
Qed.

Lemma addTime_whole_seconds_witness :
  addTime (mkTimestamp 5) (Double.of_int (-3)) = Ok (mkTimestamp (-2999995)).
Proof.
  transitivity (us ← checked 64 (5 + -3 * microSecondsPerSecond); mret (mkTimestamp us)).
  - apply (addTime_whole_seconds (mkTimestamp 5) (-3)). unfold microSecondsPerSecond. lia.
  - reflexivity.
Defined.

(** The double of a literal [n / 1000]. *)
Definition thousandths (n : Z) : Double.double := Double.div (Double.of_int n) (Double.of_int 1000).

(** Fractions of a second lose microseconds, because the product is truncated:
    adding 1.001 seconds adds 1000999 microseconds, and adding the difference of two
    times that are 249 microseconds apart does not lead from one to the other. *)
Theorem fractions_of_seconds_truncated :
  addTime (mkTimestamp 0) (thousandths 1001) = Ok (mkTimestamp 1000999) ∧
  (d ← timeDifference (mkTimestamp 249) (mkTimestamp 0); addTime (mkTimestamp 0) d)
    = Ok (mkTimestamp 248).
Proof. split; vm_compute; reflexivity. Qed.

End TimestampTheorems.
