(* ===== verification/Buffer.v ===== *)
(** * The application buffer (src/src/include/buffer.h, src/src/buffer.cpp)

    [Buffer] is a growable byte array with a read index and a write index.
    Every operation of the class is a definition; the operations that can
    abort, throw or run outside the array return a [result].  [contents] is
    the abstract value of a buffer, a byte queue, and the theorems of this
    file say how each operation acts on it. *)

From S2P Require Import Prelude.

Module Buffer.

Section operations.
Context `{B : Build}.

Definition CheapPrependSize : Z := 8.
Definition InitialSize : Z := 1024.

Record Buffer : Type := mkBuffer {
  buffer_ : list byte;
  reader_idx_ : Z;
  writer_idx_ : Z
}.

Definition readableBytes (b : Buffer) : Z := u64 (writer_idx_ b - reader_idx_ b).

Definition writableBytes (b : Buffer) : Z := u64 (zlen (buffer_ b) - writer_idx_ b).

Definition prependableBytes (b : Buffer) : Z := reader_idx_ b.

(** The members the constructor initialises, before its asserts. *)
Definition init : Buffer := {|
  buffer_ := replicate (Z.to_nat (CheapPrependSize + InitialSize)) x00;
  reader_idx_ := CheapPrependSize;
  writer_idx_ := CheapPrependSize
|}.

Definition Buffer_ctor : result Buffer :=
  _ ← assert_ (readableBytes init =? 0);
  _ ← assert_ (writableBytes init =? InitialSize);
  _ ← assert_ (prependableBytes init =? CheapPrependSize);
  mret init.

Definition swap (b rhs : Buffer) : Buffer * Buffer :=
  (mkBuffer (buffer_ rhs) (reader_idx_ rhs) (writer_idx_ rhs),
   mkBuffer (buffer_ b) (reader_idx_ b) (writer_idx_ b)).

(** Pointers into the array are offsets from [begin()]. *)
Definition peek (b : Buffer) : Z := reader_idx_ b.

Definition beginWrite (b : Buffer) : Z := writer_idx_ b.

(** What a call that is given [peek()] and [readableBytes()] reads. *)
Definition read_peek (b : Buffer) : result (list byte) :=
  read_range (peek b) (peek b + readableBytes b) (buffer_ b).

Definition retrieve (len : Z) (b : Buffer) : result Buffer :=
  _ ← assert_ (len <=? readableBytes b);
  mret (mkBuffer (buffer_ b) (u64 (reader_idx_ b + len)) (writer_idx_ b)).

Definition retrieveUntil (end_ : Z) (b : Buffer) : result Buffer :=
  _ ← assert_ (peek b <=? end_);
  _ ← assert_ (end_ <=? beginWrite b);
  retrieve (u64 (end_ - peek b)) b.

Definition retrieveAll (b : Buffer) : Buffer :=
  mkBuffer (buffer_ b) CheapPrependSize CheapPrependSize.

Definition retrieveAsString (b : Buffer) : result (list byte * Buffer) :=
  str ← read_peek b;
  mret (str, retrieveAll b).

Definition makeSpace (len : Z) (b : Buffer) : result Buffer :=
  if u64 (writableBytes b + prependableBytes b) <? u64 (len + CheapPrependSize) then
    buf ← vector_resize (u64 (writer_idx_ b + len)) (buffer_ b);
    mret (mkBuffer buf (reader_idx_ b) (writer_idx_ b))
  else
    _ ← assert_ (CheapPrependSize <? reader_idx_ b);
    let readable := readableBytes b in
    d ← read_range (reader_idx_ b) (writer_idx_ b) (buffer_ b);
    buf ← write_range CheapPrependSize d (buffer_ b);
    let b' := mkBuffer buf CheapPrependSize (u64 (CheapPrependSize + readable)) in
    _ ← assert_ (readable =? readableBytes b');
    mret b'.

Definition ensureWritableBytes (len : Z) (b : Buffer) : result Buffer :=
  b' ← (if writableBytes b <? len then makeSpace len b else mret b);
  _ ← assert_ (len <=? writableBytes b');
  mret b'.

Definition hasWritten (len : Z) (b : Buffer) : Buffer :=
  mkBuffer (buffer_ b) (reader_idx_ b) (u64 (writer_idx_ b + len)).

Definition append (data : list byte) (b : Buffer) : result Buffer :=
  b' ← ensureWritableBytes (zlen data) b;
  buf ← write_range (beginWrite b') data (buffer_ b');
  mret (hasWritten (zlen data) (mkBuffer buf (reader_idx_ b') (writer_idx_ b'))).

Definition prepend (data : list byte) (b : Buffer) : result Buffer :=
  _ ← assert_ (zlen data <=? prependableBytes b);
  let reader := u64 (reader_idx_ b - zlen data) in
  buf ← write_range reader data (buffer_ b);
  mret (mkBuffer buf reader (writer_idx_ b)).

Definition shrink (reserve : Z) (b : Buffer) : result Buffer :=
  buf ← vector_resize (u64 (CheapPrependSize + readableBytes b + reserve)) [];
  d ← read_range (peek b) (peek b + readableBytes b) (buffer_ b);
  buf' ← write_range CheapPrependSize d buf;
  mret (mkBuffer buf' (reader_idx_ b) (writer_idx_ b)).

(** ** [readFd]

    The outcome of [readv(2)]: the bytes received, in the order they fill the
    two areas, or the [errno] of a failed call. *)
Inductive readv_result : Type :=
  | ReadvBytes (data : list byte)
  | ReadvError (errno : Z).

(** [sizeof extrabuf] *)
Definition extrabuf_size : Z := 65536.

(** The room of the two areas of [vec]. *)
Definition iov_room (b : Buffer) : Z := writableBytes b + extrabuf_size.

(** [readv] scatters the bytes: the first [writable] of them go to
    [begin() + writer_idx_], the others to [extrabuf].  The result is the
    return value, [errno] where the call failed, and the buffer. *)
Definition readFd (r : readv_result) (b : Buffer) : result (Z * option Z * Buffer) :=
  let writable := writableBytes b in
  match r with
  | ReadvError errno => mret (-1, Some errno, b)
  | ReadvBytes data =>
      let n := zlen data in
      let fst_area := take (Z.to_nat writable) data in
      let extrabuf := drop (Z.to_nat writable) data in
      buf ← write_range (writer_idx_ b) fst_area (buffer_ b);
      let b1 := mkBuffer buf (reader_idx_ b) (writer_idx_ b) in
      if n <=? writable then
        mret (n, None, mkBuffer buf (reader_idx_ b1) (u64 (writer_idx_ b1 + n)))
      else
        b2 ← append extrabuf (mkBuffer buf (reader_idx_ b1) (zlen buf));
        mret (n, None, b2)
  end.

End operations.

Arguments readFd {B} r b : simpl never.
Arguments append {B} data b : simpl never.

(** ** Well-formedness and the abstract value *)

(** The picture in the header of the class: 0 <= reader <= writer <= size. *)
Record wf (b : Buffer) : Prop := {
  wf_reader : 0 ≤ reader_idx_ b;
  wf_order : reader_idx_ b ≤ writer_idx_ b;
  wf_writer : writer_idx_ b ≤ zlen (buffer_ b);
  wf_cheap : CheapPrependSize ≤ zlen (buffer_ b);
  wf_size : zlen (buffer_ b) ≤ vector_max_size
}.

(** The readable bytes, [peek(), beginWrite()). *)
Definition contents (b : Buffer) : list byte :=
  slice (reader_idx_ b) (writer_idx_ b) (buffer_ b).

(** Bytes of the array that hold no content. *)
Definition slack (b : Buffer) : Z := zlen (buffer_ b) - zlen (contents b).

(** Unfolds the record hypotheses and normalises sizes for [lia]. *)
Ltac unfold_buffer :=
  repeat match goal with
  | H : wf _ |- _ => destruct H
  end;
  unfold readableBytes, writableBytes, prependableBytes, peek, beginWrite,
    CheapPrependSize, vector_max_size in *; simpl in *.

Lemma readableBytes_wf b : wf b → readableBytes b = writer_idx_ b - reader_idx_ b.
Proof. intros. unfold_buffer. apply u64_small. lia. Qed.

Lemma writableBytes_wf b : wf b → writableBytes b = zlen (buffer_ b) - writer_idx_ b.
Proof. intros. unfold_buffer. apply u64_small. lia. Qed.

Lemma contents_length b : wf b → zlen (contents b) = readableBytes b.
Proof.
  intros H. rewrite (readableBytes_wf b H). destruct H.
  unfold contents. by apply zlen_slice.
Qed.

Lemma contents_bound b : wf b → 0 ≤ zlen (contents b) ≤ vector_max_size.
Proof.
  intros H. rewrite contents_length, readableBytes_wf by done. destruct H. lia.
Qed.

Create HintDb buffer.
#[export] Hint Resolve contents_length contents_bound : buffer.

Section correctness.
Context `{B : Build}.

Lemma init_wf : wf init.
Proof. constructor; vm_compute; congruence. Qed.

Lemma contents_init : contents init = [].
Proof. reflexivity. Qed.

Lemma Buffer_ctor_ok : Buffer_ctor = Ok init.
Proof. unfold Buffer_ctor. rewrite !assert_true by reflexivity. reflexivity. Qed.

(** *** Reading *)

Lemma retrieve_ok len b :
  wf b → 0 ≤ len ≤ readableBytes b →
  ∃ b', retrieve len b = Ok b' ∧ wf b' ∧
        contents b' = drop (Z.to_nat len) (contents b) ∧
        writer_idx_ b' = writer_idx_ b ∧ buffer_ b' = buffer_ b.
Proof.
  intros Hwf Hlen. unfold retrieve.
  rewrite assert_true by (apply Z.leb_le; lia). rewrite bind_ok.
  rewrite readableBytes_wf in Hlen by done. destruct Hwf as [Hr Ho Hw Hc Hs].
  unfold vector_max_size in *.
  rewrite u64_small by lia.
  eexists. split; [done|]. split; [constructor; simpl; unfold vector_max_size; lia|].
  split; [|done].
  unfold contents. simpl. apply slice_drop; lia.
Qed.

Lemma retrieveAll_wf b : wf b → wf (retrieveAll b).
Proof. intros []. unfold CheapPrependSize in *. constructor; simpl; unfold CheapPrependSize; lia. Qed.

Lemma retrieveAll_contents b : contents (retrieveAll b) = [].
Proof. apply slice_empty. simpl. lia. Qed.

Lemma read_peek_ok b : wf b → read_peek b = Ok (contents b).
Proof.
  intros Hwf. unfold read_peek, peek. rewrite readableBytes_wf by done.
  destruct Hwf. rewrite read_range_ok by lia. unfold contents. do 2 f_equal. lia.
Qed.

Lemma retrieveAsString_ok b :
  wf b → retrieveAsString b = Ok (contents b, retrieveAll b).
Proof. intros Hwf. unfold retrieveAsString. by rewrite read_peek_ok. Qed.

Lemma retrieveUntil_ok end_ b :
  wf b → reader_idx_ b ≤ end_ ≤ writer_idx_ b →
  retrieveUntil end_ b = retrieve (end_ - reader_idx_ b) b.
Proof.
  intros Hwf He. unfold retrieveUntil, peek, beginWrite.
  rewrite !assert_true by (apply Z.leb_le; lia). rewrite !bind_ok.
  destruct Hwf. unfold vector_max_size in *. rewrite u64_small by lia. done.
Qed.

(** *** Making room *)

(** [len] more bytes can be stored: by growing the array at its end, or by
    moving the content to the front. *)
Definition fits (len : Z) (b : Buffer) : Prop :=
  writer_idx_ b + len ≤ vector_max_size ∨ len + CheapPrependSize ≤ slack b ∨
  len ≤ zlen (buffer_ b) - writer_idx_ b.

#[export] Instance fits_dec len b : Decision (fits len b).
Proof. unfold fits. apply _. Defined.

Lemma makeSpace_ok len b :
  wf b → 0 ≤ len ≤ vector_max_size → writableBytes b < len → fits len b →
  ∃ b', makeSpace len b = Ok b' ∧ wf b' ∧ contents b' = contents b ∧
        len ≤ writableBytes b' ∧ writer_idx_ b' ≤ writer_idx_ b.
Proof.
  intros Hwf Hlen Hroom Hmax. unfold makeSpace, prependableBytes, fits, slack in *.
  rewrite contents_length, readableBytes_wf in Hmax by done.
  rewrite writableBytes_wf in * by done. pose proof Hwf as [Hr Ho Hw Hc Hs].
  unfold CheapPrependSize, vector_max_size in *.
  rewrite (u64_small (_ + reader_idx_ b)), (u64_small (len + 8)) by lia.
  case Z.ltb_spec; intros Hcase.
  - rewrite u64_small by lia. unfold vector_resize, vector_max_size.
    rewrite (proj2 (Z.ltb_ge _ _)), (proj2 (Z.leb_gt _ _)) by lia. rewrite bind_ok.
    assert (Hsize : zlen (buffer_ b ++ replicate (Z.to_nat (writer_idx_ b + len - zlen (buffer_ b))) x00)
            = writer_idx_ b + len) by (rewrite zlen_app, zlen_replicate; lia).
    assert (wf (mkBuffer (buffer_ b ++ replicate (Z.to_nat (writer_idx_ b + len - zlen (buffer_ b))) x00)
              (reader_idx_ b) (writer_idx_ b))) as Hwf'.
    { constructor; cbn [buffer_ reader_idx_ writer_idx_];
        rewrite ?Hsize; unfold CheapPrependSize, vector_max_size; lia. }
    eexists. split; [done|]. split; [done|]. split; [|split].
    + unfold contents. simpl. apply slice_app_l; lia.
    + rewrite writableBytes_wf by done. cbn [buffer_ writer_idx_]. rewrite Hsize. lia.
    + done.
  - rewrite assert_true by (apply Z.ltb_lt; lia). rewrite bind_ok.
    rewrite readableBytes_wf by done.
    rewrite read_range_ok by lia. rewrite bind_ok. fold (contents b).
    assert (Hlc : zlen (contents b) = writer_idx_ b - reader_idx_ b)
      by (rewrite contents_length, readableBytes_wf; done).
    rewrite write_range_ok by lia. rewrite bind_ok.
    rewrite Hlc, (u64_small (8 + _)) by lia.
    set (buf := take _ _ ++ _).
    assert (Hbuf : zlen buf = zlen (buffer_ b)).
    { unfold buf. rewrite !zlen_app, zlen_take, zlen_drop, Hlc by lia. lia. }
    set (b' := mkBuffer buf _ _).
    assert (wf b') as Hwf'.
    { constructor; unfold b'; cbn [buffer_ reader_idx_ writer_idx_];
        rewrite ?Hbuf; unfold CheapPrependSize, vector_max_size; lia. }
    rewrite assert_true.
    2:{ apply Z.eqb_eq. rewrite readableBytes_wf by done. simpl. lia. }
    rewrite bind_ok. eexists. split; [done|]. split; [done|]. split; [|split].
    + unfold contents at 1, b'. cbn [buffer_ reader_idx_ writer_idx_]. unfold buf.
      apply slice_app_mid; rewrite zlen_take; lia.
    + rewrite writableBytes_wf by done. unfold b'. cbn [buffer_ writer_idx_]. lia.
    + unfold b'. simpl. lia.
Qed.

Lemma makeSpace_length_error len b :
  wf b → 0 ≤ len → len + CheapPrependSize < 2 ^ 64 → writer_idx_ b + len < 2 ^ 64 →
  slack b < len + CheapPrependSize → vector_max_size < writer_idx_ b + len →
  makeSpace len b = Fault LengthError.
Proof.
  intros Hwf Hlen Hfit Hfit2 Hroom Hmax. unfold makeSpace, prependableBytes, slack in *.
  rewrite contents_length, readableBytes_wf in Hroom by done.
  rewrite writableBytes_wf in * by done. destruct Hwf. unfold CheapPrependSize, vector_max_size in *.
  rewrite (u64_small (_ + reader_idx_ b)), (u64_small (len + 8)), (u64_small (_ + len)) by lia.
  rewrite (proj2 (Z.ltb_lt _ _)) by lia. unfold vector_resize, vector_max_size.
  by rewrite (proj2 (Z.ltb_lt _ _)) by lia.
Qed.

Lemma ensureWritableBytes_ok len b :
  wf b → 0 ≤ len ≤ vector_max_size → fits len b →
  ∃ b', ensureWritableBytes len b = Ok b' ∧ wf b' ∧ contents b' = contents b ∧
        len ≤ writableBytes b' ∧ writer_idx_ b' ≤ writer_idx_ b.
Proof.
  intros Hwf Hlen Hmax. unfold ensureWritableBytes.
  case Z.ltb_spec; intros Hroom.
  - destruct (makeSpace_ok len b) as (b' & -> & ? & ? & ? & ?); [done..|].
    rewrite bind_ok, assert_true by (apply Z.leb_le; lia). eauto 10.
  - unfold mret, result_ret. rewrite bind_ok, assert_true by (apply Z.leb_le; lia).
    exists b. split_and!; done || lia.
Qed.

(** Writing [d] after the content and advancing the write index. *)
Lemma write_back_ok d b :
  wf b → zlen d ≤ writableBytes b →
  ∃ buf, write_range (beginWrite b) d (buffer_ b) = Ok buf ∧ zlen buf = zlen (buffer_ b) ∧
    let b' := mkBuffer buf (reader_idx_ b) (writer_idx_ b + zlen d) in
    wf b' ∧ contents b' = contents b ++ d.
Proof.
  intros Hwf Hroom. rewrite writableBytes_wf in Hroom by done.
  pose proof (zlen_nonneg d). pose proof Hwf as [Hr Ho Hw Hc Hs]. unfold beginWrite.
  rewrite write_range_ok by lia.
  set (buf := take _ _ ++ _). exists buf.
  assert (Hbuf : zlen buf = zlen (buffer_ b)).
  { unfold buf. rewrite !zlen_app, zlen_take, zlen_drop by lia. lia. }
  split; [done|]. split; [done|]. split.
  { constructor; cbn [buffer_ reader_idx_ writer_idx_]; lia. }
  unfold contents. cbn [buffer_ reader_idx_ writer_idx_].
  rewrite (slice_split _ (writer_idx_ b)) by lia. f_equal.
  - unfold buf. rewrite slice_app_l by (rewrite ?zlen_take; lia). apply slice_take; lia.
  - unfold buf. apply slice_app_mid; rewrite zlen_take; lia.
Qed.

(** Making room moves the content only when there is not enough of it, and
    then no further to the front than [CheapPrependSize]. *)
Lemma makeSpace_front len b b' :
  makeSpace len b = Ok b' → Z.min (reader_idx_ b) CheapPrependSize ≤ reader_idx_ b'.
Proof.
  unfold makeSpace. case_match; intros Hb.
  - apply bind_ok_inv in Hb as (buf & _ & [= <-]). simpl. lia.
  - repeat (apply bind_ok_inv in Hb as (? & _ & Hb)). injection Hb as <-. simpl. lia.
Qed.

Lemma ensureWritableBytes_room len b b' :
  ensureWritableBytes len b = Ok b' →
  Z.min (reader_idx_ b) CheapPrependSize ≤ reader_idx_ b' ∧ (len ≤ writableBytes b → b' = b).
Proof.
  unfold ensureWritableBytes. intros (b1 & H1 & (? & _ & [= <-])%bind_ok_inv)%bind_ok_inv.
  revert H1. case Z.ltb_spec; intros Hr H1.
  - split; [by eapply makeSpace_front|lia].
  - injection H1 as <-. split; [lia|done].
Qed.

(** The room that is left after [n] bytes were stored *)
Definition keeps_room (n : Z) (b b' : Buffer) : Prop :=
  Z.min (reader_idx_ b) CheapPrependSize ≤ reader_idx_ b' ∧
  (n ≤ writableBytes b → reader_idx_ b' = reader_idx_ b ∧ writableBytes b' = writableBytes b - n).

Lemma append_ok data b :
  wf b → zlen data ≤ vector_max_size → fits (zlen data) b →
  ∃ b', append data b = Ok b' ∧ wf b' ∧ contents b' = contents b ++ data ∧
        writer_idx_ b' ≤ writer_idx_ b + zlen data ∧ keeps_room (zlen data) b b'.
Proof.
  intros Hwf Hmax Hfit. pose proof (zlen_nonneg data). unfold append.
  destruct (ensureWritableBytes_ok (zlen data) b) as (b1 & Hens & Hwf1 & <- & Hroom & Hle);
    [done..|]. pose proof (ensureWritableBytes_room _ _ _ Hens) as [Hfront Hsame].
  rewrite Hens, bind_ok.
  destruct (write_back_ok data b1 Hwf1 Hroom) as (buf & -> & Hbuf & Hwf' & Hc).
  rewrite bind_ok. unfold hasWritten. cbn [buffer_ reader_idx_ writer_idx_].
  pose proof Hwf' as Hwf2. destruct Hwf2. cbn [buffer_ reader_idx_ writer_idx_] in *.
  unfold vector_max_size in *. rewrite u64_small by lia.
  eexists. split; [done|]. split; [done|]. split; [done|]. split; [simpl; lia|].
  split; [done|]. intros ->%Hsame. split; [done|].
  rewrite !writableBytes_wf by done. simpl. lia.
Qed.

Lemma prepend_ok data b :
  wf b → zlen data ≤ prependableBytes b →
  ∃ b', prepend data b = Ok b' ∧ wf b' ∧ contents b' = data ++ contents b ∧
        prependableBytes b' = prependableBytes b - zlen data ∧
        writer_idx_ b' = writer_idx_ b ∧ zlen (buffer_ b') = zlen (buffer_ b).
Proof.
  intros Hwf Hroom. pose proof (zlen_nonneg data). unfold prepend, prependableBytes in *.
  rewrite assert_true by (apply Z.leb_le; lia). rewrite bind_ok.
  pose proof Hwf as [Hr Ho Hw Hc Hs]. unfold vector_max_size in *.
  rewrite u64_small by lia. rewrite write_range_ok by lia. rewrite bind_ok.
  set (buf := take _ _ ++ _).
  assert (Hbuf : zlen buf = zlen (buffer_ b)).
  { unfold buf. rewrite !zlen_app, zlen_take, zlen_drop by lia. lia. }
  eexists. split; [done|]. split.
  { constructor; cbn [buffer_ reader_idx_ writer_idx_]; unfold vector_max_size; lia. }
  split; [|by split_and!].
  unfold contents. cbn [buffer_ reader_idx_ writer_idx_].
  rewrite (slice_split _ (reader_idx_ b)) by lia. f_equal.
  - unfold buf. apply slice_app_mid; rewrite zlen_take; lia.
  - unfold buf, slice. f_equal. rewrite app_assoc, drop_app_ge.
    2:{ rewrite length_app, length_take. unfold zlen in *. lia. }
    rewrite drop_drop. f_equal. rewrite length_app, length_take. unfold zlen in *. lia.
Qed.

Lemma ensureWritableBytes_length_error len b :
  wf b → 0 ≤ len ≤ vector_max_size → ¬ fits len b → ensureWritableBytes len b = Fault LengthError.
Proof.
  intros Hwf Hlen Hfit. unfold ensureWritableBytes. pose proof (contents_bound b Hwf).
  unfold fits, vector_max_size, CheapPrependSize in *.
  rewrite writableBytes_wf by done. rewrite (proj2 (Z.ltb_lt _ _)) by lia.
  pose proof Hwf as []. unfold vector_max_size, CheapPrependSize in *.
  rewrite makeSpace_length_error; unfold vector_max_size, CheapPrependSize; done || lia.
Qed.

Lemma append_length_error data b :
  wf b → zlen data ≤ vector_max_size → ¬ fits (zlen data) b →
  append data b = Fault LengthError.
Proof.
  intros Hwf Hlen Hfit. pose proof (zlen_nonneg data). unfold append.
  by rewrite ensureWritableBytes_length_error.
Qed.

(** *** Reading from a file descriptor *)

Lemma readFd_error errno b : readFd (ReadvError errno) b = Ok (-1, Some errno, b).
Proof. reflexivity. Qed.

(** After the first area is full, the rest fits when the whole fitted before. *)
Lemma fits_rest n b b1 :
  wf b → wf b1 → zlen (buffer_ b1) = zlen (buffer_ b) → writer_idx_ b1 = zlen (buffer_ b) →
  reader_idx_ b1 = reader_idx_ b → writableBytes b < n →
  fits (n - writableBytes b) b1 ↔ fits n b.
Proof.
  intros Hwf Hwf1 Hb Hw Hr. unfold fits, slack.
  rewrite !contents_length, !readableBytes_wf, writableBytes_wf, Hb, Hw, Hr by done.
  destruct Hwf. lia.
Qed.

(** Bytes arrived: they follow the content, or the array cannot grow to hold
    those that were read into the extra area. *)
Lemma readFd_outcomes data b :
  wf b → zlen data - writableBytes b ≤ vector_max_size →
  (readFd (ReadvBytes data) b = Fault LengthError ∧ ¬ fits (zlen data) b) ∨
  fits (zlen data) b ∧
  ∃ b', readFd (ReadvBytes data) b = Ok (zlen data, None, b') ∧ wf b' ∧
        contents b' = contents b ++ data ∧ writer_idx_ b' ≤ writer_idx_ b + zlen data ∧
        keeps_room (zlen data) b b'.
Proof.
  intros Hwf Hmax. unfold readFd.
  pose proof (zlen_nonneg data). pose proof (writableBytes_wf b Hwf) as Hw.
  set (w := writableBytes b) in *.
  assert (0 ≤ w) by (destruct Hwf; lia).
  case Z.leb_spec; intros Hcase.
  - right. split; [unfold fits; lia|]. rewrite take_ge by (unfold zlen in *; lia).
    destruct (write_back_ok data b Hwf Hcase) as (buf & Hwr & Hbuf & Hwf' & Hc).
    unfold beginWrite in Hwr. rewrite Hwr, bind_ok. cbn [reader_idx_ writer_idx_].
    pose proof Hwf' as []. cbn [buffer_ reader_idx_ writer_idx_] in *. unfold vector_max_size in *.
    rewrite u64_small by lia. eexists. split; [done|]. split; [done|]. split; [done|].
    split; [simpl; lia|]. split; [simpl; lia|]. intros _. split; [done|].
    rewrite writableBytes_wf by done. simpl. lia.
  - set (d1 := take (Z.to_nat w) data). set (d2 := drop (Z.to_nat w) data).
    assert (Hd1 : zlen d1 = w) by (apply zlen_take; lia).
    assert (Hd2 : zlen d2 = zlen data - w) by (apply zlen_drop; lia).
    destruct (write_back_ok d1 b Hwf) as (buf & Hwr & Hbuf & Hwf' & Hc).
    { unfold w in Hd1. lia. }
    unfold beginWrite in Hwr. rewrite Hwr, bind_ok. cbn [reader_idx_ writer_idx_].
    replace (writer_idx_ b + zlen d1) with (zlen buf) in * by lia.
    set (b1 := mkBuffer buf (reader_idx_ b) (zlen buf)) in *.
    assert (fits (zlen d2) b1 ↔ fits (zlen data) b) as Hfits
      by (rewrite Hd2; by apply fits_rest).
    destruct (decide (fits (zlen d2) b1)) as [Hfit|Hfit].
    + right. split; [by apply Hfits|].
      destruct (append_ok d2 b1 Hwf') as (b2 & -> & Hwf2 & Hc2 & Hle & Hfront & _); [lia|done|].
      rewrite bind_ok. eexists. split; [done|]. split; [done|]. split.
      * rewrite Hc2, Hc, <- app_assoc. f_equal. apply take_drop.
      * cbn [writer_idx_ reader_idx_ b1] in Hle, Hfront.
        split; [lia|]. split; [done|]. intros. unfold w in *. lia.
    + left. rewrite append_length_error by (done || lia). split; [done|]. by rewrite <- Hfits.
Qed.

Lemma readFd_ok data b :
  wf b → writer_idx_ b + zlen data ≤ vector_max_size →
  ∃ b', readFd (ReadvBytes data) b = Ok (zlen data, None, b') ∧ wf b' ∧
        contents b' = contents b ++ data ∧ writer_idx_ b' ≤ writer_idx_ b + zlen data ∧
        keeps_room (zlen data) b b'.
Proof.
  intros Hwf Hmax. destruct (readFd_outcomes data b Hwf) as [[_ Hfit]|[_ ?]]; [| |done].
  - rewrite writableBytes_wf by done. destruct Hwf. unfold vector_max_size in *. lia.
  - destruct Hfit. by left.
Qed.

(** *** [shrink]

    The copy starts at [CheapPrependSize], and the two indices keep their
    values: they describe the content only when it started there already. *)
Lemma shrink_ok reserve b :
  wf b → 0 ≤ reserve → CheapPrependSize + readableBytes b + reserve ≤ vector_max_size →
  shrink reserve b =
    Ok (mkBuffer (replicate 8 x00 ++ contents b ++ replicate (Z.to_nat reserve) x00)
          (reader_idx_ b) (writer_idx_ b)).
Proof.
  intros Hwf Hres Hmax. unfold shrink, peek.
  rewrite readableBytes_wf in * by done.
  assert (Hlc : zlen (contents b) = writer_idx_ b - reader_idx_ b)
    by (rewrite contents_length, readableBytes_wf; done).
  destruct Hwf. unfold CheapPrependSize, vector_max_size in *. rewrite u64_small by lia.
  unfold vector_resize, vector_max_size.
  rewrite (proj2 (Z.ltb_ge _ _)) by lia.
  rewrite zlen_nil, (proj2 (Z.leb_gt _ _)) by lia. rewrite bind_ok.
  rewrite read_range_ok by lia. rewrite bind_ok.
  replace (reader_idx_ b + (writer_idx_ b - reader_idx_ b)) with (writer_idx_ b) by lia.
  fold (contents b). cbn [app].
  rewrite write_range_ok by (rewrite ?zlen_replicate; lia). rewrite bind_ok.
  unfold mret, result_ret. do 2 f_equal.
  rewrite take_replicate, drop_replicate. f_equal; [f_equal; lia|].
  do 2 f_equal. lia.
Qed.

Lemma shrink_contents reserve b b' :
  wf b → 0 ≤ reserve → CheapPrependSize + readableBytes b + reserve ≤ vector_max_size →
  reader_idx_ b = CheapPrependSize →
  shrink reserve b = Ok b' →
  contents b' = contents b ∧ wf b' ∧ writableBytes b' = reserve.
Proof.
  intros Hwf Hres Hmax Hrd. rewrite shrink_ok by done. intros <-%Ok_inj.
  rewrite readableBytes_wf in Hmax by done.
  assert (Hlc : zlen (contents b) = writer_idx_ b - reader_idx_ b)
    by (rewrite contents_length, readableBytes_wf; done).
  assert (Hr8 : zlen (replicate 8 x00) = 8) by reflexivity.
  destruct Hwf. unfold CheapPrependSize, vector_max_size in *.
  match goal with |- context [mkBuffer ?l _ _] => set (buf := l) end.
  assert (Hsz : zlen buf = 8 + readableBytes b + reserve).
  { unfold buf. rewrite !zlen_app, zlen_replicate, Hr8, Hlc by lia.
    unfold readableBytes. rewrite u64_small; lia. }
  unfold readableBytes in Hsz. rewrite u64_small in Hsz by lia.
  assert (wf (mkBuffer buf (reader_idx_ b) (writer_idx_ b))) as Hwf'.
  { constructor; cbn [buffer_ reader_idx_ writer_idx_];
      unfold CheapPrependSize, vector_max_size; lia. }
  split; [|split; [done|]].
  - unfold contents at 1. cbn [buffer_ reader_idx_ writer_idx_].
    apply slice_app_mid; lia.
  - rewrite writableBytes_wf by done. cbn [buffer_ writer_idx_]. lia.
Qed.

End correctness.
(** ** A buffer is a byte queue with room at its ends

    The specification of the class: a queue of bytes, without an array and
    without indices.  [q_front] bytes can be prepended to it and [q_back] bytes
    can be stored behind it without asking for more room; [append], [readFd] and
    [ensureWritableBytes] make room themselves, at the possible cost of the
    room in front beyond [CheapPrependSize]. *)
Record queue : Type := mkQueue { q_front : Z; q_bytes : list byte; q_back : Z }.

Definition new_queue : queue := mkQueue CheapPrependSize [] InitialSize.

Definition make_room (n : Z) (q : queue) : queue :=
  if n <=? q_back q then q else mkQueue (Z.min (q_front q) CheapPrependSize) (q_bytes q) n.

Definition push (d : list byte) (q : queue) : queue :=
  mkQueue (q_front q) (q_bytes q ++ d) (q_back q - zlen d).

Definition pop (n : Z) (q : queue) : queue :=
  mkQueue (q_front q + n) (drop (Z.to_nat n) (q_bytes q)) (q_back q).

Definition cleared (q : queue) : queue :=
  mkQueue CheapPrependSize []
    (Z.max 0 (q_front q + zlen (q_bytes q) + q_back q - CheapPrependSize)).

(** The operations of one buffer.  [RetrieveUntil n] is
    [retrieveUntil(peek() + n)]; [Produce d] is what a caller does that stores [d]
    at [beginWrite()] and then calls [hasWritten]. *)
Inductive op : Type :=
  | Append (data : list byte)
  | Prepend (data : list byte)
  | Produce (data : list byte)
  | EnsureWritable (len : Z)
  | Retrieve (len : Z)
  | RetrieveUntil (n : Z)
  | RetrieveAll
  | RetrieveAsString
  | ReadFd (r : readv_result).

(** A program with two buffers, [b] and [rhs]; [Swap] is [b.swap(rhs)]. *)
Inductive pair_op : Type := First (o : op) | Second (o : op) | Swap.

(** [exec] executes an operation on the array, [exec_queue] on the queue, where it
    is [None] for an operation that the queue does not admit; both return what
    [retrieveAsString] returns. *)
Definition exec `{B : Build} (o : op) (b : Buffer) : result (list (list byte) * Buffer) :=
  match o with
  | Append data => b' ← append data b; mret ([], b')
  | Prepend data => b' ← prepend data b; mret ([], b')
  | Produce data =>
      buf ← write_range (beginWrite b) data (buffer_ b);
      mret ([], hasWritten (zlen data) (mkBuffer buf (reader_idx_ b) (writer_idx_ b)))
  | EnsureWritable len => b' ← ensureWritableBytes len b; mret ([], b')
  | Retrieve len => b' ← retrieve len b; mret ([], b')
  | RetrieveUntil n => b' ← retrieveUntil (peek b + n) b; mret ([], b')
  | RetrieveAll => mret ([], retrieveAll b)
  | RetrieveAsString => '(str, b') ← retrieveAsString b; mret ([str], b')
  | ReadFd r => '(_, _, b') ← readFd r b; mret ([], b')
  end.

Definition exec_queue (o : op) (q : queue) : option (list (list byte) * queue) :=
  match o with
  | Append data | ReadFd (ReadvBytes data) => Some ([], push data (make_room (zlen data) q))
  | Prepend data =>
      if zlen data <=? q_front q
      then Some ([], mkQueue (q_front q - zlen data) (data ++ q_bytes q) (q_back q)) else None
  | Produce data => if zlen data <=? q_back q then Some ([], push data q) else None
  | EnsureWritable len => if 0 <=? len then Some ([], make_room len q) else None
  | Retrieve len | RetrieveUntil len =>
      if (0 <=? len) && (len <=? zlen (q_bytes q)) then Some ([], pop len q) else None
  | RetrieveAll => Some ([], cleared q)
  | RetrieveAsString => Some ([q_bytes q], cleared q)
  | ReadFd (ReadvError _) => Some ([], q)
  end.

Definition exec_pair `{B : Build} (o : pair_op) (p : Buffer * Buffer)
    : result (list (list byte) * (Buffer * Buffer)) :=
  match o with
  | First o => '(out, b) ← exec o p.1; mret (out, (b, p.2))
  | Second o => '(out, b) ← exec o p.2; mret (out, (p.1, b))
  | Swap => mret ([], swap p.1 p.2)
  end.

Definition exec_queues (o : pair_op) (p : queue * queue)
    : option (list (list byte) * (queue * queue)) :=
  match o with
  | First o => '(out, q) ← exec_queue o p.1; Some (out, (q, p.2))
  | Second o => '(out, q) ← exec_queue o p.2; Some (out, (p.1, q))
  | Swap => Some ([], (p.2, p.1))
  end.

Fixpoint run `{B : Build} (ops : list pair_op) (p : Buffer * Buffer)
    : result (list (list byte) * (Buffer * Buffer)) :=
  match ops with
  | [] => mret ([], p)
  | o :: ops =>
      '(out, p') ← exec_pair o p;
      '(outs, p'') ← run ops p';
      mret (out ++ outs, p'')
  end.

Fixpoint run_queues (ops : list pair_op) (p : queue * queue)
    : option (list (list byte) * (queue * queue)) :=
  match ops with
  | [] => Some ([], p)
  | o :: ops =>
      '(out, p') ← exec_queues o p;
      '(outs, p'') ← run_queues ops p';
      Some (out ++ outs, p'')
  end.

(** The room an operation may need beyond the write index. *)
Definition demand (o : op) : Z :=
  match o with
  | Append data | Produce data | ReadFd (ReadvBytes data) => zlen data
  | EnsureWritable len => Z.max 0 len
  | _ => 0
  end.

Definition pair_demand (o : pair_op) : Z :=
  match o with First o | Second o => demand o | Swap => 0 end.

Definition total_demand (ops : list pair_op) : Z := foldr (λ o z, pair_demand o + z) 0 ops.

Definition high_mark (b : Buffer) : Z := Z.max CheapPrependSize (writer_idx_ b).

(** The array [b] implements the queue [q]. *)
Record represents (q : queue) (b : Buffer) : Prop := {
  rp_wf : wf b;
  rp_bytes : contents b = q_bytes q;
  rp_front : q_front q ≤ prependableBytes b;
  rp_back : q_back q ≤ writableBytes b
}.

Section refinement.
Context `{B : Build}.

Lemma demand_nonneg o : 0 ≤ demand o.
Proof. destruct o as [d|d|d| | | | | |[d|]]; simpl; try lia; apply zlen_nonneg. Qed.

Lemma total_demand_nonneg ops : 0 ≤ total_demand ops.
Proof.
  induction ops as [|[o|o|] ops IH]; simpl; try pose proof (demand_nonneg o); lia.
Qed.

Lemma represents_pushed q b b' d :
  represents q b → wf b' → contents b' = contents b ++ d → keeps_room (zlen d) b b' →
  represents (push d (make_room (zlen d) q)) b'.
Proof.
  intros [Hwf Hc Hf Hb] Hwf' Hc' [Hfront Hsame]. unfold prependableBytes in *.
  assert (0 ≤ writableBytes b') by (rewrite writableBytes_wf by done; destruct Hwf'; lia).
  unfold make_room. case Z.leb_spec; intros Hle.
  - destruct Hsame as [Hr Hw]; [lia|]. constructor; simpl; unfold prependableBytes; try done; try lia.
    by rewrite Hc', Hc.
  - constructor; simpl; unfold prependableBytes; try done; try lia. by rewrite Hc', Hc.
Qed.

Lemma represents_roomy q b b' n :
  represents q b → ensureWritableBytes n b = Ok b' → wf b' → contents b' = contents b →
  n ≤ writableBytes b' → represents (make_room n q) b'.
Proof.
  intros [Hwf Hc Hf Hb] [Hfront Hsame]%ensureWritableBytes_room Hwf' Hc' Hn.
  unfold make_room, prependableBytes in *. case Z.leb_spec; intros Hle.
  - rewrite Hsame by lia. by constructor.
  - constructor; simpl; unfold prependableBytes; done || lia || congruence.
Qed.

Lemma represents_popped q b b' n :
  represents q b → wf b' → contents b' = drop (Z.to_nat n) (contents b) →
  writer_idx_ b' = writer_idx_ b → buffer_ b' = buffer_ b → 0 ≤ n ≤ zlen (contents b) →
  represents (pop n q) b'.
Proof.
  intros [Hwf Hc Hf Hb] Hwf' Hc' Hw Hbuf Hn.
  assert (reader_idx_ b' = reader_idx_ b + n).
  { pose proof (contents_length b Hwf) as Hl. pose proof (contents_length b' Hwf') as Hl'.
    rewrite readableBytes_wf in Hl, Hl' by done. rewrite Hc', zlen_drop in Hl' by done. lia. }
  rewrite writableBytes_wf in Hb by done. unfold prependableBytes in *.
  constructor; simpl; unfold prependableBytes; [done|congruence|lia|].
  rewrite writableBytes_wf by done. rewrite Hbuf, Hw. done.
Qed.

Lemma represents_cleared q b : represents q b → represents (cleared q) (retrieveAll b).
Proof.
  intros [Hwf Hc Hf Hb]. pose proof (retrieveAll_wf b Hwf) as Hwf'.
  pose proof (contents_length b Hwf) as Hl. rewrite Hc, readableBytes_wf in Hl by done.
  rewrite writableBytes_wf in Hb by done. unfold prependableBytes in *.
  constructor; [done|apply retrieveAll_contents|done|]. rewrite writableBytes_wf by done. simpl.
  destruct Hwf as [? ? ? Hcheap _]. unfold CheapPrependSize in *. lia.
Qed.

Lemma represents_new : represents new_queue init.
Proof. constructor; [apply init_wf|done|done|vm_compute; congruence]. Qed.

(** Closes a step whose result is known. *)
Ltac finish_step := simpl; eexists; split; [reflexivity|]; split; [|simpl; lia].

(** One operation: the array simulates the queue. *)
Lemma exec_refines o b q out q' :
  represents q b → high_mark b + demand o ≤ vector_max_size →
  exec_queue o q = Some (out, q') →
  ∃ b', exec o b = Ok (out, b') ∧ represents q' b' ∧ high_mark b' ≤ high_mark b + demand o.
Proof.
  intros Hrep Hmax Hspec. pose proof Hrep as [Hwf Hc Hf Hb].
  unfold high_mark in *. pose proof (demand_nonneg o) as Hd.
  assert (CheapPrependSize = 8) by done. pose proof Hwf as [Hr Ho Hw _ _].
  destruct o as [d|d|d|len|len|len| | |[d|e]]; simpl in *; simplify_option_eq.
  - destruct (append_ok d b) as (b' & -> & ? & ? & ? & ?); [done|lia|left; lia|].
    finish_step. by eapply represents_pushed.
  - destruct (zlen d <=? q_front q) eqn:Hl; [apply Z.leb_le in Hl|discriminate]. simplify_eq.
    destruct (prepend_ok d b) as (b' & -> & ? & Hc' & Hp' & Hw' & Hsz); [done|lia|].
    finish_step. constructor; simpl; [done|congruence|lia|].
    rewrite writableBytes_wf in * by done. by rewrite Hsz, Hw'.
  - destruct (zlen d <=? q_back q) eqn:Hl; [apply Z.leb_le in Hl|discriminate]. simplify_eq.
    destruct (write_back_ok d b Hwf) as (buf & -> & Hsz & Hwf' & Hc'); [lia|].
    simpl. unfold hasWritten. simpl in *.
    rewrite u64_small by (unfold vector_max_size in *; lia). finish_step.
    constructor; simpl; [done|by rewrite Hc', Hc|done|].
    rewrite writableBytes_wf in * by done. simpl. lia.
  - destruct (0 <=? len) eqn:Hl; [apply Z.leb_le in Hl|discriminate]. simplify_eq.
    destruct (ensureWritableBytes_ok len b) as (b' & He & ? & ? & ? & ?); [done|lia|left; lia|].
    rewrite He. finish_step. by eapply represents_roomy.
  - destruct ((0 <=? len) && (len <=? zlen (q_bytes q))) eqn:Hl; [|discriminate].
    simplify_eq. apply andb_prop in Hl as [Hl1%Z.leb_le Hl2%Z.leb_le]. rewrite <- Hc in Hl2.
    destruct (retrieve_ok len b) as (b' & -> & ? & ? & ? & ?); [done|by rewrite <- contents_length|].
    finish_step. by eapply represents_popped.
  - destruct ((0 <=? len) && (len <=? zlen (q_bytes q))) eqn:Hl; [|discriminate].
    simplify_eq. apply andb_prop in Hl as [Hl1%Z.leb_le Hl2%Z.leb_le]. rewrite <- Hc in Hl2.
    pose proof Hl2 as Hl3. rewrite contents_length, readableBytes_wf in Hl3 by done. unfold peek.
    rewrite retrieveUntil_ok by (done || lia).
    replace (reader_idx_ b + len - reader_idx_ b) with len by lia.
    destruct (retrieve_ok len b) as (b' & -> & ? & ? & ? & ?); [done|by rewrite <- contents_length|].
    finish_step. by eapply represents_popped.
  - finish_step. by apply represents_cleared.
  - rewrite retrieveAsString_ok, Hc by done. finish_step. by apply represents_cleared.
  - destruct (readFd_ok d b) as (b' & -> & ? & ? & ? & ?); [done|lia|].
    finish_step. by eapply represents_pushed.
  - by finish_step.
Qed.

Definition pair_mark (p : Buffer * Buffer) : Z := Z.max (high_mark p.1) (high_mark p.2).

Definition pair_represents (qs : queue * queue) (p : Buffer * Buffer) : Prop :=
  represents qs.1 p.1 ∧ represents qs.2 p.2.

Lemma exec_pair_refines o p qs out qs' :
  pair_represents qs p → pair_mark p + pair_demand o ≤ vector_max_size →
  exec_queues o qs = Some (out, qs') →
  ∃ p', exec_pair o p = Ok (out, p') ∧ pair_represents qs' p' ∧
        pair_mark p' ≤ pair_mark p + pair_demand o.
Proof.
  intros [H1 H2] Hmax Hspec. unfold pair_mark, pair_represents in *.
  destruct o as [o|o|]; simpl in *; try pose proof (demand_nonneg o).
  - apply bind_Some in Hspec as ([out' q1] & Hq & [= -> <-]).
    destruct (exec_refines o p.1 _ _ _ H1 ltac:(lia) Hq) as (b1 & -> & ? & ?). finish_step. done.
  - apply bind_Some in Hspec as ([out' q2] & Hq & [= -> <-]).
    destruct (exec_refines o p.2 _ _ _ H2 ltac:(lia) Hq) as (b2 & -> & ? & ?). finish_step. done.
  - injection Hspec as <- <-. destruct p as [[buf1 r1 w1] [buf2 r2 w2]]. finish_step. done.
Qed.

Lemma run_queues_refine ops p qs outs qs' :
  pair_represents qs p → pair_mark p + total_demand ops ≤ vector_max_size →
  run_queues ops qs = Some (outs, qs') →
  ∃ p', run ops p = Ok (outs, p') ∧ pair_represents qs' p'.
Proof.
  revert p qs outs. induction ops as [|o ops IH]; intros p qs outs Hrep Hmax Hspec; simpl in *.
  { simplify_eq. eauto. }
  apply bind_Some in Hspec as ([out q1] & Ho & Hspec).
  apply bind_Some in Hspec as ([outs1 q2] & Hops & [= <- <-]).
  pose proof (total_demand_nonneg ops).
  destruct (exec_pair_refines o p qs out q1) as (p1 & -> & Hrep1 & Hle); [done|lia|done|].
  simpl. destruct (IH p1 q1 outs1) as (p2 & -> & ?); [done|lia|done|]. by eexists.
Qed.

End refinement.

(** ** Properties *)

(** C11: two constructed buffers are two byte queues with room at their ends.  For
    every sequence of [append], [prepend], writing at [beginWrite()] followed by
    [hasWritten], [ensureWritableBytes], [retrieve], [retrieveUntil], [retrieveAll],
    [retrieveAsString], [readFd] and [swap] that the queues admit (no more bytes are
    taken out than there are, no more are put in front, or behind by hand, than room is
    guaranteed) and that fits the address space, the array operations run without a
    failing assert, a throw or an access outside the array, return the strings the
    queues return, and leave the bytes of the queues as the readable bytes, with at
    least their room at both ends; with and without asserts.  [shrink], which loses
    content ([shrink_stale_indices]), is not among the operations. *)
Theorem buffer_refines_queue `{B : Build} ops outs qs :
  CheapPrependSize + total_demand ops ≤ vector_max_size →
  run_queues ops (new_queue, new_queue) = Some (outs, qs) →
  ∃ b0 b rhs, Buffer_ctor = Ok b0 ∧ run ops (b0, b0) = Ok (outs, (b, rhs)) ∧
    represents qs.1 b ∧ represents qs.2 rhs.
Proof.
  intros Hmax Hq. exists init. pose proof represents_new.
  destruct (run_queues_refine ops (init, init) (new_queue, new_queue) outs qs) as ([b rhs] & ? & ? & ?);
    [done..|]. exists b, rhs. split; [apply Buffer_ctor_ok|done].
Qed.

(** A length is put in front of a message, the buffer is swapped and read. *)
Definition sample_ops : list pair_op :=
  [First (Append [x61; x62; x63]); First (Retrieve 1); First (Prepend [x00; x02]);
   First (EnsureWritable 2000); First (ReadFd (ReadvBytes [x64])); Swap; First (Produce [x65]);
   Second (RetrieveUntil 2); Second RetrieveAsString].

Lemma buffer_refines_queue_witness :
  ∃ b0 b rhs, @Buffer_ctor debug_build = Ok b0 ∧
    @run debug_build sample_ops (b0, b0) = Ok ([[x62; x63; x64]], (b, rhs)) ∧
    contents b = [x65] ∧ contents rhs = [].
Proof.
  destruct (buffer_refines_queue (B:=debug_build) sample_ops [[x62; x63; x64]]
    (mkQueue 8 [x65] 1023, mkQueue 8 [] 2003)) as (b0 & b & rhs & ? & ? & H1 & H2);
    [vm_compute; congruence|vm_compute; reflexivity|].
  exists b0, b, rhs. split; [assumption|]. split; [assumption|].
  split; [apply H1|apply H2].
Defined.

(** [append] on a well-formed buffer is total: it throws
    [std::length_error] exactly when the bytes fit neither after the content
    nor in the array with the content moved to the front, and otherwise it
    stores them after the content; no assert fails and no byte of the content
    is lost, whichever way [makeSpace] makes room. *)
Theorem append_total `{B : Build} data b :
  wf b → zlen data ≤ vector_max_size →
  if decide (fits (zlen data) b)
  then ∃ b', append data b = Ok b' ∧ wf b' ∧ contents b' = contents b ++ data
  else append data b = Fault LengthError.
Proof.
  intros Hwf Hlen. case_decide as Hfit.
  - destruct (append_ok data b) as (b' & ? & ? & ? & _); eauto.
  - by apply append_length_error.
Qed.

Definition full_buffer : Buffer := mkBuffer (replicate 20 x2a) 15 20.

Lemma append_total_witness :
  ∃ b', @append debug_build (replicate 6 x61) full_buffer = Ok b' ∧ wf b' ∧
        contents b' = replicate 5 x2a ++ replicate 6 x61.
Proof.
  apply (append_total (B:=debug_build) (replicate 6 x61) full_buffer);
    [constructor; vm_compute; congruence | vm_compute; congruence].
Defined.

(** [prepend] into the space before the content puts the bytes in front
    of it, and a [retrieve] of the same number of bytes restores the content:
    a header can be prepended and stripped. *)
Theorem prepend_retrieve `{B : Build} data b :
  wf b → zlen data ≤ prependableBytes b →
  ∃ b1 b2, prepend data b = Ok b1 ∧ wf b1 ∧ contents b1 = data ++ contents b ∧
    retrieve (zlen data) b1 = Ok b2 ∧ wf b2 ∧ contents b2 = contents b.
Proof.
  intros Hwf Hroom. pose proof (zlen_nonneg data).
  destruct (prepend_ok data b) as (b1 & ? & Hwf1 & Hc1 & _); [done..|].
  destruct (retrieve_ok (zlen data) b1) as (b2 & ? & ? & Hc2 & _); [done| |].
  { rewrite <- contents_length, Hc1, zlen_app by done. pose proof (zlen_nonneg (contents b)). lia. }
  exists b1, b2. split_and!; try done.
  rewrite Hc2, Hc1. unfold zlen. rewrite Nat2Z.id. apply drop_app_length.
Qed.

Lemma prepend_retrieve_witness :
  ∃ b1 b2, @prepend debug_build [x00; x05] full_buffer = Ok b1 ∧ wf b1 ∧
    contents b1 = [x00; x05] ++ contents full_buffer ∧
    @retrieve debug_build (zlen [x00; x05]) b1 = Ok b2 ∧ wf b2 ∧
    contents b2 = contents full_buffer.
Proof.
  apply (prepend_retrieve (B:=debug_build));
    [constructor; vm_compute; congruence | vm_compute; congruence].
Defined.

(** [shrink] copies the content to [CheapPrependSize] but leaves the
    indices, so it keeps the content when the content already starts there;
    on a buffer read past that point by more than [reserve] bytes it leaves
    the write index outside the new array. *)
Theorem shrink_stale_indices reserve b :
  wf b → 0 ≤ reserve → CheapPrependSize + readableBytes b + reserve ≤ vector_max_size →
  ∃ b', shrink reserve b = Ok b' ∧
    (reader_idx_ b = CheapPrependSize → wf b' ∧ contents b' = contents b) ∧
    (CheapPrependSize + reserve < reader_idx_ b → zlen (buffer_ b') < writer_idx_ b').
Proof.
  intros Hwf Hres Hmax. eexists. split; [by apply shrink_ok|]. split.
  - intros Hrd. destruct (shrink_contents reserve b _ Hwf Hres Hmax Hrd (shrink_ok reserve b Hwf Hres Hmax))
      as (? & ? & _). done.
  - intros Hrd. cbn [buffer_ writer_idx_]. rewrite readableBytes_wf in Hmax by done.
    rewrite !zlen_app, zlen_replicate, contents_length, readableBytes_wf by done.
    change (zlen (replicate 8 x00)) with 8. unfold CheapPrependSize in *. lia.
Qed.

Lemma shrink_stale_indices_witness :
  ∃ b', shrink 0 full_buffer = Ok b' ∧ zlen (buffer_ b') < writer_idx_ b'.
Proof.
  destruct (shrink_stale_indices 0 full_buffer) as (b' & Hs & _ & Hidx);
    [constructor; vm_compute; congruence | lia | vm_compute; congruence |].
  exists b'. split; [exact Hs|]. apply Hidx. reflexivity.
Defined.

(** C12: reading from a descriptor is appending: with the bytes that [readv] scattered
    over the free space and the array on the stack, [readFd] leaves the content that
    [append] of these bytes leaves, returns their number, and throws exactly when
    [append] throws; the two arrays may differ, the queues of bytes do not. *)
Theorem readFd_appends `{B : Build} data b :
  wf b → zlen data ≤ iov_room b → zlen data ≤ vector_max_size →
  match readFd (ReadvBytes data) b, append data b with
  | Ok (n, errno, b1), Ok b2 =>
      n = zlen data ∧ errno = None ∧ wf b1 ∧ wf b2 ∧ contents b1 = contents b2
  | Fault f, Fault f' => f = LengthError ∧ f' = LengthError
  | _, _ => False
  end.
Proof.
  intros Hwf Hroom Hmax.
  assert (0 ≤ writableBytes b) by (rewrite writableBytes_wf by done; destruct Hwf; lia).
  destruct (readFd_outcomes data b Hwf) as [[-> Hfit]|[Hfit (b1 & -> & Hwf1 & Hc1 & _)]]; [lia| |].
  - by rewrite append_length_error.
  - destruct (append_ok data b) as (b2 & -> & Hwf2 & Hc2 & _); [done..|].
    split_and!; try done. congruence.
Qed.

(** Forty bytes for a buffer with five bytes of free space. *)
Definition nearly_full : Buffer := mkBuffer (replicate 20 x2a) 9 15.

Lemma readFd_appends_witness :
  match readFd (B:=debug_build) (ReadvBytes (replicate 40 x61)) nearly_full,
        append (B:=debug_build) (replicate 40 x61) nearly_full with
  | Ok (n, _, b1), Ok b2 => n = 40 ∧ contents b1 = contents b2
  | _, _ => False
  end.
Proof.
  assert (match readFd (B:=debug_build) (ReadvBytes (replicate 40 x61)) nearly_full,
        append (B:=debug_build) (replicate 40 x61) nearly_full with
      | Ok _, Ok _ => true | _, _ => false end = true) as Hok by (vm_compute; reflexivity).
  pose proof (readFd_appends (B:=debug_build) (replicate 40 x61) nearly_full) as H.
  destruct (readFd _ _) as [[[n e] b1]|f]; [|done]. destruct (append _ _) as [b2|f]; [|done].
  destruct H as (-> & _ & _ & _ & Hc); [|vm_compute; congruence..|by split].
  constructor; vm_compute; congruence.
Defined.

(** ** The asserts of a debug build suffice

    No caller is assumed to keep to the content or to the room of a buffer: the
    operations with all arguments of the size of an object.  [Produce], whose
    [hasWritten] checks nothing, is left out. *)
Definition exec_buffer `{B : Build} (o : op) (b : Buffer) : result Buffer :=
  '(_, b') ← exec o b; mret b'.

Fixpoint run_calls `{B : Build} (ops : list op) (b : Buffer) : result Buffer :=
  match ops with
  | [] => mret b
  | o :: ops => b' ← exec_buffer o b; run_calls ops b'
  end.

(** What a call is given has the size of an object. *)
Definition sized (o : op) : Prop :=
  match o with
  | Append data | ReadFd (ReadvBytes data) | Prepend data => zlen data ≤ vector_max_size
  | EnsureWritable len | Retrieve len => 0 ≤ len ≤ vector_max_size
  | Produce _ => False
  | _ => True
  end.

(** What a typed operation may end in. *)
Definition typed (r : result Buffer) : Prop :=
  match r with
  | Ok b => wf b
  | Fault f => f = Assertion ∨ f = LengthError
  end.

Section typing.
Context `{B : Build} (Hdebug : NDEBUG = false).

Lemma retrieve_typed len b : wf b → 0 ≤ len → typed (retrieve len b).
Proof.
  intros Hwf Hlen. destruct (Z.leb_spec len (readableBytes b)) as [Hle|Hlt].
  - by destruct (retrieve_ok len b Hwf) as (b' & -> & ? & _).
  - unfold retrieve. rewrite assert_false by (done || by apply Z.leb_gt). by left.
Qed.

Lemma retrieveUntil_typed e b : wf b → typed (retrieveUntil e b).
Proof.
  intros Hwf. destruct (decide (reader_idx_ b ≤ e ≤ writer_idx_ b)) as [He|He].
  - rewrite retrieveUntil_ok by done. apply retrieve_typed; [done|lia].
  - unfold retrieveUntil, peek, beginWrite. destruct (Z.leb_spec (reader_idx_ b) e) as [H1|H1].
    + rewrite (assert_true true), bind_ok by done.
      rewrite assert_false; [by left|done|apply Z.leb_gt; lia].
    + rewrite (assert_false false) by done. by left.
Qed.

Lemma exec_typed o b : wf b → sized o → typed (exec_buffer o b).
Proof.
  intros Hwf Hs. unfold exec_buffer. destruct o as [d|d|d|len|len|n| | |[d|e]]; simpl in *.
  - destruct (decide (fits (zlen d) b)) as [Hf|Hf].
    + by destruct (append_ok d b) as (b' & -> & ? & _).
    + rewrite append_length_error by done. by right.
  - destruct (Z.leb_spec (zlen d) (prependableBytes b)) as [Hle|Hlt].
    + by destruct (prepend_ok d b) as (b' & -> & ? & _).
    + unfold prepend. rewrite assert_false by (done || by apply Z.leb_gt). by left.
  - done.
  - destruct (decide (fits len b)) as [Hf|Hf].
    + by destruct (ensureWritableBytes_ok len b) as (b' & -> & ? & _).
    + rewrite ensureWritableBytes_length_error by done. by right.
  - pose proof (retrieve_typed len b Hwf) as Ht. destruct (retrieve len b); apply Ht; lia.
  - pose proof (retrieveUntil_typed (peek b + n) b Hwf) as Ht. by destruct (retrieveUntil _ b).
  - by apply retrieveAll_wf.
  - rewrite retrieveAsString_ok by done. by apply retrieveAll_wf.
  - assert (0 ≤ writableBytes b) by (rewrite writableBytes_wf by done; destruct Hwf; lia).
    destruct (readFd_outcomes d b Hwf) as [[-> _]|[_ (b' & -> & ? & _)]]; [lia|by right|done].
  - done.
Qed.

End typing.

(** C13: in a debug build the indices of a buffer stay ordered within its array, and the
    array within the address space, under any sequence of [append], [prepend],
    [ensureWritableBytes], [retrieve], [retrieveUntil], [retrieveAll], [retrieveAsString] and
    [readFd], whether or not the caller keeps to the content and to the room: a call that would
    break this fails an assertion or throws [std::length_error], and no call reads or writes
    outside the array.  The data and the lengths must be sizes of objects, at most 2^63 - 1:
    [ensureWritableBytes] with a length close to 2^64 wraps around.  [hasWritten], which checks
    nothing, and [shrink], which leaves stale indices, are not among the calls. *)
Theorem calls_typed `{B : Build} ops b :
  NDEBUG = false → wf b → Forall sized ops → typed (run_calls ops b).
Proof.
  intros Hd Hwf Hs. revert b Hwf. induction Hs as [|o ops Ho Hs IH]; intros b Hwf; [done|]. simpl.
  pose proof (exec_typed Hd o b Hwf Ho) as Ht. destruct (exec_buffer o b) as [b'|f]; [|done].
  by apply IH.
Qed.

(** The third call asks for more than there is. *)
Definition sample_calls : list op := [Append [x61; x62]; Prepend [x00; x02]; Retrieve 5].

Lemma calls_typed_witness :
  run_calls (B:=debug_build) (take 2 sample_calls) init =
    Ok (mkBuffer (replicate 6 x00 ++ [x00; x02; x61; x62] ++ replicate 1022 x00) 6 10) ∧
  run_calls (B:=debug_build) sample_calls init = Fault Assertion ∧
  typed (run_calls (B:=debug_build) sample_calls init).
Proof.
  split; [vm_compute; reflexivity|]. split; [vm_compute; reflexivity|].
  apply (calls_typed (B:=debug_build)); [done|apply init_wf|].
  repeat constructor; unfold sized; vm_compute; congruence.
Defined.

(** The bound on the sizes is needed: [writer_idx_ + len] wraps around for a length close
    to 2^64, [resize] then shrinks the array below the write index, and the assertion of
    [ensureWritableBytes] holds all the same. *)
Lemma ensureWritableBytes_wraps :
  ∃ b', ensureWritableBytes (B:=debug_build) (2 ^ 64 - 9) nearly_full = Ok b' ∧
    zlen (buffer_ b') = 6 ∧ writer_idx_ b' = 15.
Proof. eexists. split; [vm_compute; reflexivity|done]. Qed.

End Buffer.
