(* ===== verification/Kernel.v ===== *)
(** * The operating system

    The system calls the library makes are not part of the repository: they
    are the operations of the class [Kernel], over an abstract kernel state.
    [KernelLaws] states what the man pages promise of them and the library
    relies on.  [Scripted] is a concrete kernel, used to run the model. *)

From S2P Require Import Prelude Buffer.

(** [struct pollfd] of poll.h *)
Record pollfd : Type := mkPollfd { fd : Z; events : Z; revents : Z }.

(** The event bits of poll.h on Linux *)
Definition POLLIN : Z := 0x001.
Definition POLLPRI : Z := 0x002.
Definition POLLOUT : Z := 0x004.
Definition POLLERR : Z := 0x008.
Definition POLLHUP : Z := 0x010.
Definition POLLNVAL : Z := 0x020.
Definition POLLRDHUP : Z := 0x2000.

(** [errno] values *)
Definition EWOULDBLOCK : Z := 11.

(** Socket constants on Linux *)
Definition AF_INET : Z := 2.
Definition SOCK_STREAM : Z := 1.
Definition SOCK_NONBLOCK : Z := 0x800.
Definition SOCK_CLOEXEC : Z := 0x80000.
Definition IPPROTO_TCP : Z := 6.
Definition SOL_SOCKET : Z := 1.
Definition SO_REUSEADDR : Z := 2.
Definition SO_KEEPALIVE : Z := 9.
Definition TCP_NODELAY : Z := 1.

(** A return value, or the [errno] of a call that returned -1. *)
Inductive sysret : Type :=
  | Ret (n : Z)
  | Err (errno : Z).

(** [struct sockaddr_in] of netinet/in.h; port and address are in network
    byte order. *)
Record sockaddr_in : Type := mkSockaddr { sin_family : Z; sin_port : Z; sin_addr : Z }.

Class Kernel : Type := {
  kstate : Type;
  (** [poll]: the count or the error, and the [revents] stored *)
  sys_poll : list pollfd → Z → kstate → sysret * list Z * kstate;
  (** [gettimeofday]: seconds and microseconds *)
  sys_gettimeofday : kstate → Z * Z * kstate;
  sys_write : Z → list byte → kstate → sysret * kstate;
  (** [readv] into areas of the given total room *)
  sys_readv : Z → Z → kstate → Buffer.readv_result * kstate;
  (** [read] of the given count from an event or timer descriptor *)
  sys_read : Z → Z → kstate → sysret * kstate;
  sys_shutdown_wr : Z → kstate → sysret * kstate;
  (** [socket(AF_INET, type, protocol)] *)
  sys_socket : Z → Z → kstate → sysret * kstate;
  sys_bind : Z → sockaddr_in → kstate → sysret * kstate;
  (** [setsockopt] of an [int] option: descriptor, level, option, value *)
  sys_setsockopt : Z → Z → Z → Z → kstate → sysret * kstate;
  sys_listen : Z → kstate → sysret * kstate;
  (** [accept4]: the descriptor and the peer *)
  sys_accept : Z → kstate → sysret * sockaddr_in * kstate;
  sys_close : Z → kstate → sysret * kstate;
  sys_getsockname : Z → kstate → sysret * sockaddr_in * kstate;
  (** [getsockopt] of [SO_ERROR]: the return and the option value *)
  sys_so_error : Z → kstate → sysret * Z * kstate;
  sys_timerfd_create : kstate → sysret * kstate;
  (** [timerfd_settime] of a descriptor to expire once after seconds and nanoseconds *)
  sys_timerfd_settime : Z → Z → Z → kstate → sysret * kstate
}.

(** What the calls promise (poll(2), write(2), readv(2), accept(2)). *)
Class KernelLaws (K : Kernel) : Prop := {
  write_count fd d k n k' : sys_write fd d k = (Ret n, k') → 0 ≤ n ≤ zlen d;
  readv_room fd room k d k' :
    0 ≤ room → sys_readv fd room k = (Buffer.ReadvBytes d, k') → zlen d ≤ room;
  poll_length fds t k r revs k' :
    sys_poll fds t k = (r, revs, k') → length revs = length fds;
  poll_revents fds t k r revs k' :
    sys_poll fds t k = (r, revs, k') → Forall (λ z, 0 ≤ z < 2 ^ 15) revs;
  poll_ignored fds t k r revs k' i p :
    sys_poll fds t k = (r, revs, k') → fds !! i = Some p → fd p < 0 → revs !! i = Some 0;
  poll_count fds t k n revs k' : sys_poll fds t k = (Ret n, revs, k') → n = count_pos revs;
  accept_fd fd k n a k' : sys_accept fd k = (Ret n, a, k') → 0 ≤ n
}.

(** ** A scripted kernel

    Each kind of call consumes the next entry of its script; the entries are
    clamped to what the man pages allow, and an exhausted script answers with
    success and nothing to report. *)
Module Scripted.

Record state : Type := mkState {
  writes : list sysret;
  reads : list Buffer.readv_result;
  polls : list (list (Z * Z));
  times : list (Z * Z);
  accepts : list (sysret * sockaddr_in)
}.

Definition pop {A} (d : A) (l : list A) : A * list A :=
  match l with [] => (d, []) | x :: l => (x, l) end.

Definition clamp (lo hi n : Z) : Z := Z.max lo (Z.min hi n).

(** The [revents] of one entry under the ready list [ready]. *)
Definition ready_bits (ready : list (Z * Z)) (p : pollfd) : Z :=
  if fd p <? 0 then 0
  else clamp 0 (2 ^ 15 - 1)
         (default 0 (snd <$> find (λ x, fst x =? fd p) ready)).

Definition null_addr : sockaddr_in := mkSockaddr 0 0 0.

Definition poll (fds : list pollfd) (_ : Z) (k : state) : sysret * list Z * state :=
  let '(ready, rest) := pop [] (polls k) in
  let revs := ready_bits ready <$> fds in
  (Ret (count_pos revs), revs, mkState (writes k) (reads k) rest (times k) (accepts k)).

Definition gettimeofday (k : state) : Z * Z * state :=
  let '(t, rest) := pop (0, 0) (times k) in
  (t, mkState (writes k) (reads k) (polls k) rest (accepts k)).

Definition write (_ : Z) (d : list byte) (k : state) : sysret * state :=
  let '(r, rest) := pop (Ret (zlen d)) (writes k) in
  (match r with Ret n => Ret (clamp 0 (zlen d) n) | Err e => Err e end,
   mkState rest (reads k) (polls k) (times k) (accepts k)).

Definition readv (_ room : Z) (k : state) : Buffer.readv_result * state :=
  let '(r, rest) := pop (Buffer.ReadvBytes []) (reads k) in
  (match r with
   | Buffer.ReadvBytes d => Buffer.ReadvBytes (if zlen d <=? room then d else [])
   | Buffer.ReadvError e => Buffer.ReadvError e
   end,
   mkState (writes k) rest (polls k) (times k) (accepts k)).

Definition accept (_ : Z) (k : state) : sysret * sockaddr_in * state :=
  let '(ra, rest) := pop (Err EWOULDBLOCK, null_addr) (accepts k) in
  ((match fst ra with Ret n => Ret (Z.max 0 n) | Err e => Err e end, snd ra),
   mkState (writes k) (reads k) (polls k) (times k) rest).

#[export] Instance kernel : Kernel := {|
  kstate := state;
  sys_poll := poll;
  sys_gettimeofday := gettimeofday;
  sys_write := write;
  sys_readv := readv;
  sys_read _ n k := (Ret n, k);
  sys_shutdown_wr _ k := (Ret 0, k);
  sys_socket _ _ k := (Ret 3, k);
  sys_bind _ _ k := (Ret 0, k);
  sys_setsockopt _ _ _ _ k := (Ret 0, k);
  sys_listen _ k := (Ret 0, k);
  sys_accept := accept;
  sys_close _ k := (Ret 0, k);
  sys_getsockname _ k := (Ret 0, null_addr, k);
  sys_so_error _ k := (Ret 0, 0, k);
  sys_timerfd_create k := (Ret 6, k);
  sys_timerfd_settime _ _ _ k := (Ret 0, k)
|}.

Lemma ready_bits_range ready p : 0 ≤ ready_bits ready p < 2 ^ 15.
Proof. unfold ready_bits, clamp. case Z.ltb; lia. Qed.

#[export] Instance kernel_laws : KernelLaws kernel.
Proof.
  constructor; simpl.
  - intros fd d k n k' H. unfold write in H. destruct (pop _ _) as [[m|e] rest]; simplify_eq.
    unfold clamp. pose proof (zlen_nonneg d). lia.
  - intros fd room k d k' Hroom H. unfold readv in H.
    destruct (pop _ _) as [[m|e] rest]; simplify_eq. by case Z.leb_spec.
  - intros fds t k r revs k' H. unfold poll in H. destruct (pop _ _). simplify_eq.
    apply length_fmap.
  - intros fds t k r revs k' H. unfold poll in H. destruct (pop _ _). simplify_eq.
    apply Forall_fmap, Forall_true. intros p. apply ready_bits_range.
  - intros fds t k r revs k' i p H Hi Hneg. unfold poll in H. destruct (pop _ _). simplify_eq.
    rewrite list_lookup_fmap, Hi. simpl. unfold ready_bits.
    by rewrite (proj2 (Z.ltb_lt _ _) Hneg).
  - intros fds t k n revs k' H. unfold poll in H. destruct (pop _ _). by simplify_eq.
  - intros fd k n a k' H. unfold accept in H. destruct (pop _ _) as [[[m|e] b] rest];
      simplify_eq/=. lia.
Qed.

End Scripted.
