(* ===== verification/State.v ===== *)
(** * The objects of the process and the computations over them

    One record per class, with the members of the class, and the heap that
    holds the objects of each class by address.  An operation of the library
    is a value of [M A]: a function from the state of the process to a result
    and the next state, or a fault. *)

From S2P Require Import Prelude Double Timestamp Buffer Kernel.

(** ** Addresses

    A pointer is an integer; each class has a heap of its own. *)
Abbreviation ChannelPtr := Z (only parsing).
Abbreviation LoopPtr := Z (only parsing).
Abbreviation ConnPtr := Z (only parsing).
Abbreviation AcceptorPtr := Z (only parsing).
Abbreviation ServerPtr := Z (only parsing).
Abbreviation PoolPtr := Z (only parsing).
Abbreviation TimerPtr := Z (only parsing).
Abbreviation TimerQueuePtr := Z (only parsing).

(** A function object of the application, by number. *)
Abbreviation UserFunction := Z (only parsing).

(** The targets bound into the callbacks of a [Channel]. *)
Inductive Callback : Type :=
  | cb_handleRead (conn : ConnPtr)
  | cb_handleWrite (conn : ConnPtr)
  | cb_handleError (conn : ConnPtr)
  | cb_handleClose (conn : ConnPtr)
  | cb_acceptorRead (acceptor : AcceptorPtr)
  | cb_timerRead (queue : TimerQueuePtr).

#[export] Instance callback_eq_dec : EqDecision Callback.
Proof. solve_decision. Defined.

(** The targets bound into the functors queued on an [EventLoop]. *)
Inductive Functor : Type :=
  | fn_sendInLoop (conn : ConnPtr) (message : list byte)
  | fn_shutdownInLoop (conn : ConnPtr)
  | fn_destroyConnection (conn : ConnPtr)
  | fn_writeComplete (cb : UserFunction) (conn : ConnPtr)
  | fn_listen (acceptor : AcceptorPtr)
  | fn_user (f : UserFunction).

(** ** Channel (channel.h) *)
Record Channel : Type := mkChannel {
  ch_read_cb_ : option Callback;
  ch_write_cb_ : option Callback;
  ch_error_cb_ : option Callback;
  ch_close_cb_ : option Callback;
  ch_loop_ : LoopPtr;
  ch_fd_ : Z;
  ch_events_ : Z;
  ch_revents_ : Z;
  ch_index_ : Z;
  ch_owner_loop_ : LoopPtr;
  ch_events_handling_ : bool
}.

(** No constructor sets [owner_loop_].  The assertions that it is the loop [l] pass when they are
    compiled out, or when memory happened to hold [l] there. *)
Definition owned `{B : Build} (owner_loop_ l : LoopPtr) : Prop := NDEBUG = true ∨ owner_loop_ = l.

Lemma assert_owned `{B : Build} owner l : owned owner l → assert_ (owner =? l) = Ok ().
Proof.
  intros [Hn| -> ]; [unfold assert_; by rewrite Hn|]. apply assert_true, Z.eqb_refl.
Qed.

(** ** Poller (poller.h), without the pointer to its loop *)
Record Poller : Type := mkPoller {
  pl_poll_fds_ : list pollfd;
  pl_channel_map_ : gmap Z ChannelPtr
}.

(** ** EventLoop (event_loop.h); the mutex is the thread that holds it *)
Record EventLoop : Type := mkEventLoop {
  el_looping_ : bool;
  el_quit_ : bool;
  el_calling_pending_functors_ : bool;
  el_thread_id_ : Z;
  el_poll_return_time_ : Timestamp.Timestamp;
  el_poller_ : option Poller;
  el_timer_queue_ : option TimerQueuePtr;
  el_wakeup_fd_ : Z;
  el_active_channels_ : list ChannelPtr;
  el_mutex_ : option Z;
  el_pending_functors_ : list Functor
}.

(** ** TcpConnection (tcp_connection.h) *)
Inductive States : Type := Connecting | Connected | Disconnecting | Disconnected.

#[export] Instance states_eq_dec : EqDecision States.
Proof. solve_decision. Defined.

Record TcpConnection : Type := mkTcpConnection {
  tc_loop_ : LoopPtr;
  tc_name_ : string;
  tc_state_ : States;
  tc_socket_ : Z;
  tc_channel_ : ChannelPtr;
  tc_local_addr_ : sockaddr_in;
  tc_peer_addr_ : sockaddr_in;
  tc_connection_cb_ : option UserFunction;
  tc_write_cmpl_cb_ : option UserFunction;
  tc_message_cb_ : option UserFunction;
  tc_close_cb_ : option ServerPtr;
  tc_input_buffer_ : Buffer.Buffer;
  tc_output_buffer_ : Buffer.Buffer
}.

(** ** Acceptor (acceptor.h) *)
Record Acceptor : Type := mkAcceptor {
  ac_loop_ : LoopPtr;
  ac_socket_ : Z;
  ac_channel_ : ChannelPtr;
  ac_new_conn_cb_ : option ServerPtr;
  ac_listenning_ : bool
}.

(** ** EventLoopThreadPool (event_loop_thread_pool.h) *)
Record EventLoopThreadPool : Type := mkPool {
  tp_base_loop_ : LoopPtr;
  tp_started_ : bool;
  tp_num_threads_ : Z;
  tp_next_ : Z;
  tp_loops_ : list LoopPtr
}.

(** ** TcpServer (tcp_server.h) *)
Record TcpServer : Type := mkTcpServer {
  ts_loop_ : LoopPtr;
  ts_name_ : string;
  ts_acceptor_ : AcceptorPtr;
  ts_thread_pool_ : PoolPtr;
  ts_connection_cb_ : option UserFunction;
  ts_message_cb_ : option UserFunction;
  ts_write_cmpl_cb_ : option UserFunction;
  ts_started_ : bool;
  ts_next_conn_id_ : Z;
  ts_connections_ : gmap string ConnPtr
}.

(** ** Timer (timer.h) and TimerQueue (timer_queue.h)

    A [std::unique_ptr<Timer>] is an address or null; [timers_] is the sequence of
    the set in its order. *)
Record Timer : Type := mkTimer {
  tm_callback_ : option UserFunction;
  tm_expiration_ : Timestamp.Timestamp;
  tm_interval_ : Double.double;
  tm_repeat_ : bool
}.

Record TimerQueue : Type := mkTimerQueue {
  tq_loop_ : LoopPtr;
  tq_timerfd_ : Z;
  tq_channel_ : ChannelPtr;
  tq_timers_ : list (Timestamp.Timestamp * option TimerPtr)
}.

(** ** The trace: what the process did with its descriptors, oldest first.  [EvAlarm] is the time
    that was asked of [timerfd_settime], whether or not the call succeeded. *)
Inductive event : Type :=
  | EvRead (fd : Z) (data : list byte)
  | EvWrite (fd : Z) (data : list byte)
  | EvShutdownWrite (fd : Z)
  | EvListen (fd : Z)
  | EvAccept (fd : Z)
  | EvClose (fd : Z)
  | EvAlarm (fd sec nsec : Z).

#[export] Instance event_eq_dec : EqDecision event.
Proof. solve_decision. Defined.

(** ** The process *)
Section world.
Context `{K : Kernel}.

Record World : Type := mkWorld {
  w_kernel : kstate;
  w_tid : Z;                      (** The running thread, as [gettid] returns it *)
  w_cachedTid : gmap Z Z;         (** [t_cachedTid] of each thread, 0 by default *)
  w_loopInThread : gmap Z LoopPtr;
      (** [event_loop_in_this_thread] of each thread, null by default *)
  w_channels : gmap Z Channel;
  w_loops : gmap Z EventLoop;
  w_conns : gmap Z TcpConnection;
  w_acceptors : gmap Z Acceptor;
  w_pools : gmap Z EventLoopThreadPool;
  w_servers : gmap Z TcpServer;
  w_timers : gmap Z Timer;
  w_timerQueues : gmap Z TimerQueue;
  w_trace : list event
}.

Definition M (A : Type) : Type := World → result (A * World).

#[export] Instance M_ret : MRet M := λ A a w, Ok (a, w).
#[export] Instance M_bind : MBind M := λ A B k m w,
  match m w with
  | Ok (a, w') => k a w'
  | Fault f => Fault f
  end.

Definition fail {A} (f : fault) : M A := λ _, Fault f.

(** A computation that does not touch the state. *)
Definition lift {A} (r : result A) : M A := λ w,
  match r with Ok a => Ok (a, w) | Fault f => Fault f end.

Definition read {A} (f : World → A) : M A := λ w, Ok (f w, w).
Definition update (f : World → World) : M unit := λ w, Ok ((), f w).

Definition when (b : bool) (m : M unit) : M unit := if b then m else mret ().
End world.

(** ** Heaps

    [Heap T] gives access to the objects of class [T]. *)
Class Heap `{K : Kernel} (T : Type) : Type := {
  heap_get : World → gmap Z T;
  heap_set : gmap Z T → World → World;
  heap_get_set h w : heap_get (heap_set h w) = h;
  heap_set_get w : heap_set (heap_get w) w = w;
  heap_set_set h h' w : heap_set h (heap_set h' w) = heap_set h w
}.

Section heaps.
Context `{K : Kernel}.

Definition set_kernel (x : kstate) (w : World) : World :=
  mkWorld x (w_tid w) (w_cachedTid w) (w_loopInThread w) (w_channels w) (w_loops w) (w_conns w)
    (w_acceptors w) (w_pools w) (w_servers w) (w_timers w) (w_timerQueues w) (w_trace w).
Definition set_cachedTid (x : gmap Z Z) (w : World) : World :=
  mkWorld (w_kernel w) (w_tid w) x (w_loopInThread w) (w_channels w) (w_loops w) (w_conns w)
    (w_acceptors w) (w_pools w) (w_servers w) (w_timers w) (w_timerQueues w) (w_trace w).
Definition set_loopInThread (x : gmap Z LoopPtr) (w : World) : World :=
  mkWorld (w_kernel w) (w_tid w) (w_cachedTid w) x (w_channels w) (w_loops w) (w_conns w)
    (w_acceptors w) (w_pools w) (w_servers w) (w_timers w) (w_timerQueues w) (w_trace w).
Definition set_channels (x : gmap Z Channel) (w : World) : World :=
  mkWorld (w_kernel w) (w_tid w) (w_cachedTid w) (w_loopInThread w) x (w_loops w) (w_conns w)
    (w_acceptors w) (w_pools w) (w_servers w) (w_timers w) (w_timerQueues w) (w_trace w).
Definition set_loops (x : gmap Z EventLoop) (w : World) : World :=
  mkWorld (w_kernel w) (w_tid w) (w_cachedTid w) (w_loopInThread w) (w_channels w) x (w_conns w)
    (w_acceptors w) (w_pools w) (w_servers w) (w_timers w) (w_timerQueues w) (w_trace w).
Definition set_conns (x : gmap Z TcpConnection) (w : World) : World :=
  mkWorld (w_kernel w) (w_tid w) (w_cachedTid w) (w_loopInThread w) (w_channels w) (w_loops w) x
    (w_acceptors w) (w_pools w) (w_servers w) (w_timers w) (w_timerQueues w) (w_trace w).
Definition set_acceptors (x : gmap Z Acceptor) (w : World) : World :=
  mkWorld (w_kernel w) (w_tid w) (w_cachedTid w) (w_loopInThread w) (w_channels w) (w_loops w) (w_conns w)
    x (w_pools w) (w_servers w) (w_timers w) (w_timerQueues w) (w_trace w).
Definition set_pools (x : gmap Z EventLoopThreadPool) (w : World) : World :=
  mkWorld (w_kernel w) (w_tid w) (w_cachedTid w) (w_loopInThread w) (w_channels w) (w_loops w) (w_conns w)
    (w_acceptors w) x (w_servers w) (w_timers w) (w_timerQueues w) (w_trace w).
Definition set_servers (x : gmap Z TcpServer) (w : World) : World :=
  mkWorld (w_kernel w) (w_tid w) (w_cachedTid w) (w_loopInThread w) (w_channels w) (w_loops w) (w_conns w)
    (w_acceptors w) (w_pools w) x (w_timers w) (w_timerQueues w) (w_trace w).
Definition set_trace (x : list event) (w : World) : World :=
  mkWorld (w_kernel w) (w_tid w) (w_cachedTid w) (w_loopInThread w) (w_channels w) (w_loops w) (w_conns w)
    (w_acceptors w) (w_pools w) (w_servers w) (w_timers w) (w_timerQueues w) x.

Definition set_timers (x : gmap Z Timer) (w : World) : World :=
  mkWorld (w_kernel w) (w_tid w) (w_cachedTid w) (w_loopInThread w) (w_channels w) (w_loops w)
    (w_conns w) (w_acceptors w) (w_pools w) (w_servers w) x (w_timerQueues w) (w_trace w).
Definition set_timerQueues (x : gmap Z TimerQueue) (w : World) : World :=
  mkWorld (w_kernel w) (w_tid w) (w_cachedTid w) (w_loopInThread w) (w_channels w) (w_loops w)
    (w_conns w) (w_acceptors w) (w_pools w) (w_servers w) (w_timers w) x (w_trace w).

#[export] Program Instance channel_heap : Heap Channel :=
  {| heap_get := w_channels; heap_set := set_channels |}.
#[export] Program Instance loop_heap : Heap EventLoop :=
  {| heap_get := w_loops; heap_set := set_loops |}.
#[export] Program Instance conn_heap : Heap TcpConnection :=
  {| heap_get := w_conns; heap_set := set_conns |}.
#[export] Program Instance acceptor_heap : Heap Acceptor :=
  {| heap_get := w_acceptors; heap_set := set_acceptors |}.
#[export] Program Instance pool_heap : Heap EventLoopThreadPool :=
  {| heap_get := w_pools; heap_set := set_pools |}.
#[export] Program Instance server_heap : Heap TcpServer :=
  {| heap_get := w_servers; heap_set := set_servers |}.
#[export] Program Instance timer_heap : Heap Timer :=
  {| heap_get := w_timers; heap_set := set_timers |}.
#[export] Program Instance timerQueue_heap : Heap TimerQueue :=
  {| heap_get := w_timerQueues; heap_set := set_timerQueues |}.
Solve All Obligations with (intros; try destruct w; reflexivity).

(** Following a pointer, and writing an object back. *)
Definition deref {T} `{!Heap T} (p : Z) : M T := λ w,
  match heap_get w !! p with
  | Some t => Ok (t, w)
  | None => Fault DanglingPointer
  end.

Definition store {T} `{!Heap T} (p : Z) (t : T) : M unit :=
  update (λ w, heap_set (<[p := t]> (heap_get w)) w).

Definition modify {T} `{!Heap T} (p : Z) (f : T → T) : M unit :=
  t ← deref p; store p (f t).

(** [new T]: an address that holds no object yet. *)
Definition alloc {T} `{!Heap T} (t : T) : M Z :=
  p ← read (λ w, fresh (dom (heap_get w)));
  _ ← store p t;
  mret p.

(** [delete p], after the destructor. *)
Definition free (T : Type) `{!Heap T} (p : Z) : M unit :=
  _ ← deref (T := T) p;
  update (λ w, heap_set (delete p (heap_get w)) w).

(** Recording an event, and running a system call. *)
Definition emit (e : event) : M unit := update (λ w, set_trace (w_trace w ++ [e]) w).

Definition syscall {A} (f : kstate → A * kstate) : M A := λ w,
  let '(a, k) := f (w_kernel w) in Ok (a, set_kernel k w).

(** [write(2)], with the bytes it accepted in the trace. *)
Definition do_write (fd : Z) (d : list byte) : M sysret :=
  r ← syscall (sys_write fd d);
  match r with
  | Ret n => _ ← emit (EvWrite fd (take (Z.to_nat n) d)); mret r
  | Err _ => mret r
  end.

(** [readv(2)], with the bytes it delivered, if any, in the trace. *)
Definition do_readv (fd room : Z) : M Buffer.readv_result :=
  r ← syscall (sys_readv fd room);
  match r with
  | Buffer.ReadvBytes ((_ :: _) as d) => _ ← emit (EvRead fd d); mret r
  | _ => mret r
  end.

(** Running [f] on each element in turn. *)
Fixpoint for_each {A} (f : A → M unit) (l : list A) : M unit :=
  match l with
  | [] => mret ()
  | x :: l => _ ← f x; for_each f l
  end.

(** ** Weakest preconditions

    [wp m Q w]: run from [w], the computation [m] returns without a fault, and
    [Q] holds of its result and of the state it leaves. *)
Definition wp {A} (m : M A) (Q : A → World → Prop) (w : World) : Prop :=
  match m w with
  | Ok (a, w') => Q a w'
  | Fault _ => False
  end.

Lemma wp_Ok {A} (m : M A) Q w : wp m Q w ↔ ∃ a w', m w = Ok (a, w') ∧ Q a w'.
Proof.
  unfold wp. destruct (m w) as [[a w']|f]; split.
  - eauto.
  - by intros (? & ? & [= <- <-] & ?).
  - done.
  - by intros (? & ? & [=] & _).
Qed.

Lemma wp_mono {A} (m : M A) (P Q : A → World → Prop) w :
  wp m P w → (∀ a w', P a w' → Q a w') → wp m Q w.
Proof. unfold wp. destruct (m w) as [[a w']|f]; eauto. Qed.

Lemma wp_ret {A} (a : A) Q w : Q a w → wp (mret a) Q w.
Proof. done. Qed.

Lemma wp_bind {A B} (m : M A) (k : A → M B) Q w :
  wp m (λ a, wp (k a) Q) w → wp (m ≫= k) Q w.
Proof. unfold wp, mbind, M_bind. by destruct (m w) as [[a w']|f]. Qed.

Lemma wp_lift {A} (r : result A) a Q w : r = Ok a → Q a w → wp (lift r) Q w.
Proof. by intros ->. Qed.

Lemma wp_read {A} (f : World → A) Q w : Q (f w) w → wp (read f) Q w.
Proof. done. Qed.

Lemma wp_update f Q w : Q () (f w) → wp (update f) Q w.
Proof. done. Qed.

Lemma wp_deref {T} `{!Heap T} p (t : T) Q w :
  heap_get w !! p = Some t → Q t w → wp (deref p) Q w.
Proof. intros Hp HQ. unfold wp, deref. by rewrite Hp. Qed.

Lemma wp_store {T} `{!Heap T} p (t : T) (Q : unit → World → Prop) w :
  Q () (heap_set (<[p := t]> (heap_get w)) w) → wp (store p t) Q w.
Proof. done. Qed.

Lemma wp_modify {T} `{!Heap T} p f (t : T) (Q : unit → World → Prop) w :
  heap_get w !! p = Some t →
  Q () (heap_set (<[p := f t]> (heap_get w)) w) → wp (modify p f) Q w.
Proof. intros. apply wp_bind, (wp_deref p t); [done|]. by apply wp_store. Qed.

Lemma wp_emit e (Q : unit → World → Prop) w :
  Q () (set_trace (w_trace w ++ [e]) w) → wp (emit e) Q w.
Proof. done. Qed.

Lemma wp_syscall {A} (f : kstate → A * kstate) Q w :
  (∀ a k, f (w_kernel w) = (a, k) → Q a (set_kernel k w)) → wp (syscall f) Q w.
Proof. intros HQ. unfold wp, syscall. destruct (f (w_kernel w)) eqn:?. eauto. Qed.

Lemma wp_for_each {A} (f : A → M unit) (I : list A → World → Prop) l w :
  I [] w →
  (∀ pre x post w, l = pre ++ x :: post → I pre w → wp (f x) (λ _, I (pre ++ [x])) w) →
  wp (for_each f l) (λ _, I l) w.
Proof.
  intros HI Hstep.
  enough (∀ pre post w, l = pre ++ post → I pre w → wp (for_each f post) (λ _, I l) w)
    as Hgen by by apply (Hgen []).
  clear w HI. intros pre post. revert pre.
  induction post as [|x post IH]; intros pre w Hl HI; simpl.
  - rewrite app_nil_r in Hl. by subst.
  - apply wp_bind. eapply wp_mono; [by apply (Hstep pre x post)|].
    intros [] w' HI'. apply (IH (pre ++ [x])); [by rewrite <- app_assoc|done].
Qed.

(** [wpe E m Q w]: run from [w], the computation [m] returns with [Q], or stops
    with one of the faults [E]. *)
Definition wpe {A} (E : fault → Prop) (m : M A) (Q : A → World → Prop) (w : World) : Prop :=
  match m w with
  | Ok (a, w') => Q a w'
  | Fault f => E f
  end.

Lemma wpe_mono {A} E (m : M A) (P Q : A → World → Prop) w :
  wpe E m P w → (∀ a w', P a w' → Q a w') → wpe E m Q w.
Proof. unfold wpe. destruct (m w) as [[a w']|f]; eauto. Qed.

Lemma wpe_and {A} E (m : M A) (P Q : A → World → Prop) w :
  wpe E m P w → wpe E m Q w → wpe E m (λ a w', P a w' ∧ Q a w') w.
Proof. unfold wpe. destruct (m w) as [[a w']|f]; auto. Qed.

Lemma wpe_ret {A} E (a : A) Q w : Q a w → wpe E (mret a) Q w.
Proof. done. Qed.

Lemma wpe_ok {A} E (m : M A) a w' Q w : m w = Ok (a, w') → Q a w' → wpe E m Q w.
Proof. intros Hm. unfold wpe. by rewrite Hm. Qed.

Lemma wpe_fault {A} (E : fault → Prop) (m : M A) f Q w : m w = Fault f → E f → wpe E m Q w.
Proof. intros Hm. unfold wpe. by rewrite Hm. Qed.

Lemma wpe_eq {A} E (m m' : M A) Q w w' : m w = m' w' → wpe E m' Q w' → wpe E m Q w.
Proof. intros Hm. unfold wpe. by rewrite Hm. Qed.

Lemma wpe_bind {A B} E (m : M A) (k : A → M B) Q w :
  wpe E m (λ a, wpe E (k a) Q) w → wpe E (m ≫= k) Q w.
Proof. unfold wpe, mbind, M_bind. by destruct (m w) as [[a w']|f]. Qed.

Lemma wpe_deref {T} `{!Heap T} E p (t : T) Q w :
  heap_get w !! p = Some t → Q t w → wpe E (deref p) Q w.
Proof. intros Hp HQ. unfold wpe, deref. by rewrite Hp. Qed.

Lemma wpe_modify {T} `{!Heap T} E p f (t : T) (Q : unit → World → Prop) w :
  heap_get w !! p = Some t →
  Q () (heap_set (<[p := f t]> (heap_get w)) w) → wpe E (modify p f) Q w.
Proof. intros. by apply wpe_bind, (wpe_deref _ p t). Qed.

Lemma wpe_syscall {A} E (f : kstate → A * kstate) Q w :
  (∀ a k, f (w_kernel w) = (a, k) → Q a (set_kernel k w)) → wpe E (syscall f) Q w.
Proof. intros HQ. unfold wpe, syscall. destruct (f (w_kernel w)) eqn:?. eauto. Qed.

(** The invariant [I] is indexed by the elements still to come. *)
Lemma wpe_for_each {A} E (f : A → M unit) (I : list A → World → Prop) l w :
  I l w →
  (∀ x post w, I (x :: post) w → wpe E (f x) (λ _, I post) w) →
  wpe E (for_each f l) (λ _, I []) w.
Proof.
  intros HI Hstep. revert w HI. induction l as [|x l IH]; intros w HI; simpl; [done|].
  apply wpe_bind. eapply wpe_mono; [by apply Hstep|]. intros [] w' HI'. by apply IH.
Qed.

End heaps.
