(* ===== verification/CurrentThread.v ===== *)
(** * The current thread and its event loop

    [CurrentThread::tid] (src/src/thread.cpp) and the checks of
    src/src/include/event_loop.h that use it. *)

From S2P Require Import Prelude Timestamp Buffer Kernel State.

(** What the library needs of the build: a call of [CurrentThread::tid] that
    finds the id cached flows off the end of a non-void function, and the
    caller still receives the cached id. *)
Class BuildLaws (B : Build) : Prop := {
  fall_off_cached c : tid_fall_off c = c
}.

#[export] Instance debug_build_laws : BuildLaws debug_build.
Proof. done. Qed.

#[export] Instance release_build_laws : BuildLaws release_build.
Proof. done. Qed.

Module CurrentThread.
Section tid.
Context `{K : Kernel} `{B : Build}.

Definition t_cachedTid (w : World) : Z := default 0 (w_cachedTid w !! w_tid w).

(** [gettid] returns the id of the running thread.  The branch that finds the
    id cached has no [return]. *)
Definition tid : M Z :=
  c ← read t_cachedTid;
  if c =? 0 then
    t ← read w_tid;
    _ ← update (λ w, set_cachedTid (<[w_tid w := t]> (w_cachedTid w)) w);
    mret t
  else mret (tid_fall_off c).

(** [isMainThread], given [getpid()]. *)
Definition isMainThread (pid : Z) : M bool := t ← tid; mret (t =? pid).

End tid.
End CurrentThread.

Section checks.
Context `{K : Kernel} `{B : Build}.

Definition isInLoopThread (l : LoopPtr) : M bool :=
  loop ← deref l;
  t ← CurrentThread.tid;
  mret (el_thread_id_ loop =? t).

Definition assertInLoopThread (l : LoopPtr) : M unit :=
  b ← isInLoopThread l;
  if (b : bool) then mret () else fail NotInLoopThread.

(** The running thread is the thread of the loop [l], and knows its id: the
    constructor of the loop has called [tid] in it. *)
Definition in_loop_thread (l : Z) (w : World) : Prop :=
  w_tid w ≠ 0 ∧ CurrentThread.t_cachedTid w = w_tid w ∧
  ∃ loop, w_loops w !! l = Some loop ∧ el_thread_id_ loop = w_tid w.

(** The running thread knows its id and the loop [l] is of another thread. *)
Definition foreign_thread (l : Z) (w : World) : Prop :=
  w_tid w ≠ 0 ∧ CurrentThread.t_cachedTid w = w_tid w ∧
  ∃ loop, w_loops w !! l = Some loop ∧ el_thread_id_ loop ≠ w_tid w.

Lemma in_loop_thread_frame l w w' :
  w_tid w' = w_tid w → w_cachedTid w' = w_cachedTid w →
  (∀ loop, w_loops w !! l = Some loop →
     ∃ loop', w_loops w' !! l = Some loop' ∧ el_thread_id_ loop' = el_thread_id_ loop) →
  in_loop_thread l w → in_loop_thread l w'.
Proof.
  intros Ht Hc Hl (Hnz & Hcache & loop & Hloop & Hid).
  unfold in_loop_thread, CurrentThread.t_cachedTid in *. rewrite Ht, Hc.
  destruct (Hl loop Hloop) as (loop' & ? & ?). split_and!; [done..|].
  exists loop'. split; congruence.
Qed.

Context `{BL : !BuildLaws B}.

Lemma tid_cached w :
  w_tid w ≠ 0 → CurrentThread.t_cachedTid w = w_tid w → CurrentThread.tid w = Ok (w_tid w, w).
Proof.
  intros Hnz Hc. unfold CurrentThread.tid, mbind, M_bind, read. rewrite Hc.
  rewrite (proj2 (Z.eqb_neq _ _) Hnz). by rewrite fall_off_cached.
Qed.

Lemma isInLoopThread_true l w : in_loop_thread l w → isInLoopThread l w = Ok (true, w).
Proof.
  intros (Hnz & Hc & loop & Hl & Hid).
  unfold isInLoopThread, mbind, M_bind, deref. simpl. rewrite Hl, tid_cached by done.
  rewrite Hid, Z.eqb_refl. done.
Qed.

Lemma isInLoopThread_false l w : foreign_thread l w → isInLoopThread l w = Ok (false, w).
Proof.
  intros (Hnz & Hc & loop & Hl & Hid).
  unfold isInLoopThread, mbind, M_bind, deref. simpl. rewrite Hl, tid_cached by done.
  by rewrite (proj2 (Z.eqb_neq _ _)).
Qed.

Lemma assertInLoopThread_ok l w : in_loop_thread l w → assertInLoopThread l w = Ok ((), w).
Proof.
  intros H. unfold assertInLoopThread, mbind, M_bind. by rewrite isInLoopThread_true.
Qed.

Lemma assertInLoopThread_abort l w :
  foreign_thread l w → assertInLoopThread l w = Fault NotInLoopThread.
Proof.
  intros H. unfold assertInLoopThread, mbind, M_bind. by rewrite isInLoopThread_false.
Qed.

Lemma wp_assertInLoopThread l (Q : unit → World → Prop) w :
  in_loop_thread l w → Q () w → wp (assertInLoopThread l) Q w.
Proof. intros Hl HQ. unfold wp. by rewrite assertInLoopThread_ok. Qed.

End checks.
