(* ===== verification/ThreadData.v ===== *)
(** * What a new thread does (src/src/thread.cpp)

    [ThreadData] and [startThread], the cached id and the name of the running
    thread, and the handler for [fork].  The hand-shake of [runInThread] with the
    thread that waits in [Thread::start] is in EventLoopThread; here the two
    meet only in that the [Thread] may be gone once its latch was counted down. *)

From Stdlib Require Import Ascii.
From S2P Require Import Prelude Timestamp Buffer Kernel State CurrentThread.

Module ThreadData.

(** A [const char*]: a literal, or [name_.c_str()] of the [ThreadData] at an address. *)
Inductive text : Type := Literal (s : string) | NameOf (d : Z).

(** [tid_] and [latch_] point to the members of a [Thread]; [None] is null. *)
Record ThreadData `{K : Kernel} : Type := mkData {
  func_ : M unit;
  name_ : string;
  tid_ : option Z;
  latch_ : option Z
}.
Arguments mkData {K} _ _ _ _.

Section threads.
Context `{K : Kernel} `{B : Build}.

(** What the threads have besides the process of [State]: [t_threadName] of each, the
    [ThreadData], the [tid_] and the [latch_] of the [Thread]s (the latter by its count),
    the names given to [prctl], and how often [afterFork] was given to [pthread_atfork]. *)
Record threads : Type := mkThreads {
  names : gmap Z text;
  datas : gmap Z ThreadData;
  tids : gmap Z Z;
  latches : gmap Z Z;
  titles : list string;
  atforks : nat
}.

(** Computations on the process and its threads *)
Definition T (A : Type) : Type := World * threads → result (A * (World * threads)).

#[export] Instance T_ret : MRet T := λ A a s, Ok (a, s).
#[export] Instance T_bind : MBind T := λ A C k m s,
  match m s with Ok (a, s') => k a s' | Fault f => Fault f end.

Definition on_world {A} (m : M A) : T A := λ s,
  match m s.1 with Ok (a, w) => Ok (a, (w, s.2)) | Fault f => Fault f end.

Definition getting {A} (f : threads → option A) : T A := λ s,
  a ← result_of_option DanglingPointer (f s.2); Ok (a, s).

Definition updating (f : threads → threads) : T unit := λ s, Ok ((), (s.1, f s.2)).

(** A pointer that must not be null *)
Definition non_null (p : option Z) : T Z := λ s, a ← result_of_option NullPointer p; Ok (a, s).

Definition set_names (x : gmap Z text) (h : threads) : threads :=
  mkThreads x (datas h) (tids h) (latches h) (titles h) (atforks h).
Definition set_datas (x : gmap Z ThreadData) (h : threads) : threads :=
  mkThreads (names h) x (tids h) (latches h) (titles h) (atforks h).
Definition set_tids (x : gmap Z Z) (h : threads) : threads :=
  mkThreads (names h) (datas h) x (latches h) (titles h) (atforks h).
Definition set_latches (x : gmap Z Z) (h : threads) : threads :=
  mkThreads (names h) (datas h) (tids h) x (titles h) (atforks h).
Definition set_titles (x : list string) (h : threads) : threads :=
  mkThreads (names h) (datas h) (tids h) (latches h) x (atforks h).
Definition set_atforks (x : nat) (h : threads) : threads :=
  mkThreads (names h) (datas h) (tids h) (latches h) (titles h) x.

(** ** Names *)

(** [t_threadName] of a thread that has not set it *)
Definition t_threadName (t : Z) (h : threads) : text := default (Literal "default") (names h !! t).

(** [CurrentThread::name] *)
Definition name : T text :=
  t ← on_world (read w_tid); getting (λ h, Some (t_threadName t h)).

Definition set_threadName (x : text) : T unit :=
  t ← on_world (read w_tid); updating (λ h, set_names (<[t := x]> (names h)) h).

(** The characters up to the first null *)
Fixpoint c_str (s : string) : string :=
  match s with
  | EmptyString => EmptyString
  | String a s => if Ascii.eqb a zero then EmptyString else String a (c_str s)
  end.

(** Reading what a [const char*] points to; the string of a deleted [ThreadData] is gone. *)
Definition chars (x : text) : T string :=
  match x with
  | Literal s => mret s
  | NameOf d => data ← getting (λ h, datas h !! d); mret (c_str (name_ data))
  end.

(** [prctl(PR_SET_NAME, x)] *)
Definition set_title (x : text) : T unit :=
  s ← chars x; updating (λ h, set_titles (titles h ++ [s]) h).

(** ** The id in a forked process *)

(** [afterFork] *)
Definition afterFork : T unit :=
  _ ← on_world (update (λ w, set_cachedTid (<[w_tid w := 0]> (w_cachedTid w)) w));
  _ ← set_threadName (Literal "main");
  _ ← on_world CurrentThread.tid;
  mret ().

(** The constructor of the class, of which the program has no object *)
Definition ThreadNameInitializer_ctor : T unit :=
  _ ← on_world (update (λ w, set_cachedTid (<[w_tid w := 0]> (w_cachedTid w)) w));
  _ ← set_threadName (Literal "main");
  updating (λ h, set_atforks (S (atforks h)) h).

(** [fork] as the child sees it: it has a copy of the thread that called, under a new id, and
    runs the handlers of [pthread_atfork] (fork(2), pthread_atfork(3)). *)
Definition forked (child : Z) (s : World * threads) : World * threads :=
  let w := s.1 in
  (mkWorld (w_kernel w) child (<[child := CurrentThread.t_cachedTid w]> (w_cachedTid w))
     (partial_alter (λ _, w_loopInThread w !! w_tid w) child (w_loopInThread w))
     (w_channels w) (w_loops w) (w_conns w) (w_acceptors w) (w_pools w) (w_servers w)
     (w_timers w) (w_timerQueues w) (w_trace w),
   set_names (<[child := t_threadName (w_tid w) s.2]> (names s.2)) s.2).

Fixpoint run_atforks (n : nat) : T unit :=
  match n with O => mret () | S n => _ ← afterFork; run_atforks n end.

Definition fork (child : Z) : T unit := λ s, run_atforks (atforks s.2) (forked child s).

(** ** A new thread *)

Definition ThreadData_ctor (func : M unit) (n : string) (tid latch : Z) : ThreadData :=
  mkData func n (Some tid) (Some latch).

Definition modify_data (d : Z) (f : ThreadData → ThreadData) : T unit :=
  data ← getting (λ h, datas h !! d); updating (λ h, set_datas (<[d := f data]> (datas h)) h).

(** [latch_->countDown()], by the count *)
Definition countDown (q : Z) : T unit :=
  n ← getting (λ h, latches h !! q);
  n ← on_world (lift (checked 32 (n - 1)));
  updating (λ h, set_latches (<[q := n]> (latches h)) h).

(** [*p = t] *)
Definition store_tid (p t : Z) : T unit :=
  _ ← getting (λ h, tids h !! p); updating (λ h, set_tids (<[p := t]> (tids h)) h).

(** [runInThread] up to the last use of the [Thread]. *)
Definition announce (d : Z) : T unit :=
  t ← on_world CurrentThread.tid;
  data ← getting (λ h, datas h !! d);
  p ← non_null (tid_ data);
  _ ← store_tid p t;
  _ ← modify_data d (λ x, mkData (func_ x) (name_ x) None (latch_ x));
  q ← non_null (latch_ data);
  _ ← countDown q;
  modify_data d (λ x, mkData (func_ x) (name_ x) (tid_ x) None).

(** The name of the thread, in the library and in the kernel. *)
Definition take_name (d : Z) : T unit :=
  data ← getting (λ h, datas h !! d);
  _ ← set_threadName (match name_ data with EmptyString => Literal "Thread" | _ => NameOf d end);
  x ← name;
  set_title x.

(** [func_()] and the last line *)
Definition work (d : Z) : T unit :=
  data ← getting (λ h, datas h !! d);
  _ ← on_world (func_ data);
  set_threadName (Literal "finished").

Definition runInThread (d : Z) : T unit := _ ← announce d; _ ← take_name d; work d.

(** [startThread]: at the end the [ThreadData] is deleted. *)
Definition startThread (d : Z) : T unit :=
  _ ← runInThread d;
  _ ← getting (λ h, datas h !! d);
  updating (λ h, set_datas (delete d (datas h)) h).

(** ** What they do *)

Lemma bind_on_world {A C} (m : M A) (k : A → T C) w h :
  (on_world m ≫= k) (w, h) =
    match m w with Ok (a, w') => k a (w', h) | Fault f => Fault f end.
Proof. unfold on_world, mbind, T_bind. simpl. by destruct (m w) as [[a w']|f]. Qed.

Lemma bind_getting {A C} (f : threads → option A) (k : A → T C) w h a :
  f h = Some a → (getting f ≫= k) (w, h) = k a (w, h).
Proof. intros Hf. unfold getting, mbind, T_bind. simpl. by rewrite Hf. Qed.

Lemma bind_updating {C} f (k : unit → T C) w h : (updating f ≫= k) (w, h) = k () (w, f h).
Proof. done. Qed.

(** The thread [t] with its id cached. *)
Definition cached (w : World) : World := set_cachedTid (<[w_tid w := w_tid w]> (w_cachedTid w)) w.

(** The first call of [tid] in a thread. *)
Lemma tid_fresh w :
  CurrentThread.t_cachedTid w = 0 → CurrentThread.tid w = Ok (w_tid w, cached w).
Proof. intros Hc. unfold CurrentThread.tid, mbind, M_bind, read. by rewrite Hc. Qed.

(** The name [runInThread] chooses. *)
Definition chosen (n : string) (d : Z) : text :=
  match n with EmptyString => Literal "Thread" | _ => NameOf d end.
Definition shown (n : string) : string :=
  match n with EmptyString => "Thread" | _ => c_str n end.

Lemma chars_chosen d data w h :
  datas h !! d = Some data → chars (chosen (name_ data) d) (w, h) = Ok (shown (name_ data), (w, h)).
Proof.
  intros Hd. destruct (name_ data) as [|a n] eqn:Hn; [done|]. simpl.
  rewrite (bind_getting _ _ _ _ data) by done. by rewrite Hn.
Qed.

(** After [announce], the [Thread] knows the id of its thread and its latch is one down. *)
Definition announced (d : Z) (func : M unit) (n : string) (p q t count : Z) (h : threads) : threads :=
  mkThreads (names h) (<[d := mkData func n None None]> (datas h)) (<[p := t]> (tids h))
    (<[q := count - 1]> (latches h)) (titles h) (atforks h).

Lemma announce_ok d func n p q w h old count :
  datas h !! d = Some (ThreadData_ctor func n p q) → CurrentThread.t_cachedTid w = 0 →
  tids h !! p = Some old → latches h !! q = Some count → 0 < count < 2 ^ 31 →
  announce d (w, h) = Ok ((), (cached w, announced d func n p q (w_tid w) count h)).
Proof.
  intros Hd Hc Hp Hq Hcount. unfold announce. rewrite bind_on_world, tid_fresh by done.
  erewrite bind_getting by done. simpl.
  unfold store_tid, countDown, modify_data, non_null, mbind, T_bind, getting, on_world, lift, updating.
  simpl. rewrite Hp. simpl. rewrite Hd. simpl. rewrite Hq. simpl. rewrite checked_ok by lia. simpl.
  rewrite lookup_insert_eq. simpl. by rewrite !insert_insert_eq.
Qed.

(** The thread has its name. *)
Definition named (t : Z) (x : text) (s : string) (h : threads) : threads :=
  set_titles (titles h ++ [s]) (set_names (<[t := x]> (names h)) h).

Lemma take_name_ok d data w h :
  datas h !! d = Some data →
  take_name d (w, h) =
    Ok ((), (w, named (w_tid w) (chosen (name_ data) d) (shown (name_ data)) h)).
Proof.
  intros Hd. unfold take_name. erewrite bind_getting by done. fold (chosen (name_ data) d).
  unfold set_threadName, name, mbind, T_bind, on_world, updating, getting, read. simpl.
  unfold t_threadName. simpl. rewrite lookup_insert_eq. simpl.
  unfold set_title, mbind, T_bind.
  rewrite (chars_chosen d data) by done. done.
Qed.

(** [name] reads the name that was set last. *)
Lemma name_named w x s h : name (w, named (w_tid w) x s h) = Ok (x, (w, named (w_tid w) x s h)).
Proof.
  unfold name. rewrite bind_on_world. simpl. unfold getting, t_threadName. simpl.
  by rewrite lookup_insert_eq.
Qed.

(** What a thread does once its [Thread] knows of it. *)
Definition rest (d : Z) : T unit :=
  _ ← take_name d; _ ← work d; _ ← getting (λ h, datas h !! d);
  updating (λ h, set_datas (delete d (datas h)) h).

Lemma startThread_parts d s : startThread d s = (_ ← announce d; rest d) s.
Proof.
  unfold startThread, runInThread, rest, mbind, T_bind.
  destruct (announce d s) as [[? s1]|?]; [|done]. by destruct (take_name d s1) as [[? s2]|?].
Qed.

(** The threads after [func_] has returned in the thread [t']. *)
Definition finished (d t t' : Z) (n : string) (h : threads) : threads :=
  mkThreads (<[t' := Literal "finished"]> (<[t := chosen n d]> (names h))) (delete d (datas h))
    (tids h) (latches h) (titles h ++ [shown n]) (atforks h).

(** C33: the life of a thread.  [startThread] stores the id of the new thread in its [Thread]
    and counts the latch down, once, before anything else.  From then on it does not
    use the [Thread]: the rest runs the same from every [h1] that has the [ThreadData],
    whatever became of the [Thread]s.  While its function runs, [CurrentThread::name]
    and the name in the kernel are those of the [Thread], or "Thread" when that is empty; a
    fault of the function is that of the thread; and at the end the name is a literal, not
    the string of the [ThreadData] that was deleted. *)
Theorem thread_runs_under_its_name d func n p q w h old count :
  datas h !! d = Some (ThreadData_ctor func n p q) → CurrentThread.t_cachedTid w = 0 →
  tids h !! p = Some old → latches h !! q = Some count → 0 < count < 2 ^ 31 →
  startThread d (w, h) = rest d (cached w, announced d func n p q (w_tid w) count h) ∧
  ∀ h1, datas h1 !! d = Some (mkData func n None None) →
    (∃ h2, take_name d (cached w, h1) = Ok ((), (cached w, h2)) ∧
       (x ← name; chars x) (cached w, h2) = Ok (shown n, (cached w, h2)) ∧
       titles h2 = titles h1 ++ [shown n]) ∧
    rest d (cached w, h1) =
      match func (cached w) with
      | Ok (_, w') => Ok ((), (w', finished d (w_tid w) (w_tid w') n h1))
      | Fault f => Fault f
      end.
Proof.
  intros Hd Hc Hp Hq Hcount. split.
  { rewrite startThread_parts. unfold mbind at 1, T_bind at 1. by erewrite announce_ok. }
  intros h1 Hd1. pose proof (take_name_ok d _ (cached w) h1 Hd1) as Ht. simpl in Ht. split.
  - eexists. split; [exact Ht|]. split; [|done]. unfold mbind, T_bind.
    rewrite (name_named (cached w)). by apply (chars_chosen d (mkData func n None None)).
  - unfold rest. unfold mbind at 1, T_bind at 1. rewrite Ht.
    unfold work, set_threadName, mbind, T_bind, getting, on_world, updating. simpl. rewrite Hd1. simpl.
    destruct (func (cached w)) as [[[] w']|f]; [|done]. simpl. by rewrite Hd1.
Qed.

(** One run of the handler gives the running thread its own id and the name "main"; another changes nothing. *)
Lemma afterFork_ok w h :
  afterFork (w, h) = Ok ((), (cached w, set_names (<[w_tid w := Literal "main"]> (names h)) h)).
Proof.
  set (w1 := set_cachedTid (<[w_tid w := 0]> (w_cachedTid w)) w).
  assert (CurrentThread.tid w1 = Ok (w_tid w1, cached w1)) as Htid.
  { apply tid_fresh. unfold CurrentThread.t_cachedTid, w1. simpl. by rewrite lookup_insert_eq. }
  unfold afterFork, set_threadName, mbind, T_bind, on_world, updating. simpl. fold w1. rewrite Htid.
  unfold cached, w1, set_cachedTid. simpl. by rewrite insert_insert_eq.
Qed.

(** the id in a forked process.  A child of [fork] inherits the id its parent had
    cached, and [tid] gives the id of the parent, so that the child passes for the
    thread of the parent's loops; [afterFork] would give it its own id and the name
    "main".  Nothing registers [afterFork]: the object whose constructor does it is
    commented out. *)
Theorem forked_child_has_parents_id `{BL : !BuildLaws B} parent w h :
  parent ≠ 0 → CurrentThread.t_cachedTid w = parent → w_tid w ≠ parent → w_tid w ≠ 0 →
  CurrentThread.tid w = Ok (parent, w) ∧
  (∀ l loop, w_loops w !! l = Some loop → el_thread_id_ loop = parent →
     assertInLoopThread l w = Ok ((), w)) ∧
  ∃ w' h', afterFork (w, h) = Ok ((), (w', h')) ∧ CurrentThread.tid w' = Ok (w_tid w, w') ∧
    (x ← name; chars x) (w', h') = Ok ("main"%string, (w', h')) ∧
    ∀ l loop, w_loops w !! l = Some loop → el_thread_id_ loop = parent →
      assertInLoopThread l w' = Fault NotInLoopThread.
Proof.
  intros Hpar Hc Hne Hnz.
  assert (CurrentThread.tid w = Ok (parent, w)) as Htid.
  { unfold CurrentThread.tid, mbind, M_bind, read. rewrite Hc.
    by rewrite (proj2 (Z.eqb_neq _ _) Hpar), fall_off_cached. }
  split; [exact Htid|]. split.
  { intros l loop Hl Hid. unfold assertInLoopThread, isInLoopThread, mbind, M_bind, deref. simpl.
    rewrite Hl, Htid, Hid, Z.eqb_refl. done. }
  assert (CurrentThread.t_cachedTid (cached w) = w_tid (cached w)) as Hc2.
  { unfold CurrentThread.t_cachedTid, cached. simpl. by rewrite lookup_insert_eq. }
  exists (cached w), (set_names (<[w_tid w := Literal "main"]> (names h)) h).
  split; [apply afterFork_ok|]. split; [exact (tid_cached (cached w) Hnz Hc2)|]. split.
  - unfold name, chars, mbind, T_bind, on_world, getting, t_threadName. simpl.
    by rewrite lookup_insert_eq.
  - intros l loop Hl Hid. apply assertInLoopThread_abort. split; [done|]. split; [done|].
    exists loop. split; [done|]. simpl. congruence.
Qed.

Lemma run_atforks_ok n w h :
  run_atforks (S n) (w, h) = Ok ((), (cached w, set_names (<[w_tid w := Literal "main"]> (names h)) h)).
Proof.
  revert w h. induction n as [|n IH]; intros w h.
  - change (run_atforks 1 (w, h)) with ((_ ← afterFork; mret ()) (w, h)). unfold mbind, T_bind.
    by rewrite afterFork_ok.
  - change (run_atforks (S (S n)) (w, h)) with ((_ ← afterFork; run_atforks (S n)) (w, h)).
    unfold mbind at 1, T_bind at 1. rewrite afterFork_ok, IH.
    unfold cached, set_cachedTid, set_names. simpl. by rewrite !insert_insert_eq.
Qed.

(** What [fork] leaves of the identity of the thread: with a handler registered, as the constructor of
    [ThreadNameInitializer] does, the child knows its own id, is called "main" and is kept off its
    parent's loops; without one, as the program is, it takes itself for its parent. *)
Theorem fork_outcomes `{BL : !BuildLaws B} child w h :
  child ≠ 0 → child ≠ w_tid w → w_tid w ≠ 0 → CurrentThread.t_cachedTid w = w_tid w →
  ∃ w' h', fork child (w, h) = Ok ((), (w', h')) ∧ w_tid w' = child ∧
    (∀ l loop, w_loops w !! l = Some loop → el_thread_id_ loop = w_tid w →
       assertInLoopThread l w' = if decide (atforks h = 0%nat) then Ok ((), w') else Fault NotInLoopThread) ∧
    if decide (atforks h = 0%nat)
    then CurrentThread.tid w' = Ok (w_tid w, w') ∧ t_threadName child h' = t_threadName (w_tid w) h
    else CurrentThread.tid w' = Ok (child, w') ∧ t_threadName child h' = Literal "main".
Proof.
  intros Hchild Hne Hnz Hc. unfold fork. simpl. set (w1 := fst (forked child (w, h))).
  assert (CurrentThread.t_cachedTid w1 = w_tid w) as Hc1.
  { unfold CurrentThread.t_cachedTid at 1, w1. simpl. by rewrite lookup_insert_eq. }
  destruct (atforks h) as [|n] eqn:Hn.
  - assert (CurrentThread.tid w1 = Ok (w_tid w, w1)) as Htid.
    { unfold CurrentThread.tid, mbind, M_bind, read. rewrite Hc1.
      by rewrite (proj2 (Z.eqb_neq _ _) Hnz), fall_off_cached. }
    eexists w1, _. split; [reflexivity|]. split; [done|]. split; [|split; [done|]].
    + intros l loop Hl Hid. unfold assertInLoopThread, isInLoopThread, mbind, M_bind, deref. simpl.
      rewrite Hl, Htid, Hid, Z.eqb_refl. done.
    + unfold t_threadName at 1. simpl. by rewrite lookup_insert_eq.
  - assert (CurrentThread.t_cachedTid (cached w1) = w_tid (cached w1)) as Hc2.
    { unfold CurrentThread.t_cachedTid, cached. simpl. by rewrite lookup_insert_eq. }
    eexists (cached w1), _. split; [apply run_atforks_ok|]. split; [done|]. split; [|split].
    + intros l loop Hl Hid. apply assertInLoopThread_abort. split; [done|]. split; [done|].
      exists loop. split; [done|]. simpl. congruence.
    + by apply (tid_cached (cached w1)).
    + unfold t_threadName. simpl. by rewrite lookup_insert_eq.
Qed.

End threads.

(** ** On a concrete process *)

#[local] Existing Instance Scripted.kernel.
#[local] Existing Instance debug_build.

(** The thread 9 in a process whose thread 7 has a loop; [cache] holds the cached ids. *)
Definition process (cache : gmap Z Z) : World := {|
  w_kernel := Scripted.mkState [] [] [] [] []; w_tid := 9; w_cachedTid := cache; w_loopInThread := ∅;
  w_channels := ∅;
  w_loops := {[1 := mkEventLoop false false false 7 Timestamp.invalid None None 4 [] None []]};
  w_conns := ∅; w_acceptors := ∅; w_pools := ∅; w_servers := ∅; w_timers := ∅; w_timerQueues := ∅;
  w_trace := []
|}.

(** One [Thread], with [tid_] at 1 and its latch at 2. *)
Definition new_thread : threads :=
  mkThreads ∅ {[5 := ThreadData_ctor (emit (EvListen 3)) "io" 1 2]} {[1 := 0]} {[2 := 1]} [] 0.

Lemma thread_runs_under_its_name_witness :
  ∃ w' h', startThread 5 (process ∅, new_thread) = Ok ((), (w', h')) ∧ w_trace w' = [EvListen 3] ∧
    titles h' = ["io"%string] ∧ t_threadName 9 h' = Literal "finished" ∧ datas h' = ∅ ∧
    tids h' = {[1 := 9]} ∧ latches h' = {[2 := 0]}.
Proof.
  destruct (thread_runs_under_its_name 5 (emit (EvListen 3)) "io" 1 2 (process ∅) new_thread 0 1
    eq_refl ltac:(by vm_compute) eq_refl eq_refl ltac:(lia)) as [Hstart Hrest].
  set (h1 := announced _ _ _ _ _ _ _ _) in Hstart.
  destruct (Hrest h1 ltac:(apply lookup_insert_eq)) as [_ Hrun].
  eexists _, _. split; [rewrite Hstart; exact Hrun|]. by vm_compute.
Defined.

Lemma forked_child_has_parents_id_witness :
  CurrentThread.tid (process {[9 := 7]}) = Ok (7, process {[9 := 7]}) ∧
  assertInLoopThread 1 (process {[9 := 7]}) = Ok ((), process {[9 := 7]}).
Proof.
  destruct (forked_child_has_parents_id 7 (process {[9 := 7]}) new_thread ltac:(done) eq_refl
    ltac:(done) ltac:(done)) as (Htid & Hloop & _).
  split; [exact Htid|by eapply Hloop].
Defined.

(** The thread 7 forks 9, with and without the object of [ThreadNameInitializer]. *)
Definition forking : World * threads :=
  (fst (forked 7 (process {[9 := 7]}, new_thread)), new_thread).

Lemma fork_outcomes_witness :
  (∃ w' h', fork 9 forking = Ok ((), (w', h')) ∧ CurrentThread.tid w' = Ok (7, w')) ∧
  ∃ s, ThreadNameInitializer_ctor forking = Ok ((), s) ∧ atforks s.2 = 1%nat ∧
    ∃ w' h', fork 9 (cached s.1, s.2) = Ok ((), (w', h')) ∧ CurrentThread.tid w' = Ok (9, w') ∧
      t_threadName 9 h' = Literal "main".
Proof.
  split.
  - destruct (fork_outcomes 9 (fst forking) new_thread) as (w' & h' & Hf & _ & _ & Ht & _); [done..|].
    exists w', h'. by split.
  - eexists. split; [reflexivity|]. split; [reflexivity|].
    destruct (fork_outcomes 9 (cached (fst forking)) (set_atforks 1
      (set_names (<[7 := Literal "main"]> (names new_thread)) new_thread)))
      as (w' & h' & Hf & _ & _ & Ht & Hn); [done..|].
    exists w', h'. split; [exact Hf|]. by split.
Defined.

End ThreadData.
