(* ===== verification/Channel.v ===== *)
(** * Channels (src/src/include/channel.h, src/src/channel.cpp)

    A [Channel] holds the events a descriptor is watched for, the events last
    reported for it and the callbacks they are dispatched to.  [update] tells
    the loop of the channel; the loop is known through the class
    [ChannelLoop]. *)

From S2P Require Import Prelude Timestamp Buffer Kernel State CurrentThread.

(** What a [Channel] needs of an [EventLoop]. *)
Class ChannelLoop `{K : Kernel} : Type := {
  loop_updateChannel : LoopPtr → ChannelPtr → M unit
}.

(** What a [Channel] needs of the objects bound into its callbacks. *)
Class Callbacks `{K : Kernel} : Type := {
  call : Callback → Timestamp.Timestamp → M unit
}.

Module Channel.

Definition NoneEvent : Z := 0.
Definition ReadEvent : Z := Z.lor POLLIN POLLPRI.
Definition WriteEvent : Z := POLLOUT.

(** A test [a & b] *)
Definition has (a b : Z) : bool := negb (Z.land a b =? 0).

(** The constructor leaves [owner_loop_] as it finds it. *)
Definition Channel_ctor (owner_garbage : LoopPtr) (loop : LoopPtr) (fd : Z) : Channel := {|
  ch_read_cb_ := None; ch_write_cb_ := None; ch_error_cb_ := None; ch_close_cb_ := None;
  ch_loop_ := loop; ch_fd_ := fd; ch_events_ := 0; ch_revents_ := 0; ch_index_ := -1;
  ch_owner_loop_ := owner_garbage; ch_events_handling_ := false
|}.

(** ** Members written by the setters *)
Definition setEvents (e : Z) (c : Channel) : Channel :=
  mkChannel (ch_read_cb_ c) (ch_write_cb_ c) (ch_error_cb_ c) (ch_close_cb_ c) (ch_loop_ c)
    (ch_fd_ c) e (ch_revents_ c) (ch_index_ c) (ch_owner_loop_ c) (ch_events_handling_ c).
Definition setRevents (r : Z) (c : Channel) : Channel :=
  mkChannel (ch_read_cb_ c) (ch_write_cb_ c) (ch_error_cb_ c) (ch_close_cb_ c) (ch_loop_ c)
    (ch_fd_ c) (ch_events_ c) r (ch_index_ c) (ch_owner_loop_ c) (ch_events_handling_ c).
Definition setIndex (i : Z) (c : Channel) : Channel :=
  mkChannel (ch_read_cb_ c) (ch_write_cb_ c) (ch_error_cb_ c) (ch_close_cb_ c) (ch_loop_ c)
    (ch_fd_ c) (ch_events_ c) (ch_revents_ c) i (ch_owner_loop_ c) (ch_events_handling_ c).
Definition setOwnerLoop (l : LoopPtr) (c : Channel) : Channel :=
  mkChannel (ch_read_cb_ c) (ch_write_cb_ c) (ch_error_cb_ c) (ch_close_cb_ c) (ch_loop_ c)
    (ch_fd_ c) (ch_events_ c) (ch_revents_ c) (ch_index_ c) l (ch_events_handling_ c).
Definition setHandling (b : bool) (c : Channel) : Channel :=
  mkChannel (ch_read_cb_ c) (ch_write_cb_ c) (ch_error_cb_ c) (ch_close_cb_ c) (ch_loop_ c)
    (ch_fd_ c) (ch_events_ c) (ch_revents_ c) (ch_index_ c) (ch_owner_loop_ c) b.
Definition setReadCallback (cb : Callback) (c : Channel) : Channel :=
  mkChannel (Some cb) (ch_write_cb_ c) (ch_error_cb_ c) (ch_close_cb_ c) (ch_loop_ c)
    (ch_fd_ c) (ch_events_ c) (ch_revents_ c) (ch_index_ c) (ch_owner_loop_ c)
    (ch_events_handling_ c).
Definition setWriteCallback (cb : Callback) (c : Channel) : Channel :=
  mkChannel (ch_read_cb_ c) (Some cb) (ch_error_cb_ c) (ch_close_cb_ c) (ch_loop_ c)
    (ch_fd_ c) (ch_events_ c) (ch_revents_ c) (ch_index_ c) (ch_owner_loop_ c)
    (ch_events_handling_ c).
Definition setErrorCallback (cb : Callback) (c : Channel) : Channel :=
  mkChannel (ch_read_cb_ c) (ch_write_cb_ c) (Some cb) (ch_close_cb_ c) (ch_loop_ c)
    (ch_fd_ c) (ch_events_ c) (ch_revents_ c) (ch_index_ c) (ch_owner_loop_ c)
    (ch_events_handling_ c).
Definition setCloseCallback (cb : Callback) (c : Channel) : Channel :=
  mkChannel (ch_read_cb_ c) (ch_write_cb_ c) (ch_error_cb_ c) (Some cb) (ch_loop_ c)
    (ch_fd_ c) (ch_events_ c) (ch_revents_ c) (ch_index_ c) (ch_owner_loop_ c)
    (ch_events_handling_ c).

Definition isNoneEvent (c : Channel) : bool := ch_events_ c =? NoneEvent.
Definition isWriting (c : Channel) : bool := has (ch_events_ c) WriteEvent.

(** The event sets the five [enable]/[disable] operations store. *)
Definition withReading (e : Z) : Z := Z.lor e ReadEvent.
Definition withWriting (e : Z) : Z := Z.lor e WriteEvent.
Definition withoutReading (e : Z) : Z := Z.land e (Z.lnot ReadEvent).
Definition withoutWriting (e : Z) : Z := Z.land e (Z.lnot WriteEvent).

Section operations.
Context `{K : Kernel} `{CL : !ChannelLoop}.

Definition update (ch : ChannelPtr) : M unit :=
  c ← deref ch;
  loop_updateChannel (ch_loop_ c) ch.

Definition change (f : Z → Z) (ch : ChannelPtr) : M unit :=
  _ ← modify ch (λ c : Channel, setEvents (f (ch_events_ c)) c);
  update ch.

Definition enableReading : ChannelPtr → M unit := change withReading.
Definition enableWriting : ChannelPtr → M unit := change withWriting.
Definition disableReading : ChannelPtr → M unit := change withoutReading.
Definition disableWriting : ChannelPtr → M unit := change withoutWriting.
Definition disableAllEvents : ChannelPtr → M unit := change (λ _, NoneEvent).

(** ** Dispatch *)
Context `{CB : !Callbacks}.

(** [if (cb) cb(...)], the callback read from the channel at that moment *)
Definition dispatch (cb : Channel → option Callback) (recv_time : Timestamp.Timestamp)
    (ch : ChannelPtr) : M unit :=
  c ← deref ch;
  match cb c with
  | Some f => call f recv_time
  | None => mret ()
  end.

(** One [if] of [handleEvents]: test [revents_], then dispatch *)
Definition on_revents (test : Z → bool) (cb : Channel → option Callback)
    (recv_time : Timestamp.Timestamp) (ch : ChannelPtr) : M unit :=
  c ← deref ch;
  if test (ch_revents_ c) then dispatch cb recv_time ch else mret ().

Definition hup (r : Z) : bool := has r POLLHUP && negb (has r POLLIN).
Definition err (r : Z) : bool := has r (Z.lor POLLERR POLLNVAL).
Definition readable (r : Z) : bool := has r (Z.lor (Z.lor POLLIN POLLPRI) POLLRDHUP).
Definition writable (r : Z) : bool := has r POLLOUT.

Definition handleEvents (recv_time : Timestamp.Timestamp) (ch : ChannelPtr) : M unit :=
  _ ← modify ch (setHandling true);
  _ ← on_revents hup ch_close_cb_ recv_time ch;
  _ ← on_revents err ch_error_cb_ recv_time ch;
  _ ← on_revents readable ch_read_cb_ recv_time ch;
  _ ← on_revents writable ch_write_cb_ recv_time ch;
  modify ch (setHandling false).

(** The destructor *)
Definition Channel_dtor `{B : Build} (c : Channel) : result unit :=
  assert_ (negb (ch_events_handling_ c)).

End operations.

(** ** The event sets *)

Definition wf_events (e : Z) : Prop := 0 ≤ e < 8.

Lemma wf_events_cases (P : Z → Prop) :
  P 0 → P 1 → P 2 → P 3 → P 4 → P 5 → P 6 → P 7 → ∀ e, wf_events e → P e.
Proof.
  intros ???????? e [H1 H2].
  assert (e = 0 ∨ e = 1 ∨ e = 2 ∨ e = 3 ∨ e = 4 ∨ e = 5 ∨ e = 6 ∨ e = 7) as Hc by lia.
  repeat (destruct Hc as [->|Hc]; [done|]). by subst.
Qed.

Ltac event_cases := intros e He; pattern e; revert e He; apply wf_events_cases; vm_compute;
  done || (split; congruence) || idtac.

Lemma wf_none : wf_events NoneEvent.
Proof. unfold wf_events, NoneEvent. lia. Qed.
Lemma wf_withReading e : wf_events e → wf_events (withReading e).
Proof. revert e. unfold wf_events at 2. event_cases. Qed.
Lemma wf_withWriting e : wf_events e → wf_events (withWriting e).
Proof. revert e. unfold wf_events at 2. event_cases. Qed.
Lemma wf_withoutReading e : wf_events e → wf_events (withoutReading e).
Proof. revert e. unfold wf_events at 2. event_cases. Qed.
Lemma wf_withoutWriting e : wf_events e → wf_events (withoutWriting e).
Proof. revert e. unfold wf_events at 2. event_cases. Qed.

Lemma writing_withWriting e : wf_events e → has (withWriting e) WriteEvent = true.
Proof. revert e. event_cases. Qed.
Lemma writing_withoutWriting e : wf_events e → has (withoutWriting e) WriteEvent = false.
Proof. revert e. event_cases. Qed.
Lemma writing_withReading e :
  wf_events e → has (withReading e) WriteEvent = has e WriteEvent.
Proof. revert e. event_cases. Qed.

Create HintDb channel.
(** The channel asks for input. *)
Definition watchesInput (c : Channel) : bool := has (ch_events_ c) ReadEvent.

Lemma reading_withWriting e : wf_events e → has (withWriting e) ReadEvent = has e ReadEvent.
Proof. revert e. event_cases. Qed.
Lemma reading_withoutWriting e : wf_events e → has (withoutWriting e) ReadEvent = has e ReadEvent.
Proof. revert e. event_cases. Qed.
Lemma reading_withReading e : wf_events e → has (withReading e) ReadEvent = true.
Proof. revert e. event_cases. Qed.
Lemma watchesInput_some c : watchesInput c = true → isNoneEvent c = false.
Proof. unfold watchesInput, isNoneEvent. intros Hr. apply Z.eqb_neq. by intros Hn; rewrite Hn in Hr. Qed.

#[export] Hint Resolve wf_none wf_withReading wf_withWriting wf_withoutReading
  wf_withoutWriting : channel.

Lemma wf_events_short e : wf_events e → wrap_signed 16 e = e.
Proof. intros [? ?]. apply wrap_signed_small; lia. Qed.

End Channel.
