(* ===== verification/Descriptors.v ===== *)
(** * The descriptors of the process

    The descriptors the process has open, as a function of the state of the
    kernel, and what the calls promise of them; [Tabled] is the scripted kernel
    with a table of descriptors, on which all the laws hold. *)

From S2P Require Import Prelude Timestamp Buffer Kernel State Channel.

Class Descriptors (K : Kernel) : Type := {
  open_fds : kstate → gset Z
}.

(** [close] closes its descriptor (close(2): on Linux always), and no other call the
    server makes closes one behind its back; [accept4] and [socket] return one that was not open (accept(2), socket(2)), of which there are fewer
    than [INT_MAX] (proc(5), nr_open).  [poll] reports no urgent data and no half-close
    with a hang-up unless it reports input as well: a TCP socket hangs up once
    both directions are shut down, and then it is readable (tcp(7)). *)
Class DescriptorLaws (K : Kernel) `{D : !Descriptors K} : Prop := {
  open_fds_count k : Z.of_nat (size (open_fds k)) < 2 ^ 31 - 1;
  fds_poll fds t k : open_fds k ⊆ open_fds (snd (sys_poll fds t k));
  fds_time k : open_fds k ⊆ open_fds (snd (sys_gettimeofday k));
  fds_write fd d k : open_fds k ⊆ open_fds (snd (sys_write fd d k));
  fds_readv fd room k : open_fds k ⊆ open_fds (snd (sys_readv fd room k));
  fds_shutdown fd k : open_fds k ⊆ open_fds (snd (sys_shutdown_wr fd k));
  fds_so_error fd k : open_fds k ⊆ open_fds (snd (sys_so_error fd k));
  fds_getsockname fd k : open_fds k ⊆ open_fds (snd (sys_getsockname fd k));
  fds_setsockopt fd level opt v k : open_fds k ⊆ open_fds (snd (sys_setsockopt fd level opt v k));
  fds_bind fd a k : open_fds k ⊆ open_fds (snd (sys_bind fd a k));
  fds_listen fd k : open_fds k ⊆ open_fds (snd (sys_listen fd k));
  fds_close fd k : open_fds (snd (sys_close fd k)) = open_fds k ∖ {[fd]};
  fds_accept fd k r a k' : sys_accept fd k = (r, a, k') →
    open_fds k ⊆ open_fds k' ∧
    match r with Ret n => (n ∉ open_fds k) ∧ n ∈ open_fds k' | Err _ => True end;
  fds_socket type proto k r k' : sys_socket type proto k = (r, k') →
    open_fds k ⊆ open_fds k' ∧
    match r with Ret n => 0 ≤ n ∧ (n ∉ open_fds k) ∧ n ∈ open_fds k' | Err _ => True end;
  poll_hup_alone fds t k r revs k' x : sys_poll fds t k = (r, revs, k') →
    x ∈ revs → Channel.hup x = true → Channel.readable x = false
}.

(** ** Operations that open and close nothing *)
Section keeps.
Context `{K : Kernel} `{D : !Descriptors K} `{DL : !DescriptorLaws K}.

Definition keeps_fds {A} (m : M A) : Prop :=
  ∀ w, match m w with Ok (_, w') => open_fds (w_kernel w) ⊆ open_fds (w_kernel w') | Fault _ => True end.

Lemma keeps_ok {A} (m : M A) w a w' :
  keeps_fds m → m w = Ok (a, w') → open_fds (w_kernel w) ⊆ open_fds (w_kernel w').
Proof. intros Hk Hm. specialize (Hk w). by rewrite Hm in Hk. Qed.

Lemma keeps_ret {A} (a : A) : keeps_fds (mret a).
Proof. intros w. simpl. reflexivity. Qed.
Lemma keeps_fail {A} f : keeps_fds (fail f : M A).
Proof. by intros w. Qed.
Lemma keeps_lift {A} (r : result A) : keeps_fds (lift r).
Proof. intros w. unfold lift. destruct r; simpl; reflexivity || done. Qed.
Lemma keeps_read {A} (f : World → A) : keeps_fds (read f).
Proof. intros w. simpl. reflexivity. Qed.

Lemma keeps_bind {A C} (m : M A) (k : A → M C) :
  keeps_fds m → (∀ a, keeps_fds (k a)) → keeps_fds (m ≫= k).
Proof.
  intros Hm Hk w. unfold mbind, M_bind. specialize (Hm w). destruct (m w) as [[a w1]|f]; [|done].
  specialize (Hk a w1). destruct (k a w1) as [[b w2]|f]; [|done]. set_solver.
Qed.

Lemma keeps_syscall {A} (f : kstate → A * kstate) :
  (∀ k, open_fds k ⊆ open_fds (snd (f k))) → keeps_fds (syscall f).
Proof. intros Hf w. unfold syscall. specialize (Hf (w_kernel w)). by destruct (f (w_kernel w)). Qed.

(** Updates that leave the kernel. *)
Lemma keeps_update f : (∀ w, w_kernel (f w) = w_kernel w) → keeps_fds (update f).
Proof. intros Hf w. simpl. rewrite Hf. reflexivity. Qed.

Lemma keeps_deref {T} `{!Heap T} p : keeps_fds (deref (T := T) p).
Proof. intros w. unfold deref. destruct (heap_get w !! p); simpl; reflexivity || done. Qed.

Lemma keeps_store {T} `{!Heap T} p (t : T) :
  (∀ h w, w_kernel (heap_set h w) = w_kernel w) → keeps_fds (store p t).
Proof. intros Hh. apply keeps_update. intros w. apply Hh. Qed.

Lemma keeps_modify {T} `{!Heap T} p (f : T → T) :
  (∀ h w, w_kernel (heap_set h w) = w_kernel w) → keeps_fds (modify p f).
Proof. intros Hh. apply keeps_bind; [apply keeps_deref|]. intros t. by apply keeps_store. Qed.

Lemma keeps_write fd d : keeps_fds (do_write fd d).
Proof.
  apply keeps_bind; [apply keeps_syscall; apply fds_write|].
  intros [n|e]; [|apply keeps_ret]. apply keeps_bind; [by apply keeps_update|].
  intros. apply keeps_ret.
Qed.

End keeps.

Create HintDb fds.
#[export] Hint Resolve keeps_ret keeps_fail keeps_lift keeps_read keeps_deref keeps_write : fds.
#[export] Hint Resolve fds_poll fds_time fds_write fds_readv fds_shutdown fds_so_error
  fds_getsockname fds_setsockopt fds_bind fds_listen : fds.

(** Walks through an operation: binds, branches and calls. *)
Ltac keeps_fds :=
  repeat first
    [ progress intros
    | solve [eauto with fds]
    | apply keeps_bind
    | apply keeps_syscall
    | (apply keeps_modify; done)
    | (apply keeps_store; done)
    | (apply keeps_update; done)
    | case_match ].

(** ** A kernel with a table of descriptors *)
Module Tabled.

Definition state : Type := Scripted.state * gset Z.

Definition EMFILE : Z := 24.
Definition table_size : nat := 1024.

(** The events reported for an entry when the script answers [r]. *)
Definition honest (p : pollfd) (r : Z) : Z :=
  let x := Z.land r (Z.lor (events p) (Z.lor POLLERR (Z.lor POLLHUP POLLNVAL))) in
  let y := if Channel.hup x && Channel.readable x then 0 else x in
  if (0 <=? y) && (y <? 2 ^ 15) then y else 0.

Definition lifted {A} (f : Scripted.state → A * Scripted.state) (k : state) : A * state :=
  let '(a, k') := f (fst k) in (a, (k', snd k)).

Definition poll (fds : list pollfd) (t : Z) (k : state) : sysret * list Z * state :=
  let '(_, revs, k') := Scripted.poll fds t (fst k) in
  let revs' := zip_with honest fds revs in
  (Ret (count_pos revs'), revs', (k', snd k)).

(** A descriptor the script offers is given when it is free and the table has
    room for it. *)
Definition give (r : sysret) (fds : gset Z) : sysret * gset Z :=
  match r with
  | Ret n => if decide ((n ∉ fds) ∧ (size fds < table_size)%nat) then (Ret n, {[n]} ∪ fds)
             else (Err EMFILE, fds)
  | Err e => (Err e, fds)
  end.

Definition accept (fd : Z) (k : state) : sysret * sockaddr_in * state :=
  let '(r, a, k') := Scripted.accept fd (fst k) in
  let '(r', fds) := give r (snd k) in (r', a, (k', fds)).

Definition socket (_ _ : Z) (k : state) : sysret * state :=
  let '(r, fds) := give (Ret 3) (snd k) in (r, (fst k, fds)).

Definition close (fd : Z) (k : state) : sysret * state :=
  (Ret 0, if decide (size (snd k) ≤ table_size)%nat then (fst k, snd k ∖ {[fd]}) else k).

#[export] Instance kernel : Kernel := {|
  kstate := state;
  sys_poll := poll;
  sys_gettimeofday := lifted Scripted.gettimeofday;
  sys_write fd d := lifted (Scripted.write fd d);
  sys_readv fd room := lifted (Scripted.readv fd room);
  sys_read _ n k := (Ret n, k);
  sys_shutdown_wr _ k := (Ret 0, k);
  sys_socket := socket;
  sys_bind _ _ k := (Ret 0, k);
  sys_setsockopt _ _ _ _ k := (Ret 0, k);
  sys_listen _ k := (Ret 0, k);
  sys_accept := accept;
  sys_close := close;
  sys_getsockname _ k := (Ret 0, Scripted.null_addr, k);
  sys_so_error _ k := (Ret 0, 0, k);
  sys_timerfd_create k := (Ret 6, k);
  sys_timerfd_settime _ _ _ k := (Ret 0, k)
|}.

(** A table larger than its limit counts as empty. *)
#[export] Instance table : Descriptors kernel := {|
  open_fds k := if decide (size (snd k) ≤ table_size)%nat then snd k else ∅
|}.

Lemma honest_range p r : 0 ≤ honest p r < 2 ^ 15.
Proof.
  unfold honest. cbv zeta. destruct (_ && _) eqn:Hb; [|lia].
  apply andb_prop in Hb as [?%Z.leb_le ?%Z.ltb_lt]. done.
Qed.

Lemma honest_hup p r : Channel.hup (honest p r) = true → Channel.readable (honest p r) = false.
Proof.
  unfold honest. cbv zeta. destruct (_ && (_ <? _)); [|done].
  destruct (Channel.hup (Z.land r _)) eqn:Hh, (Channel.readable (Z.land r _)) eqn:Hr; simpl;
    done || congruence.
Qed.

Lemma honest_ignored p : honest p 0 = 0.
Proof. unfold honest. by rewrite Z.land_0_l. Qed.

#[local] Existing Instance Scripted.kernel_laws.

#[export] Instance kernel_laws : KernelLaws kernel.
Proof.
  constructor.
  - intros fd d k n k' H. cbn in H. unfold lifted in H. destruct (Scripted.write fd d (fst k)) eqn:Hw.
    simplify_eq. by apply (write_count (K := Scripted.kernel)) in Hw.
  - intros fd room k d k' Hroom H. cbn in H. unfold lifted in H.
    destruct (Scripted.readv fd room (fst k)) eqn:Hw. simplify_eq.
    by apply (readv_room (K := Scripted.kernel)) in Hw.
  - intros fds t k r revs k' H. cbn in H. unfold poll in H.
    destruct (Scripted.poll fds t (fst k)) as [[r1 revs1] k1] eqn:Hp. simplify_eq.
    apply (poll_length (K := Scripted.kernel)) in Hp. rewrite length_zip_with. lia.
  - intros fds t k r revs k' H. cbn in H. unfold poll in H.
    destruct (Scripted.poll fds t (fst k)) as [[r1 revs1] k1] eqn:Hp. simplify_eq.
    apply Forall_lookup. intros i x Hx. apply lookup_zip_with_Some in Hx as (p & y & -> & _).
    apply honest_range.
  - intros fds t k r revs k' i p H Hi Hneg. cbn in H. unfold poll in H.
    destruct (Scripted.poll fds t (fst k)) as [[r1 revs1] k1] eqn:Hp. simplify_eq.
    pose proof (poll_ignored (K := Scripted.kernel) _ _ _ _ _ _ _ _ Hp Hi Hneg) as H0.
    rewrite lookup_zip_with, Hi, H0. simpl. by rewrite honest_ignored.
  - intros fds t k n revs k' H. cbn in H. unfold poll in H.
    destruct (Scripted.poll fds t (fst k)) as [[r1 revs1] k1]. by simplify_eq.
  - intros fd k n a k' H. cbn in H. unfold accept in H.
    destruct (Scripted.accept fd (fst k)) as [[r1 a1] k1] eqn:Ha.
    destruct r1 as [m|e]; unfold give in H; [case_decide|]; simplify_eq.
    by apply (accept_fd (K := Scripted.kernel)) in Ha.
Qed.

(** The table after a descriptor was given. *)
Lemma give_fds r fds r' fds' (k k' : Scripted.state) :
  give r fds = (r', fds') →
  open_fds (K := kernel) (k, fds) ⊆ open_fds (K := kernel) (k', fds') ∧
  match r' with
  | Ret n => r = Ret n ∧ (n ∉ open_fds (K := kernel) (k, fds)) ∧
             n ∈ open_fds (K := kernel) (k', fds')
  | Err _ => True
  end.
Proof.
  unfold give. intros H. destruct r as [n|e]; [|by simplify_eq]. case_decide as Hd; [|by simplify_eq].
  simplify_eq. destruct Hd as [Hn Hsz]. simpl.
  rewrite !decide_True by (rewrite ?size_union, ?size_singleton by set_solver; lia).
  split; [set_solver|]. split; [done|]. set_solver.
Qed.

#[export] Instance descriptor_laws : DescriptorLaws kernel.
Proof.
  constructor; try done.
  - intros k. simpl. case_decide; [unfold table_size in *; lia|]. rewrite size_empty. lia.
  - intros fds t k. cbn. unfold poll. by destruct (Scripted.poll fds t (fst k)) as [[? ?] ?].
  - intros k. cbn. unfold lifted. by destruct (Scripted.gettimeofday (fst k)).
  - intros fd d k. cbn. unfold lifted. by destruct (Scripted.write fd d (fst k)).
  - intros fd room k. cbn. unfold lifted. by destruct (Scripted.readv fd room (fst k)).
  - intros fd [k fds]. cbn. destruct (decide (size fds ≤ table_size)%nat) as [Hsz|Hsz]; simpl.
    + rewrite decide_True; [done|]. etrans; [|exact Hsz]. by apply subseteq_size, subseteq_difference_l.
    + rewrite decide_False by done. apply set_eq. intros x. rewrite elem_of_difference. by split; [|intros []].
  - intros fd [k fds] r a k' H. cbn in H. unfold accept in H. simpl in H.
    destruct (Scripted.accept fd k) as [[r1 a1] k1].
    destruct (give r1 fds) as [r2 fds2] eqn:Hg. simplify_eq.
    destruct (give_fds _ _ _ _ k k1 Hg) as [? Hr]. split; [done|]. by destruct r as [n|e]; [destruct Hr|].
  - intros ty pr [k fds] r k' H. cbn in H. unfold socket in H.
    destruct (give (Ret 3) (snd (k, fds))) as [r2 fds2] eqn:Hg. simplify_eq.
    destruct (give_fds _ _ _ _ k k Hg) as [? Hr]. split; [done|].
    destruct r as [n|e]; [|done]. by destruct Hr as ([= <-] & ? & ?).
  - intros fds t k r revs k' x H Hx Hh. cbn in H. unfold poll in H.
    destruct (Scripted.poll fds t (fst k)) as [[r1 revs1] k1]. simplify_eq.
    apply list_elem_of_lookup in Hx as [i Hx].
    apply lookup_zip_with_Some in Hx as (p' & y & -> & _). by apply honest_hup.
Qed.

End Tabled.
