(* ===== verification/Poller.v ===== *)
(** * The poller (src/src/include/poller.h, src/src/poller.cpp)

    [Poller] keeps the array passed to [poll(2)] and a map from descriptors to
    channels; each channel remembers its index in the array, so that a channel
    is updated and removed in constant time.  The parts of the operations after
    the check of the thread are functions of the channel heap and the poller;
    the invariant [ok] ties the array, the map and the indices together. *)

From S2P Require Import Prelude Timestamp Buffer Kernel State CurrentThread Channel.

Module Poller.

(** Element [i] of a [std::vector]; an [int] index converts to [size_t]. *)
Definition at_index {A} (i : Z) (l : list A) : result A :=
  if i <? 0 then Fault OutOfBounds else result_of_option OutOfBounds (l !! Z.to_nat i).

Definition pop_back {A} (l : list A) : list A := take (pred (length l)) l.

Section entries.
Context `{B : Build}.

Definition update_entry (ch : ChannelPtr) (h : gmap Z Channel) (p : Poller)
    : result (gmap Z Channel * Poller) :=
  c ← result_of_option DanglingPointer (h !! ch);
  let fd_ := ch_fd_ c in
  if ch_index_ c <? 0 then
    _ ← assert_ (bool_decide (pl_channel_map_ p !! fd_ = None));
    let pfd := mkPollfd fd_ (wrap_signed 16 (ch_events_ c)) 0 in
    let fds := pl_poll_fds_ p ++ [pfd] in
    mret (<[ch := Channel.setIndex (wrap_signed 32 (u64 (zlen fds - 1))) c]> h,
          mkPoller fds (match pl_channel_map_ p !! fd_ with
                        | Some _ => pl_channel_map_ p
                        | None => <[fd_ := ch]> (pl_channel_map_ p)
                        end))
  else
    _ ← assert_ (bool_decide (is_Some (pl_channel_map_ p !! fd_)));
    _ ← assert_ (bool_decide (pl_channel_map_ p !! fd_ = Some ch));
    let idx := ch_index_ c in
    _ ← assert_ ((0 <=? idx) && (idx <? zlen (pl_poll_fds_ p)));
    pfd ← at_index idx (pl_poll_fds_ p);
    _ ← assert_ ((fd pfd =? fd_) || (fd pfd =? - fd_ - 1));
    let pfd1 := mkPollfd (fd pfd) (wrap_signed 16 (ch_events_ c)) 0 in
    let pfd2 := if Channel.isNoneEvent c
                then mkPollfd (- fd_ - 1) (events pfd1) (revents pfd1) else pfd1 in
    mret (h, mkPoller (<[Z.to_nat idx := pfd2]> (pl_poll_fds_ p)) (pl_channel_map_ p)).

Definition remove_entry (ch : ChannelPtr) (h : gmap Z Channel) (p : Poller)
    : result (gmap Z Channel * Poller) :=
  c ← result_of_option DanglingPointer (h !! ch);
  let fd_ := ch_fd_ c in
  let fds := pl_poll_fds_ p in
  _ ← assert_ (bool_decide (is_Some (pl_channel_map_ p !! fd_)));
  _ ← assert_ (bool_decide (pl_channel_map_ p !! fd_ = Some ch));
  _ ← assert_ (Channel.isNoneEvent c);
  let idx := ch_index_ c in
  _ ← assert_ ((0 <=? idx) && (idx <? zlen fds));
  pfd ← at_index idx fds;
  _ ← assert_ ((fd pfd =? - fd_ - 1) || (fd pfd =? fd_));
  _ ← assert_ (events pfd =? ch_events_ c);
  _ ← assert_ (bool_decide (is_Some (pl_channel_map_ p !! fd_)));
  let map := delete fd_ (pl_channel_map_ p) in
  if u64 idx =? u64 (zlen fds - 1) then
    mret (h, mkPoller (pop_back fds) map)
  else
    back ← result_of_option OutOfBounds (last fds);
    let swapped := <[pred (length fds) := pfd]> (<[Z.to_nat idx := back]> fds) in
    let channel_fd_at_end := if fd back <? 0 then - fd back - 1 else fd back in
    ch_end ← result_of_option NullPointer (map !! channel_fd_at_end);
    c_end ← result_of_option DanglingPointer (h !! ch_end);
    mret (<[ch_end := Channel.setIndex idx c_end]> h, mkPoller (pop_back swapped) map).

(** The loop of [fillActiveChannels]: the channels of the entries that report
    events, in the order of the array, until [numEvents] were found. *)
Fixpoint fillActiveChannels (numEvents : Z) (fds : list pollfd) (map : gmap Z ChannelPtr)
    (h : gmap Z Channel) : result (gmap Z Channel * list ChannelPtr) :=
  match fds with
  | [] => mret (h, [])
  | pfd :: rest =>
      if numEvents <=? 0 then mret (h, [])
      else if 0 <? revents pfd then
        _ ← assert_ (bool_decide (is_Some (map !! fd pfd)));
        ch ← result_of_option OutOfBounds (map !! fd pfd);
        c ← result_of_option DanglingPointer (h !! ch);
        _ ← assert_ (ch_fd_ c =? fd pfd);
        '(h', active) ← fillActiveChannels (numEvents - 1) rest map
                          (<[ch := Channel.setRevents (revents pfd) c]> h);
        mret (h', ch :: active)
      else fillActiveChannels numEvents rest map h
  end.

End entries.

(** ** The operations *)
Section operations.
Context `{K : Kernel} `{B : Build}.

(** Access through the [poller_] of the loop [l], a null [unique_ptr] or the
    poller that the loop owns. *)
Definition the_poller (l : LoopPtr) : M Poller :=
  loop ← deref l;
  lift (result_of_option NullPointer (el_poller_ loop)).

Definition setPoller (p : option Poller) (e : EventLoop) : EventLoop :=
  mkEventLoop (el_looping_ e) (el_quit_ e) (el_calling_pending_functors_ e) (el_thread_id_ e)
    (el_poll_return_time_ e) p (el_timer_queue_ e) (el_wakeup_fd_ e) (el_active_channels_ e) (el_mutex_ e)
    (el_pending_functors_ e).

(** Runs a part of an operation on the channel heap and the poller of [l]. *)
Definition on_poller {A} (l : LoopPtr)
    (f : gmap Z Channel → Poller → result (gmap Z Channel * Poller * A)) : M A :=
  p ← the_poller l;
  h ← read w_channels;
  '(h', p', a) ← lift (f h p);
  _ ← update (set_channels h');
  _ ← modify l (setPoller (Some p'));
  mret a.

Definition entry_step (f : gmap Z Channel → Poller → result (gmap Z Channel * Poller))
    (h : gmap Z Channel) (p : Poller) : result (gmap Z Channel * Poller * unit) :=
  '(h', p') ← f h p; mret (h', p', ()).

Definition updateChannel (l : LoopPtr) (ch : ChannelPtr) : M unit :=
  _ ← assertInLoopThread l;
  on_poller l (entry_step (update_entry ch)).

Definition removeChannel (l : LoopPtr) (ch : ChannelPtr) : M unit :=
  _ ← assertInLoopThread l;
  on_poller l (entry_step (remove_entry ch)).

(** [::poll] stores the [revents] of every entry of the array. *)
Fixpoint store_revents (fds : list pollfd) (revs : list Z) : list pollfd :=
  match fds, revs with
  | p :: fds, r :: revs => mkPollfd (fd p) (events p) r :: store_revents fds revs
  | fds, _ => fds
  end.

Definition poll (l : LoopPtr) (timeoutMs : Z) (activeChannels : list ChannelPtr)
    : M (Timestamp.Timestamp * list ChannelPtr) :=
  p ← the_poller l;
  '(r, revs) ← syscall (sys_poll (pl_poll_fds_ p) timeoutMs);
  let fds := store_revents (pl_poll_fds_ p) revs in
  _ ← modify l (setPoller (Some (mkPoller fds (pl_channel_map_ p))));
  '(sec, usec) ← syscall sys_gettimeofday;
  now ← lift (Timestamp.now sec usec);
  match r with
  | Ret numEvents =>
      if 0 <? numEvents then
        active ← on_poller l (λ h p,
          '(h', active) ← fillActiveChannels numEvents (pl_poll_fds_ p) (pl_channel_map_ p) h;
          mret (h', p, active));
        mret (now, activeChannels ++ active)
      else mret (now, activeChannels)
  | Err _ => mret (now, activeChannels)
  end.

End operations.

(** ** The invariant *)

(** The descriptor an entry stands for: an ignored entry holds [-fd - 1]. *)
Definition key (x : Z) : Z := if x <? 0 then - x - 1 else x.

Record ok (h : gmap Z Channel) (p : Poller) : Prop := {
  ok_map f ch : pl_channel_map_ p !! f = Some ch →
    0 ≤ f ∧ ∃ c i pfd, h !! ch = Some c ∧ ch_fd_ c = f ∧ ch_index_ c = Z.of_nat i ∧
      pl_poll_fds_ p !! i = Some pfd ∧ key (fd pfd) = f;
  ok_fds i pfd : pl_poll_fds_ p !! i = Some pfd →
    ∃ ch c, pl_channel_map_ p !! key (fd pfd) = Some ch ∧ h !! ch = Some c ∧
      ch_index_ c = Z.of_nat i;
  ok_size : zlen (pl_poll_fds_ p) < 2 ^ 31
}.

(** What the poller records of a descriptor: its channel, the events asked of
    [poll(2)], and whether the entry is ignored. *)
Record entry : Type := mkEntry { en_channel : ChannelPtr; en_events : Z; en_ignored : bool }.

Definition lookup_entry (h : gmap Z Channel) (p : Poller) (f : Z) : option entry :=
  ch ← pl_channel_map_ p !! f;
  c ← h !! ch;
  pfd ← pl_poll_fds_ p !! Z.to_nat (ch_index_ c);
  Some (mkEntry ch (events pfd) (fd pfd <? 0)).

(** Two channel heaps that differ in indices only. *)
Definition same_but_index (h h' : gmap Z Channel) : Prop :=
  ∀ ch, match h !! ch, h' !! ch with
        | Some c, Some c' => ∃ i, c' = Channel.setIndex i c
        | None, None => True
        | _, _ => False
        end.

(** The channels that are not registered are the same in both heaps. *)
Definition unregistered_same (h h' : gmap Z Channel) (p : Poller) : Prop :=
  ∀ ch, (∀ f, pl_channel_map_ p !! f ≠ Some ch) → h' !! ch = h !! ch.

Section entry_lemmas.

Lemma key_neg x : 0 ≤ x → key (- x - 1) = x.
Proof. intros. unfold key. rewrite (proj2 (Z.ltb_lt _ _)); lia. Qed.

Lemma key_pos x : 0 ≤ x → key x = x.
Proof. intros. unfold key. by rewrite (proj2 (Z.ltb_ge _ _)). Qed.

Lemma key_forms x f : 0 ≤ f → key x = f → x = f ∨ x = - f - 1.
Proof. intros Hf. unfold key. case Z.ltb_spec; lia. Qed.

Lemma key_forms_test x f : 0 ≤ f → key x = f → (x =? f) || (x =? - f - 1) = true.
Proof.
  intros Hf Hk. destruct (key_forms x f Hf Hk) as [->| ->]; by rewrite Z.eqb_refl, ?orb_true_r.
Qed.

Lemma setIndex_id c : Channel.setIndex (ch_index_ c) c = c.
Proof. by destruct c. Qed.

Lemma same_but_index_refl h : same_but_index h h.
Proof.
  intros ch. destruct (h !! ch) as [c|] eqn:Hc; [|done].
  exists (ch_index_ c). by rewrite setIndex_id.
Qed.

Lemma same_index_lookup h h' ch c :
  same_but_index h h' → h !! ch = Some c → ∃ i, h' !! ch = Some (Channel.setIndex i c).
Proof.
  intros Hs Hc. specialize (Hs ch). rewrite Hc in Hs. destruct (h' !! ch); [|done].
  destruct Hs as [i ->]. by exists i.
Qed.

Lemma same_but_index_insert h ch c i :
  h !! ch = Some c → same_but_index h (<[ch := Channel.setIndex i c]> h).
Proof.
  intros Hc ch'. destruct (decide (ch = ch')) as [<-|Hne].
  - rewrite Hc, lookup_insert_eq. eauto.
  - rewrite lookup_insert_ne by done. apply same_but_index_refl.
Qed.

Lemma at_index_nat {A} (l : list A) i : at_index (Z.of_nat i) l = result_of_option OutOfBounds (l !! i).
Proof. unfold at_index. rewrite (proj2 (Z.ltb_ge _ _)), Nat2Z.id by lia. done. Qed.

Lemma lookup_pop_back {A} (l : list A) i x :
  pop_back l !! i = Some x ↔ l !! i = Some x ∧ (S i < length l)%nat.
Proof.
  unfold pop_back. rewrite lookup_take_Some. split; intros [? ?]; (split; [done|lia]).
Qed.

Lemma lookup_index_test {A} (l : list A) i x :
  l !! i = Some x → (0 <=? Z.of_nat i) && (Z.of_nat i <? zlen l) = true.
Proof.
  intros Hl%lookup_lt_Some. apply andb_true_intro. unfold zlen.
  split; [apply Z.leb_le|apply Z.ltb_lt]; lia.
Qed.

(** *** A registered channel, from the invariant *)
Lemma ok_registered h p f ch c :
  ok h p → pl_channel_map_ p !! f = Some ch → h !! ch = Some c →
  0 ≤ f ∧ ch_fd_ c = f ∧ ∃ i pfd, ch_index_ c = Z.of_nat i ∧
    pl_poll_fds_ p !! i = Some pfd ∧ key (fd pfd) = f.
Proof.
  intros Hok Hm Hc. destruct (ok_map h p Hok f ch Hm) as (Hf & c' & i & pfd & ? & ? & ? & ? & ?).
  simplify_eq. eauto 10.
Qed.

Lemma ok_lookup_entry h p f ch c i pfd :
  pl_channel_map_ p !! f = Some ch → h !! ch = Some c → ch_index_ c = Z.of_nat i →
  pl_poll_fds_ p !! i = Some pfd →
  lookup_entry h p f = Some (mkEntry ch (events pfd) (fd pfd <? 0)).
Proof.
  intros Hm Hc Hi Hp. unfold lookup_entry. rewrite Hm. simpl. rewrite Hc. simpl.
  by rewrite Hi, Nat2Z.id, Hp.
Qed.

(** Changing the events of a channel does not touch the registry. *)
Lemma ok_setEvents h p ch c e :
  h !! ch = Some c → ok h p → ok (<[ch := Channel.setEvents e c]> h) p.
Proof.
  intros Hc Hok. constructor; [| |apply Hok].
  - intros f ch' Hm. destruct (ok_map h p Hok f ch' Hm) as (? & c' & i & pfd & Hc' & ? & ? & ? & ?).
    split; [done|]. destruct (decide (ch = ch')) as [<-|]; simplify_eq.
    + eexists _, i, pfd. rewrite lookup_insert_eq. done.
    + exists c', i, pfd. by rewrite lookup_insert_ne.
  - intros i pfd Hi. destruct (ok_fds h p Hok i pfd Hi) as (ch' & c' & ? & Hc' & ?).
    destruct (decide (ch = ch')) as [<-|]; simplify_eq.
    + eexists ch, _. rewrite lookup_insert_eq. done.
    + exists ch', c'. by rewrite lookup_insert_ne.
Qed.

(** A channel object that was not there before is not registered. *)
(** The registry depends on the descriptors and the indices of the channels only. *)
Lemma ok_channels h h' p :
  (∀ ch c, h !! ch = Some c →
     ∃ c', h' !! ch = Some c' ∧ ch_fd_ c' = ch_fd_ c ∧ ch_index_ c' = ch_index_ c) →
  ok h p → ok h' p.
Proof.
  intros Hh Hok. constructor; [| |apply Hok].
  - intros f ch Hm. destruct (ok_map h p Hok f ch Hm) as (? & c & i & pfd & Hc & ? & ? & ? & ?).
    destruct (Hh ch c Hc) as (c' & ? & ? & ?). split; [done|].
    exists c', i, pfd. split_and!; congruence.
  - intros i pfd Hi. destruct (ok_fds h p Hok i pfd Hi) as (ch & c & ? & Hc & ?).
    destruct (Hh ch c Hc) as (c' & ? & ? & ?). exists ch, c'. split_and!; congruence.
Qed.

(** The entries of the array stand for different descriptors. *)
Lemma ok_keys_nodup h p : ok h p → NoDup (key ∘ fd <$> pl_poll_fds_ p).
Proof.
  intros Hok. apply NoDup_alt. intros i j x Hi Hj.
  apply list_lookup_fmap_Some in Hi as (pi & -> & Hpi).
  apply list_lookup_fmap_Some in Hj as (pj & Heq & Hpj). simpl in *.
  destruct (ok_fds h p Hok i pi Hpi) as (ch & c & Hm & Hc & Hxi).
  destruct (ok_fds h p Hok j pj Hpj) as (ch' & c' & Hm' & Hc' & Hxj).
  rewrite <- Heq in Hm'. simplify_eq. lia.
Qed.

Lemma ok_nodup h p : ok h p → NoDup (pl_poll_fds_ p).
Proof. intros Hok. eapply NoDup_fmap_1, ok_keys_nodup, Hok. Qed.

(** The array is no longer than the descriptors are many. *)
Lemma ok_length h p (fds : gset Z) :
  ok h p → (∀ f, is_Some (pl_channel_map_ p !! f) → f ∈ fds) →
  (length (pl_poll_fds_ p) ≤ size fds)%nat.
Proof.
  intros Hok Hfds. rewrite <- (length_fmap (key ∘ fd)).
  rewrite <- (size_list_to_set (C := gset Z)) by by eapply ok_keys_nodup.
  apply subseteq_size. intros x Hx.
  apply elem_of_list_to_set, list_elem_of_fmap in Hx as (pfd & -> & Hin).
  apply list_elem_of_lookup in Hin as [i Hi].
  destruct (ok_fds h p Hok i pfd Hi) as (ch & c & Hm & _). apply Hfds. by eexists.
Qed.

Lemma ok_new_object h p ch c : ok h p → h !! ch = None → ok (<[ch := c]> h) p.
Proof.
  intros Hok Hnone. constructor; [| |apply Hok].
  - intros f ch' Hm. destruct (ok_map h p Hok f ch' Hm) as (? & c' & i & pfd & Hc & ?).
    split; [done|]. exists c', i, pfd. rewrite lookup_insert_ne; [done|]. by intros ->; simplify_eq.
  - intros i pfd Hi. destruct (ok_fds h p Hok i pfd Hi) as (ch' & c' & ? & Hc & ?).
    exists ch', c'. rewrite lookup_insert_ne; [done|]. by intros ->; simplify_eq.
Qed.

(** A channel that is not registered is no concern of the poller. *)
Lemma ok_delete_object h p ch : ok h p → (∀ f, pl_channel_map_ p !! f ≠ Some ch) → ok (delete ch h) p.
Proof.
  intros Hok Hno. constructor; [| |apply Hok].
  - intros f ch' Hm. destruct (ok_map h p Hok f ch' Hm) as (? & c' & i & pfd & Hc & ?).
    split; [done|]. exists c', i, pfd. rewrite lookup_delete_ne; [done|]. intros <-. by eapply Hno.
  - intros i pfd Hi. destruct (ok_fds h p Hok i pfd Hi) as (ch' & c' & Hm & Hc & ?).
    exists ch', c'. rewrite lookup_delete_ne; [done|]. intros <-. by eapply Hno.
Qed.

(** A channel whose descriptor is not registered is not registered. *)
Lemma unregistered_fd h p ch c :
  ok h p → h !! ch = Some c → pl_channel_map_ p !! ch_fd_ c = None →
  ∀ f, pl_channel_map_ p !! f ≠ Some ch.
Proof.
  intros Hok Hc Hnone f Hm. destruct (ok_map h p Hok f ch Hm) as (_ & c' & _ & _ & Hc' & Hf & _).
  by simplify_eq.
Qed.

Lemma lookup_entry_setEvents h p ch c e f :
  h !! ch = Some c → lookup_entry (<[ch := Channel.setEvents e c]> h) p f = lookup_entry h p f.
Proof.
  intros Hc. unfold lookup_entry. destruct (pl_channel_map_ p !! f) as [ch'|]; [|done]. simpl.
  destruct (decide (ch = ch')) as [<-|]; [|by rewrite lookup_insert_ne].
  by rewrite lookup_insert_eq, Hc.
Qed.

Lemma lookup_entry_none h p f : pl_channel_map_ p !! f = None → lookup_entry h p f = None.
Proof. intros Hm. unfold lookup_entry. by rewrite Hm. Qed.

Lemma ok_channel_inj h p f f' ch :
  ok h p → pl_channel_map_ p !! f = Some ch → pl_channel_map_ p !! f' = Some ch → f = f'.
Proof.
  intros Hok H1 H2. destruct (ok_map h p Hok f ch H1) as (_ & c & i & pfd & Hc & <- & _).
  destruct (ok_registered h p f' ch c Hok H2 Hc) as (_ & <- & _). done.
Qed.

End entry_lemmas.

Section entry_correctness.
Context `{B : Build}.

(** *** Registering a channel *)
Lemma update_entry_new h p ch c :
  h !! ch = Some c → ch_index_ c < 0 → pl_channel_map_ p !! ch_fd_ c = None →
  Channel.wf_events (ch_events_ c) → zlen (pl_poll_fds_ p) < 2 ^ 31 →
  update_entry ch h p =
    Ok (<[ch := Channel.setIndex (zlen (pl_poll_fds_ p)) c]> h,
        mkPoller (pl_poll_fds_ p ++ [mkPollfd (ch_fd_ c) (ch_events_ c) 0])
                 (<[ch_fd_ c := ch]> (pl_channel_map_ p))).
Proof.
  intros Hc Hidx Hm Hev Hsz. unfold update_entry. rewrite Hc. simpl.
  rewrite (proj2 (Z.ltb_lt _ _)) by done.
  rewrite assert_true by (by apply bool_decide_eq_true). rewrite bind_ok, Hm.
  rewrite Channel.wf_events_short by done. rewrite zlen_app.
  change (zlen [_]) with 1. pose proof (zlen_nonneg (pl_poll_fds_ p)).
  replace (zlen (pl_poll_fds_ p) + 1 - 1) with (zlen (pl_poll_fds_ p)) by lia.
  rewrite u64_small, wrap_signed_small by lia. done.
Qed.

Lemma ok_new h p ch c :
  ok h p → h !! ch = Some c → ch_index_ c < 0 → 0 ≤ ch_fd_ c →
  pl_channel_map_ p !! ch_fd_ c = None → zlen (pl_poll_fds_ p) < 2 ^ 31 - 1 →
  ok (<[ch := Channel.setIndex (zlen (pl_poll_fds_ p)) c]> h)
     (mkPoller (pl_poll_fds_ p ++ [mkPollfd (ch_fd_ c) (ch_events_ c) 0])
               (<[ch_fd_ c := ch]> (pl_channel_map_ p))).
Proof.
  intros Hok Hc Hidx Hfd Hm Hsz.
  assert (Hne : ∀ f ch', pl_channel_map_ p !! f = Some ch' → ch ≠ ch').
  { intros f ch' Hf ->. destruct (ok_registered h p f ch' c Hok Hf Hc)
      as (_ & _ & i & pfd & Hi & _). lia. }
  constructor; simpl.
  - intros f ch' Hf. destruct (decide (f = ch_fd_ c)) as [->|Hfne].
    + rewrite lookup_insert_eq in Hf. simplify_eq. split; [done|].
      eexists _, (length (pl_poll_fds_ p)), (mkPollfd (ch_fd_ c) (ch_events_ c) 0).
      rewrite lookup_insert_eq.
      split_and!; [done|done|done| |by apply key_pos].
      rewrite lookup_app_r, Nat.sub_diag by lia. done.
    + rewrite lookup_insert_ne in Hf by done. split.
      { by eapply ok_map. }
      destruct (ok_map h p Hok f ch' Hf) as (_ & c' & i & pfd & ? & ? & ? & Hi & ?).
      exists c', i, pfd. rewrite lookup_insert_ne by eauto. split_and!; [done..| |done].
      by apply lookup_app_l_Some.
  - intros i pfd [Hi|[Hge Hi]]%lookup_app_Some.
    + destruct (ok_fds h p Hok i pfd Hi) as (ch' & c' & Hf & ? & ?).
      exists ch', c'. rewrite lookup_insert_ne by congruence.
      rewrite lookup_insert_ne by eauto. done.
    + apply list_lookup_singleton_Some in Hi as [Hi <-]. simpl. rewrite key_pos by done.
      exists ch, (Channel.setIndex (zlen (pl_poll_fds_ p)) c). rewrite !lookup_insert_eq.
      split_and!; [done..|]. simpl. unfold zlen. lia.
  - rewrite zlen_app. change (zlen [_]) with 1. lia.
Qed.

Lemma lookup_entry_new h p ch c f :
  ok h p → h !! ch = Some c → ch_index_ c < 0 → 0 ≤ ch_fd_ c →
  lookup_entry (<[ch := Channel.setIndex (zlen (pl_poll_fds_ p)) c]> h)
     (mkPoller (pl_poll_fds_ p ++ [mkPollfd (ch_fd_ c) (ch_events_ c) 0])
               (<[ch_fd_ c := ch]> (pl_channel_map_ p))) f
  = if decide (f = ch_fd_ c) then Some (mkEntry ch (ch_events_ c) false)
    else lookup_entry h p f.
Proof.
  intros Hok Hc Hidx Hfd. case_decide as Hf.
  - subst f. erewrite (ok_lookup_entry _ _ _ ch _ (length (pl_poll_fds_ p)));
      [|apply lookup_insert_eq|apply lookup_insert_eq|done|].
    2:{ simpl. rewrite lookup_app_r, Nat.sub_diag by lia. done. }
    simpl. by rewrite (proj2 (Z.ltb_ge _ _)).
  - unfold lookup_entry. simpl. rewrite lookup_insert_ne by done.
    destruct (pl_channel_map_ p !! f) as [ch'|] eqn:Hm; [|done]. simpl.
    destruct (ok_map h p Hok f ch' Hm) as (_ & c' & i & pfd & Hc' & ? & Hi & Hp & _).
    rewrite lookup_insert_ne by (intros <-; simplify_eq; lia).
    rewrite Hc'. simpl. rewrite Hi, Nat2Z.id, Hp.
    by rewrite (lookup_app_l_Some _ _ _ _ Hp).
Qed.

(** *** Updating a registered channel *)

(** The entry written: once ignored it stays ignored. *)
Definition updated_fd (c : Channel) (pfd : pollfd) : Z :=
  if Channel.isNoneEvent c then - ch_fd_ c - 1 else fd pfd.

Definition updated_pfd (c : Channel) (pfd : pollfd) : pollfd :=
  mkPollfd (updated_fd c pfd) (ch_events_ c) 0.

Lemma key_updated c pfd : 0 ≤ ch_fd_ c → key (fd pfd) = ch_fd_ c → key (updated_fd c pfd) = ch_fd_ c.
Proof. intros. unfold updated_fd. destruct Channel.isNoneEvent; [by apply key_neg|done]. Qed.

Lemma update_entry_existing h p ch c i pfd :
  ok h p → h !! ch = Some c → pl_channel_map_ p !! ch_fd_ c = Some ch →
  Channel.wf_events (ch_events_ c) →
  ch_index_ c = Z.of_nat i → pl_poll_fds_ p !! i = Some pfd →
  update_entry ch h p =
    Ok (h, mkPoller (<[i := updated_pfd c pfd]> (pl_poll_fds_ p)) (pl_channel_map_ p)).
Proof.
  intros Hok Hc Hm Hev Hi Hp. unfold update_entry. rewrite Hc. simpl.
  destruct (ok_registered h p _ ch c Hok Hm Hc) as (Hf & _ & i' & pfd' & Hi' & Hp' & Hk).
  assert (i' = i) as -> by lia. simplify_eq.
  rewrite Hi, (proj2 (Z.ltb_ge _ _)) by lia.
  rewrite bind_assert by (apply bool_decide_eq_true; eauto).
  rewrite bind_assert by (by apply bool_decide_eq_true).
  rewrite bind_assert by (by eapply lookup_index_test).
  rewrite at_index_nat, Hp. simpl.
  rewrite bind_assert by (by apply key_forms_test).
  rewrite Channel.wf_events_short, Nat2Z.id by done.
  unfold updated_pfd, updated_fd. by destruct (Channel.isNoneEvent c).
Qed.

Lemma ok_existing h p ch c i pfd :
  ok h p → h !! ch = Some c → pl_channel_map_ p !! ch_fd_ c = Some ch →
  ch_index_ c = Z.of_nat i → pl_poll_fds_ p !! i = Some pfd →
  ok h (mkPoller (<[i := updated_pfd c pfd]> (pl_poll_fds_ p)) (pl_channel_map_ p)).
Proof.
  intros Hok Hc Hm Hi Hp.
  destruct (ok_registered h p _ ch c Hok Hm Hc) as (Hf & _ & i' & pfd' & Hi' & Hp' & Hk).
  assert (i' = i) as -> by lia. simplify_eq.
  pose proof (lookup_lt_Some _ _ _ Hp) as Hlt. constructor; simpl.
  - intros f ch' Hm'.
    destruct (ok_map h p Hok f ch' Hm') as (? & c' & j & pfd' & Hc' & Hfd' & Hj & Hpj & Hkj).
    split; [done|]. destruct (decide (i = j)) as [<-|Hne].
    + exists c', i, (updated_pfd c pfd).
      rewrite list_lookup_insert_eq by done. split_and!; try done.
      simpl. rewrite key_updated by done. congruence.
    + exists c', j, pfd'. rewrite list_lookup_insert_ne by done. done.
  - intros j pfd' Hj. destruct (decide (i = j)) as [<-|Hne].
    + rewrite list_lookup_insert_eq in Hj by done. simplify_eq. simpl.
      rewrite key_updated by done. eauto.
    + rewrite list_lookup_insert_ne in Hj by done. by eapply ok_fds.
  - unfold zlen. rewrite length_insert. apply Hok.
Qed.

Lemma lookup_entry_existing h p ch c i pfd f :
  ok h p → h !! ch = Some c → pl_channel_map_ p !! ch_fd_ c = Some ch →
  ch_index_ c = Z.of_nat i → pl_poll_fds_ p !! i = Some pfd →
  lookup_entry h (mkPoller (<[i := updated_pfd c pfd]> (pl_poll_fds_ p)) (pl_channel_map_ p)) f
  = if decide (f = ch_fd_ c)
    then Some (mkEntry ch (ch_events_ c) (Channel.isNoneEvent c || (fd pfd <? 0)))
    else lookup_entry h p f.
Proof.
  intros Hok Hc Hm Hi Hp.
  destruct (ok_registered h p _ ch c Hok Hm Hc) as (Hf & _ & _).
  pose proof (lookup_lt_Some _ _ _ Hp) as Hlt. case_decide as Hfd.
  - subst f. erewrite ok_lookup_entry; [|done..|by apply list_lookup_insert_eq].
    simpl. do 2 f_equal. unfold updated_fd.
    destruct Channel.isNoneEvent; [|done]. apply Z.ltb_lt. lia.
  - unfold lookup_entry. simpl. destruct (pl_channel_map_ p !! f) as [ch'|] eqn:Hm'; [|done].
    simpl. destruct (ok_map h p Hok f ch' Hm') as (_ & c' & j & pfd' & Hc' & Hf' & Hj & Hpj & Hkj).
    rewrite Hc'. simpl. rewrite Hj, Nat2Z.id.
    destruct (ok_registered h p _ ch c Hok Hm Hc) as (_ & _ & i' & pfd1 & Hi' & Hp1 & Hk1).
    assert (i' = i) as -> by lia.
    rewrite list_lookup_insert_ne; [done|]. intros <-. simplify_eq. congruence.
Qed.

End entry_correctness.

Section removal.
Context `{B : Build}.

(** The array after the swap with the last entry and the pop. *)
Definition remove_at (i : nat) (pfd back : pollfd) (fds : list pollfd) : list pollfd :=
  pop_back (<[pred (length fds) := pfd]> (<[i := back]> fds)).

Lemma lookup_remove_at i pfd back fds j x :
  (S i < length fds)%nat →
  remove_at i pfd back fds !! j = Some x ↔
  (S j < length fds)%nat ∧ (if decide (j = i) then x = back else fds !! j = Some x).
Proof.
  intros Hi. unfold remove_at. rewrite lookup_pop_back, !length_insert. split.
  - intros [Hl Hj]. rewrite list_lookup_insert_ne in Hl by lia. split; [done|].
    case_decide as Hij; [subst j|].
    + rewrite list_lookup_insert_eq in Hl by lia. by simplify_eq.
    + by rewrite list_lookup_insert_ne in Hl by done.
  - intros [Hj Hl]. split; [|done]. rewrite list_lookup_insert_ne by lia.
    case_decide as Hij; [subst j|].
    + rewrite list_lookup_insert_eq by lia. by subst.
    + by rewrite list_lookup_insert_ne by done.
Qed.

Lemma zlen_remove_at i pfd back fds : zlen (remove_at i pfd back fds) ≤ zlen fds.
Proof. unfold remove_at, pop_back, zlen. rewrite length_take, !length_insert. lia. Qed.

(** What the asserts and the accesses of [removeChannel] need. *)
Record removable (h : gmap Z Channel) (p : Poller) (ch : Z) (c : Channel) (i : nat)
    (pfd : pollfd) : Prop := {
  rm_ok : ok h p;
  rm_channel : h !! ch = Some c;
  rm_map : pl_channel_map_ p !! ch_fd_ c = Some ch;
  rm_none : ch_events_ c = Channel.NoneEvent;
  rm_index : ch_index_ c = Z.of_nat i;
  rm_entry : pl_poll_fds_ p !! i = Some pfd;
  rm_sync : events pfd = ch_events_ c
}.

Lemma last_lookup_pred {A} (l : list A) i x :
  l !! i = Some x → ∃ y, last l = Some y ∧ l !! pred (length l) = Some y.
Proof.
  intros Hi%lookup_lt_Some. rewrite last_lookup.
  destruct (lookup_lt_is_Some_2 l (pred (length l))) as [y ->]; [lia|eauto].
Qed.

Lemma remove_entry_last h p ch c i pfd :
  removable h p ch c i pfd → S i = length (pl_poll_fds_ p) →
  remove_entry ch h p =
    Ok (h, mkPoller (pop_back (pl_poll_fds_ p)) (delete (ch_fd_ c) (pl_channel_map_ p))).
Proof.
  intros [Hok Hc Hm Hnone Hi Hp Hsync] Hlast. unfold remove_entry. rewrite Hc. simpl.
  destruct (ok_registered h p _ ch c Hok Hm Hc) as (Hf & _ & i' & pfd' & Hi' & Hp' & Hk).
  assert (i' = i) as -> by lia. simplify_eq.
  rewrite bind_assert by (apply bool_decide_eq_true; eauto).
  rewrite bind_assert by (by apply bool_decide_eq_true).
  rewrite bind_assert by (by apply Z.eqb_eq). rewrite Hi.
  rewrite bind_assert by (by eapply lookup_index_test).
  rewrite at_index_nat, Hp. simpl.
  rewrite bind_assert by (rewrite orb_comm; by apply key_forms_test).
  rewrite bind_assert by (by apply Z.eqb_eq).
  rewrite bind_assert by (apply bool_decide_eq_true; eauto).
  pose proof (ok_size h p Hok). unfold zlen in *.
  rewrite !u64_small, (proj2 (Z.eqb_eq _ _)) by lia. done.
Qed.

Lemma remove_entry_swap h p ch c i pfd :
  removable h p ch c i pfd → (S i < length (pl_poll_fds_ p))%nat →
  ∃ back ch_end c_end,
    pl_poll_fds_ p !! pred (length (pl_poll_fds_ p)) = Some back ∧
    pl_channel_map_ p !! key (fd back) = Some ch_end ∧ key (fd back) ≠ ch_fd_ c ∧
    h !! ch_end = Some c_end ∧ ch_index_ c_end = Z.of_nat (pred (length (pl_poll_fds_ p))) ∧
    remove_entry ch h p =
      Ok (<[ch_end := Channel.setIndex (Z.of_nat i) c_end]> h,
          mkPoller (remove_at i pfd back (pl_poll_fds_ p))
            (delete (ch_fd_ c) (pl_channel_map_ p))).
Proof.
  intros [Hok Hc Hm Hnone Hi Hp Hsync] Hlt.
  destruct (last_lookup_pred _ _ _ Hp) as (back & Hlast & Hb).
  destruct (ok_fds h p Hok _ _ Hb) as (ch_end & c_end & Hme & Hce & Hie).
  assert (Hkne : key (fd back) ≠ ch_fd_ c) by (intros Heq; rewrite Heq in Hme; simplify_eq; lia).
  exists back, ch_end, c_end. split_and!; try done.
  unfold remove_entry. rewrite Hc. simpl.
  destruct (ok_registered h p _ ch c Hok Hm Hc) as (Hf & _ & i' & pfd' & Hi' & Hp' & Hk).
  assert (i' = i) as -> by lia. simplify_eq.
  rewrite bind_assert by (apply bool_decide_eq_true; eauto).
  rewrite bind_assert by (by apply bool_decide_eq_true).
  rewrite bind_assert by (by apply Z.eqb_eq). rewrite Hi.
  rewrite bind_assert by (by eapply lookup_index_test).
  rewrite at_index_nat, Hp. simpl.
  rewrite bind_assert by (rewrite orb_comm; by apply key_forms_test).
  rewrite bind_assert by (by apply Z.eqb_eq).
  rewrite bind_assert by (apply bool_decide_eq_true; eauto).
  pose proof (ok_size h p Hok). unfold zlen in *.
  rewrite !u64_small, (proj2 (Z.eqb_neq _ _)) by lia.
  rewrite Hlast. simpl. fold (key (fd back)). rewrite lookup_delete_ne by done.
  rewrite Hme. simpl. rewrite Hce. simpl. by rewrite Nat2Z.id.
Qed.

(** The invariant after a removal, for both ways of removing. *)
Lemma ok_remove_last h p ch c i pfd :
  removable h p ch c i pfd → S i = length (pl_poll_fds_ p) →
  ok h (mkPoller (pop_back (pl_poll_fds_ p)) (delete (ch_fd_ c) (pl_channel_map_ p))).
Proof.
  intros [Hok Hc Hm Hnone Hi Hp Hsync] Hlast.
  destruct (ok_registered h p _ ch c Hok Hm Hc) as (Hf & _ & i' & pfd0 & Hi' & Hp0 & Hk).
  assert (i' = i) as -> by lia. simplify_eq. constructor; simpl.
  - intros f ch' [Hne Hf']%lookup_delete_Some.
    destruct (ok_map h p Hok f ch' Hf') as (? & c' & j & pfd' & ? & ? & ? & Hj & Hkj).
    split; [done|]. exists c', j, pfd'. split_and!; try done.
    apply lookup_pop_back. split; [done|]. pose proof (lookup_lt_Some _ _ _ Hj).
    assert (j ≠ i) by (intros ->; simplify_eq; congruence). lia.
  - intros j pfd' [Hj Hlt]%lookup_pop_back.
    destruct (ok_fds h p Hok j pfd' Hj) as (ch' & c' & Hm' & Hc' & Hj').
    exists ch', c'. split_and!; [|done..]. rewrite lookup_delete_ne; [done|].
    intros Heq. rewrite <- Heq, Hm in Hm'. simplify_eq. lia.
  - pose proof (ok_size h p Hok). unfold zlen, pop_back in *. rewrite length_take. lia.
Qed.

Lemma ok_remove_swap h p ch c i pfd back ch_end c_end :
  removable h p ch c i pfd → (S i < length (pl_poll_fds_ p))%nat →
  pl_poll_fds_ p !! pred (length (pl_poll_fds_ p)) = Some back →
  pl_channel_map_ p !! key (fd back) = Some ch_end →
  h !! ch_end = Some c_end → key (fd back) ≠ ch_fd_ c →
  ok (<[ch_end := Channel.setIndex (Z.of_nat i) c_end]> h)
     (mkPoller (remove_at i pfd back (pl_poll_fds_ p)) (delete (ch_fd_ c) (pl_channel_map_ p))).
Proof.
  intros [Hok Hc Hm Hnone Hi Hp Hsync] Hlt Hb Hme Hce Hkb.
  destruct (ok_registered h p _ ch c Hok Hm Hc) as (Hf & _ & i' & pfd0 & Hi' & Hp0 & Hk).
  assert (i' = i) as -> by lia. simplify_eq.
  destruct (ok_registered h p _ ch_end c_end Hok Hme Hce) as (Hfe & Hfe' & j & pfde & Hj & Hpj & _).
  destruct (ok_fds h p Hok _ _ Hb) as (che' & ce' & ? & ? & Hidx). simplify_eq.
  constructor; simpl.
  - intros f ch' [Hne Hf']%lookup_delete_Some.
    destruct (ok_map h p Hok f ch' Hf') as (? & c' & k & pfd' & Hc' & Hfd' & Hk' & Hpk & Hkk).
    split; [done|]. destruct (decide (ch_end = ch')) as [<-|Hch].
    + assert (f = key (fd back)) as -> by (by eapply ok_channel_inj).
      eexists _, i, back. rewrite lookup_insert_eq. split_and!; [done|done|done| |done].
      apply lookup_remove_at; [done|]. split; [lia|]. by rewrite decide_True.
    + exists c', k, pfd'. rewrite lookup_insert_ne by done. split_and!; try done.
      apply lookup_remove_at; [done|]. pose proof (lookup_lt_Some _ _ _ Hpk).
      assert (k ≠ i) by (intros ->; simplify_eq; congruence).
      assert (k ≠ pred (length (pl_poll_fds_ p))) by (intros ->; simplify_eq; congruence).
      split; [lia|]. by rewrite decide_False.
  - intros k pfd' [Hk1 Hk2]%lookup_remove_at; [|done]. case_decide as Hki; simplify_eq.
    + exists ch_end, (Channel.setIndex (Z.of_nat i) c_end).
      rewrite lookup_delete_ne by done. rewrite lookup_insert_eq. done.
    + destruct (ok_fds h p Hok k pfd' Hk2) as (ch' & c' & Hm' & Hc' & Hk').
      exists ch', c'. rewrite lookup_delete_ne by (intros Heq; rewrite <- Heq in Hm'; simplify_eq; lia).
      rewrite lookup_insert_ne by (intros <-; simplify_eq; lia). done.
  - pose proof (ok_size h p Hok). pose proof (zlen_remove_at i pfd back (pl_poll_fds_ p)). lia.
Qed.

End removal.

Section refinement.
Context `{B : Build}.

Lemma lookup_entry_remove_last h p ch c i pfd f :
  removable h p ch c i pfd → S i = length (pl_poll_fds_ p) →
  lookup_entry h (mkPoller (pop_back (pl_poll_fds_ p)) (delete (ch_fd_ c) (pl_channel_map_ p))) f
  = if decide (f = ch_fd_ c) then None else lookup_entry h p f.
Proof.
  intros Hrm Hlast. pose proof (ok_remove_last _ _ _ _ _ _ Hrm Hlast) as Hok'.
  destruct Hrm as [Hok Hc Hm Hnone Hi Hp Hsync]. case_decide as Hf.
  { subst. apply lookup_entry_none, lookup_delete_eq. }
  destruct (pl_channel_map_ p !! f) as [ch'|] eqn:Hm'.
  2:{ rewrite !lookup_entry_none; simpl; rewrite ?lookup_delete_ne; done. }
  destruct (ok_map h p Hok f ch' Hm') as (_ & c' & k & pfd' & ? & ? & ? & Hpk & Hkk).
  erewrite !ok_lookup_entry; try done.
  - simpl. by rewrite lookup_delete_ne.
  - apply lookup_pop_back. split; [done|]. pose proof (lookup_lt_Some _ _ _ Hpk).
    destruct (ok_registered h p _ ch c Hok Hm Hc) as (_ & _ & i' & pfd0 & Hi' & Hp0 & Hk).
    assert (i' = i) as -> by lia. simplify_eq.
    assert (k ≠ i) by (intros ->; simplify_eq; congruence). lia.
Qed.

Lemma lookup_entry_remove_swap h p ch c i pfd back ch_end c_end f :
  removable h p ch c i pfd → (S i < length (pl_poll_fds_ p))%nat →
  pl_poll_fds_ p !! pred (length (pl_poll_fds_ p)) = Some back →
  pl_channel_map_ p !! key (fd back) = Some ch_end →
  h !! ch_end = Some c_end → ch_index_ c_end = Z.of_nat (pred (length (pl_poll_fds_ p))) →
  lookup_entry (<[ch_end := Channel.setIndex (Z.of_nat i) c_end]> h)
     (mkPoller (remove_at i pfd back (pl_poll_fds_ p)) (delete (ch_fd_ c) (pl_channel_map_ p))) f
  = if decide (f = ch_fd_ c) then None else lookup_entry h p f.
Proof.
  intros [Hok Hc Hm Hnone Hi Hp Hsync] Hlt Hb Hme Hce Hie. case_decide as Hf.
  { subst. apply lookup_entry_none, lookup_delete_eq. }
  destruct (pl_channel_map_ p !! f) as [ch'|] eqn:Hm'.
  2:{ rewrite !lookup_entry_none; simpl; rewrite ?lookup_delete_ne; done. }
  destruct (ok_map h p Hok f ch' Hm') as (_ & c' & k & pfd' & Hc' & Hfd' & Hk' & Hpk & Hkk).
  destruct (ok_registered h p _ ch c Hok Hm Hc) as (_ & _ & i' & pfd0 & Hi' & Hp0 & Hk).
  assert (i' = i) as -> by lia. simplify_eq.
  rewrite (ok_lookup_entry h p _ ch' c' k pfd') by done.
  destruct (decide (ch_end = ch')) as [<-|Hch].
  - simplify_eq. assert (k = pred (length (pl_poll_fds_ p))) as -> by lia. simplify_eq.
    erewrite ok_lookup_entry; [done| |apply lookup_insert_eq|done|].
    + simpl. by rewrite lookup_delete_ne.
    + apply lookup_remove_at; [done|]. split; [lia|]. by rewrite decide_True.
  - rewrite (ok_lookup_entry _ _ _ ch' c' k pfd'); [done| | |done|].
    + simpl. by rewrite lookup_delete_ne.
    + by rewrite lookup_insert_ne.
    + apply lookup_remove_at; [done|]. pose proof (lookup_lt_Some _ _ _ Hpk).
      assert (k ≠ i) by (intros ->; simplify_eq; congruence).
      assert (k ≠ pred (length (pl_poll_fds_ p))).
      { intros ->. simplify_eq. congruence. }
      split; [lia|]. by rewrite decide_False.
Qed.

(** The channels [updateChannel] accepts: a new one for a free descriptor, or
    a registered one. *)
Definition updatable (h : gmap Z Channel) (p : Poller) (ch : Z) (c : Channel) : Prop :=
  h !! ch = Some c ∧ 0 ≤ ch_fd_ c ∧ Channel.wf_events (ch_events_ c) ∧
  ((ch_index_ c < 0 ∧ pl_channel_map_ p !! ch_fd_ c = None ∧
    zlen (pl_poll_fds_ p) < 2 ^ 31 - 1) ∨
   pl_channel_map_ p !! ch_fd_ c = Some ch).

(** The entry was ignored before. *)
Definition was_ignored (h : gmap Z Channel) (p : Poller) (f : Z) : bool :=
  match lookup_entry h p f with Some e => en_ignored e | None => false end.

Lemma update_entry_refines h p ch c :
  ok h p → updatable h p ch c →
  ∃ i p', let h' := <[ch := Channel.setIndex i c]> h in
    update_entry ch h p = Ok (h', p') ∧ ok h' p' ∧
    pl_channel_map_ p' = <[ch_fd_ c := ch]> (pl_channel_map_ p) ∧
    ∀ f, lookup_entry h' p' f =
      if decide (f = ch_fd_ c)
      then Some (mkEntry ch (ch_events_ c)
             (was_ignored h p f || (bool_decide (is_Some (pl_channel_map_ p !! f)) &&
                                    Channel.isNoneEvent c)))
      else lookup_entry h p f.
Proof.
  intros Hok (Hc & Hfd & Hev & [(Hidx & Hm & Hsz)|Hm]).
  - eexists _, _. split; [by apply update_entry_new; [..|lia]|].
    split; [by apply ok_new|].
    split; [done|]. intros f. rewrite lookup_entry_new by done.
    case_decide as Hf; [subst f|done]. unfold was_ignored.
    rewrite lookup_entry_none, Hm by done. done.
  - destruct (ok_registered h p _ ch c Hok Hm Hc) as (_ & _ & i & pfd & Hi & Hp & Hk).
    exists (ch_index_ c). eexists. cbn zeta. rewrite setIndex_id, insert_id by done.
    split; [by eapply update_entry_existing|].
    split; [by apply ok_existing with (ch := ch)|].
    split; [by rewrite insert_id|]. intros f. rewrite (lookup_entry_existing _ _ ch) by done.
    case_decide as Hf; [subst f|done]. unfold was_ignored.
    rewrite (ok_lookup_entry h p _ ch c i pfd), Hm by done. simpl.
    rewrite orb_comm. done.
Qed.

Lemma remove_entry_refines h p ch c i pfd :
  removable h p ch c i pfd →
  ∃ h' p', remove_entry ch h p = Ok (h', p') ∧ ok h' p' ∧ same_but_index h h' ∧
    pl_channel_map_ p' = delete (ch_fd_ c) (pl_channel_map_ p) ∧
    unregistered_same h h' p ∧
    ∀ f, lookup_entry h' p' f =
      if decide (f = ch_fd_ c) then None else lookup_entry h p f.
Proof.
  intros Hrm. pose proof (lookup_lt_Some _ _ _ (rm_entry _ _ _ _ _ _ Hrm)).
  destruct (decide (S i = length (pl_poll_fds_ p))).
  - eexists _, _. split; [by eapply remove_entry_last|].
    split; [by eapply ok_remove_last|]. split; [apply same_but_index_refl|].
    split; [done|]. split; [done|]. intros f. by eapply lookup_entry_remove_last.
  - destruct (remove_entry_swap h p ch c i pfd) as
      (back & ch_end & c_end & Hb & Hme & Hkb & Hce & Hie & Hr); [done|lia|].
    eexists _, _. split; [done|]. split; [by apply (ok_remove_swap _ _ ch); [|lia|..]|].
    split; [by apply same_but_index_insert|].
    split; [done|]. split; [|intros f; by apply (lookup_entry_remove_swap _ _ ch); [|lia|..]].
    intros ch' Hn. rewrite lookup_insert_ne; [done|]. intros <-. by eapply Hn.
Qed.

End refinement.

(** ** Dispatching the reported events *)
Section dispatch.
Context `{B : Build}.

(** The channels of the entries that report an event, in array order. *)
Definition reported (map : gmap Z ChannelPtr) (fds : list pollfd) : list ChannelPtr :=
  omap (λ pfd, if 0 <? revents pfd then map !! fd pfd else None) fds.

(** The channel an entry with events is dispatched to. *)
Definition resolves (map : gmap Z ChannelPtr) (h : gmap Z Channel) (pfd : pollfd) : Prop :=
  0 < revents pfd → ∃ ch c, map !! fd pfd = Some ch ∧ h !! ch = Some c ∧ ch_fd_ c = fd pfd.

(** [h'] is [h] with the [revents] of the reported channels. *)
Definition revents_stored (map : gmap Z ChannelPtr) (fds : list pollfd)
    (h h' : gmap Z Channel) : Prop :=
  ∀ ch, match h !! ch, h' !! ch with
        | Some c, Some c' =>
            (c' = c ∧ ch ∉ reported map fds) ∨
            ∃ pfd, pfd ∈ fds ∧ 0 < revents pfd ∧ map !! fd pfd = Some ch ∧
                   c' = Channel.setRevents (revents pfd) c
        | None, None => True
        | _, _ => False
        end.

Lemma count_pos_cons x l : count_pos (x :: l) = (if decide (0 < x) then 1 else 0) + count_pos l.
Proof.
  unfold count_pos. rewrite filter_cons. case_decide; [|done].
  unfold zlen. simpl. lia.
Qed.

Lemma count_pos_nonneg l : 0 ≤ count_pos l.
Proof. apply zlen_nonneg. Qed.

Lemma reported_none map fds : count_pos (revents <$> fds) ≤ 0 → reported map fds = [].
Proof.
  induction fds as [|pfd fds IH]; [done|]. rewrite fmap_cons, count_pos_cons.
  pose proof (count_pos_nonneg (revents <$> fds)). unfold reported in *. simpl.
  case_decide as Hr; intros Hc; [lia|]. rewrite (proj2 (Z.ltb_ge _ _)) by lia. apply IH. lia.
Qed.

Lemma revents_stored_refl map fds h : reported map fds = [] → revents_stored map fds h h.
Proof.
  intros Hr ch. destruct (h !! ch); [|done]. left. rewrite Hr. split; [done|apply not_elem_of_nil].
Qed.

Lemma resolves_insert map h ch c r pfd :
  h !! ch = Some c → resolves map h pfd → resolves map (<[ch := Channel.setRevents r c]> h) pfd.
Proof.
  intros Hc Hres Hr. destruct (Hres Hr) as (ch' & c' & ? & Hc' & ?). exists ch'.
  destruct (decide (ch = ch')) as [<-|]; simplify_eq.
  - eexists. rewrite lookup_insert_eq. eauto.
  - exists c'. by rewrite lookup_insert_ne.
Qed.

Lemma NoDup_omap_inj {X Y} (f : X → option Y) l :
  (∀ x x' y, x ∈ l → x' ∈ l → f x = Some y → f x' = Some y → x = x') →
  NoDup l → NoDup (omap f l).
Proof.
  intros Hinj Hnd. induction Hnd as [|x l Hx Hnd IH]; csimpl; [constructor|].
  assert (NoDup (omap f l)) as Hl.
  { apply IH. intros. eapply Hinj; [by right..|done|done]. }
  destruct (f x) as [y|] eqn:Hfx; [|done]. constructor; [|done].
  intros (x' & Hx' & Hfx')%list_elem_of_omap. apply Hx.
  by rewrite (Hinj x x' y) by (done || by constructor).
Qed.

(** A channel is reported at most once. *)
Lemma reported_nodup h p :
  ok h p → NoDup (reported (pl_channel_map_ p) (pl_poll_fds_ p)).
Proof.
  intros Hok. apply NoDup_omap_inj; [|by eapply ok_nodup].
  intros x x' ch [i Hi]%list_elem_of_lookup [j Hj]%list_elem_of_lookup Hx Hx'.
  destruct (0 <? revents x); [|done]. destruct (0 <? revents x'); [|done].
  destruct (ok_map h p Hok _ _ Hx) as (Hpos & c & _ & _ & Hc & Hfd & _).
  destruct (ok_map h p Hok _ _ Hx') as (Hpos' & c' & _ & _ & Hc' & Hfd' & _).
  destruct (ok_fds h p Hok i x Hi) as (ch1 & c1 & Hm1 & Hc1 & Hi1).
  destruct (ok_fds h p Hok j x' Hj) as (ch2 & c2 & Hm2 & Hc2 & Hi2).
  rewrite key_pos in Hm1, Hm2 by done. simplify_eq. 
  assert (i = j) as -> by lia. congruence.
Qed.

Lemma reported_registered map fds ch : ch ∈ reported map fds → ∃ f, map !! f = Some ch.
Proof.
  intros (pfd & _ & Hf)%list_elem_of_omap. destruct (0 <? revents pfd); [|done]. by eexists.
Qed.

Lemma fillActiveChannels_ok n fds map h :
  Forall (resolves map h) fds → count_pos (revents <$> fds) ≤ n →
  ∃ h', fillActiveChannels n fds map h = Ok (h', reported map fds) ∧
        revents_stored map fds h h'.
Proof.
  revert n h. induction fds as [|pfd fds IH]; intros n h Hres Hn.
  { exists h. split; [done|]. by apply revents_stored_refl. }
  apply Forall_cons in Hres as [Hpfd Hres]. rewrite fmap_cons, count_pos_cons in Hn.
  pose proof (count_pos_nonneg (revents <$> fds)).
  cbn [fillActiveChannels]. case Z.leb_spec; intros Hn0.
  { exists h. rewrite reported_none by (rewrite fmap_cons, count_pos_cons; done || lia).
    split; [done|]. apply revents_stored_refl, reported_none.
    rewrite fmap_cons, count_pos_cons. lia. }
  case_decide as Hr.
  - rewrite (proj2 (Z.ltb_lt _ _)) by done. destruct (Hpfd Hr) as (ch & c & Hm & Hc & Hfd).
    rewrite Hm. rewrite bind_assert by (apply bool_decide_eq_true; eauto). simpl. rewrite Hc. simpl.
    rewrite bind_assert by (by apply Z.eqb_eq).
    destruct (IH (n - 1) (<[ch := Channel.setRevents (revents pfd) c]> h)) as (h' & -> & Hst).
    { eapply Forall_impl; [done|]. intros. by apply resolves_insert. }
    { lia. }
    simpl. exists h'. unfold reported at 1. simpl.
    rewrite (proj2 (Z.ltb_lt _ _)), Hm by done. split; [done|].
    intros ch'. specialize (Hst ch'). destruct (decide (ch = ch')) as [<-|Hne].
    + rewrite lookup_insert_eq in Hst. rewrite Hc. destruct (h' !! ch) as [c'|]; [|done].
      right. destruct Hst as [[-> _]|(pfd' & ? & ? & ? & ->)].
      * exists pfd. split_and!; [by constructor|done..].
      * exists pfd'. split_and!; [by constructor|done..].
    + rewrite lookup_insert_ne in Hst by done. destruct (h !! ch') as [c1|], (h' !! ch') as [c'|];
        try done. destruct Hst as [[-> Hnin]|(pfd' & ? & ? & ? & ->)].
      * left. split; [done|]. unfold reported. simpl.
        rewrite (proj2 (Z.ltb_lt _ _)), Hm by done. apply not_elem_of_cons. done.
      * right. exists pfd'. split_and!; [by constructor|done..].
  - rewrite (proj2 (Z.ltb_ge _ _)) by lia.
    destruct (IH n h Hres) as (h' & -> & Hst); [lia|]. exists h'. unfold reported at 1 in |- *. simpl.
    rewrite (proj2 (Z.ltb_ge _ _)) by lia. split; [done|]. intros ch'. specialize (Hst ch').
    destruct (h !! ch') as [c1|], (h' !! ch') as [c'|]; try done.
    destruct Hst as [[-> Hnin]|(pfd' & ? & ? & ? & ->)].
    + left. split; [done|]. unfold reported. simpl. by rewrite (proj2 (Z.ltb_ge _ _)) by lia.
    + right. exists pfd'. split_and!; [by constructor|done..].
Qed.

End dispatch.

(** ** The operations on the process *)
Section world.
Context `{K : Kernel} `{B : Build}.

(** The process after the loop [l] stored [h'] and [p']. *)
Definition put_poller (l : Z) (loop : EventLoop) (h' : gmap Z Channel) (p' : Poller)
    (w : World) : World :=
  set_loops (<[l := setPoller (Some p') loop]> (w_loops w)) (set_channels h' w).

Lemma the_poller_ok l loop p w :
  w_loops w !! l = Some loop → el_poller_ loop = Some p → the_poller l w = Ok (p, w).
Proof.
  intros Hl Hp. unfold the_poller, mbind, M_bind, deref. simpl. rewrite Hl.
  unfold lift. by rewrite Hp.
Qed.

Lemma on_poller_ok {A} l loop p (f : gmap Z Channel → Poller → result (gmap Z Channel * Poller * A))
    h' p' a w :
  w_loops w !! l = Some loop → el_poller_ loop = Some p →
  f (w_channels w) p = Ok (h', p', a) →
  on_poller l f w = Ok (a, put_poller l loop h' p' w).
Proof.
  intros Hl Hp Hf. unfold on_poller, mbind, M_bind.
  rewrite (the_poller_ok l loop p) by done. unfold read, lift. rewrite Hf.
  unfold modify, mbind, M_bind, deref, update. simpl. by rewrite Hl.
Qed.

Context `{BL : !BuildLaws B}.

Lemma updateChannel_ok l loop p ch c w :
  in_loop_thread l w → w_loops w !! l = Some loop → el_poller_ loop = Some p →
  ok (w_channels w) p → updatable (w_channels w) p ch c →
  ∃ i p', let h' := <[ch := Channel.setIndex i c]> (w_channels w) in
    updateChannel l ch w = Ok ((), put_poller l loop h' p' w) ∧ ok h' p' ∧
    pl_channel_map_ p' = <[ch_fd_ c := ch]> (pl_channel_map_ p) ∧
    ∀ f, lookup_entry h' p' f =
      if decide (f = ch_fd_ c)
      then Some (mkEntry ch (ch_events_ c)
             (was_ignored (w_channels w) p f ||
              (bool_decide (is_Some (pl_channel_map_ p !! f)) && Channel.isNoneEvent c)))
      else lookup_entry (w_channels w) p f.
Proof.
  intros Hin Hl Hp Hok Hup.
  destruct (update_entry_refines _ _ _ _ Hok Hup) as (i & p' & Hu & Hrest).
  exists i, p'. split; [|done]. unfold updateChannel, mbind, M_bind.
  rewrite assertInLoopThread_ok by done. apply on_poller_ok with p; [done..|].
  unfold entry_step. by rewrite Hu.
Qed.

Lemma removeChannel_ok l loop p ch c i pfd w :
  in_loop_thread l w → w_loops w !! l = Some loop → el_poller_ loop = Some p →
  removable (w_channels w) p ch c i pfd →
  ∃ h' p', removeChannel l ch w = Ok ((), put_poller l loop h' p' w) ∧
    ok h' p' ∧ same_but_index (w_channels w) h' ∧
    pl_channel_map_ p' = delete (ch_fd_ c) (pl_channel_map_ p) ∧
    unregistered_same (w_channels w) h' p ∧
    ∀ f, lookup_entry h' p' f =
      if decide (f = ch_fd_ c) then None else lookup_entry (w_channels w) p f.
Proof.
  intros Hin Hl Hp Hrm.
  destruct (remove_entry_refines _ _ _ _ _ _ Hrm) as (h' & p' & Hr & Hrest).
  exists h', p'. split; [|done]. unfold removeChannel, mbind, M_bind.
  rewrite assertInLoopThread_ok by done. apply on_poller_ok with p; [done..|].
  unfold entry_step. by rewrite Hr.
Qed.

(** *** [poll] *)

Lemma fillActiveChannels_dangling n fds map h0 h :
  Forall (resolves map h0) fds → (∀ f ch, map !! f = Some ch → h !! ch = None) → 0 < n →
  0 < count_pos (revents <$> fds) → fillActiveChannels n fds map h = Fault DanglingPointer.
Proof.
  intros Hres Hgone Hn. induction Hres as [|pfd fds Hpfd Hres IH]; [done|].
  rewrite fmap_cons, count_pos_cons. cbn [fillActiveChannels]. rewrite (proj2 (Z.leb_gt _ _)) by done.
  case_decide as Hr; intros Hc.
  - rewrite (proj2 (Z.ltb_lt _ _)) by done. destruct (Hpfd Hr) as (ch & c & Hm & _).
    rewrite Hm. rewrite bind_assert by (apply bool_decide_eq_true; eauto). simpl. by rewrite (Hgone _ _ Hm).
  - rewrite (proj2 (Z.ltb_ge _ _)) by lia. by apply IH.
Qed.

Lemma length_store_revents fds revs : length (store_revents fds revs) = length fds.
Proof. revert revs. induction fds as [|p fds IH]; intros [|r revs]; simpl; auto. Qed.

Lemma lookup_store_revents fds revs i :
  length revs = length fds →
  store_revents fds revs !! i =
    (p ← fds !! i; r ← revs !! i; Some (mkPollfd (fd p) (events p) r)).
Proof.
  revert revs i. induction fds as [|p fds IH]; intros [|r revs] i Hlen; simplify_eq/=; [done|].
  destruct i as [|i]; simpl; [done|]. apply IH. lia.
Qed.

Lemma revents_store_revents fds revs :
  length revs = length fds → revents <$> store_revents fds revs = revs.
Proof.
  revert revs. induction fds as [|p fds IH]; intros [|r revs] Hlen; simplify_eq/=; [done|].
  f_equal. apply IH. lia.
Qed.

Lemma ok_store_revents h p revs :
  length revs = length (pl_poll_fds_ p) → ok h p →
  ok h (mkPoller (store_revents (pl_poll_fds_ p) revs) (pl_channel_map_ p)).
Proof.
  intros Hlen Hok. constructor; simpl.
  - intros f ch Hm. destruct (ok_map h p Hok f ch Hm) as (? & c & i & pfd & ? & ? & ? & Hi & ?).
    split; [done|]. destruct (lookup_lt_is_Some_2 revs i) as [r Hr].
    { rewrite Hlen. by eapply lookup_lt_Some. }
    eexists c, i, (mkPollfd (fd pfd) (events pfd) r).
    rewrite lookup_store_revents, Hi by done. simpl. by rewrite Hr.
  - intros i pfd Hi. rewrite lookup_store_revents in Hi by done.
    destruct (pl_poll_fds_ p !! i) as [pfd0|] eqn:Hi0; [|done]. simpl in Hi.
    destruct (revs !! i); simplify_eq/=. by apply (ok_fds h p Hok).
  - unfold zlen. rewrite length_store_revents. apply Hok.
Qed.

(** After a successful [poll(2)] every entry with events is of a registered
    channel that is not ignored. *)
Lemma store_revents_resolves `{KL : !KernelLaws K} h p timeout k r revs k' :
  ok h p → sys_poll (pl_poll_fds_ p) timeout k = (r, revs, k') →
  Forall (resolves (pl_channel_map_ p) h) (store_revents (pl_poll_fds_ p) revs).
Proof.
  intros Hok Hsys. pose proof (poll_length _ _ _ _ _ _ Hsys) as Hlen.
  apply Forall_lookup. intros i pfd Hi Hr. rewrite lookup_store_revents in Hi by done.
  destruct (pl_poll_fds_ p !! i) as [pfd0|] eqn:Hi0; [|done]. simpl in Hi.
  destruct (revs !! i) as [r0|] eqn:Hr0; simplify_eq/=.
  assert (0 ≤ fd pfd0) as Hpos.
  { destruct (decide (0 ≤ fd pfd0)); [done|].
    rewrite (poll_ignored _ _ _ _ _ _ _ _ Hsys Hi0) in Hr0 by lia. simplify_eq. lia. }
  destruct (ok_fds h p Hok i pfd0 Hi0) as (ch & c & Hm & Hc & _).
  rewrite key_pos in Hm by done. exists ch, c.
  destruct (ok_map h p Hok _ ch Hm) as (_ & c' & _ & _ & ? & ? & _). simplify_eq. done.
Qed.

Lemma stored_revents map fds h h' ch c :
  revents_stored map fds h h' → h !! ch = Some c → ∃ r, h' !! ch = Some (Channel.setRevents r c).
Proof.
  intros Hst Hc. specialize (Hst ch). rewrite Hc in Hst. destruct (h' !! ch) as [c'|]; [|done].
  destruct Hst as [[-> _]|(pfd & _ & _ & _ & ->)]; [|by eexists].
  exists (ch_revents_ c). by destruct c.
Qed.

Lemma ok_revents_stored map fds h h' p :
  revents_stored map fds h h' → ok h p → ok h' p.
Proof.
  intros Hst Hok. pose proof (λ ch c, stored_revents _ _ _ _ ch c Hst) as Hto. constructor.
  - intros f ch Hm. destruct (ok_map h p Hok f ch Hm) as (? & c & i & pfd & Hc & ? & ? & ? & ?).
    destruct (Hto ch c Hc) as [r Hr]. split; [done|]. by eexists _, i, pfd.
  - intros i pfd Hi. destruct (ok_fds h p Hok i pfd Hi) as (ch & c & ? & Hc & ?).
    destruct (Hto ch c Hc) as [r Hr]. by eexists ch, _.
  - apply Hok.
Qed.

Lemma setPoller_twice p p' e : setPoller p (setPoller p' e) = setPoller p e.
Proof. done. Qed.

Lemma put_poller_same l loop p w :
  put_poller l loop (w_channels w) p w =
  set_loops (<[l := setPoller (Some p) loop]> (w_loops w)) w.
Proof. by destruct w. Qed.

Lemma put_poller_twice l loop h p h' p' w :
  put_poller l (setPoller (Some p) loop) h' p' (put_poller l loop h p w) = put_poller l loop h' p' w.
Proof.
  unfold put_poller, set_loops. simpl. by rewrite setPoller_twice, insert_insert_eq.
Qed.

(** A time that does not fit a [Timestamp]. *)
Lemma poll_late l loop p timeout active r revs k1 sec usec k2 f w :
  w_loops w !! l = Some loop → el_poller_ loop = Some p →
  sys_poll (pl_poll_fds_ p) timeout (w_kernel w) = (r, revs, k1) →
  sys_gettimeofday k1 = (sec, usec, k2) → Timestamp.now sec usec = Fault f →
  poll l timeout active w = Fault f.
Proof.
  intros Hl Hp Hsys Htime Hnow. unfold poll, mbind, M_bind. rewrite (the_poller_ok l loop p) by done.
  unfold syscall at 1. rewrite Hsys. unfold modify, mbind, M_bind, deref, store, update. simpl.
  rewrite Hl. unfold syscall. simpl. rewrite Htime. unfold lift. by rewrite Hnow.
Qed.

(** What one call of [poll] does. *)
Lemma poll_ok `{KL : !KernelLaws K} l loop p timeout active r revs k1 sec usec k2 now w :
  w_loops w !! l = Some loop → el_poller_ loop = Some p → ok (w_channels w) p →
  sys_poll (pl_poll_fds_ p) timeout (w_kernel w) = (r, revs, k1) →
  sys_gettimeofday k1 = (sec, usec, k2) → Timestamp.now sec usec = Ok now →
  let p' := mkPoller (store_revents (pl_poll_fds_ p) revs) (pl_channel_map_ p) in
  ∃ h', poll l timeout active w =
      Ok ((now, active ++ match r with
                          | Ret _ => reported (pl_channel_map_ p) (pl_poll_fds_ p')
                          | Err _ => []
                          end), put_poller l loop h' p' (set_kernel k2 w)) ∧
    ok h' p' ∧
    match r with
    | Ret _ => revents_stored (pl_channel_map_ p) (pl_poll_fds_ p') (w_channels w) h'
    | Err _ => h' = w_channels w
    end.
Proof.
  intros Hl Hp Hok Hsys Htime Hnow p'.
  pose proof (poll_length _ _ _ _ _ _ Hsys) as Hlen.
  pose proof (ok_store_revents (w_channels w) p revs Hlen Hok) as Hok'.
  pose proof (store_revents_resolves (w_channels w) p _ _ _ _ _ Hok Hsys) as Hres.
  unfold poll, mbind, M_bind. rewrite (the_poller_ok l loop p) by done.
  unfold syscall at 1. rewrite Hsys. unfold modify, mbind, M_bind, deref, store, update. simpl.
  rewrite Hl. unfold syscall. simpl. rewrite Htime. unfold lift at 1. rewrite Hnow.
  set (w1 := set_kernel k2 _).
  assert (w1 = put_poller l loop (w_channels w) p' (set_kernel k2 w)) as Hw1 by by destruct w.
  destruct r as [n|e]; [case Z.ltb_spec; intros Hn|].
  - pose proof (poll_count _ _ _ _ _ _ Hsys) as Hcount.
    destruct (fillActiveChannels_ok n (store_revents (pl_poll_fds_ p) revs) (pl_channel_map_ p)
                (w_channels w)) as (h' & Hfill & Hst); [done| |].
    { rewrite revents_store_revents by done. lia. }
    exists h'. rewrite Hw1.
    erewrite on_poller_ok; [|apply lookup_insert_eq|done|].
    2:{ simpl. rewrite Hfill. done. }
    rewrite put_poller_twice. split; [done|]. split; [|done].
    by eapply ok_revents_stored.
  - pose proof (poll_count _ _ _ _ _ _ Hsys) as Hcount.
    pose proof (count_pos_nonneg revs).
    assert (reported (pl_channel_map_ p) (store_revents (pl_poll_fds_ p) revs) = []) as Hnil.
    { apply reported_none. rewrite revents_store_revents by done. lia. }
    exists (w_channels w). rewrite Hw1. cbn [pl_poll_fds_]. rewrite Hnil, app_nil_r.
    split; [done|]. split; [done|].
    by apply revents_stored_refl.
  - exists (w_channels w). by rewrite Hw1, app_nil_r.
Qed.

(** When every channel of the map was deleted, the first report is an access to one. *)
Lemma poll_dangling `{KL : !KernelLaws K} l loop p h0 timeout active n revs k1 sec usec k2 now w :
  w_loops w !! l = Some loop → el_poller_ loop = Some p → ok h0 p →
  (∀ f ch, pl_channel_map_ p !! f = Some ch → w_channels w !! ch = None) →
  sys_poll (pl_poll_fds_ p) timeout (w_kernel w) = (Ret n, revs, k1) → 0 < n →
  sys_gettimeofday k1 = (sec, usec, k2) → Timestamp.now sec usec = Ok now →
  poll l timeout active w = Fault DanglingPointer.
Proof.
  intros Hl Hp Hok Hgone Hsys Hn Htime Hnow.
  pose proof (poll_length _ _ _ _ _ _ Hsys) as Hlen.
  pose proof (store_revents_resolves h0 p _ _ _ _ _ Hok Hsys) as Hres.
  pose proof (poll_count _ _ _ _ _ _ Hsys) as Hcount.
  unfold poll, mbind, M_bind. rewrite (the_poller_ok l loop p) by done.
  unfold syscall at 1. rewrite Hsys. unfold modify, mbind, M_bind, deref, store, update. simpl.
  rewrite Hl. unfold syscall. simpl. rewrite Htime. unfold lift at 1. rewrite Hnow.
  rewrite (proj2 (Z.ltb_lt _ _)) by done.
  unfold on_poller, the_poller, mbind, M_bind, deref, read. simpl. rewrite lookup_insert_eq. simpl.
  erewrite fillActiveChannels_dangling; [done|exact Hres|exact Hgone|done|].
  rewrite revents_store_revents by done. lia.
Qed.

End world.

(** ** The array asks for the events of the channels

    Between two operations every entry asks for exactly the events of its channel, and is ignored
    when there are none. *)
Section asking.

(** Storing [revents], in the array and in the channels, changes no entry. *)
Lemma lookup_entry_revents h h' p revs f :
  ok h p → length revs = length (pl_poll_fds_ p) →
  let p' := mkPoller (store_revents (pl_poll_fds_ p) revs) (pl_channel_map_ p) in
  (∀ ch c, h !! ch = Some c → ∃ r, h' !! ch = Some (Channel.setRevents r c)) →
  lookup_entry h' p' f = lookup_entry h p f.
Proof.
  intros Hok Hlen p' Hch. unfold lookup_entry. simpl.
  destruct (pl_channel_map_ p !! f) as [ch|] eqn:Hm; [|done]. simpl.
  destruct (ok_map _ _ Hok _ _ Hm) as (_ & c & i & q & Hc & _ & Hi & Hq & _).
  destruct (Hch _ _ Hc) as [r ->]. rewrite Hc. simpl.
  rewrite lookup_store_revents, Hi, Nat2Z.id, Hq by done. simpl.
  destruct (lookup_lt_is_Some_2 revs i) as [r' ->]; [|done].
  rewrite Hlen. by eapply lookup_lt_Some.
Qed.

Definition asked (h : gmap Z Channel) (p : Poller) : Prop :=
  ∀ f e c, lookup_entry h p f = Some e → h !! en_channel e = Some c →
    en_events e = ch_events_ c ∧ en_ignored e = Channel.isNoneEvent c.

(** The entry of a registered channel *)
Lemma lookup_entry_map h p f e :
  lookup_entry h p f = Some e → pl_channel_map_ p !! f = Some (en_channel e).
Proof.
  unfold lookup_entry. intros (ch & Hm & (c & _ & (pfd & _ & [= <-])%bind_Some)%bind_Some)%bind_Some. done.
Qed.

Lemma ok_entry h p f ch c :
  ok h p → asked h p → pl_channel_map_ p !! f = Some ch → h !! ch = Some c →
  lookup_entry h p f = Some (mkEntry ch (ch_events_ c) (Channel.isNoneEvent c)).
Proof.
  intros Hok Has Hm Hc. destruct (ok_registered h p f ch c Hok Hm Hc) as (_ & _ & i & pfd & Hi & Hp & _).
  pose proof (ok_lookup_entry h p f ch c i pfd Hm Hc Hi Hp) as He. rewrite He.
  destruct (Has _ _ c He Hc) as [H1 H2]. simpl in *. by rewrite H1, H2.
Qed.

Lemma asked_empty h p : pl_channel_map_ p = ∅ → asked h p.
Proof. intros Hm f e c He%lookup_entry_map. by rewrite Hm, lookup_empty in He. Qed.

(** Changes that keep the entries and the events of their channels *)
Lemma asked_entries h h' p p' :
  asked h p → (∀ f e, lookup_entry h' p' f = Some e → lookup_entry h p f = Some e) →
  (∀ ch c', h' !! ch = Some c' → (∃ f, pl_channel_map_ p' !! f = Some ch) →
     ∃ c, h !! ch = Some c ∧ ch_events_ c = ch_events_ c') →
  asked h' p'.
Proof.
  intros Has He Hh f e c' Hf Hc. destruct (Hh _ _ Hc) as (c & Hc0 & Hev).
  { exists f. by eapply lookup_entry_map. }
  destruct (Has f e c (He _ _ Hf) Hc0) as [H1 H2]. unfold Channel.isNoneEvent in *. by rewrite <- Hev.
Qed.

(** The fields of the channels that the entries depend on *)
Lemma asked_channels h h' p :
  (∀ ch c, h !! ch = Some c → ∃ c', h' !! ch = Some c' ∧ ch_index_ c' = ch_index_ c ∧
     ch_events_ c' = ch_events_ c) →
  ok h p → asked h p → asked h' p.
Proof.
  intros Hh Hok Has. eapply asked_entries; [exact Has| |].
  - intros f e. unfold lookup_entry. destruct (pl_channel_map_ p !! f) as [ch|] eqn:Hm; [|done]. simpl.
    destruct (ok_map h p Hok f ch Hm) as (_ & c & i & pfd & Hc & _). destruct (Hh _ _ Hc) as (c' & Hc' & Hi & _).
    rewrite Hc, Hc'. simpl. by rewrite Hi.
  - intros ch c' Hc' [f Hm]. destruct (ok_map h p Hok f ch Hm) as (_ & c & i & pfd & Hc & _).
    destruct (Hh _ _ Hc) as (c1 & Hc1 & _ & Hev). exists c. split; [done|]. congruence.
Qed.

Lemma asked_new_object h p ch c : ok h p → h !! ch = None → asked h p → asked (<[ch := c]> h) p.
Proof.
  intros Hok Hn. apply asked_channels; [|done]. intros ch' c' Hc. exists c'.
  rewrite lookup_insert_ne; [done|]. intros <-. congruence.
Qed.

Lemma asked_delete_object h p ch :
  ok h p → (∀ f, pl_channel_map_ p !! f ≠ Some ch) → asked h p → asked (delete ch h) p.
Proof.
  intros Hok Hno Has. eapply asked_entries; [exact Has| |].
  - intros f e. unfold lookup_entry. destruct (pl_channel_map_ p !! f) as [ch'|] eqn:Hm; [|done]. simpl.
    rewrite lookup_delete_ne; [done|]. intros <-. by apply (Hno f).
  - intros ch' c Hc _. apply lookup_delete_Some in Hc as [_ Hc]. eauto.
Qed.

(** Removing an entry *)
Lemma asked_removed h h' p p' fd0 :
  same_but_index h h' →
  (∀ f, lookup_entry h' p' f = if decide (f = fd0) then None else lookup_entry h p f) →
  asked h p → asked h' p'.
Proof.
  intros Hs Hlk Has. eapply asked_entries; [exact Has| |].
  - intros f e. rewrite Hlk. by case_decide.
  - intros ch c' Hc' _. specialize (Hs ch). rewrite Hc' in Hs. destruct (h !! ch) as [c|]; [|done].
    destruct Hs as [i ->]. by exists c.
Qed.

(** Updating an entry: a channel without events must not get some again. *)
Lemma asked_updated h p ch c c' p' :
  ok h p → asked h p → h !! ch = Some c → ch_fd_ c' = ch_fd_ c →
  (pl_channel_map_ p !! ch_fd_ c = Some ch → Channel.isNoneEvent c = true → Channel.isNoneEvent c' = true) →
  (pl_channel_map_ p !! ch_fd_ c = None → Channel.isNoneEvent c' = false) →
  (pl_channel_map_ p !! ch_fd_ c = None ∨ pl_channel_map_ p !! ch_fd_ c = Some ch) →
  (∀ f, lookup_entry (<[ch := c']> h) p' f =
     if decide (f = ch_fd_ c)
     then Some (mkEntry ch (ch_events_ c')
            (was_ignored h p f || (bool_decide (is_Some (pl_channel_map_ p !! f)) && Channel.isNoneEvent c')))
     else lookup_entry h p f) →
  asked (<[ch := c']> h) p'.
Proof.
  intros Hok Has Hc Hfd Hkeep Hnew Hreg Hlk f e c0 He Hc0. rewrite Hlk in He. case_decide as Hf.
  - injection He as <-. simpl in Hc0. rewrite lookup_insert_eq in Hc0. injection Hc0 as <-. subst f.
    split; [done|]. simpl. unfold was_ignored. destruct Hreg as [Hn|Hm].
    + by rewrite lookup_entry_none, Hn, (Hnew Hn) by done.
    + rewrite (ok_entry h p _ ch c), Hm by done. simpl.
      destruct (Channel.isNoneEvent c) eqn:Hnone; [by rewrite (Hkeep Hm eq_refl)|done].
  - rewrite lookup_insert_ne in Hc0; [by apply (Has f e)|]. intros Heq.
    pose proof (lookup_entry_map _ _ _ _ He) as Hm. rewrite <- Heq in Hm.
    destruct (ok_registered h p f ch c Hok Hm Hc) as (_ & <- & _). done.
Qed.

(** Polling stores the reported events only. *)
Lemma asked_polled h h' p revs :
  length revs = length (pl_poll_fds_ p) → ok h p →
  (∀ ch c, h !! ch = Some c → ∃ r, h' !! ch = Some (Channel.setRevents r c)) →
  asked h p → asked h' (mkPoller (store_revents (pl_poll_fds_ p) revs) (pl_channel_map_ p)).
Proof.
  intros Hlen Hok Hh Has. eapply asked_entries; [exact Has| |].
  - intros f e. by rewrite (lookup_entry_revents h).
  - intros ch c' Hc' [f Hm]. simpl in Hm. destruct (ok_map h p Hok f ch Hm) as (_ & c & _ & _ & Hc & _).
    destruct (Hh _ _ Hc) as [r Hr]. exists c. split; [done|]. rewrite Hc' in Hr. by simplify_eq.
Qed.

End asking.

End Poller.
