(* ===== verification/EventLoop.v ===== *)
(** * Event loops (src/src/include/event_loop.h, src/src/event_loop.cpp)

    The reactor of a thread: it polls, dispatches the events to the channels
    and runs the functors queued on it, by its own thread or by others. *)

From S2P Require Import Prelude Timestamp Buffer Kernel State CurrentThread Channel Poller.

(** What the loop needs of the targets bound into queued functors: the call of one, and
    the destructor of a vector of them, which releases what they hold. *)
Class Functors `{K : Kernel} : Type := {
  run_functor : Functor → M unit;
  drop_functors : list Functor → M unit
}.

Module EventLoop.

Definition kPollTimeMs : Z := 10000.

(** The bytes of [uint64_t one = 1] on a little-endian machine. *)
Definition one_bytes : list byte := [x01; x00; x00; x00; x00; x00; x00; x00].

(** ** Members written by the operations *)
Definition setLooping (b : bool) (e : EventLoop) : EventLoop :=
  mkEventLoop b (el_quit_ e) (el_calling_pending_functors_ e) (el_thread_id_ e)
    (el_poll_return_time_ e) (el_poller_ e) (el_timer_queue_ e) (el_wakeup_fd_ e) (el_active_channels_ e)
    (el_mutex_ e) (el_pending_functors_ e).
Definition setQuit (b : bool) (e : EventLoop) : EventLoop :=
  mkEventLoop (el_looping_ e) b (el_calling_pending_functors_ e) (el_thread_id_ e)
    (el_poll_return_time_ e) (el_poller_ e) (el_timer_queue_ e) (el_wakeup_fd_ e) (el_active_channels_ e)
    (el_mutex_ e) (el_pending_functors_ e).
Definition setCalling (b : bool) (e : EventLoop) : EventLoop :=
  mkEventLoop (el_looping_ e) (el_quit_ e) b (el_thread_id_ e)
    (el_poll_return_time_ e) (el_poller_ e) (el_timer_queue_ e) (el_wakeup_fd_ e) (el_active_channels_ e)
    (el_mutex_ e) (el_pending_functors_ e).
Definition setPollReturn (t : Timestamp.Timestamp) (e : EventLoop) : EventLoop :=
  mkEventLoop (el_looping_ e) (el_quit_ e) (el_calling_pending_functors_ e) (el_thread_id_ e)
    t (el_poller_ e) (el_timer_queue_ e) (el_wakeup_fd_ e) (el_active_channels_ e)
    (el_mutex_ e) (el_pending_functors_ e).
Definition setActive (l : list ChannelPtr) (e : EventLoop) : EventLoop :=
  mkEventLoop (el_looping_ e) (el_quit_ e) (el_calling_pending_functors_ e) (el_thread_id_ e)
    (el_poll_return_time_ e) (el_poller_ e) (el_timer_queue_ e) (el_wakeup_fd_ e) l
    (el_mutex_ e) (el_pending_functors_ e).
Definition setMutex (m : option Z) (e : EventLoop) : EventLoop :=
  mkEventLoop (el_looping_ e) (el_quit_ e) (el_calling_pending_functors_ e) (el_thread_id_ e)
    (el_poll_return_time_ e) (el_poller_ e) (el_timer_queue_ e) (el_wakeup_fd_ e) (el_active_channels_ e)
    m (el_pending_functors_ e).
Definition setPending (l : list Functor) (e : EventLoop) : EventLoop :=
  mkEventLoop (el_looping_ e) (el_quit_ e) (el_calling_pending_functors_ e) (el_thread_id_ e)
    (el_poll_return_time_ e) (el_poller_ e) (el_timer_queue_ e) (el_wakeup_fd_ e) (el_active_channels_ e)
    (el_mutex_ e) l.

Section operations.
Context `{K : Kernel} `{B : Build}.

(** The constructor: [poller_] and [timer_queue_] stay null pointers, and
    [calling_pending_functors_] and [wakeup_fd_] are left as found.  The first
    loop of a thread becomes [event_loop_in_this_thread]. *)
Definition EventLoop_ctor (calling_garbage : bool) (wakeup_garbage : Z) : M LoopPtr :=
  t ← CurrentThread.tid;
  l ← alloc {|
    el_looping_ := false; el_quit_ := true;
    el_calling_pending_functors_ := calling_garbage;
    el_thread_id_ := t; el_poll_return_time_ := Timestamp.invalid;
    el_poller_ := None; el_timer_queue_ := None; el_wakeup_fd_ := wakeup_garbage;
    el_active_channels_ := []; el_mutex_ := None; el_pending_functors_ := []
  |};
  this_thread ← read (λ w, w_loopInThread w !! w_tid w);
  _ ← match this_thread with
      | Some _ => mret ()
      | None => update (λ w, set_loopInThread (<[w_tid w := l]> (w_loopInThread w)) w)
      end;
  mret l.

Definition getEventLoopOfCurrentThread : M (option LoopPtr) :=
  read (λ w, w_loopInThread w !! w_tid w).

Definition updateChannel (l : LoopPtr) (ch : ChannelPtr) : M unit :=
  c ← deref ch;
  _ ← lift (assert_ (ch_owner_loop_ c =? l));
  _ ← assertInLoopThread l;
  _ ← Poller.the_poller l;
  Poller.updateChannel l ch.

Definition removeChannel (l : LoopPtr) (ch : ChannelPtr) : M unit :=
  c ← deref ch;
  _ ← lift (assert_ (ch_owner_loop_ c =? l));
  _ ← assertInLoopThread l;
  _ ← Poller.the_poller l;
  Poller.removeChannel l ch.

Definition wakeup (l : LoopPtr) : M unit :=
  loop ← deref l;
  _ ← do_write (el_wakeup_fd_ loop) one_bytes;
  mret ().

Definition handleRead (l : LoopPtr) : M unit :=
  loop ← deref l;
  _ ← syscall (sys_read (el_wakeup_fd_ loop) 8);
  mret ().

(** [std::lock_guard] on [mutex_]: its constructor and its destructor *)
Definition lock (l : LoopPtr) : M unit :=
  loop ← deref l;
  t ← read w_tid;
  match el_mutex_ loop with
  | None => modify l (setMutex (Some t))
  | Some holder => fail (if holder =? t then Deadlock else Blocked)
  end.

Definition unlock (l : LoopPtr) : M unit := modify l (setMutex None).

Definition queueInLoop (l : LoopPtr) (cb : Functor) : M unit :=
  _ ← lock l;
  _ ← modify l (λ e, setPending (el_pending_functors_ e ++ [cb]) e);
  b ← isInLoopThread l;
  loop ← deref l;
  _ ← (if negb (b : bool) || el_calling_pending_functors_ loop then wakeup l else mret ());
  unlock l.

(** [cb] is the functor and [body] what calling it does. *)
Definition runInLoop (l : LoopPtr) (cb : Functor) (body : M unit) : M unit :=
  b ← isInLoopThread l;
  if (b : bool) then body else queueInLoop l cb.

Definition quit (l : LoopPtr) : M unit :=
  _ ← modify l (setQuit true);
  b ← isInLoopThread l;
  if (b : bool) then mret () else wakeup l.

(** ** The loop *)
Context `{CB : !Callbacks} `{FN : !Functors}.

(** At its end the guard is destroyed, then the vector [functors], outside the mutex. *)
Definition doPendingFunctors (l : LoopPtr) : M unit :=
  _ ← modify l (setCalling true);
  _ ← lock l;
  loop ← deref l;
  _ ← modify l (setPending []);
  let functors := el_pending_functors_ loop in
  _ ← for_each run_functor functors;
  _ ← modify l (setCalling false);
  _ ← unlock l;
  drop_functors functors.

(** The destructor clears [event_loop_in_this_thread] of the running thread, whichever
    loop it holds; then the members are destroyed, among them the queued functors with
    what they own. *)
Definition EventLoop_dtor (l : LoopPtr) : M unit :=
  loop ← deref l;
  _ ← lift (assert_ (negb (el_looping_ loop)));
  _ ← update (λ w, set_loopInThread (delete (w_tid w) (w_loopInThread w)) w);
  _ ← modify l (setPending []);
  _ ← drop_functors (el_pending_functors_ loop);
  free EventLoop l.

(** Dispatching to one active channel *)
Definition handle_active (l : LoopPtr) (ch : ChannelPtr) : M unit :=
  loop ← deref l;
  Channel.handleEvents (el_poll_return_time_ loop) ch.

(** The body of the [while] of [loop]; [active_channels_] is not written while
    the loop runs over it. *)
Definition loop_iteration (l : LoopPtr) : M unit :=
  _ ← modify l (setActive []);
  '(t, active) ← Poller.poll l kPollTimeMs [];
  _ ← modify l (λ e, setPollReturn t (setActive active e));
  _ ← for_each (handle_active l) active;
  doPendingFunctors l.

(** The [while]: [fuel] bounds the number of iterations; the result tells
    whether the loop ended. *)
Fixpoint loop_while (fuel : nat) (l : LoopPtr) : M bool :=
  loop ← deref l;
  if el_quit_ loop then mret true
  else match fuel with
       | O => mret false
       | S fuel => _ ← loop_iteration l; loop_while fuel l
       end.

Definition loop (fuel : nat) (l : LoopPtr) : M bool :=
  e ← deref l;
  _ ← lift (assert_ (negb (el_looping_ e)));
  _ ← assertInLoopThread l;
  _ ← modify l (setLooping true);
  _ ← modify l (setQuit false);
  ended ← loop_while fuel l;
  if (ended : bool) then _ ← modify l (setLooping false); mret true else mret false.

End operations.

End EventLoop.

#[export] Instance event_loop_channels `{K : Kernel} `{B : Build} : ChannelLoop :=
  {| loop_updateChannel := EventLoop.updateChannel |}.

(** ** What the operations do *)
Module LoopFacts.
Section facts.
Context `{K : Kernel} `{B : Build} `{BL : !BuildLaws B}.

(** A channel the loop [l] can watch: the running thread is the thread of the
    loop, and the channel is new or registered with its poller. *)
Record watchable (w : World) (l ch : Z) (loop : EventLoop) (p : Poller) (c : Channel) : Prop := {
  wt_thread : in_loop_thread l w;
  wt_loop : w_loops w !! l = Some loop;
  wt_poller : el_poller_ loop = Some p;
  wt_ok : Poller.ok (w_channels w) p;
  wt_updatable : Poller.updatable (w_channels w) p ch c;
  wt_home : ch_loop_ c = l;
  wt_owner : owned (ch_owner_loop_ c) l
}.

Definition registered (p : Poller) (ch : Z) (c : Channel) : Prop :=
  pl_channel_map_ p !! ch_fd_ c = Some ch.

Lemma put_poller_thread l loop h p w l' :
  w_loops w !! l = Some loop →
  in_loop_thread l' w → in_loop_thread l' (Poller.put_poller l loop h p w).
Proof.
  intros Hl. apply in_loop_thread_frame; [done..|]. intros e He. simpl.
  destruct (decide (l = l')) as [<-|].
  - rewrite lookup_insert_eq. simplify_eq. by eexists.
  - rewrite lookup_insert_ne by done. eauto.
Qed.

(** Changing the events of a channel and telling the loop. *)
Lemma change_ok f w l ch loop p c :
  watchable w l ch loop p c → Channel.wf_events (f (ch_events_ c)) →
  ∃ i p', let c' := Channel.setIndex i (Channel.setEvents (f (ch_events_ c)) c) in
    let w' := Poller.put_poller l loop (<[ch := c']> (w_channels w)) p' w in
    Channel.change f ch w = Ok ((), w') ∧
    watchable w' l ch (Poller.setPoller (Some p') loop) p' c' ∧ registered p' ch c' ∧
    pl_channel_map_ p' = <[ch_fd_ c := ch]> (pl_channel_map_ p) ∧
    ∀ g, Poller.lookup_entry (<[ch := c']> (w_channels w)) p' g =
      if decide (g = ch_fd_ c)
      then Some (Poller.mkEntry ch (f (ch_events_ c))
             (Poller.was_ignored (w_channels w) p g ||
              (bool_decide (is_Some (pl_channel_map_ p !! g)) &&
               Channel.isNoneEvent (Channel.setEvents (f (ch_events_ c)) c))))
      else Poller.lookup_entry (w_channels w) p g.
Proof.
  intros [Hin Hl Hp Hok (Hc & Hfd & Hev & Hreg) Hhome Hown] Hev'.
  set (c1 := Channel.setEvents (f (ch_events_ c)) c).
  set (w1 := set_channels (<[ch := c1]> (w_channels w)) w).
  assert (in_loop_thread l w1) as Hin1.
  { revert Hin. apply in_loop_thread_frame; [done..|]. eauto. }
  assert (Poller.updatable (w_channels w1) p ch c1) as Hup1.
  { split_and!; [apply lookup_insert_eq|done|done|exact Hreg]. }
  destruct (Poller.updateChannel_ok l loop p ch c1 w1) as (i & p' & Hu & Hok' & Hmap & Hlk);
    [done..|by apply Poller.ok_setEvents|done|].
  simpl in Hu, Hlk, Hok'. rewrite insert_insert_eq in Hu, Hlk, Hok'.
  exists i, p'. cbn zeta. split.
  { unfold Channel.change, Channel.update, modify, mbind, M_bind, deref, store, update.
    cbn [heap_get heap_set channel_heap]. rewrite Hc.
    cbn [w_channels set_channels]. rewrite lookup_insert_eq. fold c1 w1.
    cbn [loop_updateChannel event_loop_channels]. change (ch_loop_ c1) with (ch_loop_ c). rewrite Hhome.
    unfold EventLoop.updateChannel, mbind, M_bind, deref, lift.
    cbn [heap_get channel_heap w_channels set_channels w1]. rewrite lookup_insert_eq.
    rewrite assert_owned by done.
    rewrite assertInLoopThread_ok by done. by rewrite (Poller.the_poller_ok l loop p), Hu. }
  split.
  { constructor; [|apply lookup_insert_eq|done|done| |done|done].
    - apply put_poller_thread; done.
    - split_and!; [apply lookup_insert_eq|done|done|]. right. simpl. rewrite Hmap.
      apply lookup_insert_eq. }
  split; [unfold registered; rewrite Hmap; apply lookup_insert_eq|]. split; [done|].
  intros g. rewrite Hlk. unfold Poller.was_ignored, c1. by rewrite !Poller.lookup_entry_setEvents.
Qed.

(** The array goes on to ask for the events of the channels, unless a channel without events gets some
    again. *)
Lemma change_asked f w l ch loop p c i p' :
  let c' := Channel.setIndex i (Channel.setEvents (f (ch_events_ c)) c) in
  watchable w l ch loop p c →
  (registered p ch c → Channel.isNoneEvent c = true → Channel.isNoneEvent c' = true) →
  (¬ registered p ch c → Channel.isNoneEvent c' = false) →
  (∀ g, Poller.lookup_entry (<[ch := c']> (w_channels w)) p' g =
     if decide (g = ch_fd_ c)
     then Some (Poller.mkEntry ch (f (ch_events_ c))
            (Poller.was_ignored (w_channels w) p g ||
             (bool_decide (is_Some (pl_channel_map_ p !! g)) &&
              Channel.isNoneEvent (Channel.setEvents (f (ch_events_ c)) c))))
     else Poller.lookup_entry (w_channels w) p g) →
  Poller.asked (w_channels w) p → Poller.asked (<[ch := c']> (w_channels w)) p'.
Proof.
  intros c' [_ _ _ Hok (Hc & _ & _ & Hreg) _ _] Hold Hnew Hlk Has. unfold registered in *.
  apply (Poller.asked_updated _ p ch c); try done.
  - intros Hn. apply Hnew. by rewrite Hn.
  - destruct Hreg as [(_ & ? & _)|?]; [by left|by right].
Qed.

(** A registered channel that watches no event can be removed. *)
Lemma removable_none w l ch loop p c :
  watchable w l ch loop p c → registered p ch c → ch_events_ c = Channel.NoneEvent →
  (∃ ig, Poller.lookup_entry (w_channels w) p (ch_fd_ c) = Some (Poller.mkEntry ch 0 ig)) →
  ∃ i pfd, Poller.removable (w_channels w) p ch c i pfd.
Proof.
  intros [Hin Hl Hp Hok (Hc & Hfd & Hev & _) Hhome Hown] Hreg Hnone [ig Hlk].
  destruct (Poller.ok_registered _ _ _ _ _ Hok Hreg Hc) as (_ & _ & i & pfd & Hi & Hpfd & _).
  rewrite (Poller.ok_lookup_entry _ _ _ _ _ _ _ Hreg Hc Hi Hpfd) in Hlk.
  exists i, pfd. constructor; try done. rewrite Hnone. by simplify_eq.
Qed.

(** [EventLoop::removeChannel] of a channel that watches no event. *)
Lemma loop_removeChannel_ok w l ch loop p c :
  watchable w l ch loop p c → registered p ch c → ch_events_ c = Channel.NoneEvent →
  (∃ ig, Poller.lookup_entry (w_channels w) p (ch_fd_ c) = Some (Poller.mkEntry ch 0 ig)) →
  ∃ h' p', EventLoop.removeChannel l ch w = Ok ((), Poller.put_poller l loop h' p' w) ∧
    Poller.ok h' p' ∧ Poller.same_but_index (w_channels w) h' ∧
    pl_channel_map_ p' = delete (ch_fd_ c) (pl_channel_map_ p) ∧
    Poller.unregistered_same (w_channels w) h' p ∧
    ∀ f, Poller.lookup_entry h' p' f =
      if decide (f = ch_fd_ c) then None else Poller.lookup_entry (w_channels w) p f.
Proof.
  intros Hwt Hreg Hnone Hlk.
  destruct (removable_none _ _ _ _ _ _ Hwt Hreg Hnone Hlk) as (i & pfd & Hrm).
  destruct Hwt as [Hin Hl Hp Hok (Hc & _) Hhome Hown].
  destruct (Poller.removeChannel_ok l loop p ch c i pfd w) as (h' & p' & Hr & Hrest); [done..|].
  exists h', p'. split; [|done].
  unfold EventLoop.removeChannel, mbind, M_bind, deref, lift. simpl. rewrite Hc.
  rewrite assert_owned by done.
  rewrite assertInLoopThread_ok by done. by rewrite (Poller.the_poller_ok l loop p).
Qed.

(** *** Queueing *)

(** The loop after [cb] was queued. *)
Definition enqueue (cb : Functor) (e : EventLoop) : EventLoop :=
  EventLoop.setPending (el_pending_functors_ e ++ [cb]) e.

Definition put_loop (l : Z) (e : EventLoop) (w : World) : World :=
  set_loops (<[l := e]> (w_loops w)) w.

Lemma set_loops_twice x y w : set_loops x (set_loops y w) = set_loops x w.
Proof. done. Qed.

Lemma loops_set_loops x w : w_loops (set_loops x w) = x.
Proof. done. Qed.

Lemma lock_ok l loop w :
  w_loops w !! l = Some loop → el_mutex_ loop = None →
  EventLoop.lock l w = Ok ((), put_loop l (EventLoop.setMutex (Some (w_tid w)) loop) w).
Proof.
  intros Hl Hm. unfold EventLoop.lock, modify, mbind, M_bind, deref, read, store, update. simpl.
  rewrite Hl, Hm. by rewrite Hl.
Qed.

Lemma lock_deadlock l loop w :
  w_loops w !! l = Some loop → el_mutex_ loop = Some (w_tid w) →
  EventLoop.lock l w = Fault Deadlock.
Proof.
  intros Hl Hm. unfold EventLoop.lock, mbind, M_bind, deref, read. simpl.
  rewrite Hl, Hm. by rewrite Z.eqb_refl.
Qed.

(** In the thread of the loop, outside [doPendingFunctors]: no wake-up. *)
Lemma queueInLoop_ok l cb loop w :
  in_loop_thread l w → w_loops w !! l = Some loop → el_mutex_ loop = None →
  el_calling_pending_functors_ loop = false →
  EventLoop.queueInLoop l cb w = Ok ((), put_loop l (enqueue cb loop) w).
Proof.
  intros Hin Hl Hm Hcall. unfold EventLoop.queueInLoop, mbind, M_bind.
  rewrite (lock_ok l loop) by done.
  unfold modify at 1, mbind, M_bind, deref at 1, store, update. simpl. rewrite lookup_insert_eq.
  rewrite isInLoopThread_true.
  2:{ revert Hin. apply in_loop_thread_frame; [done..|]. simpl. rewrite Hl, lookup_insert_eq.
      intros e [= <-]. by eexists. }
  unfold deref at 1. simpl. rewrite lookup_insert_eq. simpl. rewrite Hcall. simpl.
  unfold EventLoop.unlock, modify, mbind, M_bind, deref, store, update. simpl.
  rewrite lookup_insert_eq. unfold put_loop. simpl. rewrite !insert_insert_eq. simpl.
  unfold set_loops. simpl. do 4 f_equal. unfold enqueue. destruct loop; simpl in *. by subst.
Qed.

(** While the running thread holds the mutex, as it does in
    [doPendingFunctors], queueing deadlocks. *)
Lemma queueInLoop_deadlock l cb loop w :
  w_loops w !! l = Some loop → el_mutex_ loop = Some (w_tid w) →
  EventLoop.queueInLoop l cb w = Fault Deadlock.
Proof.
  intros. unfold EventLoop.queueInLoop, mbind, M_bind. by rewrite (lock_deadlock l loop).
Qed.

(** From another thread: the functor is queued and the loop is woken up. *)
Lemma queueInLoop_foreign l cb loop w r k :
  foreign_thread l w → w_loops w !! l = Some loop → el_mutex_ loop = None →
  sys_write (el_wakeup_fd_ loop) EventLoop.one_bytes (w_kernel w) = (r, k) →
  ∃ w', EventLoop.queueInLoop l cb w = Ok ((), w') ∧
    w_loops w' = <[l := enqueue cb loop]> (w_loops w) ∧ w_kernel w' = k ∧
    w_channels w' = w_channels w ∧ w_conns w' = w_conns w ∧
    w_trace w' = w_trace w ++
      match r with
      | Ret n => [EvWrite (el_wakeup_fd_ loop) (take (Z.to_nat n) EventLoop.one_bytes)]
      | Err _ => []
      end.
Proof.
  intros Hfor Hl Hm Hw. unfold EventLoop.queueInLoop, mbind, M_bind.
  rewrite (lock_ok l loop) by done.
  unfold modify at 1, mbind, M_bind, deref at 1, store, update. simpl. rewrite lookup_insert_eq.
  rewrite isInLoopThread_false.
  2:{ destruct Hfor as (? & ? & e & He & ?). simplify_eq. split_and!; [done..|].
      simpl. rewrite lookup_insert_eq. by eexists. }
  unfold deref at 1. simpl. rewrite lookup_insert_eq. simpl.
  unfold EventLoop.wakeup, do_write, mbind, M_bind, deref at 1, syscall. simpl.
  rewrite lookup_insert_eq. simpl. rewrite Hw.
  destruct r as [n|e]; simpl;
    unfold EventLoop.unlock, modify, mbind, M_bind, deref, store, update; simpl;
    rewrite lookup_insert_eq; (eexists; split; [done|]; simpl; split_and!; try done);
    rewrite ?insert_insert_eq, ?app_nil_r; try done; f_equal; unfold enqueue;
    destruct loop; simpl in *; by subst.
Qed.

End facts.
End LoopFacts.
