(* ===== verification/Sample.v ===== *)
(** * A concrete process

    A loop of thread 7 with one registered channel on descriptor 5, over the
    scripted kernel.  The witnesses of the theorems are computed on it. *)

From S2P Require Import Prelude Timestamp Buffer Kernel State CurrentThread Channel Poller.
From S2P Require Import EventLoop.

Module Sample.

#[export] Existing Instance Scripted.kernel.
#[export] Existing Instance Scripted.kernel_laws.

(** No scripted answer left: writes succeed in full, reads see the end of file. *)
Definition quiet : Scripted.state := Scripted.mkState [] [] [] [] [].

(** The kernel answers the writes with [ws], the reads with [rs]. *)
Definition script (ws : list sysret) (rs : list Buffer.readv_result) : Scripted.state :=
  Scripted.mkState ws rs [] [] [].

Definition chan : Channel := {|
  ch_read_cb_ := Some (cb_handleRead 1); ch_write_cb_ := Some (cb_handleWrite 1);
  ch_error_cb_ := Some (cb_handleError 1); ch_close_cb_ := Some (cb_handleClose 1);
  ch_loop_ := 1; ch_fd_ := 5; ch_events_ := Channel.ReadEvent; ch_revents_ := 0; ch_index_ := 0;
  ch_owner_loop_ := 1; ch_events_handling_ := false
|}.

Definition poller : Poller := mkPoller [mkPollfd 5 Channel.ReadEvent 0] {[5 := 1]}.

Definition loop : EventLoop := {|
  el_looping_ := true; el_quit_ := false; el_calling_pending_functors_ := false;
  el_thread_id_ := 7; el_poll_return_time_ := Timestamp.invalid; el_poller_ := Some poller;
  el_timer_queue_ := None; el_wakeup_fd_ := 4; el_active_channels_ := []; el_mutex_ := None; el_pending_functors_ := []
|}.

Definition conn (s : States) : TcpConnection := {|
  tc_loop_ := 1; tc_name_ := "c"; tc_state_ := s; tc_socket_ := 5; tc_channel_ := 1;
  tc_local_addr_ := Scripted.null_addr; tc_peer_addr_ := Scripted.null_addr;
  tc_connection_cb_ := Some 1; tc_write_cmpl_cb_ := None; tc_message_cb_ := Some 2;
  tc_close_cb_ := Some 1;
  tc_input_buffer_ := Buffer.mkBuffer (replicate 32 x00) 8 8;
  tc_output_buffer_ := Buffer.mkBuffer (replicate 32 x00) 8 8
|}.

Definition server : TcpServer := {|
  ts_loop_ := 1; ts_name_ := "s"; ts_acceptor_ := 1; ts_thread_pool_ := 1;
  ts_connection_cb_ := Some 1; ts_message_cb_ := Some 2; ts_write_cmpl_cb_ := None;
  ts_started_ := true; ts_next_conn_id_ := 1; ts_connections_ := {["c" := 1]}
|}.

(** The process, with thread [t] running. *)
Definition world (t : Z) (k : Scripted.state) : World := {|
  w_kernel := k; w_tid := t; w_cachedTid := {[t := t]}; w_loopInThread := {[7 := 1]};
  w_channels := {[1 := chan]}; w_loops := {[1 := loop]}; w_conns := {[1 := conn Connected]};
  w_acceptors := ∅; w_pools := {[1 := mkPool 1 true 0 0 []]}; w_servers := {[1 := server]};
  w_timers := ∅; w_timerQueues := ∅;
  w_trace := []
|}.

Lemma poller_ok : Poller.ok {[1 := chan]} poller.
Proof.
  constructor; simpl.
  - intros f ch [<- <-]%lookup_singleton_Some. split; [lia|].
    exists chan, 0%nat, (mkPollfd 5 Channel.ReadEvent 0). split_and!; done.
  - intros [|i] pfd Hi; simplify_eq/=. exists 1, chan. done.
  - done.
Qed.

Lemma in_loop_thread_world k : in_loop_thread 1 (world 7 k).
Proof. split; [done|]. split; [done|]. by exists loop. Qed.

Lemma foreign_thread_world k : foreign_thread 1 (world 8 k).
Proof. split; [done|]. split; [done|]. by exists loop. Qed.

Lemma watchable `{B : Build} k : LoopFacts.watchable (world 7 k) 1 1 loop poller chan.
Proof.
  constructor; try done; [apply in_loop_thread_world|apply poller_ok| |by right].
  split_and!; try done. by right.
Qed.

Lemma registered : LoopFacts.registered poller 1 chan.
Proof. done. Qed.

End Sample.
