(* ===== verification/TimerQueue.v ===== *)
(** * Timers (src/src/include/timer.h, src/src/include/timer_queue.h,
      src/src/timer_queue.cpp)

    A [Timer] is an object of the heap, owned by a [std::unique_ptr]: an address or
    null.  The set [timers_] is its sequence in order.

    The file does not compile as it stands; it is read as follows.  The comparator
    [TimerEntryCmp] compares the timers of two entries; [timerfd_channel_] is the
    member [channel_]; [std::copy] of the expired entries moves them, as the comment
    next to it says.  [addTimer] binds a copy of a [unique_ptr], for which there is no
    reading, and [cancel] has no body: the first is an operation of a class in LoopTimers. *)

From S2P Require Import Prelude Double Timestamp Buffer Kernel State CurrentThread Channel Poller.
From S2P Require Import EventLoop.

Module Timer.

Definition Timer_ctor (cb : option UserFunction) (expiration : Timestamp.Timestamp)
    (interval : Double.double) : Timer :=
  mkTimer cb expiration interval (Double.gt interval (Double.of_int 0)).

Definition setExpiration (e : Timestamp.Timestamp) (t : Timer) : Timer :=
  mkTimer (tm_callback_ t) e (tm_interval_ t) (tm_repeat_ t).

Definition restart (now : Timestamp.Timestamp) (t : Timer) : result Timer :=
  if tm_repeat_ t then
    e ← Timestamp.addTime now (tm_interval_ t);
    mret (setExpiration e t)
  else mret (setExpiration Timestamp.invalid t).

Section run.
Context `{K : Kernel} `{FN : !Functors}.

(** Calling an empty [std::function] throws. *)
Definition run (t : Timer) : M unit :=
  match tm_callback_ t with
  | Some f => run_functor (fn_user f)
  | None => fail BadFunctionCall
  end.
End run.
End Timer.

Module TimerQueue.

Definition UINTPTR_MAX : TimerPtr := 2 ^ 64 - 1.

(** The members of the class with another set. *)
Definition setTimers (l : list (Timestamp.Timestamp * option TimerPtr)) (q : TimerQueue)
    : TimerQueue := mkTimerQueue (tq_loop_ q) (tq_timerfd_ q) (tq_channel_ q) l.

(** The time from [now] to [when], at least 100 microseconds, in seconds and
    nanoseconds. *)
Definition time_between (now when_ : Timestamp.Timestamp) : result (Z * Z) :=
  microseconds ← checked 64
    (Timestamp.microSecondsSinceEpoch when_ - Timestamp.microSecondsSinceEpoch now);
  let microseconds := if microseconds <? 100 then 100 else microseconds in
  mret (Z.quot microseconds Timestamp.microSecondsPerSecond,
        Z.rem microseconds Timestamp.microSecondsPerSecond * 1000).

Section operations.
Context `{K : Kernel} `{B : Build}.

(** [Timestamp::now()] *)
Definition clock : M Timestamp.Timestamp :=
  '(sec, usec) ← syscall sys_gettimeofday;
  lift (Timestamp.now sec usec).

Definition createTimerfd : M Z :=
  r ← syscall sys_timerfd_create;
  mret (match r with Ret fd => fd | Err _ => -1 end).

Definition howMuchTimeFromNow (when_ : Timestamp.Timestamp) : M (Z * Z) :=
  now ← clock;
  lift (time_between now when_).

Definition readTimerfd (timerfd : Z) : M unit :=
  _ ← syscall (sys_read timerfd 8);
  mret ().

Definition resetTimerfd (timerfd : Z) (expiration : Timestamp.Timestamp) : M unit :=
  '(sec, nsec) ← howMuchTimeFromNow expiration;
  _ ← syscall (sys_timerfd_settime timerfd sec nsec);
  emit (EvAlarm timerfd sec nsec).

(** Following a [unique_ptr]. *)
Definition get (p : option TimerPtr) : M Timer :=
  match p with Some p => deref p | None => fail NullPointer end.

(** The destructor of a [unique_ptr]. *)
Definition destroy (p : option TimerPtr) : M unit :=
  match p with
  | None => mret ()
  | Some p => _ ← get (Some p); update (λ w, set_timers (delete p (w_timers w)) w)
  end.

Definition TimerEntryCmp (l r : option TimerPtr) : M bool :=
  tl ← get l;
  tr ← get r;
  mret (Timestamp.lt (tm_expiration_ tl) (tm_expiration_ tr)).

(** [std::set::insert]: the new sequence, if there is no equivalent entry. *)
Fixpoint set_insert (e : Timestamp.Timestamp * option TimerPtr)
    (l : list (Timestamp.Timestamp * option TimerPtr))
    : M (option (list (Timestamp.Timestamp * option TimerPtr))) :=
  match l with
  | [] => mret (Some [e])
  | x :: l' =>
      b ← TimerEntryCmp e.2 x.2;
      if (b : bool) then mret (Some (e :: l))
      else
        b ← TimerEntryCmp x.2 e.2;
        if (b : bool) then
          r ← set_insert e l';
          mret ((x ::.) <$> r)
        else mret None
  end.

(** [std::set::lower_bound]: the entries below [e] and the others. *)
Fixpoint lower_bound (e : Timestamp.Timestamp * option TimerPtr)
    (l : list (Timestamp.Timestamp * option TimerPtr))
    : M (list (Timestamp.Timestamp * option TimerPtr) *
         list (Timestamp.Timestamp * option TimerPtr)) :=
  match l with
  | [] => mret ([], [])
  | x :: l' =>
      b ← TimerEntryCmp x.2 e.2;
      if (b : bool) then
        '(below, others) ← lower_bound e l';
        mret (x :: below, others)
      else mret ([], l)
  end.

(** The test of [insert]: the set is empty or starts after [when]. *)
Definition earliest (when_ : Timestamp.Timestamp)
    (l : list (Timestamp.Timestamp * option TimerPtr)) : bool :=
  match l with [] => true | (e, _) :: _ => Timestamp.lt when_ e end.

(** An entry that is not inserted is destroyed with its timer. *)
Definition insert (q : TimerQueuePtr) (timer : option TimerPtr) : M bool :=
  t ← get timer;
  let when_ := tm_expiration_ t in
  tq ← deref q;
  let earliest_to_alarm := earliest when_ (tq_timers_ tq) in
  result ← set_insert (when_, timer) (tq_timers_ tq);
  match result with
  | Some l => _ ← modify q (setTimers l); mret earliest_to_alarm
  | None =>
      _ ← destroy timer;
      _ ← lift (assert_ false);
      mret earliest_to_alarm
  end.

(** [timer] is a reference to the owner of the address; [std::move] leaves it null. *)
Definition addTimerInLoop (q : TimerQueuePtr) (timer : option TimerPtr) : M unit :=
  tq ← deref q;
  _ ← assertInLoopThread (tq_loop_ tq);
  earliest_to_alarm ← insert q timer;
  let timer := None in
  if (earliest_to_alarm : bool) then
    t ← get timer;
    resetTimerfd (tq_timerfd_ tq) (tm_expiration_ t)
  else mret ().

(** The [sentry] owns the address [UINTPTR_MAX], and is destroyed at the end. *)
Definition getExpired (q : TimerQueuePtr) (now : Timestamp.Timestamp)
    : M (list (Timestamp.Timestamp * option TimerPtr)) :=
  let sentry := (now, Some UINTPTR_MAX) in
  tq ← deref q;
  '(expired, others) ← lower_bound sentry (tq_timers_ tq);
  _ ← lift (assert_ (earliest now others));
  _ ← modify q (setTimers others);
  _ ← destroy sentry.2;
  mret expired.

(** One iteration of the [for] of [reset]. *)
Definition reset_one (q : TimerQueuePtr) (now : Timestamp.Timestamp)
    (e : Timestamp.Timestamp * option TimerPtr) : M unit :=
  t ← get e.2;
  if tm_repeat_ t then
    match e.2 with
    | Some p => t' ← lift (Timer.restart now t); store p t'
    | None => fail NullPointer
    end;;
    insert q e.2;;
    mret ()
  else destroy e.2.

Definition reset (q : TimerQueuePtr) (expired : list (Timestamp.Timestamp * option TimerPtr))
    (now : Timestamp.Timestamp) : M unit :=
  _ ← for_each (reset_one q now) expired;
  tq ← deref q;
  next_expire ← match tq_timers_ tq with
                | [] => mret Timestamp.invalid
                | (_, p) :: _ => t ← get p; mret (tm_expiration_ t)
                end;
  if Timestamp.valid next_expire then resetTimerfd (tq_timerfd_ tq) next_expire else mret ().

Section callbacks.
Context `{FN : !Functors}.

Definition handleRead (q : TimerQueuePtr) : M unit :=
  tq ← deref q;
  _ ← assertInLoopThread (tq_loop_ tq);
  now ← clock;
  _ ← readTimerfd (tq_timerfd_ tq);
  expired ← getExpired q now;
  _ ← for_each (λ e, t ← get e.2; Timer.run t) expired;
  reset q expired now.
End callbacks.

Section construction.
Context `{CL : !ChannelLoop}.

Definition TimerQueue_ctor (owner_garbage : LoopPtr) (loop : LoopPtr) : M TimerQueuePtr :=
  timerfd ← createTimerfd;
  ch ← alloc (Channel.Channel_ctor owner_garbage loop timerfd);
  q ← alloc (mkTimerQueue loop timerfd ch []);
  _ ← modify ch (Channel.setReadCallback (cb_timerRead q));
  _ ← Channel.enableReading ch;
  mret q.
End construction.

(** The destructor closes the descriptor, and the timers go with the set. *)
Definition TimerQueue_dtor (q : TimerQueuePtr) : M unit :=
  tq ← deref q;
  _ ← syscall (sys_close (tq_timerfd_ tq));
  _ ← emit (EvClose (tq_timerfd_ tq));
  for_each (λ e, destroy e.2) (tq_timers_ tq).

End operations.
End TimerQueue.
