(* ===== verification/TimerTheorems.v ===== *)
(** * Timers: what the operations of the queue do

    The order of the set, the alarms, and the three ways the queue fails: the first
    timer, a second timer at the same time, and every alarm. *)

From Stdlib Require Import Sorted.
From S2P Require Import Prelude Double Timestamp Buffer Kernel State CurrentThread Channel Poller.
From S2P Require Import EventLoop Sample TimerQueue.

Module TimerTheorems.
Import TimerQueue.

Abbreviation us := Timestamp.microSecondsSinceEpoch.
Abbreviation entry := (Timestamp.Timestamp * option TimerPtr)%type.

(** ** The delay of an alarm *)

Lemma time_between_ok now when_ :
  in_range 64 (us when_ - us now) = true →
  ∃ sec nsec, time_between now when_ = Ok (sec, nsec) ∧ 0 ≤ sec ∧ 0 ≤ nsec < 10 ^ 9 ∧
    sec * 10 ^ 9 + nsec = Z.max 100 (us when_ - us now) * 1000.
Proof.
  intros Hr. unfold time_between, checked. rewrite Hr, bind_ok.
  set (d := us when_ - us now). set (m := if d <? 100 then 100 else d).
  assert (m = Z.max 100 d) as Hm by (unfold m; case Z.ltb_spec; lia).
  do 2 eexists. split; [done|]. unfold Timestamp.microSecondsPerSecond.
  pose proof (Z.quot_rem m (1000 * 1000) ltac:(lia)).
  pose proof (Z.rem_bound_pos m (1000 * 1000) ltac:(lia) ltac:(lia)).
  pose proof (Z.quot_pos m (1000 * 1000) ltac:(lia) ltac:(lia)). lia.
Qed.

Section theorems.
Context `{K : Kernel} `{B : Build} `{BL : !BuildLaws B}.

Implicit Types (w : World) (q : TimerQueuePtr) (tq : TimerQueue).

(** The clock of the process shows [now]; [k] is the kernel after reading it. *)
Definition clock_shows (now : Timestamp.Timestamp) (k : kstate) w : Prop :=
  ∃ sec usec, sys_gettimeofday (w_kernel w) = (sec, usec, k) ∧ Timestamp.now sec usec = Ok now.

Lemma clock_ok now k w : clock_shows now k w → clock w = Ok (now, set_kernel k w).
Proof.
  intros (sec & usec & Hk & Hnow). unfold clock, mbind, M_bind, syscall. rewrite Hk. simpl.
  unfold lift. by rewrite Hnow.
Qed.

(** C31: [resetTimerfd] arms the descriptor once, with a normalised delay of exactly
    the microseconds that are left, and never of less than 100. *)
Theorem resetTimerfd_alarm fd when_ now k w :
  clock_shows now k w → in_range 64 (us when_ - us now) = true →
  ∃ sec nsec k',
    resetTimerfd fd when_ w =
      Ok ((), set_trace (w_trace w ++ [EvAlarm fd sec nsec]) (set_kernel k' w)) ∧
    0 ≤ sec ∧ 0 ≤ nsec < 10 ^ 9 ∧
    sec * 10 ^ 9 + nsec = Z.max 100 (us when_ - us now) * 1000.
Proof.
  intros Hclock Hr. destruct (time_between_ok _ _ Hr) as (sec & nsec & Ht & Hs).
  destruct (sys_timerfd_settime fd sec nsec k) as [r k'] eqn:Hset.
  exists sec, nsec, k'. split; [|done].
  unfold resetTimerfd, howMuchTimeFromNow, mbind, M_bind. rewrite (clock_ok _ _ _ Hclock).
  unfold lift. rewrite Ht. unfold syscall. simpl. by rewrite Hset.
Qed.

(** ** The order of the set *)

Definition live w (e : entry) : Prop :=
  ∃ p t, e.2 = Some p ∧ w_timers w !! p = Some t ∧ e.1 = tm_expiration_ t.

Definition before (e e' : entry) : Prop := us e.1 < us e'.1.

Record queue_ok w q tq : Prop := {
  qo_queue : w_timerQueues w !! q = Some tq;
  qo_live : Forall (live w) (tq_timers_ tq);
  qo_sorted : StronglySorted before (tq_timers_ tq)
}.

Lemma get_live w p t : w_timers w !! p = Some t → get (Some p) w = Ok (t, w).
Proof. intros Hp. simpl. unfold deref. simpl. by rewrite Hp. Qed.

Lemma cmp_live w p p' t t' :
  w_timers w !! p = Some t → w_timers w !! p' = Some t' →
  TimerEntryCmp (Some p) (Some p') w =
    Ok (Timestamp.lt (tm_expiration_ t) (tm_expiration_ t'), w).
Proof.
  intros Hp Hp'. unfold TimerEntryCmp, mbind, M_bind.
  by rewrite (get_live _ _ _ Hp), (get_live _ _ _ Hp').
Qed.

(** One step of the search. *)
Lemma set_insert_cons w p t x l :
  w_timers w !! p = Some t → live w x →
  set_insert (tm_expiration_ t, Some p) (x :: l) w =
    if us (tm_expiration_ t) <? us x.1 then
      Ok (Some ((tm_expiration_ t, Some p) :: x :: l), w)
    else if us x.1 <? us (tm_expiration_ t) then
      (r ← set_insert (tm_expiration_ t, Some p) l; mret ((x ::.) <$> r)) w
    else Ok (None, w).
Proof.
  intros Hp (p' & t' & Hx & Hp' & He). destruct x as [e x]; simpl in *; subst.
  unfold mbind, M_bind. rewrite (cmp_live _ _ _ _ _ Hp Hp').
  unfold Timestamp.lt. destruct (_ <? _); [done|].
  rewrite (cmp_live _ _ _ _ _ Hp' Hp). unfold Timestamp.lt. by destruct (_ <? _).
Qed.

Lemma set_insert_new w p t l :
  w_timers w !! p = Some t → Forall (live w) l → StronglySorted before l →
  Forall (λ e, us e.1 ≠ us (tm_expiration_ t)) l →
  ∃ l', set_insert (tm_expiration_ t, Some p) l w = Ok (Some l', w) ∧
    l' ≡ₚ (tm_expiration_ t, Some p) :: l ∧ StronglySorted before l'.
Proof.
  intros Hp Hlive Hsorted Hne. induction l as [|x l IH].
  { eexists. split; [done|]. split; [done|]. by repeat constructor. }
  apply Forall_cons in Hlive as [Hx Hlive], Hne as [Hxne Hne].
  apply StronglySorted_inv in Hsorted as [Hsorted Hall].
  rewrite set_insert_cons by done. repeat case Z.ltb_spec; intros; [..|lia].
  - eexists. split; [done|]. split; [done|]. constructor; [by constructor|].
    constructor; [done|]. eapply Forall_impl; [exact Hall|]. unfold before. intros y. simpl. lia.
  - destruct (IH Hlive Hsorted Hne) as (l' & Hins & Hperm & Hs).
    exists (x :: l'). unfold mbind, M_bind. rewrite Hins. split; [done|]. split.
    + rewrite Hperm. constructor.
    + constructor; [done|]. rewrite Hperm. by constructor.
Qed.

Lemma set_insert_equal w p t l :
  w_timers w !! p = Some t → Forall (live w) l → StronglySorted before l →
  Exists (λ e, us e.1 = us (tm_expiration_ t)) l →
  set_insert (tm_expiration_ t, Some p) l w = Ok (None, w).
Proof.
  intros Hp Hlive Hsorted Heq. induction Heq as [x l Hx|x l Hl IH];
    apply Forall_cons in Hlive as [Hxl Hlive]; apply StronglySorted_inv in Hsorted as [Hsorted Hall];
    rewrite set_insert_cons by done.
  - by rewrite Hx, Z.ltb_irrefl.
  - assert (us x.1 < us (tm_expiration_ t)).
    { apply Exists_exists in Hl as (e & He & <-). by eapply Forall_forall in Hall. }
    rewrite (proj2 (Z.ltb_ge _ _)), (proj2 (Z.ltb_lt _ _)) by lia.
    unfold mbind, M_bind. by rewrite IH.
Qed.

Lemma earliest_spec t l :
  StronglySorted before l →
  earliest t l = true ↔ Forall (λ e : entry, us t < us e.1) l.
Proof.
  intros Hsorted. destruct l as [|[e p] l]; simpl; [split; [constructor|done]|].
  apply StronglySorted_inv in Hsorted as [_ Hall]. unfold Timestamp.lt. rewrite Z.ltb_lt.
  rewrite Forall_cons. simpl. split; [|tauto]. intros Ht. split; [done|].
  eapply Forall_impl; [exact Hall|]. unfold before. intros y. simpl. lia.
Qed.

Lemma sorted_times_distinct l (e e' : entry) l0 :
  StronglySorted before l → l ≡ₚ e :: e' :: l0 → us e.1 ≠ us e'.1.
Proof.
  intros Hs Hperm Heq.
  assert (NoDup ((λ e : entry, us e.1) <$> l)) as Hnd.
  { clear Hperm. induction Hs as [|x l Hs IH Hall]; csimpl; constructor; [|done].
    intros (y & Hy & Hin)%list_elem_of_fmap. eapply Forall_forall in Hall; [|exact Hin].
    unfold before in Hall. simpl in *. lia. }
  rewrite Hperm in Hnd. csimpl in *. apply NoDup_cons in Hnd as [Hnd _].
  apply Hnd. rewrite Heq. by left.
Qed.

(** The process with the set [l] in the queue. *)
Definition with_timers w q tq l : World :=
  set_timerQueues (<[q := setTimers l tq]> (w_timerQueues w)) w.

Lemma insert_new w q tq p t :
  queue_ok w q tq → w_timers w !! p = Some t →
  Forall (λ e, us e.1 ≠ us (tm_expiration_ t)) (tq_timers_ tq) →
  ∃ l, insert q (Some p) w =
         Ok (earliest (tm_expiration_ t) (tq_timers_ tq), with_timers w q tq l) ∧
    l ≡ₚ (tm_expiration_ t, Some p) :: tq_timers_ tq ∧
    queue_ok (with_timers w q tq l) q (setTimers l tq).
Proof.
  intros [Hq Hlive Hsorted] Hp Hne.
  destruct (set_insert_new w p t _ Hp Hlive Hsorted Hne) as (l & Hins & Hperm & Hs).
  exists l. split; [|split; [done|]].
  - unfold insert, mbind, M_bind. rewrite (get_live _ _ _ Hp).
    assert (deref q w = Ok (tq, w)) as Hder by (unfold deref; simpl; by rewrite Hq).
    rewrite Hder, Hins. unfold modify, mbind, M_bind. by rewrite Hder.
  - constructor; simpl; [by rewrite lookup_insert_eq| |done].
    assert (Forall (live w) l) as Hl; [|exact Hl].
    rewrite Hperm. constructor; [|done]. by exists p, t.
Qed.

(** An entry with the same expiration: the new timer is destroyed. *)
Lemma insert_equal w q tq p t :
  queue_ok w q tq → w_timers w !! p = Some t →
  Exists (λ e, us e.1 = us (tm_expiration_ t)) (tq_timers_ tq) →
  insert q (Some p) w =
    if NDEBUG then Ok (false, set_timers (delete p (w_timers w)) w) else Fault Assertion.
Proof.
  intros [Hq Hlive Hsorted] Hp Heq.
  assert (earliest (tm_expiration_ t) (tq_timers_ tq) = false) as He.
  { apply not_true_is_false. rewrite earliest_spec by done. intros Hall.
    apply Exists_exists in Heq as (e & Hin & Heq). eapply Forall_forall in Hall; [|exact Hin].
    simpl in Hall. lia. }
  unfold insert, mbind, M_bind. rewrite (get_live _ _ _ Hp).
  assert (deref q w = Ok (tq, w)) as -> by (unfold deref; simpl; by rewrite Hq).
  rewrite (set_insert_equal w p t _ Hp Hlive Hsorted Heq), He.
  unfold destroy, mbind, M_bind. rewrite (get_live _ _ _ Hp). unfold update, lift, assert_.
  by destruct NDEBUG.
Qed.

Lemma insert_cases w q tq p t :
  queue_ok w q tq → w_timers w !! p = Some t → NDEBUG = false →
  (Forall (λ e, us e.1 ≠ us (tm_expiration_ t)) (tq_timers_ tq) ∧
   ∃ b l, insert q (Some p) w = Ok (b, with_timers w q tq l) ∧
     l ≡ₚ (tm_expiration_ t, Some p) :: tq_timers_ tq ∧
     queue_ok (with_timers w q tq l) q (setTimers l tq) ∧
     (b = true ↔ Forall (λ e, us (tm_expiration_ t) < us e.1) (tq_timers_ tq))) ∨
  (Exists (λ e, us e.1 = us (tm_expiration_ t)) (tq_timers_ tq) ∧
   insert q (Some p) w = Fault Assertion).
Proof.
  intros Hok Hp Hd.
  destruct (Forall_Exists_dec (λ e : entry, us e.1 ≠ us (tm_expiration_ t))
    (λ e : entry, us e.1 = us (tm_expiration_ t))
    (λ e, match Z.eq_dec (us e.1) (us (tm_expiration_ t)) with
          | Specif.left H => Specif.right H | Specif.right H => Specif.left H end)
    (tq_timers_ tq)) as [Hne|Heq].
  - left. split; [done|]. destruct (insert_new _ _ _ _ _ Hok Hp Hne) as (l & Hins & Hperm & Hok').
    do 2 eexists. split; [done|]. split; [done|]. split; [done|].
    apply earliest_spec, (qo_sorted _ _ _ Hok).
  - right. split; [done|]. by rewrite (insert_equal _ _ _ _ _ Hok Hp Heq), Hd.
Qed.

(** [insert] keeps the set in strict order of expiration and adds exactly the
    new timer, and returns whether it is the first to expire; a timer that expires in
    the same microsecond as another one fails the assertion. *)
Theorem insert_outcomes w q tq p t :
  queue_ok w q tq → w_timers w !! p = Some t → NDEBUG = false →
  (Forall (λ e, us e.1 ≠ us (tm_expiration_ t)) (tq_timers_ tq) ∧
   ∃ b l, insert q (Some p) w = Ok (b, with_timers w q tq l) ∧
     l ≡ₚ (tm_expiration_ t, Some p) :: tq_timers_ tq ∧
     queue_ok (with_timers w q tq l) q (setTimers l tq) ∧
     (b = true ↔ Forall (λ e, us (tm_expiration_ t) < us e.1) (tq_timers_ tq))) ∨
  (Exists (λ e, us e.1 = us (tm_expiration_ t)) (tq_timers_ tq) ∧
   insert q (Some p) w = Fault Assertion).
Proof. apply insert_cases. Qed.

(** C40: [addTimerInLoop] looks at the timer after it has moved it into the set.  When
    the new timer is the first to expire, as the first timer of a queue is, the alarm
    is not set and a null pointer is dereferenced.  When a timer of the queue expires in the same
    microsecond, the new one is destroyed: a debug build aborts, a release build goes on
    without it.  Any other timer is stored and the queue stays sorted, without touching the
    alarm. *)
Theorem addTimerInLoop_outcomes w q tq p t :
  queue_ok w q tq → in_loop_thread (tq_loop_ tq) w → w_timers w !! p = Some t →
  if decide (Exists (λ e, us e.1 = us (tm_expiration_ t)) (tq_timers_ tq)) then
    addTimerInLoop q (Some p) w =
      if NDEBUG then Ok ((), set_timers (delete p (w_timers w)) w) else Fault Assertion
  else if decide (Forall (λ e, us (tm_expiration_ t) < us e.1) (tq_timers_ tq))
  then addTimerInLoop q (Some p) w = Fault NullPointer
  else ∃ l, addTimerInLoop q (Some p) w = Ok ((), with_timers w q tq l) ∧
         l ≡ₚ (tm_expiration_ t, Some p) :: tq_timers_ tq ∧
         queue_ok (with_timers w q tq l) q (setTimers l tq).
Proof.
  intros Hok Hthread Hp. pose proof Hok as [Hq _ Hsorted]. unfold addTimerInLoop, mbind, M_bind.
  assert (deref q w = Ok (tq, w)) as -> by (unfold deref; simpl; by rewrite Hq).
  rewrite (assertInLoopThread_ok _ _ Hthread). case_decide as Heq.
  { rewrite (insert_equal _ _ _ _ _ Hok Hp Heq). by destruct NDEBUG. }
  apply not_Exists_Forall in Heq; [|intros e; apply _].
  destruct (insert_new _ _ _ _ _ Hok Hp Heq) as (l & -> & Hperm & Hok').
  pose proof (earliest_spec (tm_expiration_ t) _ Hsorted) as Hfirst. case_decide as Hall.
  - by rewrite (proj2 Hfirst Hall).
  - destruct (earliest _ _); [by destruct Hall; apply Hfirst|]. by exists l.
Qed.

(** no alarm of the queue is ever handled: [getExpired] compares the timers of
    the set with one at the address [UINTPTR_MAX], and destroys it when the set is
    empty, so that [handleRead] accesses memory that is no object. *)
Theorem handleRead_never_returns `{FN : !Functors} w q tq now k :
  queue_ok w q tq → in_loop_thread (tq_loop_ tq) w → clock_shows now k w →
  w_timers w !! UINTPTR_MAX = None →
  handleRead q w = Fault DanglingPointer.
Proof.
  intros [Hq Hlive Hsorted] Hthread Hclock Hmax. unfold handleRead, mbind, M_bind.
  assert (deref q w = Ok (tq, w)) as -> by (unfold deref; simpl; by rewrite Hq).
  rewrite (assertInLoopThread_ok _ _ Hthread), (clock_ok _ _ _ Hclock).
  unfold readTimerfd, mbind, M_bind, syscall. simpl.
  destruct (sys_read (tq_timerfd_ tq) 8 k) as [r k']. simpl.
  unfold getExpired, mbind, M_bind. unfold deref at 1. simpl. rewrite Hq.
  assert (∀ k k', get (Some UINTPTR_MAX) (set_kernel k (set_kernel k' w)) = Fault DanglingPointer)
    as Hget by (intros; unfold get, deref; simpl; by rewrite Hmax).
  destruct (tq_timers_ tq) as [|x l].
  - simpl. unfold lift. rewrite assert_true by done. unfold modify, mbind, M_bind, deref. simpl.
    rewrite Hq. unfold store, update, destroy. simpl. unfold mbind, M_bind, deref. simpl.
    by rewrite Hmax.
  - apply Forall_cons in Hlive as [(p & t & Hx & Hp & _) _]. destruct x as [e x]. simpl in Hx.
    subst x. simpl. unfold TimerEntryCmp, mbind, M_bind.
    rewrite (get_live _ p t) by done. by rewrite Hget.
Qed.

(** ** Timers that repeat *)

Definition not_in (p : TimerPtr) (l : list entry) : Prop := Forall (λ e, e.2 ≠ Some p) l.

(** The process with another timer at [p]. *)
Definition with_timer (p : TimerPtr) (t : Timer) w : World :=
  set_timers (<[p := t]> (w_timers w)) w.

Lemma live_with_timer p t w e : e.2 ≠ Some p → live w e → live (with_timer p t w) e.
Proof.
  intros Hne (p' & t' & He & Hp & Ht). exists p', t'. simpl.
  rewrite lookup_insert_ne; [done|congruence].
Qed.

Lemma queue_ok_with_timer p t w q tq :
  not_in p (tq_timers_ tq) → queue_ok w q tq → queue_ok (with_timer p t w) q tq.
Proof.
  intros Hp [Hq Hlive Hsorted]. constructor; [done| |done].
  apply Forall_forall. intros e He. apply live_with_timer; [by eapply Forall_forall in Hp|].
  by eapply Forall_forall in Hlive.
Qed.

Lemma not_in_perm p e l l' : l' ≡ₚ e :: l → e.2 ≠ Some p → not_in p l → not_in p l'.
Proof. intros Hl He Hp. unfold not_in. rewrite Hl. by constructor. Qed.

(** One iteration of [reset] over a timer that repeats. *)
Lemma reset_one_repeat w q tq p t t' e now :
  queue_ok w q tq → w_timers w !! p = Some t → tm_repeat_ t = true →
  Timer.restart now t = Ok t' → not_in p (tq_timers_ tq) → NDEBUG = false →
  reset_one q now (e, Some p) w = Fault Assertion ∨
  ∃ l, reset_one q now (e, Some p) w = Ok ((), with_timers (with_timer p t' w) q tq l) ∧
    l ≡ₚ (tm_expiration_ t', Some p) :: tq_timers_ tq ∧
    queue_ok (with_timers (with_timer p t' w) q tq l) q (setTimers l tq).
Proof.
  intros Hok Hp Hrep Hrestart Hnot Hd.
  assert (reset_one q now (e, Some p) w =
    match insert q (Some p) (with_timer p t' w) with
    | Ok (_, w') => Ok ((), w') | Fault f => Fault f end) as ->.
  { unfold reset_one, mbind, M_bind. cbn [snd]. rewrite (get_live _ _ _ Hp), Hrep.
    unfold lift. by rewrite Hrestart. }
  pose proof (queue_ok_with_timer _ t' _ _ _ Hnot Hok) as Hok'.
  assert (w_timers (with_timer p t' w) !! p = Some t') as Hp' by (simpl; apply lookup_insert_eq).
  destruct (insert_cases _ _ _ _ _ Hok' Hp' Hd) as [(_ & b & l & -> & Hperm & Hok2 & _)|[_ ->]].
  - right. by exists l.
  - by left.
Qed.

(** Two timers that repeat with intervals that lead to the same microsecond, such
    as equal ones, abort the process when they expire together, whatever else is in
    the queue: [reset] puts both back at the same expiration. *)
Theorem reset_same_time_aborts w q tq p1 p2 t1 t2 t1' t2' e1 e2 now :
  queue_ok w q tq → p1 ≠ p2 →
  w_timers w !! p1 = Some t1 → w_timers w !! p2 = Some t2 →
  not_in p1 (tq_timers_ tq) → not_in p2 (tq_timers_ tq) →
  tm_repeat_ t1 = true → tm_repeat_ t2 = true →
  Timer.restart now t1 = Ok t1' → Timer.restart now t2 = Ok t2' →
  us (tm_expiration_ t1') = us (tm_expiration_ t2') → NDEBUG = false →
  reset q [(e1, Some p1); (e2, Some p2)] now w = Fault Assertion.
Proof.
  intros Hok Hne H1 H2 Hn1 Hn2 Hr1 Hr2 Hre1 Hre2 Hsame Hd.
  unfold reset, mbind, M_bind. simpl for_each. unfold mbind, M_bind.
  destruct (reset_one_repeat _ _ _ _ _ _ e1 now Hok H1 Hr1 Hre1 Hn1 Hd)
    as [->|(l & -> & Hperm & Hok1)]; [done|].
  set (w1 := with_timers _ _ _ _) in *.
  assert (w_timers w1 !! p2 = Some t2) as H2' by (simpl; by rewrite lookup_insert_ne).
  assert (not_in p2 l) as Hn2'
    by (eapply not_in_perm; [exact Hperm|simpl; congruence|done]).
  assert (reset_one q now (e2, Some p2) w1 = Fault Assertion) as ->; [|done].
  destruct (reset_one_repeat _ _ _ _ _ _ e2 now Hok1 H2' Hr2 Hre2 Hn2' Hd)
    as [?|(l' & _ & Hperm' & Hok2)]; [done|exfalso].
  pose proof (qo_sorted _ _ _ Hok2) as Hs. simpl in Hs, Hperm'. rewrite Hperm in Hperm'.
  by eapply (sorted_times_distinct l' _ _ _ Hs Hperm').
Qed.

End theorems.

(** ** On the sample process *)

#[local] Existing Instance Scripted.kernel.
#[local] Existing Instance debug_build.

(** A queue of the loop of thread 7 with a timer that expires at 500. *)
Definition at_time (x : Z) : Timer :=
  Timer.Timer_ctor (Some 1) (Timestamp.mkTimestamp x) (Double.of_int 2).

Definition sample_queue : TimerQueue :=
  mkTimerQueue 1 6 2 [(Timestamp.mkTimestamp 500, Some 10)].

Definition sample : World :=
  set_timers {[10 := at_time 500; 11 := at_time 300; 12 := at_time 700]}
    (set_timerQueues {[1 := sample_queue]} (Sample.world 7 Sample.quiet)).

Lemma sample_ok : queue_ok sample 1 sample_queue.
Proof.
  constructor; [done| |repeat constructor].
  repeat constructor. exists 10, (at_time 500). done.
Qed.

Lemma sample_thread : in_loop_thread (tq_loop_ sample_queue) sample.
Proof. split; [done|]. split; [done|]. by eexists. Qed.

Lemma sample_clock : clock_shows (Timestamp.mkTimestamp 0) Sample.quiet sample.
Proof. by exists 0, 0. Qed.

Lemma resetTimerfd_alarm_witness :
  ∃ sec nsec k', resetTimerfd 6 (Timestamp.mkTimestamp 2500000) sample =
    Ok ((), set_trace [EvAlarm 6 sec nsec] (set_kernel k' sample)) ∧
    sec * 10 ^ 9 + nsec = 2500000000.
Proof.
  destruct (resetTimerfd_alarm 6 (Timestamp.mkTimestamp 2500000) _ _ _ sample_clock)
    as (sec & nsec & k' & Hrun & _ & _ & Hsum); [reflexivity|].
  exists sec, nsec, k'. split; [exact Hrun|]. rewrite Hsum. reflexivity.
Defined.

Lemma insert_outcomes_witness :
  ∃ b l, insert 1 (Some 11) sample = Ok (b, with_timers sample 1 sample_queue l) ∧
    l ≡ₚ [(Timestamp.mkTimestamp 300, Some 11); (Timestamp.mkTimestamp 500, Some 10)] ∧
    b = true.
Proof.
  destruct (insert_outcomes (B := debug_build) _ _ _ 11 (at_time 300) sample_ok eq_refl eq_refl)
    as [(_ & b & l & Hins & Hperm & _ & Hb)|[Heq _]].
  - exists b, l. split; [exact Hins|]. split; [exact Hperm|].
    apply Hb. repeat constructor.
  - apply Exists_cons in Heq as [[=]|Heq]. by apply Exists_nil in Heq.
Defined.

Lemma addTimerInLoop_outcomes_witness :
  addTimerInLoop 1 (Some 11) sample = Fault NullPointer ∧
  (∃ l, addTimerInLoop 1 (Some 12) sample = Ok ((), with_timers sample 1 sample_queue l)) ∧
  addTimerInLoop 1 (Some 10) sample = Fault Assertion.
Proof.
  assert (∀ x, us (Timestamp.mkTimestamp 500) ≠ x →
    ¬ Exists (λ e : entry, us e.1 = x) (tq_timers_ sample_queue)) as Hne.
  { intros x Hx [?|?%Exists_nil]%Exists_cons; done. }
  split; [|split].
  - pose proof (addTimerInLoop_outcomes (B := debug_build) _ _ _ 11 (at_time 300) sample_ok sample_thread eq_refl)
      as H. rewrite decide_False in H by by apply Hne.
    by rewrite decide_True in H by repeat constructor.
  - pose proof (addTimerInLoop_outcomes (B := debug_build) _ _ _ 12 (at_time 700) sample_ok sample_thread eq_refl)
      as H. rewrite decide_False in H by by apply Hne.
    rewrite decide_False in H by (intros Hall; by apply Forall_cons in Hall as [[=] _]).
    destruct H as (l & Hl & _). by exists l.
  - pose proof (addTimerInLoop_outcomes (B := debug_build) _ _ _ 10 (at_time 500) sample_ok sample_thread eq_refl)
      as H. by rewrite decide_True in H by by constructor.
Defined.

#[local] Instance idle_functors : Functors := {| run_functor _ := mret (); drop_functors _ := mret () |}.

Lemma handleRead_never_returns_witness : handleRead 1 sample = Fault DanglingPointer.
Proof.
  apply (handleRead_never_returns (B := debug_build) _ _ _ _ _ sample_ok sample_thread sample_clock). reflexivity.
Defined.

Lemma reset_same_time_aborts_witness :
  reset 1 [(Timestamp.mkTimestamp 300, Some 11); (Timestamp.mkTimestamp 700, Some 12)]
    (Timestamp.mkTimestamp 1000) sample = Fault Assertion.
Proof.
  eapply (reset_same_time_aborts (B := debug_build) _ _ _ 11 12 (at_time 300) (at_time 700) _ _ _ _
    (Timestamp.mkTimestamp 1000) sample_ok); try reflexivity; try done.
  - by repeat constructor.
  - by repeat constructor.
Defined.

End TimerTheorems.
