(* ===== verification/LoopTimers.v ===== *)
(** * Timers set through a loop (src/src/include/event_loop.h)

    [runAt], [runAfter] and [runEvery] forward to [addTimer] of the timer queue that the loop points
    to.  What [addTimer] does is the operation of a class, as its body has no reading (TimerQueue); what time and
    what interval it is called with, and that a loop as it is constructed has no queue to call, is here. *)

From S2P Require Import Prelude Double Timestamp TimestampTheorems Buffer Kernel State CurrentThread.
From S2P Require Import Channel Poller EventLoop Sample TimerQueue TimerTheorems.

(** [TimerQueue::addTimer]: the callback, when it is due and at which interval it repeats; the result stands for
    the [TimerId] *)
Class TimerAdder `{K : Kernel} : Type := {
  addTimer : TimerQueuePtr → option UserFunction → Timestamp.Timestamp → Double.double → M TimerPtr
}.

Module LoopTimers.

Section operations.
Context `{K : Kernel} `{TA : !TimerAdder}.

(** Following [timer_queue_] *)
Definition the_timer_queue (l : LoopPtr) : M TimerQueuePtr :=
  loop ← deref l;
  lift (result_of_option NullPointer (el_timer_queue_ loop)).

Definition runAt (l : LoopPtr) (time : Timestamp.Timestamp) (cb : option UserFunction) : M TimerPtr :=
  q ← the_timer_queue l;
  addTimer q cb time (Double.of_int 0).

Definition runAfter (l : LoopPtr) (delay : Double.double) (cb : option UserFunction) : M TimerPtr :=
  now ← TimerQueue.clock;
  time ← lift (Timestamp.addTime now delay);
  runAt l time cb.

Definition runEvery (l : LoopPtr) (interval : Double.double) (cb : option UserFunction) : M TimerPtr :=
  now ← TimerQueue.clock;
  time ← lift (Timestamp.addTime now interval);
  q ← the_timer_queue l;
  addTimer q cb time interval.

End operations.

Section facts.
Context `{K : Kernel} `{B : Build} `{BL : !BuildLaws B} `{TA : !TimerAdder}.

Lemma the_timer_queue_ok l loop w :
  w_loops w !! l = Some loop →
  the_timer_queue l w = match el_timer_queue_ loop with Some q => Ok (q, w) | None => Fault NullPointer end.
Proof.
  intros Hl. unfold the_timer_queue, mbind, M_bind, deref. simpl. rewrite Hl. simpl.
  by destruct (el_timer_queue_ loop).
Qed.

(** The clock is read first; then the time is computed, which can overflow. *)
Lemma after_clock {A} (f : Timestamp.Timestamp → M A) delay now k w :
  TimerTheorems.clock_shows now k w →
  (now ← TimerQueue.clock; time ← lift (Timestamp.addTime now delay); f time) w =
    match Timestamp.addTime now delay with Ok time => f time (set_kernel k w) | Fault e => Fault e end.
Proof.
  intros Hc. unfold mbind at 1, M_bind at 1. rewrite (TimerTheorems.clock_ok _ _ _ Hc).
  unfold mbind, M_bind, lift. by destruct (Timestamp.addTime now delay).
Qed.

(** On a loop with a timer queue, [runAfter] and [runEvery] of a whole number of seconds add a timer that is due
    that many seconds after the time of the clock; it repeats with the interval of [runEvery] and does not repeat
    otherwise.  When the time of the timer outgrows its type, the behaviour is undefined. *)
Theorem run_seconds l loop q n cb now k w :
  w_loops w !! l = Some loop → el_timer_queue_ loop = Some q → TimerTheorems.clock_shows now k w →
  - 2 ^ 53 < n * Timestamp.microSecondsPerSecond < 2 ^ 53 →
  let us := Timestamp.microSecondsSinceEpoch now + n * Timestamp.microSecondsPerSecond in
  let due := Timestamp.mkTimestamp us in
  runAfter l (Double.of_int n) cb w =
    (if in_range 64 us then addTimer q cb due (Double.of_int 0) (set_kernel k w) else Fault SignedOverflow) ∧
  runEvery l (Double.of_int n) cb w =
    (if in_range 64 us then addTimer q cb due (Double.of_int n) (set_kernel k w) else Fault SignedOverflow) ∧
  runAt l due cb w = addTimer q cb due (Double.of_int 0) w.
Proof.
  intros Hl Hq Hc Hn us due. unfold runAfter, runEvery. rewrite !(after_clock _ _ _ _ _ Hc).
  rewrite TimestampTheorems.addTime_whole_seconds by done. fold us. unfold checked, runAt.
  pose proof (the_timer_queue_ok l loop w Hl) as H1. pose proof (the_timer_queue_ok l loop (set_kernel k w) Hl) as H2.
  rewrite Hq in H1, H2. destruct (in_range 64 us); simpl; unfold mbind, M_bind; rewrite ?H2, ?H1; done.
Qed.

(** A loop as it is constructed has no timer queue, and nothing gives it one: to set a timer follows a null
    pointer. *)
Theorem constructed_loop_has_no_timers calling wakeup time delay e cb now k w :
  w_tid w ≠ 0 → CurrentThread.t_cachedTid w = w_tid w → TimerTheorems.clock_shows now k w →
  Timestamp.addTime now delay = Ok e →
  (l ← EventLoop.EventLoop_ctor calling wakeup; runAt l time cb) w = Fault NullPointer ∧
  (l ← EventLoop.EventLoop_ctor calling wakeup; runAfter l delay cb) w = Fault NullPointer ∧
  (l ← EventLoop.EventLoop_ctor calling wakeup; runEvery l delay cb) w = Fault NullPointer.
Proof.
  intros Hnz Hcache Hc He.
  assert (∃ l w1 loop, EventLoop.EventLoop_ctor calling wakeup w = Ok (l, w1) ∧ w_kernel w1 = w_kernel w ∧
    w_loops w1 !! l = Some loop ∧ el_timer_queue_ loop = None) as (l & w1 & loop & Hctor & Hk & Hl & Hq).
  { unfold EventLoop.EventLoop_ctor, mbind, M_bind. rewrite tid_cached by done.
    unfold alloc, read, update, mbind, M_bind. simpl.
    destruct (w_loopInThread w !! w_tid w); simpl; eexists _, _, _; (split; [done|]); (split; [done|]);
      (split; [apply lookup_insert_eq|done]). }
  assert (TimerTheorems.clock_shows now k w1) as Hc1 by (unfold TimerTheorems.clock_shows; by rewrite Hk).
  assert (∀ w2, w_loops w2 = w_loops w1 → the_timer_queue l w2 = Fault NullPointer) as Hnull.
  { intros w2 Hw. rewrite (the_timer_queue_ok l loop) by by rewrite Hw. by rewrite Hq. }
  unfold runAfter, runEvery. unfold mbind at 1 2 5, M_bind at 1 2 5. rewrite Hctor.
  rewrite !(after_clock _ _ _ _ _ Hc1), He. unfold runAt, mbind, M_bind. by rewrite !Hnull.
Qed.
End facts.

(** ** On a concrete process *)
#[local] Existing Instance Scripted.kernel.
#[local] Existing Instance debug_build.

(** A timer queue that stores the timer as it is told. *)
#[local] Instance storing : TimerAdder := {|
  addTimer q cb time interval := alloc (Timer.Timer_ctor cb time interval)
|}.

Definition timed_loop : EventLoop :=
  mkEventLoop true false false 7 Timestamp.invalid None (Some 3) 4 [] None [].

Definition timed_world : World := LoopFacts.put_loop 1 timed_loop (Sample.world 7 Sample.quiet).

(** The clock shows 0: after two seconds, and every two seconds. *)
Lemma run_seconds_witness :
  (∃ w, runAfter 1 (Double.of_int 2) (Some 5) timed_world = Ok (0, w) ∧
     w_timers w !! 0 = Some (mkTimer (Some 5) (Timestamp.mkTimestamp 2000000) (Double.of_int 0) false)) ∧
  (∃ w, runEvery 1 (Double.of_int 2) (Some 5) timed_world = Ok (0, w) ∧
     w_timers w !! 0 = Some (mkTimer (Some 5) (Timestamp.mkTimestamp 2000000) (Double.of_int 2) true)).
Proof.
  destruct (run_seconds (K := Scripted.kernel) (TA := storing) 1 timed_loop 3 2 (Some 5) (Timestamp.mkTimestamp 0) Sample.quiet timed_world)
    as (Hafter & Hevery & _); [reflexivity|reflexivity|by exists 0, 0|vm_compute; done|].
  split; eexists; (split; [etrans; [exact Hafter || exact Hevery|reflexivity]|reflexivity]).
Defined.

Lemma constructed_loop_has_no_timers_witness :
  (l ← EventLoop.EventLoop_ctor false 0; runAfter l (Double.of_int 2) (Some 5)) (Sample.world 7 Sample.quiet) =
    Fault NullPointer.
Proof.
  apply (constructed_loop_has_no_timers (K := Scripted.kernel) (TA := storing) false 0 Timestamp.invalid (Double.of_int 2) (Timestamp.mkTimestamp 2000000)
    (Some 5) (Timestamp.mkTimestamp 0) Sample.quiet); [done|reflexivity|by exists 0, 0|reflexivity].
Defined.

End LoopTimers.
