(* ===== verification/Registry.v ===== *)
(** * The registry of a loop, abstractly

    What the channels, the loop and the poller promise together: a table from
    descriptors to channels and the events they are watched for.  [exec] is the
    table's own account of the operations; the operations of [Channel] and
    [EventLoop] refine it. *)

From S2P Require Import Prelude Timestamp Buffer Kernel State CurrentThread Channel Poller.
From S2P Require Import EventLoop Sample.

Import (hints) Channel.

Module Registry.

(** ** The specification *)
Inductive status : Type := Fresh | Registered | Removed.

#[export] Instance status_eq_dec : EqDecision status.
Proof. solve_decision. Defined.

Record chan_info : Type := mkInfo { in_fd : Z; in_events : Z; in_status : status }.

Record registry : Type := mkRegistry {
  rg_entries : gmap Z Poller.entry;
  rg_channels : gmap Z chan_info
}.

Inductive command : Type :=
  | EnableReading (ch : ChannelPtr)
  | EnableWriting (ch : ChannelPtr)
  | DisableReading (ch : ChannelPtr)
  | DisableWriting (ch : ChannelPtr)
  | DisableAllEvents (ch : ChannelPtr)
  | RemoveChannel (ch : ChannelPtr).

(** An entry is ignored by [poll(2)] once its channel, already registered,
    was left without events; it stays so. *)
Definition ignored (e : option Poller.entry) (events : Z) : bool :=
  match e with
  | None => false
  | Some e => Poller.en_ignored e || (events =? Channel.NoneEvent)
  end.

(** Storing the events [e] of a channel: it must be new, on a free descriptor,
    or registered. *)
Definition put_events (ch e : Z) (a : registry) : option registry :=
  i ← rg_channels a !! ch;
  let old := rg_entries a !! in_fd i in
  if bool_decide (in_status i = Registered) || (bool_decide (in_status i = Fresh) && bool_decide (old = None))
  then Some (mkRegistry
         (<[in_fd i := Poller.mkEntry ch e (ignored old e)]> (rg_entries a))
         (<[ch := mkInfo (in_fd i) e Registered]> (rg_channels a)))
  else None.

Definition change_events (f : Z → Z) (ch : Z) (a : registry) : option registry :=
  i ← rg_channels a !! ch; put_events ch (f (in_events i)) a.

Definition exec (cmd : command) (a : registry) : option registry :=
  match cmd with
  | EnableReading ch => change_events Channel.withReading ch a
  | EnableWriting ch => change_events Channel.withWriting ch a
  | DisableReading ch => change_events Channel.withoutReading ch a
  | DisableWriting ch => change_events Channel.withoutWriting ch a
  | DisableAllEvents ch => change_events (λ _, Channel.NoneEvent) ch a
  | RemoveChannel ch =>
      i ← rg_channels a !! ch;
      if bool_decide (in_status i = Registered) && (in_events i =? Channel.NoneEvent)
      then Some (mkRegistry (delete (in_fd i) (rg_entries a))
                   (<[ch := mkInfo (in_fd i) (in_events i) Removed]> (rg_channels a)))
      else None
  end.

Fixpoint exec_all (cmds : list command) (a : registry) : option registry :=
  match cmds with
  | [] => Some a
  | cmd :: cmds => a' ← exec cmd a; exec_all cmds a'
  end.

(** ** The operations of the library *)
Section refinement.
Context `{K : Kernel} `{B : Build} `{BL : !BuildLaws B}.

Definition run (l : LoopPtr) (cmd : command) : M unit :=
  match cmd with
  | EnableReading ch => Channel.enableReading ch
  | EnableWriting ch => Channel.enableWriting ch
  | DisableReading ch => Channel.disableReading ch
  | DisableWriting ch => Channel.disableWriting ch
  | DisableAllEvents ch => Channel.disableAllEvents ch
  | RemoveChannel ch => EventLoop.removeChannel l ch
  end.

(** A channel of the heap and what the table knows of it. *)
Record channel_info (l : Z) (a : registry) (ch : Z) (c : Channel) (i : chan_info) : Prop := {
  ci_fd : ch_fd_ c = in_fd i;
  ci_nonneg : 0 ≤ in_fd i;
  ci_events : ch_events_ c = in_events i;
  ci_wf : Channel.wf_events (in_events i);
  ci_home : ch_loop_ c = l;
  ci_owner : owned (ch_owner_loop_ c) l;
  ci_status : match in_status i with
              | Fresh => ch_index_ c < 0
              | Registered => ∃ ig,
                  rg_entries a !! in_fd i = Some (Poller.mkEntry ch (in_events i) ig)
              | Removed => True
              end
}.

(** The process [w] implements the table [a] with the loop [loop] at [l] and
    its poller [p]. *)
Record implements_at (l : Z) (loop : EventLoop) (p : Poller) (w : World) (a : registry) : Prop := {
  im_thread : in_loop_thread l w;
  im_loop : w_loops w !! l = Some loop;
  im_poller : el_poller_ loop = Some p;
  im_ok : Poller.ok (w_channels w) p;
  im_entries f : Poller.lookup_entry (w_channels w) p f = rg_entries a !! f;
  im_channels ch i : rg_channels a !! ch = Some i →
    ∃ c, w_channels w !! ch = Some c ∧ channel_info l a ch c i
}.

Definition implements (l : Z) (w : World) (a : registry) : Prop :=
  ∃ loop p, implements_at l loop p w a.

(** The descriptors the entries of the array stand for. *)
Definition keys (p : Poller) : list Z := (λ q, Poller.key (fd q)) <$> pl_poll_fds_ p.

Lemma keys_NoDup h p : Poller.ok h p → NoDup (keys p).
Proof.
  intros Hok. apply NoDup_alt. intros i j x Hi Hj. unfold keys in *.
  rewrite list_lookup_fmap in Hi, Hj.
  apply fmap_Some in Hi as (pi & Hpi & ->). apply fmap_Some in Hj as (pj & Hpj & Hk).
  destruct (Poller.ok_fds _ _ Hok _ _ Hpi) as (ch & c & Hm & Hc & Hix).
  destruct (Poller.ok_fds _ _ Hok _ _ Hpj) as (ch' & c' & Hm' & Hc' & Hjx).
  rewrite <- Hk in Hm'. simplify_eq. lia.
Qed.

(** The array of the poller is not longer than the map. *)
Lemma poll_fds_size h p : Poller.ok h p → zlen (pl_poll_fds_ p) ≤ Z.of_nat (size (pl_channel_map_ p)).
Proof.
  intros Hok. pose proof (keys_NoDup _ _ Hok) as Hnd.
  assert (list_to_set (keys p) ⊆ dom (pl_channel_map_ p)) as Hsub.
  { intros x (q & -> & [i Hq]%list_elem_of_lookup)%elem_of_list_to_set%list_elem_of_fmap.
    destruct (Poller.ok_fds _ _ Hok _ _ Hq) as (ch & c & Hm & _). by apply elem_of_dom. }
  apply subseteq_size in Hsub. rewrite size_dom, size_list_to_set in Hsub by done.
  unfold keys in Hsub. rewrite length_fmap in Hsub. unfold zlen. lia.
Qed.

(** The table has an entry exactly where the map of the poller has one. *)
Lemma entry_map l loop p w a f :
  implements_at l loop p w a → (rg_entries a !! f = None ↔ pl_channel_map_ p !! f = None).
Proof.
  intros Him. rewrite <- (im_entries _ _ _ _ _ Him).
  split; [|apply Poller.lookup_entry_none].
  destruct (pl_channel_map_ p !! f) as [ch|] eqn:Hm; [|done].
  destruct (Poller.ok_map _ _ (im_ok _ _ _ _ _ Him) _ _ Hm)
    as (_ & c & i & pfd & Hc & _ & Hi & Hp & _).
  by rewrite (Poller.ok_lookup_entry _ _ _ _ _ _ _ Hm Hc Hi Hp).
Qed.

(** The channel of an entry is the channel of the map. *)
Lemma entry_channel l loop p w a f e :
  implements_at l loop p w a → rg_entries a !! f = Some e →
  pl_channel_map_ p !! f = Some (Poller.en_channel e).
Proof.
  intros Him He. rewrite <- (im_entries _ _ _ _ _ Him) in He. unfold Poller.lookup_entry in He.
  apply bind_Some in He as (ch & Hm & (c & _ & (pfd & _ & He)%bind_Some)%bind_Some).
  by simplify_eq.
Qed.

(** The number of entries of a table bounds the array of the poller. *)
Lemma poll_fds_entries l loop p w a :
  implements_at l loop p w a → zlen (pl_poll_fds_ p) ≤ Z.of_nat (size (rg_entries a)).
Proof.
  intros Him. pose proof (poll_fds_size _ _ (im_ok _ _ _ _ _ Him)).
  assert (dom (pl_channel_map_ p) ⊆ dom (rg_entries a)) as Hsub.
  { intros f [ch Hf]%elem_of_dom. apply elem_of_dom, not_eq_None_Some.
    rewrite (entry_map _ _ _ _ _ _ Him). by rewrite Hf. }
  apply subseteq_size in Hsub. rewrite !size_dom in Hsub. lia.
Qed.

(** *** One operation *)

Definition small (a : registry) : Prop := Z.of_nat (size (rg_entries a)) < 2 ^ 31 - 1.

(** A command of the table on [ch] is a change of a channel the loop can watch. *)
Lemma put_events_watchable l loop p w a ch i a' e :
  implements_at l loop p w a → small a → rg_channels a !! ch = Some i →
  put_events ch e a = Some a' →
  ∃ c, channel_info l a ch c i ∧ LoopFacts.watchable w l ch loop p c ∧
    a' = mkRegistry
           (<[in_fd i := Poller.mkEntry ch e (ignored (rg_entries a !! in_fd i) e)]> (rg_entries a))
           (<[ch := mkInfo (in_fd i) e Registered]> (rg_channels a)).
Proof.
  intros Him Hsm Hi Hput. destruct (im_channels _ _ _ _ _ Him _ _ Hi) as (c & Hc & Hci).
  exists c. split; [done|]. unfold put_events in Hput. rewrite Hi in Hput. simpl in Hput.
  destruct (_ || _) eqn:Htest in Hput; [|done]. simplify_eq. split; [|done].
  destruct Hci as [Hfd H0 Hev Hwf Hhome Hown Hst].
  constructor; try done; try apply Him. split_and!; [done|lia|by rewrite Hev|].
  rewrite Hfd. pose proof (poll_fds_entries _ _ _ _ _ Him). unfold small in Hsm.
  apply orb_true_iff in Htest as [Hr|[Hf Hn]%andb_true_iff].
  - apply bool_decide_eq_true in Hr. rewrite Hr in Hst. destruct Hst as [ig He]. right.
    by eapply entry_channel in He.
  - apply bool_decide_eq_true in Hf, Hn. rewrite Hf in Hst. left. split; [done|].
    split; [by eapply entry_map|lia].
Qed.

(** The other channels keep what the table knows of them when only an entry of
    [ch], or a free one, is written. *)
Lemma channel_info_other l a a' ch ch' c i :
  channel_info l a ch' c i → ch' ≠ ch →
  (∀ f, rg_entries a !! f = rg_entries a' !! f ∨ rg_entries a !! f = None ∨
     ∃ x, rg_entries a !! f = Some x ∧ Poller.en_channel x = ch) →
  channel_info l a' ch' c i.
Proof.
  intros [Hfd H0 Hev Hwf Hhome Hown Hst] Hne Hsame. constructor; try done.
  destruct (in_status i); try done. destruct Hst as [ig Hst]. exists ig.
  destruct (Hsame (in_fd i)) as [<-|[Hn|(x & Hx & Hch)]]; [done|congruence|].
  rewrite Hst in Hx. simplify_eq/=.
Qed.

(** The entry [put_events] writes is free or of the channel itself. *)
Lemma put_events_entry ch i e a a' :
  put_events ch e a = Some a' → rg_channels a !! ch = Some i →
  (∃ l c, channel_info l a ch c i) →
  rg_entries a !! in_fd i = None ∨
  ∃ x, rg_entries a !! in_fd i = Some x ∧ Poller.en_channel x = ch.
Proof.
  intros Hput Hi (l & c & Hci). unfold put_events in Hput. rewrite Hi in Hput. simpl in Hput.
  destruct (_ || _) eqn:Htest in Hput; [|done].
  apply orb_true_iff in Htest as [Hr|[Hf Hn]%andb_true_iff].
  - apply bool_decide_eq_true in Hr. pose proof (ci_status _ _ _ _ _ Hci) as Hst.
    rewrite Hr in Hst. destruct Hst as [ig He]. eauto.
  - apply bool_decide_eq_true in Hn. by left.
Qed.

Lemma change_refines f l w a ch a' :
  implements l w a → small a → (∀ e, Channel.wf_events e → Channel.wf_events (f e)) →
  change_events f ch a = Some a' →
  ∃ w', Channel.change f ch w = Ok ((), w') ∧ implements l w' a'.
Proof.
  intros (loop & p & Him) Hsm Hf Hch. unfold change_events in Hch.
  apply bind_Some in Hch as (i & Hi & Hput).
  destruct (put_events_watchable _ _ _ _ _ _ _ _ _ Him Hsm Hi Hput) as (c & Hci & Hwt & ->).
  pose proof (put_events_entry _ _ _ _ _ Hput Hi (ex_intro _ l (ex_intro _ c Hci))) as Hent.
  pose proof Hci as [Hfd H0 Hev Hwf Hhome Hown _].
  destruct (LoopFacts.change_ok f w l ch loop p c Hwt) as (ix & p' & Hrun & Hwt' & _ & _ & Hlk).
  { rewrite Hev. auto. }
  cbn zeta in Hrun, Hwt'. eexists. split; [exact Hrun|]. eexists _, p'.
  destruct Hwt' as [Hth' Hl' Hp' Hok' _ _ _]. constructor; try done; simpl.
  - intros g. rewrite Hlk, Hfd, Hev. case_decide as Hg; [subst g|].
    + rewrite lookup_insert_eq. do 2 f_equal. unfold ignored, Poller.was_ignored.
      rewrite (im_entries _ _ _ _ _ Him).
      destruct (rg_entries a !! in_fd i) as [x|] eqn:Hx.
      * rewrite bool_decide_true; [done|]. apply not_eq_None_Some.
        rewrite <- (entry_map _ _ _ _ _ _ Him). by rewrite Hx.
      * rewrite bool_decide_false; [done|]. intros []%not_eq_None_Some.
        by apply (entry_map _ _ _ _ _ _ Him).
    + rewrite lookup_insert_ne by done. apply Him.
  - intros ch' i' Hi'. destruct (decide (ch' = ch)) as [->|Hne].
    + rewrite lookup_insert_eq in Hi'. simplify_eq. eexists. rewrite lookup_insert_eq.
      split; [done|]. constructor; simpl; rewrite ?Hev; try done; [by apply Hf|].
      rewrite lookup_insert_eq. eauto.
    + rewrite lookup_insert_ne in Hi' by done.
      destruct (im_channels _ _ _ _ _ Him _ _ Hi') as (c' & Hc' & Hci').
      exists c'. rewrite lookup_insert_ne by done. split; [done|].
      eapply channel_info_other; [done..|]. intros g. simpl.
      destruct (decide (g = in_fd i)) as [->|]; [by right|left].
      by rewrite lookup_insert_ne.
Qed.

(** A removal may move the index of a registered channel, of no other. *)
Lemma removal_keeps l loop p w a h' ch c i :
  implements_at l loop p w a → w_channels w !! ch = Some c → channel_info l a ch c i →
  Poller.same_but_index (w_channels w) h' → Poller.unregistered_same (w_channels w) h' p →
  ∃ c', h' !! ch = Some c' ∧ channel_info l a ch c' i.
Proof.
  intros Him Hc Hci Hsame Hun. destruct (in_status i) eqn:Hs.
  1: { exists c. split; [|done]. rewrite Hun; [done|]. intros f Hf.
       destruct (Poller.ok_map _ _ (im_ok _ _ _ _ _ Him) _ _ Hf) as (_ & c' & ix & _ & Hc' & _ & Hix & _).
       pose proof (ci_status _ _ _ _ _ Hci) as Hneg. rewrite Hs in Hneg. simplify_eq. lia. }
  all: specialize (Hsame ch); rewrite Hc in Hsame; destruct (h' !! ch) as [c'|]; [|done];
    destruct Hsame as [ix ->]; eexists; split; [done|];
    destruct Hci as [Hfd H0 Hev Hwf Hhome Hown Hst]; constructor; try done; by rewrite Hs in *.
Qed.

(** A channel without events that the table knows as registered. *)
Lemma remove_refines l w a ch a' :
  implements l w a → exec (RemoveChannel ch) a = Some a' →
  ∃ w', EventLoop.removeChannel l ch w = Ok ((), w') ∧ implements l w' a'.
Proof.
  intros (loop & p & Him) Hex. simpl in Hex. apply bind_Some in Hex as (i & Hi & Hex).
  destruct (_ && _) eqn:Htest in Hex; [|done]. simplify_eq.
  apply andb_true_iff in Htest as [Hr%bool_decide_eq_true Hz%Z.eqb_eq].
  destruct (im_channels _ _ _ _ _ Him _ _ Hi) as (c & Hc & Hci).
  pose proof Hci as [Hfd H0 Hev Hwf Hhome Hown Hst]. rewrite Hr in Hst. destruct Hst as [ig He].
  pose proof (entry_channel _ _ _ _ _ _ _ Him He) as Hmap. simpl in Hmap.
  assert (LoopFacts.watchable w l ch loop p c) as Hwt.
  { constructor; try done; try apply Him. split_and!; [done|lia|by rewrite Hev|].
    right. by rewrite Hfd. }
  destruct (LoopFacts.loop_removeChannel_ok w l ch loop p c Hwt)
    as (h' & p' & Hrun & Hok' & Hsame & Hmap' & Hun & Hlk);
    [unfold LoopFacts.registered; by rewrite Hfd|congruence| |].
  { exists ig. rewrite Hfd, (im_entries _ _ _ _ _ Him), He. by rewrite Hz. }
  eexists. split; [exact Hrun|]. eexists _, p'. constructor; try done; simpl.
  - apply LoopFacts.put_poller_thread; apply Him.
  - apply lookup_insert_eq.
  - done.
  - intros g. rewrite Hlk, Hfd. case_decide as Hg; [subst g; by rewrite lookup_delete_eq|].
    rewrite lookup_delete_ne by done. apply Him.
  - intros ch' i' Hi'. destruct (decide (ch' = ch)) as [->|Hne].
    + rewrite lookup_insert_eq in Hi'. simplify_eq. pose proof (Hsame ch) as Hs. rewrite Hc in Hs.
      destruct (h' !! ch) as [c'|]; [|done]. destruct Hs as [ix ->]. eexists. split; [done|].
      by constructor.
    + rewrite lookup_insert_ne in Hi' by done.
      destruct (im_channels _ _ _ _ _ Him _ _ Hi') as (c1 & Hc1 & Hci1).
      destruct (removal_keeps _ _ _ _ _ _ _ _ _ Him Hc1 Hci1 Hsame Hun) as (c' & Hc' & Hci').
      exists c'. split; [done|]. eapply channel_info_other; [done..|]. intros g. simpl.
      destruct (decide (g = in_fd i)) as [->|]; [right; eauto|left].
      by rewrite lookup_delete_ne.
Qed.

(** *** Sequences of operations *)

Lemma put_events_size ch e a a' :
  put_events ch e a = Some a' → (size (rg_entries a') ≤ S (size (rg_entries a)))%nat.
Proof.
  unfold put_events. intros (i & Hi & Hput)%bind_Some. destruct (_ || _); [|done]. simplify_eq/=.
  rewrite map_size_insert. destruct (rg_entries a !! in_fd i); simpl; lia.
Qed.

Lemma exec_size cmd a a' :
  exec cmd a = Some a' → (size (rg_entries a') ≤ S (size (rg_entries a)))%nat.
Proof.
  destruct cmd as [ch|ch|ch|ch|ch|ch];
    [simpl; intros (i & _ & Hput)%bind_Some; by eapply put_events_size..|].
  simpl. intros (i & _ & Hrm)%bind_Some. destruct (_ && _); [|done]. simplify_eq/=.
  rewrite map_size_delete. destruct (rg_entries a !! in_fd i); simpl; lia.
Qed.

Lemma run_refines cmd l w a a' :
  implements l w a → small a → exec cmd a = Some a' →
  ∃ w', run l cmd w = Ok ((), w') ∧ implements l w' a'.
Proof.
  intros Him Hsm Hex. destruct cmd as [ch|ch|ch|ch|ch|ch]; [..|by eapply remove_refines];
    (eapply change_refines; [done..| |exact Hex]); intros ? ?; simpl; auto with channel.
Qed.

Lemma run_all_refines cmds l w a a' :
  implements l w a → Z.of_nat (size (rg_entries a) + length cmds) < 2 ^ 31 - 1 →
  exec_all cmds a = Some a' →
  ∃ w', for_each (run l) cmds w = Ok ((), w') ∧ implements l w' a'.
Proof.
  revert w a. induction cmds as [|cmd cmds IH]; intros w a Him Hsz Hex.
  { simplify_eq/=. by exists w. }
  simpl in Hex. apply bind_Some in Hex as (a1 & Hex & Hrest). simpl in Hsz.
  destruct (run_refines cmd l w a a1 Him) as (w1 & Hrun & Him1); [unfold small; lia|done|].
  pose proof (exec_size _ _ _ Hex).
  destruct (IH w1 a1 Him1) as (w' & Hruns & Him'); [lia|done|].
  exists w'. split; [|done]. simpl. unfold mbind, M_bind. by rewrite Hrun.
Qed.

(** *** Polling *)

Lemma elem_of_reported map fds ch :
  ch ∈ Poller.reported map fds ↔ ∃ pfd, pfd ∈ fds ∧ 0 < revents pfd ∧ map !! fd pfd = Some ch.
Proof.
  unfold Poller.reported. rewrite list_elem_of_omap. split.
  - intros (pfd & Hin & Hr). exists pfd. destruct (Z.ltb_spec 0 (revents pfd)); done.
  - intros (pfd & Hin & Hr & Hm). exists pfd. by rewrite (proj2 (Z.ltb_lt _ _) Hr).
Qed.

(** A reported entry is an entry of the table, not an ignored one. *)
Lemma reported_entry h p pfd ch :
  Poller.ok h p → pfd ∈ pl_poll_fds_ p → pl_channel_map_ p !! fd pfd = Some ch →
  Poller.lookup_entry h p (fd pfd) = Some (Poller.mkEntry ch (events pfd) false).
Proof.
  intros Hok [i Hi]%list_elem_of_lookup Hm.
  destruct (Poller.ok_map _ _ Hok _ _ Hm) as (H0 & _).
  destruct (Poller.ok_fds _ _ Hok _ _ Hi) as (ch' & c & Hm' & Hc & Hix).
  rewrite Poller.key_pos in Hm' by done. simplify_eq.
  rewrite (Poller.ok_lookup_entry _ _ _ _ _ _ _ Hm Hc Hix Hi).
  by rewrite (proj2 (Z.ltb_ge _ _)).
Qed.

(** No channel is reported twice. *)
Lemma reported_NoDup h p : Poller.ok h p →
  NoDup (Poller.reported (pl_channel_map_ p) (pl_poll_fds_ p)).
Proof.
  intros Hok. pose proof (keys_NoDup _ _ Hok) as Hnd. unfold keys in Hnd.
  induction (pl_poll_fds_ p) as [|q fds IH]; [constructor|].
  simpl in Hnd. apply NoDup_cons in Hnd as [Hnin Hnd]. unfold Poller.reported in *. simpl.
  case Z.ltb_spec; intros Hr; [|by apply IH].
  destruct (pl_channel_map_ p !! fd q) as [ch|] eqn:Hm; [|by apply IH].
  apply NoDup_cons. split; [|by apply IH].
  intros (q' & Hq' & _ & Hm')%elem_of_reported. apply Hnin.
  apply list_elem_of_fmap. exists q'. split; [|done].
  by rewrite (Poller.ok_channel_inj _ _ _ _ _ Hok Hm Hm').
Qed.

(** The process after a poll implements the same table. *)
Lemma implements_revents l loop p w a h' revs k :
  implements_at l loop p w a → length revs = length (pl_poll_fds_ p) →
  let p' := mkPoller (Poller.store_revents (pl_poll_fds_ p) revs) (pl_channel_map_ p) in
  Poller.ok h' p' →
  (∀ ch c, w_channels w !! ch = Some c → ∃ r, h' !! ch = Some (Channel.setRevents r c)) →
  implements_at l (Poller.setPoller (Some p') loop) p'
    (Poller.put_poller l loop h' p' (set_kernel k w)) a.
Proof.
  intros Him Hlen p' Hok' Hch. constructor; try done.
  - apply LoopFacts.put_poller_thread; apply Him.
  - apply lookup_insert_eq.
  - intros f. rewrite <- (im_entries _ _ _ _ _ Him).
    apply Poller.lookup_entry_revents; [apply Him|done..].
  - intros ch i Hi. destruct (im_channels _ _ _ _ _ Him _ _ Hi) as (c & Hc & Hci).
    destruct (Hch _ _ Hc) as [r Hr]. eexists. split; [exact Hr|].
    by destruct Hci; constructor.
Qed.

(** The events the kernel reported for the channel [ch] of the table [a]: those
    of an entry that is not ignored. *)
Definition kernel_reports (a : registry) (fds : list pollfd) (revs : list Z) (ch r : Z) : Prop :=
  ∃ i q, fds !! i = Some q ∧ revs !! i = Some r ∧ 0 < r ∧
    rg_entries a !! fd q = Some (Poller.mkEntry ch (events q) false).

Lemma reported_kernel l loop p w a revs ch :
  implements_at l loop p w a → length revs = length (pl_poll_fds_ p) →
  ch ∈ Poller.reported (pl_channel_map_ p) (Poller.store_revents (pl_poll_fds_ p) revs) ↔
  ∃ r, kernel_reports a (pl_poll_fds_ p) revs ch r.
Proof.
  intros Him Hlen. rewrite elem_of_reported. split.
  - intros (q' & [i Hi]%list_elem_of_lookup & Hr & Hm).
    rewrite Poller.lookup_store_revents in Hi by done.
    apply bind_Some in Hi as (q & Hq & (r & Hr' & Hi)%bind_Some). simplify_eq/=.
    exists r, i, q. split_and!; try done.
    rewrite <- (im_entries _ _ _ _ _ Him). apply reported_entry; [apply Him| |done].
    by eapply list_elem_of_lookup_2.
  - intros (r & i & q & Hq & Hr & H0 & He).
    exists (mkPollfd (fd q) (events q) r). split_and!; [|done|].
    + apply list_elem_of_lookup. exists i. rewrite Poller.lookup_store_revents, Hq by done.
      simpl. by rewrite Hr.
    + simpl. by rewrite (entry_channel _ _ _ _ _ _ _ Him He).
Qed.

(** Two entries of the array that resolve to one channel are one entry. *)
Lemma same_entry h p i j q q' ch :
  Poller.ok h p → pl_poll_fds_ p !! i = Some q → pl_poll_fds_ p !! j = Some q' →
  pl_channel_map_ p !! fd q = Some ch → pl_channel_map_ p !! fd q' = Some ch → i = j.
Proof.
  intros Hok Hi Hj Hq Hq'.
  pose proof (Poller.ok_channel_inj _ _ _ _ _ Hok Hq Hq') as Hfd.
  apply (NoDup_lookup (keys p) i j (Poller.key (fd q)) (keys_NoDup _ _ Hok));
    unfold keys; rewrite list_lookup_fmap, ?Hi, ?Hj; simpl; congruence.
Qed.

(** The events the kernel reported are those the channel is given. *)
Lemma kernel_revents l loop p w a h' revs ch r :
  implements_at l loop p w a → length revs = length (pl_poll_fds_ p) →
  let p' := mkPoller (Poller.store_revents (pl_poll_fds_ p) revs) (pl_channel_map_ p) in
  Poller.ok h' p' →
  Poller.revents_stored (pl_channel_map_ p) (pl_poll_fds_ p') (w_channels w) h' →
  kernel_reports a (pl_poll_fds_ p) revs ch r →
  ∃ c, h' !! ch = Some c ∧ ch_revents_ c = r.
Proof.
  intros Him Hlen p' Hok' Hst Hkr.
  pose proof (proj2 (reported_kernel _ _ _ _ _ _ ch Him Hlen) (ex_intro _ r Hkr)) as Hrep.
  destruct Hkr as (i & q & Hq & Hr & H0 & He).
  pose proof (entry_channel _ _ _ _ _ _ _ Him He) as Hm. simpl in Hm.
  destruct (Poller.ok_map _ _ Hok' _ _ Hm) as (_ & c' & _ & _ & Hc' & _).
  specialize (Hst ch). rewrite Hc' in Hst. destruct (w_channels w !! ch) as [c|]; [|done].
  destruct Hst as [[_ Hn]|(q' & [j Hj]%list_elem_of_lookup & _ & Hm' & ->)]; [done|].
  assert (pl_poll_fds_ p' !! i = Some (mkPollfd (fd q) (events q) r)) as Hi.
  { simpl. rewrite Poller.lookup_store_revents, Hq by done. simpl. by rewrite Hr. }
  assert (i = j) as -> by exact (same_entry _ _ _ _ _ _ _ Hok' Hi Hj Hm Hm').
  simplify_eq. eexists. split; [exact Hc'|done].
Qed.

(** The table that a poller implements, of its entries alone *)
Definition table (h : gmap Z Channel) (p : Poller) : registry :=
  mkRegistry (map_imap (λ f _, Poller.lookup_entry h p f) (pl_channel_map_ p)) ∅.

Lemma implements_table l loop p w :
  in_loop_thread l w → w_loops w !! l = Some loop → el_poller_ loop = Some p →
  Poller.ok (w_channels w) p → implements_at l loop p w (table (w_channels w) p).
Proof.
  intros. constructor; try done. intros f. simpl. rewrite map_lookup_imap.
  destruct (pl_channel_map_ p !! f) as [ch|] eqn:Hm; [done|]. by apply Poller.lookup_entry_none.
Qed.

Context `{KL : !KernelLaws K}.

Lemma poll_active l loop p w a timeout n revs k1 sec usec k2 now :
  implements_at l loop p w a →
  sys_poll (pl_poll_fds_ p) timeout (w_kernel w) = (Ret n, revs, k1) →
  sys_gettimeofday k1 = (sec, usec, k2) → Timestamp.now sec usec = Ok now →
  ∃ active w', Poller.poll l timeout [] w = Ok ((now, active), w') ∧
    implements l w' a ∧ NoDup active ∧
    (∀ ch, ch ∈ active ↔ ∃ r, kernel_reports a (pl_poll_fds_ p) revs ch r) ∧
    ∀ ch r, kernel_reports a (pl_poll_fds_ p) revs ch r →
      ∃ c, w_channels w' !! ch = Some c ∧ ch_revents_ c = r.
Proof.
  intros Him Hsys Htime Hnow. pose proof (poll_length _ _ _ _ _ _ Hsys) as Hlen.
  destruct (Poller.poll_ok l loop p timeout [] _ _ _ _ _ _ now w (im_loop _ _ _ _ _ Him)
    (im_poller _ _ _ _ _ Him) (im_ok _ _ _ _ _ Him) Hsys Htime Hnow) as (h' & Hpoll & Hok' & Hst).
  eexists _, _. split; [exact Hpoll|]. split; [|split; [|split]].
  - eexists _, _. eapply implements_revents; [done..|]. intros. by eapply Poller.stored_revents.
  - exact (reported_NoDup _ _ Hok').
  - intros ch. by eapply reported_kernel.
  - intros ch r Hkr. by eapply kernel_revents.
Qed.

(** A poll that returns: whatever the kernel answered, the active channels have
    entries that are not ignored. *)
Lemma poll_entries l w a k timeout t active w' ch :
  implements l w a → Poller.poll l timeout [] (set_kernel k w) = Ok ((t, active), w') →
  ch ∈ active → ∃ f ev, rg_entries a !! f = Some (Poller.mkEntry ch ev false).
Proof.
  intros (loop & p & Him) Hpoll Hin.
  destruct (sys_poll (pl_poll_fds_ p) timeout k) as [[r revs] k1] eqn:Hsys.
  destruct (sys_gettimeofday k1) as [[sec usec] k2] eqn:Htime.
  assert (implements_at l loop p (set_kernel k w) a) as Him' by by destruct Him.
  destruct (Timestamp.now sec usec) as [now|f] eqn:Hnow.
  2:{ exfalso. revert Hpoll. unfold Poller.poll, mbind, M_bind.
      rewrite (Poller.the_poller_ok l loop p) by apply Him'. unfold syscall at 1. simpl.
      rewrite Hsys. unfold modify, mbind, M_bind, deref, store, update. simpl.
      rewrite (im_loop _ _ _ _ _ Him). unfold syscall. simpl. rewrite Htime. unfold lift.
      by rewrite Hnow. }
  destruct (Poller.poll_ok l loop p timeout [] _ _ _ _ _ _ now (set_kernel k w)
    (im_loop _ _ _ _ _ Him') (im_poller _ _ _ _ _ Him') (im_ok _ _ _ _ _ Him') Hsys Htime Hnow)
    as (h' & Hpoll' & _).
  rewrite Hpoll in Hpoll'. simplify_eq. destruct r as [n|e]; [|by apply not_elem_of_nil in Hin].
  pose proof (poll_length _ _ _ _ _ _ Hsys) as Hlen.
  apply (reported_kernel _ _ _ _ _ _ _ Him' Hlen) in Hin as (r & i & q & _ & _ & _ & He). eauto.
Qed.

End refinement.

(** The table after [disableAllEvents] and [enableReading] of a registered
    channel. *)
Definition reenabled (ch : Z) (i : chan_info) (a : registry) : registry :=
  mkRegistry (<[in_fd i := Poller.mkEntry ch Channel.ReadEvent true]> (rg_entries a))
    (<[ch := mkInfo (in_fd i) Channel.ReadEvent Registered]> (rg_channels a)).

Lemma exec_reenabled ch i a e :
  rg_channels a !! ch = Some i → in_status i = Registered → rg_entries a !! in_fd i = Some e →
  exec_all [DisableAllEvents ch; EnableReading ch] a = Some (reenabled ch i a).
Proof.
  intros Hi Hs He. simpl. unfold change_events, put_events.
  repeat (rewrite ?Hi, ?Hs, ?He, ?lookup_insert_eq, ?insert_insert_eq; simpl).
  by rewrite orb_true_r.
Qed.

(** A channel has the entry of its descriptor only. *)
Lemma entry_fd `{K : Kernel} `{B : Build} l w a ch i f e :
  implements l w a → rg_channels a !! ch = Some i → rg_entries a !! f = Some e →
  Poller.en_channel e = ch → f = in_fd i.
Proof.
  intros (loop & p & Him) Hi He <-. pose proof (entry_channel _ _ _ _ _ _ _ Him He) as Hm.
  destruct (im_channels _ _ _ _ _ Him _ _ Hi) as (c & Hc & Hci).
  destruct (Poller.ok_map _ _ (im_ok _ _ _ _ _ Him) _ _ Hm) as (_ & c' & _ & _ & Hc' & Hfd & _).
  simplify_eq. by rewrite (ci_fd _ _ _ _ _ Hci).
Qed.

(** ** Theorems *)
Section theorems.
Context `{K : Kernel} `{B : Build} `{BL : !BuildLaws B} `{KL : !KernelLaws K}.

(** C9: a sequence of [enable], [disable] and remove operations on the channels
    of a loop, run through Channel, EventLoop and Poller in the thread of the
    loop, returns and leaves the poller with the entries that the table computes:
    the poll array, the channel map and the indices of the channels implement
    one map from descriptors to channels and events. *)
Theorem operations_refine_registry cmds l w a a' :
  implements l w a → Z.of_nat (size (rg_entries a) + length cmds) < 2 ^ 31 - 1 →
  exec_all cmds a = Some a' →
  ∃ w', for_each (run l) cmds w = Ok ((), w') ∧ implements l w' a'.
Proof. apply run_all_refines. Qed.

(** C10: a poll returns exactly the channels with an entry that is not ignored
    and for which the kernel reported events, each of them once, and stores in
    each of them the events reported for its descriptor. *)
Theorem poll_reports_ready_channels l loop p w a timeout n revs k1 sec usec k2 now :
  implements_at l loop p w a →
  sys_poll (pl_poll_fds_ p) timeout (w_kernel w) = (Ret n, revs, k1) →
  sys_gettimeofday k1 = (sec, usec, k2) → Timestamp.now sec usec = Ok now →
  ∃ active w', Poller.poll l timeout [] w = Ok ((now, active), w') ∧
    implements l w' a ∧ NoDup active ∧
    (∀ ch, ch ∈ active ↔ ∃ r, kernel_reports a (pl_poll_fds_ p) revs ch r) ∧
    ∀ ch r, kernel_reports a (pl_poll_fds_ p) revs ch r →
      ∃ c, w_channels w' !! ch = Some c ∧ ch_revents_ c = r.
Proof. apply poll_active. Qed.

(** A registered channel that goes through [disableAllEvents] and then
    [enableReading] asks for read events and stays registered, but whatever the
    kernel answers no later poll returns it: [updateChannel] negates the
    descriptor of an entry without events and never restores it. *)
Theorem reenabled_channel_never_polled l w a ch i :
  implements l w a → Z.of_nat (size (rg_entries a)) < 2 ^ 31 - 3 →
  rg_channels a !! ch = Some i → in_status i = Registered →
  ∃ w', (_ ← Channel.disableAllEvents ch; Channel.enableReading ch) w = Ok ((), w') ∧
    (∃ c, w_channels w' !! ch = Some c ∧ ch_events_ c = Channel.ReadEvent) ∧
    ∀ k timeout t active w'',
      Poller.poll l timeout [] (set_kernel k w') = Ok ((t, active), w'') → ch ∉ active.
Proof.
  intros Him Hsm Hi Hs.
  assert (∃ e, rg_entries a !! in_fd i = Some e) as [e He].
  { destruct Him as (loop & p & Him).
    destruct (im_channels _ _ _ _ _ Him _ _ Hi) as (c & _ & Hci).
    pose proof (ci_status _ _ _ _ _ Hci) as He. rewrite Hs in He. destruct He. eauto. }
  destruct (run_all_refines [DisableAllEvents ch; EnableReading ch] l w a (reenabled ch i a))
    as (w' & Hrun & Him'); [done|simpl; lia|by eapply exec_reenabled|].
  exists w'. split; [|split].
  - revert Hrun. simpl. unfold mbind, M_bind.
    destruct (Channel.disableAllEvents ch w) as [[[] w1]|]; [|done].
    by destruct (Channel.enableReading ch w1) as [[[] w2]|].
  - destruct Him' as (loop & p & Him').
    destruct (im_channels _ _ _ _ _ Him' ch (mkInfo (in_fd i) Channel.ReadEvent Registered))
      as (c & Hc & Hci); [apply lookup_insert_eq|]. exists c. split; [done|apply Hci].
  - intros k timeout t active w'' Hpoll Hin.
    destruct (poll_entries _ _ _ _ _ _ _ _ _ Him' Hpoll Hin) as (f & ev & Hent).
    assert (f = in_fd i) as ->.
    { by eapply (entry_fd _ _ _ ch (mkInfo (in_fd i) Channel.ReadEvent Registered)
                   _ _ Him' (lookup_insert_eq _ _ _) Hent). }
    simpl in Hent. rewrite lookup_insert_eq in Hent. simplify_eq.
Qed.

(** A channel whose [owner_loop_] is not its loop, which is how the
    constructor may leave it, since nothing calls [setOwnerLoop]: in a build with
    assertions each operation that changes its events aborts. *)
Theorem channel_without_owner_asserts f w ch c :
  NDEBUG = false → w_channels w !! ch = Some c → ch_owner_loop_ c ≠ ch_loop_ c →
  Channel.change f ch w = Fault Assertion.
Proof.
  intros Hdebug Hc Hown. unfold Channel.change, Channel.update, modify, mbind, M_bind, deref, store,
    update. simpl. rewrite Hc. simpl. rewrite lookup_insert_eq. simpl.
  unfold EventLoop.updateChannel, mbind, M_bind, deref. simpl. rewrite lookup_insert_eq. simpl.
  rewrite (proj2 (Z.eqb_neq _ _) Hown). unfold lift, assert_. by rewrite Hdebug.
Qed.

End theorems.
#[local] Existing Instance Scripted.kernel.
#[local] Existing Instance Scripted.kernel_laws.
#[local] Existing Instance debug_build.

(** ** On the sample process, with a second, new channel on descriptor 6 *)

Definition sample_world (k : Scripted.state) : World :=
  set_channels (<[2 := Channel.Channel_ctor 1 1 6]> {[1 := Sample.chan]}) (Sample.world 7 k).

Definition sample_registry : registry :=
  mkRegistry {[5 := Poller.mkEntry 1 Channel.ReadEvent false]}
    (<[2 := mkInfo 6 0 Fresh]> {[1 := mkInfo 5 Channel.ReadEvent Registered]}).

Lemma sample_implements k :
  implements_at 1 Sample.loop Sample.poller (sample_world k) sample_registry.
Proof.
  constructor; try done.
  - split; [done|]. split; [done|]. by exists Sample.loop.
  - constructor; simpl.
    + intros f ch [<- <-]%lookup_singleton_Some. split; [lia|].
      exists Sample.chan, 0%nat, (mkPollfd 5 Channel.ReadEvent 0). split_and!; done.
    + intros [|i] pfd Hi; simplify_eq/=. exists 1, Sample.chan. done.
    + done.
  - intros f. unfold Poller.lookup_entry, sample_registry. simpl.
    destruct (decide (f = 5)) as [->|Hne]; [done|]. by rewrite !lookup_singleton_ne.
  - intros ch i Hi. cbn [rg_channels sample_registry] in Hi.
    apply lookup_insert_Some in Hi as [[<- <-]|[_ [<- <-]%lookup_singleton_Some]].
    + eexists. split; [reflexivity|]. constructor; try done. by right.
    + eexists. split; [reflexivity|]. constructor; try done; [by right|by exists false].
Qed.

(** The second channel is enabled for writing, the first loses its events and
    is removed. *)
Definition sample_commands : list command :=
  [EnableReading 2; EnableWriting 2; DisableAllEvents 1; RemoveChannel 1; DisableWriting 2].

Lemma operations_refine_registry_witness :
  ∃ a' w', exec_all sample_commands sample_registry = Some a' ∧
    for_each (run 1) sample_commands (sample_world Sample.quiet) = Ok ((), w') ∧
    implements 1 w' a' ∧
    rg_entries a' !! 6 = Some (Poller.mkEntry 2 Channel.ReadEvent false) ∧ rg_entries a' !! 5 = None.
Proof.
  destruct (exec_all sample_commands sample_registry) as [a'|] eqn:Ha; [|by vm_compute in Ha].
  exists a'. destruct (operations_refine_registry sample_commands 1
    (sample_world Sample.quiet) sample_registry a') as (w' & Hrun & Him); [| |done|].
  - eexists _, _. apply sample_implements.
  - vm_compute. done.
  - exists w'. split; [done|]. split; [done|]. split; [done|].
    vm_compute in Ha. simplify_eq. done.
Defined.

Lemma poll_reports_ready_channels_witness :
  let k := Scripted.mkState [] [] [[(5, 1); (6, 4)]] [(3, 7)] [] in
  ∃ active w', Poller.poll 1 10 [] (sample_world k) =
    Ok ((Timestamp.mkTimestamp 3000007, active), w') ∧ 1 ∈ active ∧ ¬ 2 ∈ active.
Proof.
  intros k. destruct (poll_reports_ready_channels 1 Sample.loop Sample.poller
    (sample_world k) sample_registry 10 1 [1] _ 3 7 _ (Timestamp.mkTimestamp 3000007)
    (sample_implements k) eq_refl eq_refl eq_refl) as (active & w' & Hp & _ & _ & Hin & _).
  exists active, w'. split; [done|]. split.
  - apply Hin. exists 1, 0%nat, (mkPollfd 5 Channel.ReadEvent 0). done.
  - intros (r & [|i] & q & Hq & _ & _ & He)%Hin; simplify_eq/=.
Defined.

Lemma reenabled_channel_never_polled_witness :
  ∃ w', (_ ← Channel.disableAllEvents 1;
         Channel.enableReading 1) (sample_world Sample.quiet) = Ok ((), w') ∧
    ∀ k timeout t active w'',
      Poller.poll 1 timeout [] (set_kernel k w') = Ok ((t, active), w'') →
      1 ∉ active.
Proof.
  destruct (reenabled_channel_never_polled 1 (sample_world Sample.quiet)
    sample_registry 1 (mkInfo 5 Channel.ReadEvent Registered)) as (w' & Hrun & _ & Hpoll);
    [|done..|].
  - eexists _, _. apply sample_implements.
  - exists w'. done.
Defined.

Lemma channel_without_owner_asserts_witness :
  Channel.change Channel.withReading 2
    (set_channels {[2 := Channel.Channel_ctor 0 1 6]} (Sample.world 7 Sample.quiet)) = Fault Assertion.
Proof.
  apply (channel_without_owner_asserts _ _ _ (Channel.Channel_ctor 0 1 6)); [reflexivity..|done].
Defined.

End Registry.
