(* ===== verification/Dispatch.v ===== *)
(** * What a loop runs, and in which order

    The callbacks of a channel, the functors of a queue and the iterations of
    a loop, for any targets: the targets are known through [Callbacks] and
    [Functors]. *)

From S2P Require Import Prelude Timestamp Buffer Kernel State CurrentThread Channel Poller.
From S2P Require Import EventLoop Sample.

Module Dispatch.

(** ** The callbacks of a channel *)
Section channel.
Context `{K : Kernel} `{CB : !Callbacks}.

Definition test_entry : Type := (Z → bool) * (Channel → option Callback).

(** The tests of [handleEvents] with their callbacks, in its order. *)
Definition tests : list test_entry :=
  [(Channel.hup, ch_close_cb_); (Channel.err, ch_error_cb_); (Channel.readable, ch_read_cb_);
   (Channel.writable, ch_write_cb_)].

(** The callbacks of [c] that the tests [l] choose for its events. *)
Definition due (l : list test_entry) (c : Channel) : list Callback :=
  omap (λ t : test_entry, if fst t (ch_revents_ c) then snd t c else None) l.

(** What the dispatch of a channel reads from it. *)
Definition same_dispatch (c c' : Channel) : Prop :=
  ch_revents_ c' = ch_revents_ c ∧ ch_close_cb_ c' = ch_close_cb_ c ∧
  ch_error_cb_ c' = ch_error_cb_ c ∧ ch_read_cb_ c' = ch_read_cb_ c ∧
  ch_write_cb_ c' = ch_write_cb_ c.

(** The callbacks leave the reported events and the callbacks of [ch]. *)
Definition keeps_dispatch (ch : Z) (t : Timestamp.Timestamp) : Prop :=
  ∀ cb w w' c, w_channels w !! ch = Some c → call cb t w = Ok ((), w') →
    ∃ c', w_channels w' !! ch = Some c' ∧ same_dispatch c c'.

Lemma due_cons x l c :
  due (x :: l) c =
  match (if fst x (ch_revents_ c) then snd x c else None) with
  | Some f => f :: due l c
  | None => due l c
  end.
Proof. done. Qed.

Lemma due_same l c c' : l ⊆ tests → same_dispatch c c' → due l c' = due l c.
Proof.
  intros Hl (Hr & H1 & H2 & H3 & H4). induction l as [|t l IH]; [done|].
  rewrite !due_cons, Hr.
  assert (snd t c' = snd t c) as ->.
  { assert (t ∈ tests) as Ht by (apply Hl; left). unfold tests in Ht. set_unfold.
    by destruct Ht as [->|[->|[->|[->|[]]]]]. }
  rewrite IH; [done|]. intros x Hx. apply Hl. by right.
Qed.

Lemma run_tests l t ch w c :
  l ⊆ tests → keeps_dispatch ch t → w_channels w !! ch = Some c →
  for_each (λ x, Channel.on_revents (fst x) (snd x) t ch) l w =
  for_each (λ f, call f t) (due l c) w.
Proof.
  intros Hl Hkeep. revert w c. induction l as [|[test cb] l IH]; intros w c Hc; [done|].
  assert (l ⊆ tests) as Hl' by (intros x Hx; apply Hl; by right).
  rewrite due_cons. simpl. unfold mbind at 1, M_bind at 1.
  unfold Channel.on_revents at 1, Channel.dispatch.
  unfold mbind, M_bind, deref. simpl. rewrite Hc. simpl.
  destruct (test (ch_revents_ c)); simpl; [|by apply IH].
  rewrite Hc. destruct (cb c) as [f|]; simpl; [|by apply IH].
  unfold mbind, M_bind. destruct (call f t w) as [[[] w']|] eqn:Hcall; [|done].
  destruct (Hkeep _ _ _ _ Hc Hcall) as (c' & Hc' & Hsame).
  rewrite (IH Hl' w' c' Hc'). by rewrite (due_same l c c').
Qed.

(** [handleEvents] marks the channel, runs the callbacks that are due and
    unmarks it. *)
Lemma handleEvents_due t ch w c :
  keeps_dispatch ch t → w_channels w !! ch = Some c →
  Channel.handleEvents t ch w =
    (_ ← for_each (λ f, call f t) (due tests c);
     modify ch (Channel.setHandling false))
    (set_channels (<[ch := Channel.setHandling true c]> (w_channels w)) w).
Proof.
  intros Hkeep Hc. set (w1 := set_channels _ w).
  pose proof (run_tests tests t ch w1 (Channel.setHandling true c)) as Hrun.
  change (due tests (Channel.setHandling true c)) with (due tests c) in Hrun.
  assert (modify ch (Channel.setHandling true) w = Ok ((), w1)) as Hm.
  { unfold modify, mbind, M_bind, deref, store, update. simpl. by rewrite Hc. }
  unfold Channel.handleEvents, mbind, M_bind. rewrite Hm.
  rewrite <- Hrun by (done || apply lookup_insert_eq). simpl. unfold mbind, M_bind.
  repeat (destruct (Channel.on_revents _ _ t ch _) as [[[] ?]|]; [|done]). done.
Qed.

End channel.

(** ** The queue of functors *)
Section functors.
Context `{K : Kernel} `{B : Build} `{BL : !BuildLaws B} `{FN : !Functors}.

(** The loop while [doPendingFunctors] of the thread [t] runs the functors. *)
Definition draining (t : Z) (loop : EventLoop) : EventLoop :=
  EventLoop.setPending [] (EventLoop.setMutex (Some t) (EventLoop.setCalling true loop)).

Lemma doPendingFunctors_unfold l loop w :
  w_loops w !! l = Some loop → el_mutex_ loop = None →
  EventLoop.doPendingFunctors l w =
    (_ ← for_each run_functor (el_pending_functors_ loop);
     _ ← modify l (EventLoop.setCalling false);
     _ ← EventLoop.unlock l;
     drop_functors (el_pending_functors_ loop)) (LoopFacts.put_loop l (draining (w_tid w) loop) w).
Proof.
  intros Hl Hm.
  assert (modify l (EventLoop.setCalling true) w =
    Ok ((), LoopFacts.put_loop l (EventLoop.setCalling true loop) w)) as H1.
  { unfold modify, mbind, M_bind, deref, store, update. simpl. by rewrite Hl. }
  unfold EventLoop.doPendingFunctors, mbind, M_bind. rewrite H1.
  rewrite (LoopFacts.lock_ok l (EventLoop.setCalling true loop)) by (done || apply lookup_insert_eq).
  unfold deref at 1. simpl. rewrite lookup_insert_eq.
  unfold modify at 1, mbind, M_bind, deref at 1, store, update. simpl.
  rewrite lookup_insert_eq. unfold LoopFacts.put_loop. simpl.
  rewrite !insert_insert_eq. done.
Qed.

Lemma put_loop_thread l loop loop' w :
  in_loop_thread l w → w_loops w !! l = Some loop → el_thread_id_ loop' = el_thread_id_ loop →
  in_loop_thread l (LoopFacts.put_loop l loop' w).
Proof.
  intros Hin Hl Ht. revert Hin. apply in_loop_thread_frame; [done..|]. intros e He. simplify_eq.
  simpl. rewrite lookup_insert_eq. eauto.
Qed.

Lemma put_loop_twice l e e' w :
  LoopFacts.put_loop l e (LoopFacts.put_loop l e' w) = LoopFacts.put_loop l e w.
Proof. unfold LoopFacts.put_loop, set_loops. simpl. by rewrite insert_insert_eq. Qed.

Lemma put_loop_same l e w : w_loops w !! l = Some e → LoopFacts.put_loop l e w = w.
Proof. intros. unfold LoopFacts.put_loop, set_loops. rewrite insert_id by done. by destruct w. Qed.

(** Queueing several functors in the thread of the loop. *)
Lemma queue_all l cbs loop w :
  in_loop_thread l w → w_loops w !! l = Some loop → el_mutex_ loop = None →
  el_calling_pending_functors_ loop = false →
  for_each (EventLoop.queueInLoop l) cbs w =
    Ok ((), LoopFacts.put_loop l (EventLoop.setPending (el_pending_functors_ loop ++ cbs) loop) w).
Proof.
  revert loop w. induction cbs as [|cb cbs IH]; intros loop w Hin Hl Hm Hcall; simpl.
  { rewrite app_nil_r, put_loop_same; [done|]. rewrite Hl. by destruct loop. }
  unfold mbind, M_bind. rewrite (LoopFacts.queueInLoop_ok l cb loop) by done.
  rewrite (IH (LoopFacts.enqueue cb loop)); [|by eapply put_loop_thread|apply lookup_insert_eq|done..].
  rewrite put_loop_twice. simpl. by rewrite <- app_assoc.
Qed.

End functors.

(** ** The iterations *)
Section loop.
Context `{K : Kernel} `{B : Build} `{BL : !BuildLaws B} `{CB : !Callbacks} `{FN : !Functors}.

(** [n] iterations of the [while] of [loop]. *)
Definition iterations (n : nat) (l : LoopPtr) : M unit :=
  for_each (λ _, EventLoop.loop_iteration l) (seq 0 n).

Definition quits (l : LoopPtr) (w : World) (b : bool) : Prop :=
  ∃ loop, w_loops w !! l = Some loop ∧ el_quit_ loop = b.

(** Whether [quit_] is set first after [n] iterations. *)
Fixpoint quits_after (n : nat) (l : LoopPtr) (w w' : World) : Prop :=
  match n with
  | O => quits l w true ∧ w' = w
  | S n => quits l w false ∧ ∃ w1, EventLoop.loop_iteration l w = Ok ((), w1) ∧ quits_after n l w1 w'
  end.

Lemma loop_while_quits n fuel l w w' :
  quits_after n l w w' → (n ≤ fuel)%nat → EventLoop.loop_while fuel l w = Ok (true, w').
Proof.
  revert fuel w. induction n as [|n IH]; intros fuel w Hq Hle.
  - destruct Hq as [(loop & Hl & Hq) ->]. destruct fuel; simpl; unfold mbind, M_bind, deref; simpl;
      by rewrite Hl, Hq.
  - destruct Hq as [(loop & Hl & Hq) (w1 & Hit & Hq')]. destruct fuel as [|fuel]; [lia|].
    simpl. unfold mbind, M_bind, deref. simpl. rewrite Hl, Hq, Hit. apply IH; [done|lia].
Qed.

(** The loop at the start of the [while]. *)
Definition started (loop : EventLoop) : EventLoop :=
  EventLoop.setQuit false (EventLoop.setLooping true loop).

Lemma loop_unfold fuel l loop w :
  in_loop_thread l w → w_loops w !! l = Some loop → el_looping_ loop = false →
  EventLoop.loop fuel l w =
    (ended ← EventLoop.loop_while fuel l;
     if (ended : bool) then _ ← modify l (EventLoop.setLooping false); mret true else mret false)
    (LoopFacts.put_loop l (started loop) w).
Proof.
  intros Hin Hl Hlo. unfold EventLoop.loop, mbind, M_bind, deref at 1. simpl. rewrite Hl, Hlo.
  unfold lift. rewrite assert_true, assertInLoopThread_ok by done.
  unfold modify at 1, mbind, M_bind, deref at 1, store, update. simpl. rewrite Hl.
  unfold modify at 1, mbind, M_bind, deref at 1, store, update. simpl. rewrite lookup_insert_eq.
  unfold set_loops. simpl. rewrite insert_insert_eq. done.
Qed.

End loop.
(** ** Theorems *)
Section theorems.
Context `{K : Kernel} `{B : Build} `{BL : !BuildLaws B} `{CB : !Callbacks} `{FN : !Functors}.

(** C19: [Channel::handleEvents] calls the callbacks that are due for the events
    of the last poll, each at most once and in the order close, error, read,
    write, between setting and clearing [events_handling_]; close is due for a
    hang-up without input, and an empty callback is skipped. *)
Theorem handleEvents_dispatches_in_order t ch w c :
  keeps_dispatch ch t → w_channels w !! ch = Some c →
  Channel.handleEvents t ch w =
    (_ ← for_each (λ f, call f t) (due tests c);
     modify ch (Channel.setHandling false))
    (set_channels (<[ch := Channel.setHandling true c]> (w_channels w)) w).
Proof. apply handleEvents_due. Qed.

(** C16: functors queued in the thread of the loop, after those already queued,
    are run by the next [doPendingFunctors] in the order of queueing, once each,
    with the queue emptied and the mutex held while they run; then the mutex is
    released, and after it what the functors hold. *)
Theorem queued_functors_run_in_order l cbs loop w :
  in_loop_thread l w → w_loops w !! l = Some loop → el_mutex_ loop = None →
  el_calling_pending_functors_ loop = false →
  (_ ← for_each (EventLoop.queueInLoop l) cbs; EventLoop.doPendingFunctors l) w =
    (_ ← for_each run_functor (el_pending_functors_ loop ++ cbs);
     _ ← modify l (EventLoop.setCalling false);
     _ ← EventLoop.unlock l;
     drop_functors (el_pending_functors_ loop ++ cbs)) (LoopFacts.put_loop l (draining (w_tid w) loop) w).
Proof.
  intros Hin Hl Hm Hcall. unfold mbind at 1, M_bind at 1. rewrite (queue_all l cbs loop) by done.
  rewrite (doPendingFunctors_unfold l
    (EventLoop.setPending (el_pending_functors_ loop ++ cbs) loop))
    by (done || apply lookup_insert_eq).
  rewrite put_loop_twice. done.
Qed.

(** C20: when [quit_] is first set during the n-th iteration, [EventLoop::loop]
    runs exactly n iterations and returns with [looping_] cleared; every fuel of
    at least n gives this result. *)
Theorem loop_returns_at_quit n fuel l loop w w' :
  in_loop_thread l w → w_loops w !! l = Some loop → el_looping_ loop = false →
  quits_after n l (LoopFacts.put_loop l (started loop) w) w' → (n ≤ fuel)%nat →
  ∃ loop', w_loops w' !! l = Some loop' ∧
    EventLoop.loop fuel l w =
      Ok (true, LoopFacts.put_loop l (EventLoop.setLooping false loop') w').
Proof.
  intros Hin Hl Hlo Hq Hle. assert (quits l w' true) as (loop' & Hl' & _).
  { clear - Hq. revert Hq. generalize (LoopFacts.put_loop l (started loop) w).
    induction n as [|n IH]; intros w0; simpl; [by intros [? ->]|].
    intros (_ & w1 & _ & Hq). by eapply IH. }
  exists loop'. split; [done|]. rewrite (loop_unfold fuel l loop) by done.
  unfold mbind, M_bind. rewrite (loop_while_quits n fuel l _ w') by done.
  unfold modify, mbind, M_bind, deref, store, update. simpl. by rewrite Hl'.
Qed.

(** A [quit] that another thread makes before the loop starts is lost:
    [loop] clears [quit_] and runs as if it had not been called. *)
Theorem quit_before_loop_ignored fuel l loop w b :
  in_loop_thread l w → w_loops w !! l = Some loop → el_looping_ loop = false →
  EventLoop.loop fuel l (LoopFacts.put_loop l (EventLoop.setQuit b loop) w) =
  EventLoop.loop fuel l w.
Proof.
  intros Hin Hl Hlo. rewrite (loop_unfold fuel l loop w) by done.
  rewrite (loop_unfold fuel l (EventLoop.setQuit b loop));
    [|by eapply put_loop_thread|apply lookup_insert_eq|done].
  rewrite put_loop_twice. done.
Qed.

(** The loop that the constructor builds has no poller: running it in its
    thread faults on the null pointer in the first iteration. *)
Theorem constructed_loop_has_no_poller fuel calling wakeup w :
  w_tid w ≠ 0 → CurrentThread.t_cachedTid w = w_tid w →
  (l ← EventLoop.EventLoop_ctor calling wakeup; EventLoop.loop (S fuel) l) w = Fault NullPointer.
Proof.
  intros Hnz Hc. unfold EventLoop.EventLoop_ctor, mbind, M_bind. rewrite tid_cached by done.
  unfold alloc, read, store, update, mbind, M_bind. simpl.
  set (l := fresh _). set (e := mkEventLoop _ _ _ _ _ _ _ _ _ _ _).
  assert (∀ w1, w_tid w1 = w_tid w → w_cachedTid w1 = w_cachedTid w →
    w_loops w1 = <[l := e]> (w_loops w) → EventLoop.loop (S fuel) l w1 = Fault NullPointer) as Hloop.
  { intros w1 Ht Hca Hlo.
    assert (w_loops w1 !! l = Some e) as Hl by (rewrite Hlo; apply lookup_insert_eq).
    rewrite (loop_unfold _ l e); [|split; [congruence|]|done|done].
    2:{ split; [unfold CurrentThread.t_cachedTid in *; by rewrite Ht, Hca|].
        exists e. split; [done|]. by rewrite Ht. }
    unfold mbind, M_bind. simpl. unfold mbind, M_bind, deref. simpl. rewrite lookup_insert_eq. simpl.
    unfold EventLoop.loop_iteration, modify, mbind, M_bind, deref, store, update. simpl.
    rewrite lookup_insert_eq. unfold Poller.poll, Poller.the_poller, mbind, M_bind, deref. simpl.
    by rewrite lookup_insert_eq. }
  destruct (w_loopInThread w !! w_tid w); simpl; apply Hloop; done.
Qed.

End theorems.

(** ** On the sample process *)

#[local] Existing Instance Scripted.kernel.
#[local] Existing Instance debug_build.

(** Targets that leave a mark in the trace; the functor 9 quits the loop 1. *)
Definition mark (cb : Callback) : Z :=
  match cb with
  | cb_handleRead _ => 1
  | cb_handleWrite _ => 2
  | cb_handleError _ => 3
  | cb_handleClose _ => 4
  | cb_acceptorRead _ => 5
  | cb_timerRead _ => 6
  end.

#[local] Instance marking_callbacks : Callbacks := {| call cb _ := emit (EvClose (mark cb)) |}.
#[local] Instance marking_functors : Functors := {|
  run_functor f :=
    match f with
    | fn_user f => if f =? 9 then EventLoop.quit 1 else emit (EvListen f)
    | _ => mret ()
    end;
  drop_functors _ := mret ()
|}.

(** The loop before [loop] is called. *)
Definition idle_world (pending : list Functor) (k : Scripted.state) : World :=
  LoopFacts.put_loop 1 (EventLoop.setPending pending (EventLoop.setLooping false Sample.loop))
    (Sample.world 7 k).

Lemma idle_in_loop_thread pending k : in_loop_thread 1 (idle_world pending k).
Proof. split; [done|]. split; [done|]. by eexists. Qed.

Lemma handleEvents_dispatches_in_order_witness :
  let c := Channel.setRevents (Z.lor POLLIN (Z.lor POLLOUT POLLERR)) Sample.chan in
  ∃ w', Channel.handleEvents (CB := marking_callbacks) Timestamp.invalid 1
      (set_channels {[1 := c]} (Sample.world 7 Sample.quiet)) = Ok ((), w') ∧
    w_trace w' = [EvClose 3; EvClose 1; EvClose 2].
Proof.
  intros c. eexists. split; [|shelve].
  rewrite (handleEvents_dispatches_in_order _ 1 _ c); [reflexivity| |reflexivity].
  intros cb w w' c' Hc [= <-]. exists c'. split; [done|]. repeat split.
  Unshelve. reflexivity.
Defined.

Lemma queued_functors_run_in_order_witness :
  ∃ w', (_ ← for_each (EventLoop.queueInLoop 1) [fn_user 1; fn_user 2];
         EventLoop.doPendingFunctors 1) (idle_world [fn_user 5] Sample.quiet) = Ok ((), w') ∧
    w_trace w' = [EvListen 5; EvListen 1; EvListen 2].
Proof.
  eexists. split; [|shelve].
  rewrite (queued_functors_run_in_order 1 _ _ _ (idle_in_loop_thread _ _) eq_refl eq_refl eq_refl).
  reflexivity. Unshelve. reflexivity.
Defined.

(** The process after the iteration whose functors leave a mark and quit. *)
Definition quit_world : World :=
  let w := LoopFacts.put_loop 1
    (started (EventLoop.setPending [fn_user 1; fn_user 9] (EventLoop.setLooping false Sample.loop)))
    (idle_world [fn_user 1; fn_user 9] Sample.quiet) in
  match EventLoop.loop_iteration 1 w with Ok (_, w') => w' | Fault _ => w end.

Lemma loop_returns_at_quit_witness :
  ∃ loop', w_loops quit_world !! 1 = Some loop' ∧
    EventLoop.loop 4 1 (idle_world [fn_user 1; fn_user 9] Sample.quiet) =
      Ok (true, LoopFacts.put_loop 1 (EventLoop.setLooping false loop') quit_world) ∧
    w_trace quit_world = [EvListen 1].
Proof.
  destruct (loop_returns_at_quit 1 4 1
    (EventLoop.setPending [fn_user 1; fn_user 9] (EventLoop.setLooping false Sample.loop))
    (idle_world [fn_user 1; fn_user 9] Sample.quiet) quit_world) as (loop' & Hl & Hrun).
  - apply idle_in_loop_thread.
  - reflexivity.
  - reflexivity.
  - split; [by eexists|]. exists quit_world. split; [vm_compute; reflexivity|].
    split; [|reflexivity]. eexists. split; vm_compute; reflexivity.
  - lia.
  - exists loop'. split; [exact Hl|]. split; [exact Hrun|vm_compute; reflexivity].
Defined.

Lemma quit_before_loop_ignored_witness :
  EventLoop.loop 3 1 (LoopFacts.put_loop 1 (EventLoop.setQuit true
    (EventLoop.setPending [] (EventLoop.setLooping false Sample.loop))) (idle_world [] Sample.quiet)) =
  EventLoop.loop 3 1 (idle_world [] Sample.quiet).
Proof.
  apply (quit_before_loop_ignored 3 1 _ _ true (idle_in_loop_thread _ _) eq_refl eq_refl).
Defined.

Lemma constructed_loop_has_no_poller_witness :
  (l ← EventLoop.EventLoop_ctor false 0; EventLoop.loop 1 l) (Sample.world 7 Sample.quiet) =
    Fault NullPointer.
Proof. apply (constructed_loop_has_no_poller 0 false 0); done. Defined.

End Dispatch.
