(* ===== verification/SocketsOptions.v ===== *)
(** * Socket options (src/src/include/sockets_options.h, src/src/sockets_options.cpp)

    The wrappers of the socket calls: each makes its call, and only logs a
    failure.  A build with [VALGRIND] has no [accept4] and no flags of [socket]: it sets the
    flags of a new descriptor with [fcntl], in the second half of this file. *)

From S2P Require Import Prelude Timestamp Buffer Kernel State.

Module sockets.
Section operations.
Context `{K : Kernel}.

(** A failure is logged and the descriptor -1 returned. *)
Definition createNonblockingOrDie : M Z :=
  r ← syscall (sys_socket (Z.lor (Z.lor SOCK_STREAM SOCK_NONBLOCK) SOCK_CLOEXEC) IPPROTO_TCP);
  mret (match r with Ret sockfd => sockfd | Err _ => -1 end).

Definition bindOrDie (sockfd : Z) (addr : sockaddr_in) : M unit :=
  _ ← syscall (sys_bind sockfd addr);
  mret ().

Definition listenOrDie (sockfd : Z) : M unit :=
  _ ← syscall (sys_listen sockfd);
  emit (EvListen sockfd).

(** The [switch] on the error of a failed [accept4] logs and restores [errno], which no caller
    reads; it is [accept_switch] below, where the [VALGRIND] build is about [errno]. *)
Definition accept (sockfd : Z) : M (Z * sockaddr_in) :=
  '(r, addr) ← syscall (sys_accept sockfd);
  match r with
  | Ret connfd => _ ← emit (EvAccept connfd); mret (connfd, addr)
  | Err _ => mret (-1, addr)
  end.

Definition close (sockfd : Z) : M unit :=
  _ ← syscall (sys_close sockfd);
  emit (EvClose sockfd).

Definition shutdownWrite (sockfd : Z) : M unit :=
  _ ← syscall (sys_shutdown_wr sockfd);
  emit (EvShutdownWrite sockfd).

(** [bzero] of the address, filled by [getsockname] when the call succeeds. *)
Definition getLocalAddr (sockfd : Z) : M sockaddr_in :=
  '(r, addr) ← syscall (sys_getsockname sockfd);
  mret (match r with Ret _ => addr | Err _ => mkSockaddr 0 0 0 end).

Definition getSocketError (sockfd : Z) : M Z :=
  '(r, optval) ← syscall (sys_so_error sockfd);
  mret (match r with Ret _ => optval | Err errno => errno end).

End operations.

(** ** The build with [VALGRIND]

    [errno] is passed along, since [accept] reads it after the calls of [fcntl]. *)

Definition F_GETFD : Z := 1.
Definition F_SETFD : Z := 2.
Definition F_GETFL : Z := 3.
Definition F_SETFL : Z := 4.
Definition FD_CLOEXEC : Z := 1.
Definition O_NONBLOCK : Z := 0x800.

(** [errno] values on Linux *)
Definition EPERM : Z := 1.
Definition EINTR : Z := 4.
Definition EBADF : Z := 9.
Definition EAGAIN : Z := 11.
Definition ENOMEM : Z := 12.
Definition EFAULT : Z := 14.
Definition EINVAL : Z := 22.
Definition ENFILE : Z := 23.
Definition EMFILE : Z := 24.
Definition EPROTO : Z := 71.
Definition ENOTSOCK : Z := 88.
Definition EOPNOTSUPP : Z := 95.
Definition ECONNABORTED : Z := 103.
Definition ENOBUFS : Z := 105.

(** The branches of the [switch] of [accept]: [errno] is put back, or one of two lines is logged. *)
Inductive accept_error : Type :=
  | ExpectedError
  | UnexpectedError
  | UnknownError.

Definition accept_switch (savedErrno : Z) : accept_error :=
  if bool_decide (savedErrno ∈ [EAGAIN; ECONNABORTED; EINTR; EPROTO; EPERM; EMFILE]) then ExpectedError
  else if bool_decide (savedErrno ∈ [EBADF; EFAULT; EINVAL; ENFILE; ENOBUFS; ENOMEM; ENOTSOCK; EOPNOTSUPP])
  then UnexpectedError
  else UnknownError.

(** [fcntl] of a descriptor, a command and an argument; [accept] without flags. *)
Class FileControl (K : Kernel) : Type := {
  sys_fcntl : Z → Z → Z → kstate → sysret * kstate;
  sys_accept_plain : Z → kstate → sysret * sockaddr_in * kstate
}.

Section valgrind.
Context `{K : Kernel} `{F : !FileControl K}.

(** The result of the call, -1 on failure, and [errno] after it. *)
Definition fcntl (sockfd cmd arg errno : Z) : M (Z * Z) :=
  r ← syscall (sys_fcntl sockfd cmd arg);
  mret (match r with Ret n => (n, errno) | Err e => (-1, e) end).

Definition setNonBlockAndCloseOnExec (sockfd errno : Z) : M Z :=
  '(flags, errno) ← fcntl sockfd F_GETFL 0 errno;
  '(_, errno) ← fcntl sockfd F_SETFL (Z.lor flags O_NONBLOCK) errno;
  '(flags, errno) ← fcntl sockfd F_GETFD 0 errno;
  '(_, errno) ← fcntl sockfd F_SETFD (Z.lor flags FD_CLOEXEC) errno;
  mret errno.

Definition valgrind_createNonblockingOrDie (errno : Z) : M Z :=
  r ← syscall (sys_socket SOCK_STREAM IPPROTO_TCP);
  let '(sockfd, errno) := match r with Ret n => (n, errno) | Err e => (-1, e) end in
  _ ← setNonBlockAndCloseOnExec sockfd errno;
  mret sockfd.

(** Besides the descriptor and the address, the branch of the [switch] after a failure. *)
Definition valgrind_accept (sockfd errno : Z) : M (Z * sockaddr_in * option accept_error) :=
  '(r, addr) ← syscall (sys_accept_plain sockfd);
  connfd_errno ←
    match r with
    | Ret connfd => _ ← emit (EvAccept connfd); mret (connfd, errno)
    | Err e => mret (-1, e)
    end;
  let '(connfd, errno) := connfd_errno in
  savedErrno ← setNonBlockAndCloseOnExec connfd errno;
  mret (connfd, addr, if connfd <? 0 then Some (accept_switch savedErrno) else None).

End valgrind.
End sockets.
