(* ===== verification/SocketFlags.v ===== *)
(** * The flags of new descriptors

    A build with [VALGRIND] sets the flags of a descriptor after it has it, the other
    build asks [socket] and [accept4] for them: with the meaning of the calls, both end in the
    same state, except for the [errno] that a failed [accept] looks at. *)

From S2P Require Import Prelude Timestamp Buffer Kernel State Descriptors SocketsOptions.

(** The two words of flags of an open descriptor: the status flags of the file and the flags of
    the descriptor itself. *)
Class FileFlags (K : Kernel) : Type := {
  status_flags : Z → kstate → Z;
  descriptor_flags : Z → kstate → Z;
  put_status : Z → Z → kstate → kstate;
  put_descriptor : Z → Z → kstate → kstate
}.

(** fcntl(2), accept4(2) and socket(2): [fcntl] reads and writes the flags of an open descriptor and
    fails with [EBADF] on another; [SOCK_NONBLOCK] and [SOCK_CLOEXEC] set a flag each. *)
Class FileControlLaws (K : Kernel) `{D : !Descriptors K} `{F : !sockets.FileControl K} `{FF : !FileFlags K} : Prop := {
  fcntl_bad fd cmd a k : fd ∉ open_fds k → sockets.sys_fcntl fd cmd a k = (Err sockets.EBADF, k);
  fcntl_getfl fd a k : fd ∈ open_fds k → sockets.sys_fcntl fd sockets.F_GETFL a k = (Ret (status_flags fd k), k);
  fcntl_setfl fd v k : fd ∈ open_fds k → sockets.sys_fcntl fd sockets.F_SETFL v k = (Ret 0, put_status fd v k);
  fcntl_getfd fd a k : fd ∈ open_fds k →
    sockets.sys_fcntl fd sockets.F_GETFD a k = (Ret (descriptor_flags fd k), k);
  fcntl_setfd fd v k : fd ∈ open_fds k →
    sockets.sys_fcntl fd sockets.F_SETFD v k = (Ret 0, put_descriptor fd v k);
  put_status_open fd v k : open_fds (put_status fd v k) = open_fds k;
  put_status_descriptor fd v k : descriptor_flags fd (put_status fd v k) = descriptor_flags fd k;
  negative_closed fd k : fd < 0 → fd ∉ open_fds k;
  accept_plain_open fd k n a k' : sockets.sys_accept_plain fd k = (Ret n, a, k') → 0 ≤ n ∧ n ∈ open_fds k';
  accept4_flags fd k :
    sys_accept fd k =
      let '(r, a, k') := sockets.sys_accept_plain fd k in
      (r, a, match r with
             | Ret n => put_descriptor n (Z.lor (descriptor_flags n k') sockets.FD_CLOEXEC)
                          (put_status n (Z.lor (status_flags n k') sockets.O_NONBLOCK) k')
             | Err _ => k'
             end);
  socket_open type proto k n k' : sys_socket type proto k = (Ret n, k') → n ∈ open_fds k';
  socket_flags k :
    sys_socket (Z.lor (Z.lor SOCK_STREAM SOCK_NONBLOCK) SOCK_CLOEXEC) IPPROTO_TCP k =
      let '(r, k') := sys_socket SOCK_STREAM IPPROTO_TCP k in
      (r, match r with
          | Ret n => put_descriptor n (Z.lor (descriptor_flags n k') sockets.FD_CLOEXEC)
                       (put_status n (Z.lor (status_flags n k') sockets.O_NONBLOCK) k')
          | Err _ => k'
          end)
}.

Module SocketFlags.

Section flags.
Context `{K : Kernel} `{D : !Descriptors K} `{F : !sockets.FileControl K} `{FF : !FileFlags K}.
Context `{FL : !FileControlLaws K}.

(** The kernel with both flags set on the descriptor *)
Definition flagged (fd : Z) (k : kstate) : kstate :=
  put_descriptor fd (Z.lor (descriptor_flags fd k) sockets.FD_CLOEXEC)
    (put_status fd (Z.lor (status_flags fd k) sockets.O_NONBLOCK) k).

Lemma set_flags_open fd errno w :
  fd ∈ open_fds (w_kernel w) →
  sockets.setNonBlockAndCloseOnExec fd errno w = Ok (errno, set_kernel (flagged fd (w_kernel w)) w).
Proof.
  intros Hin. unfold sockets.setNonBlockAndCloseOnExec, sockets.fcntl, mbind, M_bind, syscall.
  rewrite fcntl_getfl by done. simpl. rewrite fcntl_setfl by done. simpl.
  rewrite fcntl_getfd, put_status_descriptor by by rewrite put_status_open. simpl.
  rewrite fcntl_setfd by by rewrite put_status_open. done.
Qed.

(** On the descriptor -1 every call fails and leaves its own [errno]. *)
Lemma set_flags_bad fd errno w :
  fd ∉ open_fds (w_kernel w) → sockets.setNonBlockAndCloseOnExec fd errno w = Ok (sockets.EBADF, w).
Proof.
  intros Hin. unfold sockets.setNonBlockAndCloseOnExec, sockets.fcntl, mbind, M_bind, syscall.
  do 4 (rewrite fcntl_bad by done; simpl). by destruct w.
Qed.

(** C39: the two builds accept alike.  The build with [VALGRIND] returns the same
    descriptor and address and leaves the same process, the descriptor non-blocking and closed on
    exec, as the build with [accept4]; but when no connection is accepted, its calls of [fcntl] on -1 overwrite
    [errno], so the [switch] takes every failure, the expected [EAGAIN] too, for an unexpected one. *)
Theorem valgrind_accept_outcomes sockfd errno w :
  sockets.valgrind_accept sockfd errno w =
    match sockets.accept sockfd w with
    | Ok ((connfd, addr), w') =>
        Ok ((connfd, addr, if connfd <? 0 then Some sockets.UnexpectedError else None), w')
    | Fault f => Fault f
    end.
Proof.
  unfold sockets.valgrind_accept, sockets.accept, mbind, M_bind, syscall.
  rewrite accept4_flags. destruct (sockets.sys_accept_plain sockfd (w_kernel w)) as [[[n|e] a] k] eqn:Hacc; simpl.
  - destruct (accept_plain_open _ _ _ _ _ Hacc) as [Hn Hin]. rewrite set_flags_open by done. simpl.
    by rewrite (proj2 (Z.ltb_ge _ _)).
  - by rewrite set_flags_bad by by apply negative_closed.
Qed.

(** The listening sockets of the two builds are the same. *)
Theorem valgrind_socket_equivalent errno w :
  sockets.valgrind_createNonblockingOrDie errno w = sockets.createNonblockingOrDie w.
Proof.
  unfold sockets.valgrind_createNonblockingOrDie, sockets.createNonblockingOrDie, mbind, M_bind, syscall.
  rewrite socket_flags. destruct (sys_socket _ _ _) as [[n|e] k] eqn:Hs; simpl.
  - by rewrite set_flags_open by by eapply socket_open.
  - by rewrite set_flags_bad by by apply negative_closed.
Qed.

End flags.

End SocketFlags.

(** ** A kernel that keeps the flags of its descriptors *)
Module Flagged.

(** The table of descriptors with the two words of flags of each, 0 by default *)
Definition state : Type := Tabled.state * gmap Z (Z * Z).

Definition flags (fd : Z) (k : state) : Z * Z := default (0, 0) (snd k !! fd).

Definition lifted {A} (f : Tabled.state → A * Tabled.state) (k : state) : A * state :=
  let '(a, k') := f (fst k) in (a, (k', snd k)).

Definition put (fd : Z) (v : Z * Z) (k : state) : state := (fst k, <[fd := v]> (snd k)).

(** No negative number is a descriptor. *)
Definition open (k : state) : gset Z := filter (λ fd, 0 ≤ fd) (open_fds (Descriptors := Tabled.table) (fst k)).

(** The flags that [socket] and [accept4] were asked for are set on the descriptor they give. *)
Definition with_flags (type : Z) (r : sysret) (k : state) : state :=
  match r with
  | Ret n =>
      let '(s, d) := flags n k in
      let s' := if Z.testbit type 11 then Z.lor s sockets.O_NONBLOCK else s in
      let d' := if Z.testbit type 19 then Z.lor d sockets.FD_CLOEXEC else d in
      if Z.testbit type 11 || Z.testbit type 19 then put n (s', d') k else k
  | Err _ => k
  end.

Definition socket (type proto : Z) (k : state) : sysret * state :=
  let '(r, k') := lifted (Tabled.socket type proto) k in (r, with_flags type r k').

Definition accept_plain (fd : Z) (k : state) : sysret * sockaddr_in * state := lifted (Tabled.accept fd) k.

Definition accept4 (fd : Z) (k : state) : sysret * sockaddr_in * state :=
  let '(r, a, k') := accept_plain fd k in (r, a, with_flags (Z.lor SOCK_NONBLOCK SOCK_CLOEXEC) r k').

Definition fcntl (fd cmd arg : Z) (k : state) : sysret * state :=
  if decide (fd ∈ open k) then
    if cmd =? sockets.F_GETFL then (Ret (fst (flags fd k)), k)
    else if cmd =? sockets.F_SETFL then (Ret 0, put fd (arg, snd (flags fd k)) k)
    else if cmd =? sockets.F_GETFD then (Ret (snd (flags fd k)), k)
    else (Ret 0, put fd (fst (flags fd k), arg) k)
  else (Err sockets.EBADF, k).

#[export] Instance kernel : Kernel := {|
  kstate := state;
  sys_poll fds t := lifted (Tabled.poll fds t);
  sys_gettimeofday := lifted (sys_gettimeofday (Kernel := Tabled.kernel));
  sys_write fd d := lifted (sys_write (Kernel := Tabled.kernel) fd d);
  sys_readv fd room := lifted (sys_readv (Kernel := Tabled.kernel) fd room);
  sys_read fd n := lifted (sys_read (Kernel := Tabled.kernel) fd n);
  sys_shutdown_wr fd := lifted (sys_shutdown_wr (Kernel := Tabled.kernel) fd);
  sys_socket := socket;
  sys_bind fd a := lifted (sys_bind (Kernel := Tabled.kernel) fd a);
  sys_setsockopt fd l o v := lifted (sys_setsockopt (Kernel := Tabled.kernel) fd l o v);
  sys_listen fd := lifted (sys_listen (Kernel := Tabled.kernel) fd);
  sys_accept := accept4;
  sys_close fd := lifted (Tabled.close fd);
  sys_getsockname fd := lifted (sys_getsockname (Kernel := Tabled.kernel) fd);
  sys_so_error fd := lifted (sys_so_error (Kernel := Tabled.kernel) fd);
  sys_timerfd_create := lifted (sys_timerfd_create (Kernel := Tabled.kernel));
  sys_timerfd_settime fd s n := lifted (sys_timerfd_settime (Kernel := Tabled.kernel) fd s n)
|}.

#[export] Instance table : Descriptors kernel := {| open_fds := open |}.

#[export] Instance file_control : sockets.FileControl kernel := {|
  sockets.sys_fcntl := fcntl;
  sockets.sys_accept_plain := accept_plain
|}.

#[export] Instance file_flags : FileFlags kernel := {|
  status_flags fd k := fst (flags fd k : Z * Z);
  descriptor_flags fd k := snd (flags fd k : Z * Z);
  put_status fd v k := put fd (v, snd (flags fd k)) k;
  put_descriptor fd v k := put fd (fst (flags fd k), v) k
|}.

Lemma flags_put fd v k : flags fd (put fd v k) = v.
Proof. unfold flags, put. simpl. by rewrite lookup_insert_eq. Qed.

Lemma put_put fd v v' k : put fd v (put fd v' k) = put fd v k.
Proof. unfold put. simpl. by rewrite insert_insert_eq. Qed.

(** Both flags in one update, or in two *)
Lemma with_both n type k :
  Z.testbit type 11 = true → Z.testbit type 19 = true →
  with_flags type (Ret n) k =
    put_descriptor n (Z.lor (descriptor_flags n k) sockets.FD_CLOEXEC)
      (put_status n (Z.lor (status_flags n k) sockets.O_NONBLOCK) k).
Proof.
  intros H1 H2. cbv [with_flags put_descriptor put_status descriptor_flags status_flags file_flags].
  rewrite flags_put, put_put, H1, H2. by destruct (flags n k).
Qed.

Lemma in_open n k : 0 ≤ n → n ∈ open_fds (Descriptors := Tabled.table) (fst k) → n ∈ open k.
Proof. intros ? ?. unfold open. by rewrite elem_of_filter. Qed.

#[local] Existing Instance Tabled.kernel_laws.
#[local] Existing Instance Tabled.descriptor_laws.

#[export] Instance file_control_laws : FileControlLaws kernel.
Proof.
  constructor.
  - intros fd cmd a k Hn. cbn. unfold fcntl. by rewrite decide_False.
  - intros fd a k Hin. cbn. unfold fcntl. by rewrite decide_True.
  - intros fd v k Hin. cbn. unfold fcntl. by rewrite decide_True.
  - intros fd a k Hin. cbn. unfold fcntl. by rewrite decide_True.
  - intros fd v k Hin. cbn. unfold fcntl. by rewrite decide_True.
  - done.
  - intros fd v k. cbn. by rewrite flags_put.
  - intros fd k Hlt. cbn. unfold open. rewrite elem_of_filter. lia.
  - intros fd k n a k' H. cbn in H. unfold accept_plain, lifted in H.
    destruct (Tabled.accept fd (fst k)) as [[r a'] k1] eqn:Hacc. simplify_eq.
    pose proof (accept_fd (K := Tabled.kernel) _ _ _ _ _ Hacc). split; [done|].
    apply in_open; [done|]. by apply (fds_accept (K := Tabled.kernel) (D := Tabled.table)) in Hacc as [_ [_ ?]].
  - intros fd k. cbn. unfold accept4. destruct (accept_plain fd k) as [[[n|e] a] k1]; [|done].
    by rewrite with_both.
  - intros ty pr k n k' H. cbn in H. unfold socket, lifted in H.
    destruct (Tabled.socket ty pr (fst k)) as [r k1] eqn:Hs. simplify_eq.
    apply (fds_socket (K := Tabled.kernel) (D := Tabled.table)) in Hs as [_ (? & _ & ?)].
    assert (fst (with_flags ty (Ret n) (k1, snd k)) = k1) as Hf.
    { unfold with_flags. destruct (flags n _). by case_match. }
    apply in_open; [done|]. change (n ∈ open_fds (Descriptors := Tabled.table) (fst (with_flags ty (Ret n) (k1, snd k)))).
    by rewrite Hf.
  - intros k. cbn. unfold socket. 
    change (lifted (Tabled.socket _ _) k) with (lifted (Tabled.socket SOCK_STREAM IPPROTO_TCP) k).
    destruct (lifted _ k) as [[n|e] k1]; [|done].
    assert (with_flags SOCK_STREAM (Ret n) k1 = k1) as -> by (unfold with_flags; by destruct (flags n k1)).
    by rewrite with_both.
Qed.

(** A client is accepted on the descriptor 9, whose flags are set; the next call finds none, and what
    [EAGAIN] makes of [errno] is lost. *)
Definition client : state := ((Scripted.mkState [] [] [] [] [(Ret 9, Scripted.null_addr)], {[3]}), ∅).

Definition process : World := {|
  w_kernel := client; w_tid := 7; w_cachedTid := {[7 := 7]}; w_loopInThread := ∅;
  w_channels := ∅; w_loops := ∅; w_conns := ∅; w_acceptors := ∅; w_pools := ∅; w_servers := ∅;
  w_timers := ∅; w_timerQueues := ∅; w_trace := []
|}.

Lemma valgrind_accept_outcomes_witness :
  ∃ w1 w2, sockets.valgrind_accept 3 0 process = Ok ((9, Scripted.null_addr, None), w1) ∧
    flags 9 (w_kernel w1) = (sockets.O_NONBLOCK, sockets.FD_CLOEXEC) ∧
    sockets.valgrind_accept 3 0 w1 = Ok ((-1, Scripted.null_addr, Some sockets.UnexpectedError), w2) ∧
    sockets.accept_switch EWOULDBLOCK = sockets.ExpectedError.
Proof.
  pose proof (SocketFlags.valgrind_accept_outcomes 3 0 process) as H1.
  assert (match sockets.accept 3 process with
          | Ok ((n, a), w) => Some (n, a, flags 9 (w_kernel w),
              match sockets.accept 3 w with Ok ((n', a'), w') => Some (n', a') | Fault _ => None end)
          | Fault _ => None
          end = Some (9, Scripted.null_addr, (sockets.O_NONBLOCK, sockets.FD_CLOEXEC), Some (-1, Scripted.null_addr)))
    as Hrun by (vm_compute; reflexivity).
  destruct (sockets.accept 3 process) as [[[n a] w1]|f]; [|discriminate].
  pose proof (SocketFlags.valgrind_accept_outcomes 3 0 w1) as H2.
  injection Hrun as -> -> Hf H3. destruct (sockets.accept 3 w1) as [[[n' a'] w2]|f]; [|discriminate].
  injection H3 as -> ->. by exists w1, w2.
Defined.

End Flagged.
