(* ===== verification/Socket.v ===== *)
(** * Sockets (src/src/include/socket.h, src/src/socket.cpp)

    [Socket] is the owner of a descriptor, so a [Socket] object is its
    descriptor. *)

From S2P Require Import Prelude Timestamp Buffer Kernel State SocketsOptions.

Module Socket.
Section operations.
Context `{K : Kernel}.

(** [accept] assigns the peer only when a connection was accepted. *)
Definition accept (sockfd : Z) (peeraddr : sockaddr_in) : M (Z * sockaddr_in) :=
  '(connfd, addr) ← sockets.accept sockfd;
  mret (connfd, if 0 <=? connfd then addr else peeraddr).

Definition bindAddress (sockfd : Z) (addr : sockaddr_in) : M unit :=
  sockets.bindOrDie sockfd addr.

Definition listen (sockfd : Z) : M unit := sockets.listenOrDie sockfd.

Definition set_option (sockfd level option : Z) (on : bool) : M unit :=
  _ ← syscall (sys_setsockopt sockfd level option (if on then 1 else 0));
  mret ().

Definition setReuseAddr (sockfd : Z) (on : bool) : M unit :=
  set_option sockfd SOL_SOCKET SO_REUSEADDR on.

Definition setTcpNoDelay (sockfd : Z) (on : bool) : M unit :=
  set_option sockfd IPPROTO_TCP TCP_NODELAY on.

Definition setKeepAlive (sockfd : Z) (on : bool) : M unit :=
  set_option sockfd SOL_SOCKET SO_KEEPALIVE on.

Definition shutdownWrite (sockfd : Z) : M unit := sockets.shutdownWrite sockfd.

(** The destructor *)
Definition Socket_dtor (sockfd : Z) : M unit := sockets.close sockfd.

End operations.
End Socket.
