(* ===== verification/InetAddr.v ===== *)
(** * Internet addresses (src/src/include/sockets_options.h,
      src/src/sockets_options.cpp, src/src/include/inet_addr.h, src/src/inet_addr.cpp)

    The byte-order conversions of a little-endian host, the textual form
    [host:port] of an address and its construction from text. *)

From Stdlib Require Import Ascii.
From S2P Require Import Prelude Format Timestamp Buffer Kernel.

Module InetAddress.

(** ** Byte order *)

(** The low [n] bytes of a number, least significant first. *)
Fixpoint le_bytes (n : nat) (x : Z) : list Z :=
  match n with O => [] | S n => x mod 256 :: le_bytes n (x / 256) end.

Fixpoint from_le (l : list Z) : Z :=
  match l with [] => 0 | b :: l => b + 256 * from_le l end.

(** [htobe64], [htonl], [htons] and their inverses reverse the bytes. *)
Definition bswap (n : nat) (x : Z) : Z := from_le (rev (le_bytes n x)).

Definition hostToNetwork64 : Z → Z := bswap 8.
Definition hostToNetwork32 : Z → Z := bswap 4.
Definition hostToNetwork16 : Z → Z := bswap 2.
Definition networkToHost64 : Z → Z := bswap 8.
Definition networkToHost32 : Z → Z := bswap 4.
Definition networkToHost16 : Z → Z := bswap 2.

(** ** Text *)

(** [inet_ntop(AF_INET)]: the bytes of the address in memory order *)
Definition inet_ntop (sin_addr : Z) : string :=
  match le_bytes 4 sin_addr with
  | [a; b; c; d] =>
      Format.dec a +:+ "." +:+ Format.dec b +:+ "." +:+ Format.dec c +:+ "." +:+ Format.dec d
  | _ => ""
  end.

(** [sockets::toHostPort]: [host] has [INET_ADDRSTRLEN] characters, which are
    enough for the form above. *)
Definition toHostPort_ (size : nat) (addr : sockaddr_in) : string :=
  Format.snprintf size
    (inet_ntop (sin_addr addr) +:+ ":" +:+ Format.dec (networkToHost16 (sin_port addr))).

(** [InetAddress::toHostPort], with [char buf[32]] *)
Definition toHostPort (addr : sockaddr_in) : string := toHostPort_ 32 addr.

Definition kInaddrAny : Z := 0.

(** [InetAddress(uint16_t port)] *)
Definition InetAddress_port (port : Z) : sockaddr_in := {|
  sin_family := AF_INET;
  sin_port := hostToNetwork16 port;
  sin_addr := hostToNetwork32 kInaddrAny
|}.

(** [inet_pton(AF_INET)]: four decimal numbers below 256 without leading
    zeros, separated by dots.  [acc] holds the numbers read, [cur] the one being
    read. *)
Fixpoint pton (acc : list Z) (cur : option Z) (s : string) : option (list Z) :=
  match s with
  | EmptyString =>
      match cur with
      | Some x => if (length acc =? 3)%nat then Some (acc ++ [x]) else None
      | None => None
      end
  | String ch s =>
      let d := Format.char_digit ch in
      if (0 <=? d) && (d <=? 9) then
        match cur with
        | Some x => if (x =? 0) || (255 <? x * 10 + d) then None else pton acc (Some (x * 10 + d)) s
        | None => if (3 <? length acc)%nat then None else pton acc (Some d) s
        end
      else if (nat_of_ascii ch =? 46)%nat then
        match cur with
        | Some x => if (length acc =? 3)%nat then None else pton (acc ++ [x]) None s
        | None => None
        end
      else None
  end.

Definition inet_pton (s : string) : option Z := from_le <$> pton [] None s.

(** [sockets::fromHostPort]: an address that does not parse leaves [sin_addr]
    as it is. *)
Definition fromHostPort (ip : string) (port : Z) (addr : sockaddr_in) : sockaddr_in := {|
  sin_family := AF_INET;
  sin_port := hostToNetwork16 port;
  sin_addr := default (sin_addr addr) (inet_pton ip)
|}.

(** [InetAddress(const std::string& ip, uint16_t port)], from the zeroed
    address *)
Definition InetAddress_ip (ip : string) (port : Z) : sockaddr_in :=
  fromHostPort ip port (mkSockaddr 0 0 0).

Definition setSockAddrInet (addr : sockaddr_in) (_ : sockaddr_in) : sockaddr_in := addr.

(** ** Facts *)

Lemma length_le_bytes n x : length (le_bytes n x) = n.
Proof. revert x. induction n as [|n IH]; intros x; simpl; [done|]. by rewrite IH. Qed.

Lemma le_bytes_range n x : Forall (λ b, 0 ≤ b < 256) (le_bytes n x).
Proof.
  revert x. induction n as [|n IH]; intros x; simpl; constructor; [|done].
  apply Z.mod_pos_bound. lia.
Qed.

Lemma le_bytes_from_le l :
  Forall (λ b, 0 ≤ b < 256) l → le_bytes (length l) (from_le l) = l.
Proof.
  induction 1 as [|b l Hb Hl IH]; [done|]. cbn [length le_bytes from_le].
  rewrite (Z.mul_comm 256), Z.mod_add, Z.div_add by lia.
  by rewrite Z.mod_small, Z.div_small, Z.add_0_l, IH by lia.
Qed.

Lemma from_le_le_bytes n x : 0 ≤ x < 256 ^ Z.of_nat n → from_le (le_bytes n x) = x.
Proof.
  revert x. induction n as [|n IH]; intros x Hx; [simpl in *; lia|].
  rewrite Nat2Z.inj_succ, Z.pow_succ_r in Hx by lia. cbn [le_bytes from_le].
  rewrite IH; [pose proof (Z.div_mod x 256); lia|].
  split; [apply Z.div_pos; lia|apply Z.div_lt_upper_bound; lia].
Qed.

Lemma from_le_range l :
  Forall (λ b, 0 ≤ b < 256) l → 0 ≤ from_le l < 256 ^ Z.of_nat (length l).
Proof.
  induction 1 as [|b l Hb Hl IH]; [simpl; lia|]. cbn [length from_le].
  rewrite Nat2Z.inj_succ, Z.pow_succ_r by lia. lia.
Qed.

(** Reversing the bytes twice is the identity on [n]-byte numbers. *)
Lemma bswap_involutive n x : 0 ≤ x < 256 ^ Z.of_nat n → bswap n (bswap n x) = x.
Proof.
  intros Hx. unfold bswap.
  replace n with (length (rev (le_bytes n x))) at 1 by (by rewrite length_rev, length_le_bytes).
  rewrite le_bytes_from_le, rev_involutive.
  - by apply from_le_le_bytes.
  - apply Forall_rev, le_bytes_range.
Qed.

Lemma bswap_range n x : 0 ≤ bswap n x < 256 ^ Z.of_nat n.
Proof.
  pose proof (from_le_range (rev (le_bytes n x))) as H.
  rewrite length_rev, length_le_bytes in H. apply H, Forall_rev, le_bytes_range.
Qed.

Lemma length_byte_dec b : 0 ≤ b < 256 → (String.length (Format.dec b) ≤ 3)%nat.
Proof. intros. apply Format.length_dec; simpl; lia. Qed.

(** The text of an address is never truncated. *)
Lemma length_toHostPort addr :
  (String.length (inet_ntop (sin_addr addr) +:+ ":" +:+
     Format.dec (networkToHost16 (sin_port addr))) ≤ 21)%nat.
Proof.
  pose proof (le_bytes_range 4 (sin_addr addr)) as Hr.
  unfold inet_ntop. cbn [le_bytes] in *. rewrite !Forall_cons in Hr.
  destruct Hr as (H1 & H2 & H3 & H4 & _).
  apply length_byte_dec in H1, H2, H3, H4.
  pose proof (bswap_range 2 (sin_port addr)) as Hp.
  assert (String.length (Format.dec (networkToHost16 (sin_port addr))) ≤ 5)%nat as Hpl.
  { apply Format.length_dec; [lia|]. unfold networkToHost16. simpl in *. lia. }
  rewrite !Format.length_string_app. simpl. lia.
Qed.

Lemma toHostPort_full addr :
  toHostPort addr =
    inet_ntop (sin_addr addr) +:+ ":" +:+ Format.dec (networkToHost16 (sin_port addr)).
Proof.
  unfold toHostPort, toHostPort_. apply Format.snprintf_fits.
  pose proof (length_toHostPort addr). lia.
Qed.

(** The text of [InetAddress(port)] *)
Lemma toHostPort_port port :
  0 ≤ port < 2 ^ 16 →
  toHostPort (InetAddress_port port) = "0.0.0.0:" +:+ Format.dec port.
Proof.
  intros Hp. rewrite toHostPort_full.
  change (sin_port (InetAddress_port port)) with (bswap 2 port).
  unfold networkToHost16. rewrite bswap_involutive by done. done.
Qed.

(** *** Reading a textual address *)

(** The text of a byte, at the start of a number. *)
Lemma pton_byte b acc rest :
  0 ≤ b < 256 → (length acc ≤ 3)%nat →
  pton acc None (Format.dec b +:+ rest) = pton acc (Some b) rest.
Proof.
  intros Hb Hacc.
  assert (Forall (λ b, ∀ rest, pton acc None (Format.dec b +:+ rest) = pton acc (Some b) rest)
            (seqZ 0 256)) as Hall.
  { destruct acc as [|a1 [|a2 [|a3 [|]]]]; [..|simpl in Hacc; lia];
      set (l := seqZ 0 256); vm_compute in l; subst l;
      repeat (constructor; [intros r; reflexivity|]); constructor. }
  rewrite Forall_forall in Hall. apply Hall, elem_of_seqZ. lia.
Qed.

Lemma pton_dot acc x rest :
  (length acc < 3)%nat → pton acc (Some x) ("." +:+ rest) = pton (acc ++ [x]) None rest.
Proof.
  intros Hacc. change ("." +:+ rest) with (String "."%char rest). simpl.
  by rewrite (proj2 (Nat.eqb_neq (length acc) 3)) by lia.
Qed.

Lemma append_nil_r (s : string) : s +:+ "" = s.
Proof.
  induction s as [|c s IH]; [done|]. change (String c s +:+ "") with (String c (s +:+ "")).
  by rewrite IH.
Qed.

(** [inet_pton] inverts [inet_ntop]. *)
Lemma inet_pton_ntop a : 0 ≤ a < 2 ^ 32 → inet_pton (inet_ntop a) = Some a.
Proof.
  intros Ha. pose proof (le_bytes_range 4 a) as Hr.
  pose proof (from_le_le_bytes 4 a Ha) as Hf.
  unfold inet_ntop, inet_pton.
  destruct (le_bytes 4 a) as [|b1 [|b2 [|b3 [|b4 [|]]]]] eqn:Hb;
    try (apply (f_equal length) in Hb; rewrite length_le_bytes in Hb; discriminate).
  rewrite !Forall_cons in Hr. destruct Hr as (H1 & H2 & H3 & H4 & _).
  rewrite pton_byte by (simpl; lia).
  rewrite pton_dot by (simpl; lia). rewrite pton_byte by (simpl; lia).
  rewrite pton_dot by (simpl; lia). rewrite pton_byte by (simpl; lia).
  rewrite pton_dot by (simpl; lia).
  rewrite <- (append_nil_r (Format.dec b4)).
  rewrite pton_byte by (simpl; lia). simpl. by rewrite <- Hf.
Qed.

(** C29: an address built from the dotted form of an IPv4 address and a port
    keeps both: the stored address is the one printed, the stored port is the port
    in network order, and [toHostPort] prints the text followed by the port,
    without truncation. *)
Theorem address_text_roundtrip a port :
  0 ≤ a < 2 ^ 32 → 0 ≤ port < 2 ^ 16 →
  let addr := InetAddress_ip (inet_ntop a) port in
  sin_addr addr = a ∧ networkToHost16 (sin_port addr) = port ∧
  toHostPort addr = inet_ntop a +:+ ":" +:+ Format.dec port.
Proof.
  intros Ha Hp addr.
  assert (sin_addr addr = a) as Hsa by (unfold addr; simpl; by rewrite inet_pton_ntop).
  assert (networkToHost16 (sin_port addr) = port) as Hsp by by apply bswap_involutive.
  rewrite toHostPort_full, Hsa, Hsp. done.
Qed.

(** 127.0.0.1:2007 *)
Lemma address_text_roundtrip_witness :
  toHostPort (InetAddress_ip (inet_ntop 16777343) 2007) = "127.0.0.1:2007".
Proof.
  destruct (address_text_roundtrip 16777343 2007) as (_ & _ & ->); [lia..|reflexivity].
Defined.

End InetAddress.
