(* ===== verification/TcpConnection.v ===== *)
(** * Connections (src/src/include/tcp_connection.h, src/src/tcp_connection.cpp)

    A [TcpConnection] owns a connected socket, its channel and two buffers.
    The application is known through [App], the owner that is told of a close
    through [ConnectionOwner]. *)

From S2P Require Import Prelude Timestamp Buffer Kernel State CurrentThread Channel Poller.
From S2P Require Import EventLoop SocketsOptions Socket.

(** The callbacks of the application: what calling each function object does. *)
Class App `{K : Kernel} : Type := {
  app_connection : UserFunction → ConnPtr → M unit;
  app_message : UserFunction → ConnPtr → Timestamp.Timestamp → M unit;
  app_write_complete : UserFunction → ConnPtr → M unit;
  app_functor : UserFunction → M unit
}.

(** The target of [close_cb_]. *)
Class ConnectionOwner `{K : Kernel} : Type := {
  owner_close : ServerPtr → ConnPtr → M unit
}.

Module TcpConnection.

(** ** Members written by the operations *)
Definition setState (s : States) (t : TcpConnection) : TcpConnection :=
  mkTcpConnection (tc_loop_ t) (tc_name_ t) s (tc_socket_ t) (tc_channel_ t)
    (tc_local_addr_ t) (tc_peer_addr_ t) (tc_connection_cb_ t) (tc_write_cmpl_cb_ t)
    (tc_message_cb_ t) (tc_close_cb_ t) (tc_input_buffer_ t) (tc_output_buffer_ t).
Definition setInput (b : Buffer.Buffer) (t : TcpConnection) : TcpConnection :=
  mkTcpConnection (tc_loop_ t) (tc_name_ t) (tc_state_ t) (tc_socket_ t) (tc_channel_ t)
    (tc_local_addr_ t) (tc_peer_addr_ t) (tc_connection_cb_ t) (tc_write_cmpl_cb_ t)
    (tc_message_cb_ t) (tc_close_cb_ t) b (tc_output_buffer_ t).
Definition setOutput (b : Buffer.Buffer) (t : TcpConnection) : TcpConnection :=
  mkTcpConnection (tc_loop_ t) (tc_name_ t) (tc_state_ t) (tc_socket_ t) (tc_channel_ t)
    (tc_local_addr_ t) (tc_peer_addr_ t) (tc_connection_cb_ t) (tc_write_cmpl_cb_ t)
    (tc_message_cb_ t) (tc_close_cb_ t) (tc_input_buffer_ t) b.
Definition setConnectionCallback (cb : option UserFunction) (t : TcpConnection) : TcpConnection :=
  mkTcpConnection (tc_loop_ t) (tc_name_ t) (tc_state_ t) (tc_socket_ t) (tc_channel_ t)
    (tc_local_addr_ t) (tc_peer_addr_ t) cb (tc_write_cmpl_cb_ t)
    (tc_message_cb_ t) (tc_close_cb_ t) (tc_input_buffer_ t) (tc_output_buffer_ t).
Definition setWriteCallback (cb : option UserFunction) (t : TcpConnection) : TcpConnection :=
  mkTcpConnection (tc_loop_ t) (tc_name_ t) (tc_state_ t) (tc_socket_ t) (tc_channel_ t)
    (tc_local_addr_ t) (tc_peer_addr_ t) (tc_connection_cb_ t) cb
    (tc_message_cb_ t) (tc_close_cb_ t) (tc_input_buffer_ t) (tc_output_buffer_ t).
Definition setMessageCallback (cb : option UserFunction) (t : TcpConnection) : TcpConnection :=
  mkTcpConnection (tc_loop_ t) (tc_name_ t) (tc_state_ t) (tc_socket_ t) (tc_channel_ t)
    (tc_local_addr_ t) (tc_peer_addr_ t) (tc_connection_cb_ t) (tc_write_cmpl_cb_ t)
    cb (tc_close_cb_ t) (tc_input_buffer_ t) (tc_output_buffer_ t).
Definition setCloseCallback (cb : option ServerPtr) (t : TcpConnection) : TcpConnection :=
  mkTcpConnection (tc_loop_ t) (tc_name_ t) (tc_state_ t) (tc_socket_ t) (tc_channel_ t)
    (tc_local_addr_ t) (tc_peer_addr_ t) (tc_connection_cb_ t) (tc_write_cmpl_cb_ t)
    (tc_message_cb_ t) cb (tc_input_buffer_ t) (tc_output_buffer_ t).

Definition connected (t : TcpConnection) : bool := bool_decide (tc_state_ t = Connected).

Section operations.
Context `{K : Kernel} `{B : Build} `{A : !App} `{O : !ConnectionOwner}.

(** Calling a [std::function] without a test: an empty one throws. *)
Definition call_function {F} (cb : option F) (f : F → M unit) : M unit :=
  match cb with
  | Some g => f g
  | None => fail BadFunctionCall
  end.

Definition TcpConnection_ctor (owner_garbage : LoopPtr) (loop : LoopPtr) (name_arg : string)
    (sockfd : Z) (local_addr peer_addr : sockaddr_in) : M ConnPtr :=
  ch ← alloc (Channel.Channel_ctor owner_garbage loop sockfd);
  input ← lift Buffer.Buffer_ctor;
  output ← lift Buffer.Buffer_ctor;
  conn ← alloc {|
    tc_loop_ := loop; tc_name_ := name_arg; tc_state_ := Connecting; tc_socket_ := sockfd;
    tc_channel_ := ch; tc_local_addr_ := local_addr; tc_peer_addr_ := peer_addr;
    tc_connection_cb_ := None; tc_write_cmpl_cb_ := None; tc_message_cb_ := None;
    tc_close_cb_ := None; tc_input_buffer_ := input; tc_output_buffer_ := output
  |};
  _ ← modify ch (Channel.setReadCallback (cb_handleRead conn));
  _ ← modify ch (Channel.setWriteCallback (cb_handleWrite conn));
  _ ← modify ch (Channel.setErrorCallback (cb_handleError conn));
  _ ← modify ch (Channel.setCloseCallback (cb_handleClose conn));
  mret conn.

(** [if (write_cmpl_cb_) loop_->queueInLoop(...)] *)
Definition queue_write_complete (conn : ConnPtr) : M unit :=
  t ← deref conn;
  match tc_write_cmpl_cb_ t with
  | Some cb => EventLoop.queueInLoop (tc_loop_ t) (fn_writeComplete cb conn)
  | None => mret ()
  end.

(** The first part of [sendInLoop]: the direct write; returns [nwrote]. *)
Definition write_directly (conn : ConnPtr) (message : list byte) : M Z :=
  t ← deref conn;
  c ← deref (tc_channel_ t);
  if negb (Channel.isWriting c) && (Buffer.readableBytes (tc_output_buffer_ t) =? 0) then
    r ← do_write (ch_fd_ c) message;
    match r with
    | Ret nwrote =>
        if u64 nwrote <? zlen message then mret nwrote
        else _ ← queue_write_complete conn; mret nwrote
    | Err _ => mret 0
    end
  else mret 0.

(** The second part: the rest goes to the output buffer. *)
Definition buffer_rest (conn : ConnPtr) (rest : list byte) : M unit :=
  t ← deref conn;
  out ← lift (Buffer.append rest (tc_output_buffer_ t));
  _ ← modify conn (setOutput out);
  c ← deref (tc_channel_ t);
  if negb (Channel.isWriting c) then Channel.enableWriting (tc_channel_ t) else mret ().

Definition sendInLoop (conn : ConnPtr) (message : list byte) : M unit :=
  t ← deref conn;
  _ ← assertInLoopThread (tc_loop_ t);
  nwrote ← write_directly conn message;
  _ ← lift (assert_ (0 <=? nwrote));
  if u64 nwrote <? zlen message then buffer_rest conn (drop (Z.to_nat nwrote) message)
  else mret ().

Definition send (conn : ConnPtr) (message : list byte) : M unit :=
  t ← deref conn;
  if bool_decide (tc_state_ t = Connected) then
    b ← isInLoopThread (tc_loop_ t);
    if (b : bool) then sendInLoop conn message
    else EventLoop.runInLoop (tc_loop_ t) (fn_sendInLoop conn message) (sendInLoop conn message)
  else mret ().

Definition shutdownInLoop (conn : ConnPtr) : M unit :=
  t ← deref conn;
  _ ← assertInLoopThread (tc_loop_ t);
  c ← deref (tc_channel_ t);
  if negb (Channel.isWriting c) then Socket.shutdownWrite (tc_socket_ t) else mret ().

Definition shutdown (conn : ConnPtr) : M unit :=
  t ← deref conn;
  if bool_decide (tc_state_ t = Connected) then
    _ ← modify conn (setState Disconnecting);
    EventLoop.runInLoop (tc_loop_ t) (fn_shutdownInLoop conn) (shutdownInLoop conn)
  else mret ().

Definition setTcpNoDelay (conn : ConnPtr) (on : bool) : M unit :=
  t ← deref conn;
  Socket.setTcpNoDelay (tc_socket_ t) on.

Definition setTcpKeepAlive (conn : ConnPtr) (on : bool) : M unit :=
  t ← deref conn;
  Socket.setKeepAlive (tc_socket_ t) on.

Definition establishConnection (conn : ConnPtr) : M unit :=
  t ← deref conn;
  _ ← assertInLoopThread (tc_loop_ t);
  _ ← lift (assert_ (bool_decide (tc_state_ t = Connecting)));
  _ ← modify conn (setState Connected);
  _ ← Channel.enableReading (tc_channel_ t);
  t ← deref conn;
  call_function (tc_connection_cb_ t) (λ cb, app_connection cb conn).

Definition open_state (s : States) : bool :=
  bool_decide (s = Connected) || bool_decide (s = Disconnecting).

Definition handleClose (conn : ConnPtr) : M unit :=
  t ← deref conn;
  _ ← assertInLoopThread (tc_loop_ t);
  _ ← lift (assert_ (open_state (tc_state_ t)));
  _ ← Channel.disableAllEvents (tc_channel_ t);
  t ← deref conn;
  call_function (tc_close_cb_ t) (λ server, owner_close server conn).

Definition handleError (conn : ConnPtr) : M unit :=
  t ← deref conn;
  c ← deref (tc_channel_ t);
  _ ← sockets.getSocketError (ch_fd_ c);
  mret ().

Definition handleRead (conn : ConnPtr) (recv_time : Timestamp.Timestamp) : M unit :=
  t ← deref conn;
  c ← deref (tc_channel_ t);
  r ← do_readv (ch_fd_ c) (Buffer.iov_room (tc_input_buffer_ t));
  '(n, saved_errno, input) ← lift (Buffer.readFd r (tc_input_buffer_ t));
  _ ← modify conn (setInput input);
  if 0 <? n then
    call_function (tc_message_cb_ t) (λ cb, app_message cb conn recv_time)
  else if n =? 0 then handleClose conn
  else handleError conn.

(** The branch of [handleWrite] for an output buffer that became empty. *)
Definition output_drained (conn : ConnPtr) : M unit :=
  t ← deref conn;
  _ ← Channel.disableWriting (tc_channel_ t);
  _ ← queue_write_complete conn;
  t ← deref conn;
  if bool_decide (tc_state_ t = Disconnecting) then shutdownInLoop conn else mret ().

Definition handleWrite (conn : ConnPtr) : M unit :=
  t ← deref conn;
  _ ← assertInLoopThread (tc_loop_ t);
  c ← deref (tc_channel_ t);
  if Channel.isWriting c then
    d ← lift (Buffer.read_peek (tc_output_buffer_ t));
    r ← do_write (ch_fd_ c) d;
    match r with
    | Ret n =>
        if 0 <? n then
          out ← lift (Buffer.retrieve n (tc_output_buffer_ t));
          _ ← modify conn (setOutput out);
          if Buffer.readableBytes out =? 0 then output_drained conn else mret ()
        else mret ()
    | Err _ => mret ()
    end
  else mret ().

Definition destroyConnection (conn : ConnPtr) : M unit :=
  t ← deref conn;
  _ ← assertInLoopThread (tc_loop_ t);
  _ ← lift (assert_ (open_state (tc_state_ t)));
  _ ← modify conn (setState Disconnected);
  _ ← Channel.disableAllEvents (tc_channel_ t);
  t ← deref conn;
  _ ← call_function (tc_connection_cb_ t) (λ cb, app_connection cb conn);
  EventLoop.removeChannel (tc_loop_ t) (tc_channel_ t).

(** The destructor: its message reads the descriptor of the channel; then the members
    are destroyed, [channel_] before [socket_], which closes the descriptor. *)
Definition TcpConnection_dtor (conn : ConnPtr) : M unit :=
  t ← deref conn;
  chan ← deref (tc_channel_ t);
  _ ← lift (Channel.Channel_dtor chan);
  _ ← free Channel (tc_channel_ t);
  _ ← Socket.Socket_dtor (tc_socket_ t);
  free TcpConnection conn.

End operations.

(** ** A connection in the thread of its loop *)

(** [live w c conn chan loop p]: in [w], [c] is the address of the connection
    [conn], whose channel [chan] is registered with the poller [p] of its loop
    [loop]; the running thread is the thread of the loop, and it is not inside
    [doPendingFunctors]. *)
Section live.
Context `{K : Kernel} `{B : Build}.

Record live (w : World) (c : Z) (conn : TcpConnection) (chan : Channel) (loop : EventLoop)
    (p : Poller) : Prop := {
  lv_conn : w_conns w !! c = Some conn;
  lv_watch : LoopFacts.watchable w (tc_loop_ conn) (tc_channel_ conn) loop p chan;
  lv_registered : LoopFacts.registered p (tc_channel_ conn) chan;
  lv_fd : ch_fd_ chan = tc_socket_ conn;
  lv_input : Buffer.wf (tc_input_buffer_ conn);
  lv_output : Buffer.wf (tc_output_buffer_ conn);
  lv_mutex : el_mutex_ loop = None;
  lv_calling : el_calling_pending_functors_ loop = false
}.

(** The same, with no condition on [doPendingFunctors]. *)
Record attached (w : World) (c : Z) (conn : TcpConnection) (chan : Channel) (loop : EventLoop)
    (p : Poller) : Prop := {
  at_conn : w_conns w !! c = Some conn;
  at_watch : LoopFacts.watchable w (tc_loop_ conn) (tc_channel_ conn) loop p chan;
  at_registered : LoopFacts.registered p (tc_channel_ conn) chan;
  at_fd : ch_fd_ chan = tc_socket_ conn;
  at_input : Buffer.wf (tc_input_buffer_ conn);
  at_output : Buffer.wf (tc_output_buffer_ conn)
}.

(** A connection whose channel the loop can watch, not necessarily yet. *)
Record attached_new (w : World) (c : Z) (conn : TcpConnection) (chan : Channel) (loop : EventLoop)
    (p : Poller) : Prop := {
  an_conn : w_conns w !! c = Some conn;
  an_watch : LoopFacts.watchable w (tc_loop_ conn) (tc_channel_ conn) loop p chan;
  an_fd : ch_fd_ chan = tc_socket_ conn;
  an_input : Buffer.wf (tc_input_buffer_ conn);
  an_output : Buffer.wf (tc_output_buffer_ conn)
}.

Lemma live_attached w c conn chan loop p :
  live w c conn chan loop p → attached w c conn chan loop p.
Proof. intros []. by constructor. Qed.

Lemma attached_live w c conn chan loop p :
  attached w c conn chan loop p → el_mutex_ loop = None →
  el_calling_pending_functors_ loop = false → live w c conn chan loop p.
Proof. intros [] ??. by constructor. Qed.

(** The bytes of the connection that are on their way: those the kernel took
    from its socket, then those in the output buffer. *)
Definition sent (fd : Z) (tr : list event) : list byte :=
  flat_map (λ e, match e with
                 | EvWrite f d => if f =? fd then d else []
                 | _ => []
                 end) tr.

Definition pending (conn : TcpConnection) : list byte := Buffer.contents (tc_output_buffer_ conn).

Definition out_stream (w : World) (conn : TcpConnection) : list byte :=
  sent (tc_socket_ conn) (w_trace w) ++ pending conn.

(** The channel asks for write events exactly while bytes are pending. *)
Definition flushing (conn : TcpConnection) (chan : Channel) : Prop :=
  Channel.isWriting chan = negb (bool_decide (pending conn = [])).

(** The process after a step of the connection: the connection, its channel
    and its loop are replaced, and events are appended to the trace. *)
Definition upd (w : World) (c : Z) (conn : TcpConnection) (chan : Channel) (loop : EventLoop)
    (evs : list event) (k : kstate) : World :=
  mkWorld k (w_tid w) (w_cachedTid w) (w_loopInThread w) (<[tc_channel_ conn := chan]> (w_channels w))
    (<[tc_loop_ conn := loop]> (w_loops w)) (<[c := conn]> (w_conns w))
    (w_acceptors w) (w_pools w) (w_servers w) (w_timers w) (w_timerQueues w) (w_trace w ++ evs).

(** [len] more bytes fit behind the content of a buffer. *)
Definition writer_room (b : Buffer.Buffer) (len : Z) : Prop :=
  Buffer.writer_idx_ b + len ≤ vector_max_size.

(** Two records of the same connection: only state and buffers differ. *)
Definition same_conn (conn conn' : TcpConnection) : Prop :=
  tc_loop_ conn' = tc_loop_ conn ∧ tc_channel_ conn' = tc_channel_ conn ∧
  tc_socket_ conn' = tc_socket_ conn ∧ tc_write_cmpl_cb_ conn' = tc_write_cmpl_cb_ conn ∧
  tc_name_ conn' = tc_name_ conn ∧ tc_connection_cb_ conn' = tc_connection_cb_ conn ∧
  tc_message_cb_ conn' = tc_message_cb_ conn ∧ tc_close_cb_ conn' = tc_close_cb_ conn.

(** Two records of the same channel: only the watched events and the index differ. *)
Definition same_chan (chan chan' : Channel) : Prop :=
  ∃ e i, chan' = Channel.setIndex i (Channel.setEvents e chan).

(** Two records of the same loop: only the poller and the queue differ. *)
Definition same_loop (loop loop' : EventLoop) : Prop :=
  ∃ q p, loop' = EventLoop.setPending q (Poller.setPoller p loop).

(** What a step of a connection leaves of the connection, its channel, its loop
    and the poller. *)
Record changed (conn conn' : TcpConnection) (chan chan' : Channel) (loop loop' : EventLoop)
    (p p' : Poller) : Prop := {
  cd_conn : same_conn conn conn';
  cd_chan : same_chan chan chan';
  cd_loop : same_loop loop loop';
  cd_pending : tc_write_cmpl_cb_ conn = None →
    el_pending_functors_ loop' = el_pending_functors_ loop;
  cd_map : pl_channel_map_ p' = pl_channel_map_ p
}.

(** A step that goes on to watch for input, in the heap [h] of channels: the array of the poller asks for
    the events of the channel afterwards. *)
Definition watching_on (h : gmap Z Channel) (ch : Z) (chan chan' : Channel) (p p' : Poller) : Prop :=
  Channel.watchesInput chan = true →
  Channel.watchesInput chan' = true ∧ (Poller.asked h p → Poller.asked (<[ch := chan']> h) p').

Record kept (h : gmap Z Channel) (conn conn' : TcpConnection) (chan chan' : Channel)
    (loop loop' : EventLoop) (p p' : Poller) : Prop := {
  kp_changed : changed conn conn' chan chan' loop loop' p p';
  kp_watching : watching_on h (tc_channel_ conn) chan chan' p p'
}.

Lemma same_conn_refl conn : same_conn conn conn.
Proof. by split_and!. Qed.

Lemma same_chan_refl chan : same_chan chan chan.
Proof. exists (ch_events_ chan), (ch_index_ chan). by destruct chan. Qed.

Lemma same_loop_refl loop : same_loop loop loop.
Proof. exists (el_pending_functors_ loop), (el_poller_ loop). by destruct loop. Qed.

Lemma changed_same conn conn' chan loop p :
  same_conn conn conn' → changed conn conn' chan chan loop loop p p.
Proof. intros. constructor; auto using same_chan_refl, same_loop_refl. Qed.

Lemma kept_same h conn conn' chan loop p :
  h !! tc_channel_ conn = Some chan → same_conn conn conn' → kept h conn conn' chan chan loop loop p p.
Proof.
  intros Hc Hs. split; [by apply changed_same|]. intros Hr. split; [done|]. by rewrite insert_id.
Qed.

Lemma changed_trans conn conn1 conn2 chan chan1 chan2 loop loop1 loop2 p p1 p2 :
  changed conn conn1 chan chan1 loop loop1 p p1 → changed conn1 conn2 chan1 chan2 loop1 loop2 p1 p2 →
  changed conn conn2 chan chan2 loop loop2 p p2.
Proof.
  intros [(?&?&?&Hw&?&?&?&?) (? & ? & ->) (? & ? & ->) Hpe ?] [(?&?&?&?&?&?&?&?) (? & ? & ->) (? & ? & ->) Hpe' ?].
  constructor; [|by do 2 eexists..| |congruence].
  - by split_and!; congruence.
  - intros Hn. rewrite <- (Hpe Hn). apply Hpe'. congruence.
Qed.

Lemma kept_trans h conn conn1 conn2 chan chan1 chan2 loop loop1 loop2 p p1 p2 :
  kept h conn conn1 chan chan1 loop loop1 p p1 →
  kept (<[tc_channel_ conn := chan1]> h) conn1 conn2 chan1 chan2 loop1 loop2 p1 p2 →
  kept h conn conn2 chan chan2 loop loop2 p p2.
Proof.
  intros [H1 Hw1] [H2 Hw2]. split; [by eapply changed_trans|]. intros Hr. destruct (Hw1 Hr) as [Hr1 Ha1].
  destruct (Hw2 Hr1) as [Hr2 Ha2]. split; [done|]. destruct H1 as [(_ & Hcc & _) _ _ _ _].
  rewrite Hcc, insert_insert_eq in Ha2. auto.
Qed.

Lemma sent_app fd tr tr' : sent fd (tr ++ tr') = sent fd tr ++ sent fd tr'.
Proof. apply flat_map_app. Qed.

Lemma sent_write fd d : sent fd [EvWrite fd d] = d.
Proof. unfold sent. simpl. by rewrite Z.eqb_refl, app_nil_r. Qed.

Lemma lv_loop w c conn chan loop p :
  live w c conn chan loop p → w_loops w !! tc_loop_ conn = Some loop.
Proof. intros []. by destruct lv_watch0. Qed.

Lemma lv_chan w c conn chan loop p :
  live w c conn chan loop p → w_channels w !! tc_channel_ conn = Some chan.
Proof. intros []. by destruct lv_watch0 as [_ _ _ _ [? _]]. Qed.

Lemma lv_thread w c conn chan loop p :
  live w c conn chan loop p → in_loop_thread (tc_loop_ conn) w.
Proof. intros []. by destruct lv_watch0. Qed.

Lemma lv_poller w c conn chan loop p : live w c conn chan loop p → el_poller_ loop = Some p.
Proof. intros []. by destruct lv_watch0. Qed.

Lemma lv_events w c conn chan loop p :
  live w c conn chan loop p → Channel.wf_events (ch_events_ chan).
Proof. intros []. by destruct lv_watch0 as [_ _ _ _ (_ & _ & ? & _)]. Qed.

Lemma upd_id w c conn chan loop p :
  live w c conn chan loop p → upd w c conn chan loop [] (w_kernel w) = w.
Proof.
  intros Hlv. unfold upd.
  rewrite app_nil_r, !insert_id by eauto using lv_loop, lv_chan, lv_conn. by destruct w.
Qed.

Lemma upd_upd w c conn chan loop evs k conn' chan' loop' evs' k' :
  same_conn conn conn' →
  upd (upd w c conn chan loop evs k) c conn' chan' loop' evs' k' =
  upd w c conn' chan' loop' (evs ++ evs') k'.
Proof.
  intros (Hl & Hc & _). unfold upd. simpl. rewrite Hl, Hc, !insert_insert_eq, app_assoc. done.
Qed.

(** Steps that keep the channel and the registry keep the connection live. *)
Lemma live_upd w c conn chan loop p conn' loop' evs k :
  live w c conn chan loop p → same_conn conn conn' →
  Buffer.wf (tc_input_buffer_ conn') → Buffer.wf (tc_output_buffer_ conn') →
  el_poller_ loop' = Some p → el_thread_id_ loop' = el_thread_id_ loop →
  el_mutex_ loop' = None → el_calling_pending_functors_ loop' = false →
  live (upd w c conn' chan loop' evs k) c conn' chan loop' p.
Proof.
  intros Hlv (Hl & Hc & Hs & _) Hin Hout Hp Ht Hm Hcall.
  destruct Hlv as [Hconn [Hth Hloop Hpo Hok Hup Hhome Hown] Hreg Hfd _ _ _ _].
  assert (Hch : <[tc_channel_ conn := chan]> (w_channels w) = w_channels w).
  { apply insert_id. by destruct Hup. }
  constructor; [apply lookup_insert_eq| |by rewrite Hc|congruence|done..].
  constructor; rewrite ?Hl, ?Hc; try done; unfold upd; simpl; rewrite ?Hl, ?Hc.
  - revert Hth. apply in_loop_thread_frame; [done..|]. simpl. intros e He. simplify_eq.
    rewrite lookup_insert_eq. eauto.
  - apply lookup_insert_eq.
  - by rewrite Hch.
  - by rewrite Hch.
Qed.

End live.

Section facts.
Context `{K : Kernel} `{B : Build} `{BL : !BuildLaws B}.

(** Changing the events of the channel of a connection. *)
Lemma attached_change f w c conn chan loop p :
  attached w c conn chan loop p → Channel.wf_events (f (ch_events_ chan)) →
  ∃ i p', let chan' := Channel.setIndex i (Channel.setEvents (f (ch_events_ chan)) chan) in
    let loop' := Poller.setPoller (Some p') loop in
    let w' := upd w c conn chan' loop' [] (w_kernel w) in
    Channel.change f (tc_channel_ conn) w = Ok ((), w') ∧ attached w' c conn chan' loop' p' ∧
    changed conn conn chan chan' loop loop' p p' ∧
    ((Channel.isNoneEvent chan = true → Channel.isNoneEvent chan' = true) →
     Poller.asked (w_channels w) p → Poller.asked (<[tc_channel_ conn := chan']> (w_channels w)) p') ∧
    ∃ ig, Poller.lookup_entry (w_channels w') p' (ch_fd_ chan) =
            Some (Poller.mkEntry (tc_channel_ conn) (f (ch_events_ chan)) ig).
Proof.
  intros [Hconn Hwt Hreg Hfd Hin Hout] Hev.
  destruct (LoopFacts.change_ok f w _ _ loop p chan Hwt Hev)
    as (i & p' & Hch & Hwt' & Hreg' & Hmap & Hlk).
  exists i, p'. cbn zeta.
  assert (∀ chan', Poller.put_poller (tc_loop_ conn) loop (<[tc_channel_ conn := chan']> (w_channels w)) p' w
    = upd w c conn chan' (Poller.setPoller (Some p') loop) [] (w_kernel w)) as Heq.
  { intros. unfold upd. rewrite app_nil_r, (insert_id (w_conns w)) by done. done. }
  rewrite <- Heq. split; [done|]. split; [by constructor|]. split.
  { constructor; [done|by do 2 eexists|exists (el_pending_functors_ loop), (Some p'); by destruct loop
      |done|]. rewrite Hmap. by apply insert_id. }
  split; [intros Hnone; by eapply LoopFacts.change_asked|].
  eexists. simpl. rewrite Hlk, decide_True by done. done.
Qed.

Lemma live_change f w c conn chan loop p :
  live w c conn chan loop p → Channel.wf_events (f (ch_events_ chan)) →
  ∃ i p', let chan' := Channel.setIndex i (Channel.setEvents (f (ch_events_ chan)) chan) in
    let loop' := Poller.setPoller (Some p') loop in
    let w' := upd w c conn chan' loop' [] (w_kernel w) in
    Channel.change f (tc_channel_ conn) w = Ok ((), w') ∧ live w' c conn chan' loop' p' ∧
    changed conn conn chan chan' loop loop' p p' ∧
    ((Channel.isNoneEvent chan = true → Channel.isNoneEvent chan' = true) →
     Poller.asked (w_channels w) p → Poller.asked (<[tc_channel_ conn := chan']> (w_channels w)) p') ∧
    ∃ ig, Poller.lookup_entry (w_channels w') p' (ch_fd_ chan) =
            Some (Poller.mkEntry (tc_channel_ conn) (f (ch_events_ chan)) ig).
Proof.
  intros Hlv Hev.
  destruct (attached_change f _ _ _ _ _ _ (live_attached _ _ _ _ _ _ Hlv) Hev)
    as (i & p' & Hch & Hat & Hkept & Hlk).
  exists i, p'. split; [done|]. split; [|by split]. by apply attached_live; [|destruct Hlv..].
Qed.

(** The same, for a change that goes on to watch for input. *)
Lemma live_watching f w c conn chan loop p :
  live w c conn chan loop p → Channel.wf_events (f (ch_events_ chan)) →
  Channel.has (f (ch_events_ chan)) Channel.ReadEvent = Channel.has (ch_events_ chan) Channel.ReadEvent →
  ∃ i p', let chan' := Channel.setIndex i (Channel.setEvents (f (ch_events_ chan)) chan) in
    let loop' := Poller.setPoller (Some p') loop in
    let w' := upd w c conn chan' loop' [] (w_kernel w) in
    Channel.change f (tc_channel_ conn) w = Ok ((), w') ∧ live w' c conn chan' loop' p' ∧
    kept (w_channels w) conn conn chan chan' loop loop' p p'.
Proof.
  intros Hlv Hev Hread. destruct (live_change f _ _ _ _ _ _ Hlv Hev) as (i & p' & Hch & Hlv' & Hk & Has & _).
  exists i, p'. split; [done|]. split; [done|]. split; [done|]. intros Hr.
  assert (Channel.watchesInput (Channel.setIndex i (Channel.setEvents (f (ch_events_ chan)) chan)) = true) as Hr'
    by (unfold Channel.watchesInput in *; simpl; congruence).
  split; [done|]. apply Has. by rewrite (Channel.watchesInput_some _ Hr).
Qed.

Context `{A : !App} `{O : !ConnectionOwner}.

(** The loop once the write-complete callback was queued, if there is one. *)
Definition completed (c : Z) (conn : TcpConnection) (loop : EventLoop) : EventLoop :=
  match tc_write_cmpl_cb_ conn with
  | Some cb => LoopFacts.enqueue (fn_writeComplete cb c) loop
  | None => loop
  end.

Lemma queue_write_complete_ok w c conn chan loop p :
  live w c conn chan loop p →
  queue_write_complete c w =
    Ok ((), upd w c conn chan (completed c conn loop) [] (w_kernel w)).
Proof.
  intros Hlv. unfold queue_write_complete, mbind, M_bind, deref. simpl.
  rewrite (lv_conn _ _ _ _ _ _ Hlv). unfold completed.
  destruct (tc_write_cmpl_cb_ conn) as [cb|].
  - rewrite (LoopFacts.queueInLoop_ok _ _ loop);
      [|by eauto using lv_thread|by eauto using lv_loop|by destruct Hlv..].
    unfold LoopFacts.put_loop, upd.
    rewrite app_nil_r, (insert_id (w_channels w)), (insert_id (w_conns w))
      by eauto using lv_chan, lv_conn. done.
  - by rewrite (upd_id _ _ _ _ _ _ Hlv).
Qed.

Lemma live_completed w c conn chan loop p evs k :
  live w c conn chan loop p →
  live (upd w c conn chan (completed c conn loop) evs k) c conn chan (completed c conn loop) p.
Proof.
  intros Hlv. pose proof (lv_poller _ _ _ _ _ _ Hlv). eapply live_upd; try done.
  - by destruct Hlv.
  - by destruct Hlv.
  - unfold completed. by destruct (tc_write_cmpl_cb_ conn).
  - unfold completed. by destruct (tc_write_cmpl_cb_ conn).
  - unfold completed. destruct Hlv. by destruct (tc_write_cmpl_cb_ conn).
  - unfold completed. destruct Hlv. by destruct (tc_write_cmpl_cb_ conn).
Qed.

Lemma changed_completed c conn chan loop p :
  changed conn conn chan chan loop (completed c conn loop) p p.
Proof.
  constructor; auto using same_conn_refl, same_chan_refl; unfold completed.
  - destruct (tc_write_cmpl_cb_ conn) as [u|]; [|apply same_loop_refl].
    exists (el_pending_functors_ loop ++ [fn_writeComplete u c]), (el_poller_ loop).
    by destruct loop.
  - by intros ->.
Qed.

Lemma watching_same (h : gmap Z Channel) ch chan p : h !! ch = Some chan → watching_on h ch chan chan p p.
Proof. intros Hc Hr. split; [done|]. by rewrite insert_id. Qed.

Lemma kept_completed (h : gmap Z Channel) c conn chan loop p :
  h !! tc_channel_ conn = Some chan → kept h conn conn chan chan loop (completed c conn loop) p p.
Proof. intros Hc. split; [apply changed_completed|by apply watching_same]. Qed.

(** [write(2)] on the socket of a live connection. *)
Definition write_events (fd : Z) (d : list byte) (r : sysret) : list event :=
  match r with Ret n => [EvWrite fd (take (Z.to_nat n) d)] | Err _ => [] end.

Definition accepted (r : sysret) : Z := match r with Ret n => n | Err _ => 0 end.

Lemma do_write_ok fd d w r k :
  sys_write fd d (w_kernel w) = (r, k) →
  do_write fd d w = Ok (r, set_trace (w_trace w ++ write_events fd d r) (set_kernel k w)).
Proof.
  intros Hw. unfold do_write, mbind, M_bind, syscall. rewrite Hw. destruct r as [n|e]; [done|].
  simpl. rewrite app_nil_r. by destruct w.
Qed.

Lemma do_write_live d w c conn chan loop p r k :
  live w c conn chan loop p → sys_write (ch_fd_ chan) d (w_kernel w) = (r, k) →
  do_write (ch_fd_ chan) d w =
    Ok (r, upd w c conn chan loop (write_events (ch_fd_ chan) d r) k).
Proof.
  intros Hlv Hw. rewrite (do_write_ok _ _ _ _ _ Hw). unfold upd.
  rewrite !insert_id by eauto using lv_loop, lv_chan, lv_conn. done.
Qed.

Lemma live_events w c conn chan loop p evs k :
  live w c conn chan loop p → live (upd w c conn chan loop evs k) c conn chan loop p.
Proof.
  intros Hlv. pose proof (lv_poller _ _ _ _ _ _ Hlv). eapply live_upd; by destruct Hlv.
Qed.

(** *** Sending *)

Definition idle (conn : TcpConnection) (chan : Channel) : bool :=
  negb (Channel.isWriting chan) && (Buffer.readableBytes (tc_output_buffer_ conn) =? 0).

Lemma readable_0 b : Buffer.wf b → (Buffer.readableBytes b =? 0) = bool_decide (Buffer.contents b = []).
Proof.
  intros Hwf. rewrite <- Buffer.contents_length by done. case Z.eqb_spec; intros Hz; symmetry.
  - by apply bool_decide_eq_true, zlen_0_nil.
  - apply bool_decide_eq_false. intros Hnil. by rewrite Hnil in Hz.
Qed.

Lemma idle_flushing w c conn chan loop p :
  live w c conn chan loop p → flushing conn chan → idle conn chan = bool_decide (pending conn = []).
Proof.
  intros Hlv Hfl. unfold idle. rewrite Hfl, readable_0, negb_involutive by by destruct Hlv.
  unfold pending. by case_bool_decide.
Qed.

(** The loop after a direct write with result [r]. *)
Definition after_write (c : Z) (conn : TcpConnection) (loop : EventLoop) (message : list byte)
    (r : sysret) : EventLoop :=
  match r with
  | Ret n => if n <? zlen message then loop else completed c conn loop
  | Err _ => loop
  end.

Lemma write_directly_ok `{KL : !KernelLaws K} w c conn chan loop p message r k :
  live w c conn chan loop p → zlen message < 2 ^ 64 → idle conn chan = true →
  sys_write (ch_fd_ chan) message (w_kernel w) = (r, k) →
  write_directly c message w =
    Ok (accepted r, upd w c conn chan (after_write c conn loop message r)
                      (write_events (ch_fd_ chan) message r) k).
Proof.
  intros Hlv Hlen Hidle Hw. unfold write_directly, mbind, M_bind, deref. simpl.
  rewrite (lv_conn _ _ _ _ _ _ Hlv), (lv_chan _ _ _ _ _ _ Hlv).
  fold (idle conn chan). rewrite Hidle, (do_write_live _ _ _ _ _ _ _ _ _ Hlv Hw).
  destruct r as [n|e]; [|done]. simpl.
  apply write_count in Hw. rewrite u64_small by lia. case Z.ltb; [done|].
  rewrite (queue_write_complete_ok _ _ _ chan loop p) by by apply live_events.
  simpl. rewrite upd_upd by done. by rewrite app_nil_r.
Qed.

Lemma write_directly_busy w c conn chan loop p message :
  live w c conn chan loop p → idle conn chan = false → write_directly c message w = Ok (0, w).
Proof.
  intros Hlv Hidle. unfold write_directly, mbind, M_bind, deref. simpl.
  rewrite (lv_conn _ _ _ _ _ _ Hlv), (lv_chan _ _ _ _ _ _ Hlv).
  fold (idle conn chan). by rewrite Hidle.
Qed.

Lemma live_after_write w c conn chan loop p message r evs k :
  live w c conn chan loop p →
  live (upd w c conn chan (after_write c conn loop message r) evs k) c conn chan
    (after_write c conn loop message r) p.
Proof.
  intros Hlv. unfold after_write. destruct r as [n|e]; [case Z.ltb|].
  - by apply live_events.
  - by apply live_completed.
  - by apply live_events.
Qed.

Lemma kept_after_write (h : gmap Z Channel) c conn chan loop p message r :
  h !! tc_channel_ conn = Some chan →
  kept h conn conn chan chan loop (after_write c conn loop message r) p p.
Proof.
  intros Hc. unfold after_write. destruct r as [n|e]; [case Z.ltb|].
  - by apply kept_same.
  - by apply kept_completed.
  - by apply kept_same.
Qed.

Lemma isWriting_enabled i e c :
  Channel.wf_events e →
  Channel.isWriting (Channel.setIndex i (Channel.setEvents (Channel.withWriting e) c)) = true.
Proof. intros. by apply Channel.writing_withWriting. Qed.

Lemma buffer_rest_ok w c conn chan loop p rest :
  live w c conn chan loop p → zlen rest ≤ vector_max_size →
  Buffer.fits (zlen rest) (tc_output_buffer_ conn) →
  ∃ out chan' loop' p',
    let conn' := setOutput out conn in
    let w' := upd w c conn' chan' loop' [] (w_kernel w) in
    buffer_rest c rest w = Ok ((), w') ∧ live w' c conn' chan' loop' p' ∧
    pending conn' = pending conn ++ rest ∧ Channel.isWriting chan' = true ∧
    kept (w_channels w) conn conn' chan chan' loop loop' p p' ∧
    Buffer.writer_idx_ out ≤ Buffer.writer_idx_ (tc_output_buffer_ conn) + zlen rest.
Proof.
  intros Hlv Hlen Hfit.
  destruct (Buffer.append_ok rest (tc_output_buffer_ conn)) as (out & Happ & Hwf & Hc & Hle & _);
    [by destruct Hlv|done|done|].
  unfold buffer_rest, mbind, M_bind, deref at 1. simpl. rewrite (lv_conn _ _ _ _ _ _ Hlv).
  unfold lift. rewrite Happ. unfold modify, mbind, M_bind, deref at 1, store, update. simpl.
  rewrite (lv_conn _ _ _ _ _ _ Hlv). unfold deref at 1. simpl. rewrite (lv_chan _ _ _ _ _ _ Hlv).
  assert (live (upd w c (setOutput out conn) chan loop [] (w_kernel w)) c (setOutput out conn) chan
            loop p) as Hlv1.
  { eapply live_upd; [done|done|by destruct Hlv..| | | |]; by destruct Hlv as [? []]. }
  set (w1 := set_conns _ w).
  assert (w1 = upd w c (setOutput out conn) chan loop [] (w_kernel w)) as ->.
  { unfold w1, upd. simpl. rewrite app_nil_r, (insert_id (w_channels w)), (insert_id (w_loops w))
      by eauto using lv_chan, lv_loop. done. }
  destruct (Channel.isWriting chan) eqn:Hwr; simpl.
  - exists out, chan, loop, p. split_and!; try done. apply kept_same; [by eapply lv_chan|done].
  - destruct (live_watching Channel.withWriting _ _ _ _ _ _ Hlv1) as (i & p' & Hch & Hlv2 & Hk).
    { apply Channel.wf_withWriting. by eapply lv_events. }
    { apply Channel.reading_withWriting. by eapply lv_events. }
    cbn zeta in Hch, Hlv2. rewrite upd_upd in Hch, Hlv2 by done. simpl in Hch, Hlv2.
    eexists out, _, _, p'. split; [exact Hch|]. split; [exact Hlv2|]. split_and!; try done.
    + apply isWriting_enabled. by eapply lv_events.
    + eapply kept_trans; [|exact Hk]; apply kept_same; [by eapply lv_chan|done].
Qed.

Lemma buffer_rest_full w c conn chan loop p rest :
  live w c conn chan loop p → zlen rest ≤ vector_max_size →
  ¬ Buffer.fits (zlen rest) (tc_output_buffer_ conn) →
  buffer_rest c rest w = Fault LengthError.
Proof.
  intros Hlv Hlen Hfit. unfold buffer_rest, mbind, M_bind, deref at 1. simpl.
  rewrite (lv_conn _ _ _ _ _ _ Hlv). unfold lift.
  by rewrite Buffer.append_length_error by (done || by destruct Hlv).
Qed.

(** The events a step adds are writes to the socket. *)
Definition only_writes (fd : Z) (evs : list event) : Prop :=
  Forall (λ e, ∃ d, e = EvWrite fd d) evs.

Lemma only_writes_events fd d r : only_writes fd (write_events fd d r).
Proof. unfold only_writes. destruct r; repeat constructor. by eexists. Qed.

Lemma sent_write_events fd d r : sent fd (write_events fd d r) = take (Z.to_nat (accepted r)) d.
Proof. destruct r as [n|e]; [apply sent_write|done]. Qed.

Lemma accepted_bounds `{KL : !KernelLaws K} fd d k r k' :
  sys_write fd d k = (r, k') → 0 ≤ accepted r ≤ zlen d.
Proof.
  intros Hw. destruct r as [n|e]; simpl.
  - by eapply write_count.
  - pose proof (zlen_nonneg d). lia.
Qed.

(** A step of a live connection that sends: its result and what it keeps. *)
Definition sending_step (m : M unit) (w : World) (c : Z) (conn : TcpConnection) (chan : Channel)
    (loop : EventLoop) (p : Poller) (message : list byte) : Prop :=
  ∃ conn' chan' loop' p' evs k', let w' := upd w c conn' chan' loop' evs k' in
    m w = Ok ((), w') ∧ live w' c conn' chan' loop' p' ∧ flushing conn' chan' ∧
    kept (w_channels w) conn conn' chan chan' loop loop' p p' ∧ tc_state_ conn' = tc_state_ conn ∧
    tc_input_buffer_ conn' = tc_input_buffer_ conn ∧
    out_stream w' conn' = out_stream w conn ++ message ∧
    only_writes (tc_socket_ conn) evs ∧
    Buffer.writer_idx_ (tc_output_buffer_ conn') ≤
      Buffer.writer_idx_ (tc_output_buffer_ conn) + zlen message.

(** The checks [sendInLoop] makes before it writes. *)
Lemma sendInLoop_unfold w c conn chan loop p message :
  live w c conn chan loop p →
  sendInLoop c message w =
    (nwrote ← write_directly c message;
     _ ← lift (assert_ (0 <=? nwrote));
     if u64 nwrote <? zlen message then buffer_rest c (drop (Z.to_nat nwrote) message)
     else mret ()) w.
Proof.
  intros Hlv. unfold sendInLoop, mbind, M_bind, deref at 1. simpl.
  by rewrite (lv_conn _ _ _ _ _ _ Hlv), assertInLoopThread_ok by eauto using lv_thread.
Qed.

Lemma lv_writer_idx w c conn chan loop p :
  live w c conn chan loop p → 0 ≤ Buffer.writer_idx_ (tc_output_buffer_ conn).
Proof. intros Hlv. destruct Hlv. destruct lv_output0. lia. Qed.

Lemma flushing_app conn chan rest :
  rest ≠ [] → (∃ l, pending conn = l ++ rest) → Channel.isWriting chan = true → flushing conn chan.
Proof.
  intros Hne [l Hl] Hwr. unfold flushing. rewrite Hwr, Hl. symmetry.
  apply negb_true_iff, bool_decide_eq_false. by intros [_ ?]%app_eq_nil.
Qed.

(** Sending succeeds, or the output buffer cannot grow to hold the message. *)
Definition sending_outcomes (m : M unit) (w : World) (c : Z) (conn : TcpConnection) (chan : Channel)
    (loop : EventLoop) (p : Poller) (message : list byte) : Prop :=
  (m w = Fault LengthError ∧ ¬ writer_room (tc_output_buffer_ conn) (zlen message)) ∨
  sending_step m w c conn chan loop p message.

(** Nothing pending: the message is written, and what the kernel did not take
    is buffered. *)
Lemma sendInLoop_direct `{KL : !KernelLaws K} w c conn chan loop p message :
  live w c conn chan loop p → flushing conn chan → pending conn = [] →
  zlen message ≤ vector_max_size →
  sending_outcomes (sendInLoop c message) w c conn chan loop p message.
Proof.
  intros Hlv Hfl Hpend Hlen. pose proof (zlen_nonneg message) as Hm0.
  pose proof (lv_writer_idx _ _ _ _ _ _ Hlv) as Hwi.
  unfold vector_max_size in Hlen.
  unfold sending_outcomes, sending_step. rewrite (sendInLoop_unfold w c conn chan loop p) by done.
  unfold mbind, M_bind.
  destruct (sys_write (ch_fd_ chan) message (w_kernel w)) as [r k] eqn:Hw.
  pose proof (accepted_bounds _ _ _ _ _ Hw) as Hacc.
  rewrite (write_directly_ok w c conn chan loop p message r k Hlv); [|lia| |done].
  2:{ rewrite (idle_flushing _ _ _ _ _ _ Hlv Hfl). by apply bool_decide_eq_true. }
  unfold lift. rewrite assert_true by (apply Z.leb_le; lia). rewrite u64_small by lia.
  rewrite (lv_fd _ _ _ _ _ _ Hlv) in *.
  pose proof (live_after_write _ _ _ _ _ _ message r
                (write_events (tc_socket_ conn) message r) k Hlv) as Hlv1.
  case Z.ltb_spec; intros Hrest.
  - set (rest := drop (Z.to_nat (accepted r)) message).
    assert (zlen rest = zlen message - accepted r) as Hrl by (apply zlen_drop; lia).
    destruct (decide (Buffer.fits (zlen rest) (tc_output_buffer_ conn))) as [Hfit|Hfit].
    2:{ left. rewrite (buffer_rest_full _ _ _ _ _ _ _ Hlv1) by (done || unfold vector_max_size; lia).
        split; [done|]. unfold writer_room. unfold Buffer.fits in Hfit. lia. }
    right. destruct (buffer_rest_ok _ _ _ _ _ _ rest Hlv1)
      as (out & chan' & loop' & p' & Hbr & Hlv2 & Hpe & Hwr & Hk & Hle);
      [unfold vector_max_size; lia|done|].
    rewrite upd_upd, app_nil_r in Hbr, Hlv2 by done. simpl in Hbr, Hlv2.
    eexists _, chan', loop', p', _, k. split; [exact Hbr|]. split; [exact Hlv2|].
    split_and!; [|eapply kept_trans; [by apply kept_after_write; eapply lv_chan|exact Hk]|done|done| |apply only_writes_events|].
    + eapply flushing_app; [|by eexists|done]. intros Hd%(f_equal zlen).
      change (zlen []) with 0 in Hd. lia.
    + unfold out_stream. simpl. rewrite Hpe, sent_app, sent_write_events, Hpend. simpl.
      unfold rest. by rewrite app_nil_r, <- app_assoc, take_drop.
    + simpl. lia.
  - right. eexists conn, chan, _, p, _, k. split; [done|]. split; [exact Hlv1|].
    split_and!; [done|by apply kept_after_write; eapply lv_chan|done|done| |apply only_writes_events|lia].
    unfold out_stream. simpl. rewrite sent_app, sent_write_events, Hpend, !app_nil_r, take_ge.
    + done.
    + unfold zlen in *. lia.
Qed.

(** Bytes pending: the whole message is buffered behind them. *)
Lemma sendInLoop_behind w c conn chan loop p message :
  live w c conn chan loop p → flushing conn chan → pending conn ≠ [] →
  zlen message ≤ vector_max_size →
  sending_outcomes (sendInLoop c message) w c conn chan loop p message.
Proof.
  intros Hlv Hfl Hpend Hlen.
  unfold sending_outcomes, sending_step. rewrite (sendInLoop_unfold w c conn chan loop p) by done.
  unfold mbind, M_bind. rewrite (write_directly_busy _ _ _ _ _ _ _ Hlv).
  2:{ rewrite (idle_flushing _ _ _ _ _ _ Hlv Hfl). by apply bool_decide_eq_false. }
  unfold lift. rewrite assert_true by done. change (u64 0) with 0.
  case Z.ltb_spec; intros Hrest.
  - change (drop (Z.to_nat 0) message) with message.
    destruct (decide (Buffer.fits (zlen message) (tc_output_buffer_ conn))) as [Hfit|Hfit].
    2:{ left. rewrite (buffer_rest_full _ _ _ _ _ _ _ Hlv) by done.
        split; [done|]. unfold writer_room. unfold Buffer.fits in Hfit. lia. }
    right. destruct (buffer_rest_ok _ _ _ _ _ _ message Hlv Hlen Hfit)
      as (out & chan' & loop' & p' & Hbr & Hlv2 & Hpe & Hwr & Hk & Hle).
    eexists _, chan', loop', p', [], _. split; [exact Hbr|]. split; [exact Hlv2|].
    split_and!; [|done|done|done| |by constructor|done].
    + eapply flushing_app; [|by eexists|done]. by intros ->.
    + unfold out_stream. simpl. by rewrite Hpe, app_nil_r, app_assoc.
  - right. exists conn, chan, loop, p, [], (w_kernel w). cbn zeta. rewrite (upd_id _ _ _ _ _ _ Hlv).
    assert (message = []) as ->.
    { apply zlen_0_nil. pose proof (zlen_nonneg message). lia. }
    split_and!; try done; [apply kept_same; [by eapply lv_chan|done]|by rewrite app_nil_r|by constructor|].
    change (zlen []) with 0. lia.
Qed.

Lemma sendInLoop_outcomes `{KL : !KernelLaws K} w c conn chan loop p message :
  live w c conn chan loop p → flushing conn chan → zlen message ≤ vector_max_size →
  sending_outcomes (sendInLoop c message) w c conn chan loop p message.
Proof.
  intros. destruct (decide (pending conn = [])).
  - by eapply sendInLoop_direct.
  - by eapply sendInLoop_behind.
Qed.

Lemma sendInLoop_ok `{KL : !KernelLaws K} w c conn chan loop p message :
  live w c conn chan loop p → flushing conn chan →
  writer_room (tc_output_buffer_ conn) (zlen message) →
  sending_step (sendInLoop c message) w c conn chan loop p message.
Proof.
  intros Hlv Hfl Hroom. pose proof (lv_writer_idx _ _ _ _ _ _ Hlv).
  destruct (sendInLoop_outcomes _ _ _ _ _ _ message Hlv Hfl) as [[_ ?]|?]; [|done..].
  unfold writer_room in Hroom. lia.
Qed.

(** *** Closing the write side *)

(** What [shutdownInLoop] adds to the trace. *)
Definition shutdown_events (conn : TcpConnection) (chan : Channel) : list event :=
  if Channel.isWriting chan then [] else [EvShutdownWrite (tc_socket_ conn)].

Lemma shutdownInLoop_ok w c conn chan loop p :
  live w c conn chan loop p →
  ∃ k, let w' := upd w c conn chan loop (shutdown_events conn chan) k in
    shutdownInLoop c w = Ok ((), w') ∧ live w' c conn chan loop p.
Proof.
  intros Hlv. unfold shutdownInLoop, mbind, M_bind, deref. simpl.
  rewrite (lv_conn _ _ _ _ _ _ Hlv), assertInLoopThread_ok by eauto using lv_thread.
  rewrite (lv_chan _ _ _ _ _ _ Hlv). unfold shutdown_events.
  destruct (Channel.isWriting chan); simpl.
  - exists (w_kernel w). rewrite (upd_id _ _ _ _ _ _ Hlv). done.
  - unfold Socket.shutdownWrite, sockets.shutdownWrite, mbind, M_bind, syscall.
    destruct (sys_shutdown_wr _ _) as [r k]. exists k. split; [|by apply live_events].
    unfold emit, update, upd. simpl.
    rewrite (insert_id (w_channels w)), (insert_id (w_loops w)), (insert_id (w_conns w))
      by eauto using lv_chan, lv_loop, lv_conn. done.
Qed.

Lemma isWriting_disabled i e c :
  Channel.wf_events e →
  Channel.isWriting (Channel.setIndex i (Channel.setEvents (Channel.withoutWriting e) c)) = false.
Proof. intros. by apply Channel.writing_withoutWriting. Qed.

Definition drained_events (conn : TcpConnection) : list event :=
  if bool_decide (tc_state_ conn = Disconnecting) then [EvShutdownWrite (tc_socket_ conn)] else [].

Lemma output_drained_ok w c conn chan loop p :
  live w c conn chan loop p → pending conn = [] →
  ∃ chan' loop' p' k', let w' := upd w c conn chan' loop' (drained_events conn) k' in
    output_drained c w = Ok ((), w') ∧ live w' c conn chan' loop' p' ∧ flushing conn chan' ∧
    kept (w_channels w) conn conn chan chan' loop loop' p p'.
Proof.
  intros Hlv Hpend. unfold output_drained, mbind, M_bind, deref at 1. simpl.
  rewrite (lv_conn _ _ _ _ _ _ Hlv).
  pose proof (lv_events _ _ _ _ _ _ Hlv) as Hev.
  destruct (live_watching Channel.withoutWriting _ _ _ _ _ _ Hlv) as (i & p' & Hch & Hlv1 & Hk).
  { by apply Channel.wf_withoutWriting. }
  { by apply Channel.reading_withoutWriting. }
  cbn zeta in Hch, Hlv1. unfold Channel.disableWriting. rewrite Hch.
  rewrite (queue_write_complete_ok _ _ _ _ _ _ Hlv1).
  pose proof (live_completed _ _ _ _ _ _ [] (w_kernel w) Hlv1) as Hlv2.
  simpl. rewrite upd_upd in * by done. simpl in *.
  set (chan' := Channel.setIndex i _) in *. set (loop' := completed _ _ _) in *.
  assert (Channel.isWriting chan' = false) as Hnw by by apply isWriting_disabled.
  assert (flushing conn chan') as Hfl.
  { unfold flushing. rewrite Hnw, Hpend. done. }
  pose proof (kept_trans _ _ _ _ _ _ _ _ _ _ _ _ _ Hk
    (kept_completed _ c conn chan' _ p' (lookup_insert_eq _ _ _))) as Hk2.
  unfold deref at 1. simpl. rewrite lookup_insert_eq. unfold drained_events.
  destruct (bool_decide (tc_state_ conn = Disconnecting)).
  - destruct (shutdownInLoop_ok _ _ _ _ _ _ Hlv2) as (k & Hsd & Hlv3). cbn zeta in Hsd, Hlv3.
    rewrite upd_upd in Hsd, Hlv3 by done. unfold shutdown_events in *. rewrite Hnw in *.
    exists chan', loop', p', k. cbn zeta. done.
  - exists chan', loop', p', (w_kernel w). cbn zeta. done.
Qed.

(** *** Writing the pending bytes *)

(** What a step of a live connection that only moves pending bytes keeps. *)
Definition flushing_step (m : M unit) (w : World) (c : Z) (conn : TcpConnection) (chan : Channel)
    (loop : EventLoop) (p : Poller) : Prop :=
  ∃ conn' chan' loop' p' d tail k',
    let w' := upd w c conn' chan' loop' ([EvWrite (tc_socket_ conn) d] ++ tail) k' in
    m w = Ok ((), w') ∧ live w' c conn' chan' loop' p' ∧ flushing conn' chan' ∧
    kept (w_channels w) conn conn' chan chan' loop loop' p p' ∧ tc_state_ conn' = tc_state_ conn ∧
    tc_input_buffer_ conn' = tc_input_buffer_ conn ∧
    pending conn = d ++ pending conn' ∧
    tail = (if bool_decide (pending conn' = []) then drained_events conn else []) ∧
    Buffer.writer_idx_ (tc_output_buffer_ conn') = Buffer.writer_idx_ (tc_output_buffer_ conn) ∧
    d ≠ [].

Lemma handleWrite_idle w c conn chan loop p :
  live w c conn chan loop p → Channel.isWriting chan = false → handleWrite c w = Ok ((), w).
Proof.
  intros Hlv Hnw. unfold handleWrite, mbind, M_bind, deref. simpl.
  rewrite (lv_conn _ _ _ _ _ _ Hlv), assertInLoopThread_ok by eauto using lv_thread.
  by rewrite (lv_chan _ _ _ _ _ _ Hlv), Hnw.
Qed.

(** A failed write changes nothing but the kernel; neither does a write of no
    byte, which is in the trace. *)
Lemma handleWrite_nothing w c conn chan loop p r k :
  live w c conn chan loop p → Channel.isWriting chan = true →
  sys_write (ch_fd_ chan) (pending conn) (w_kernel w) = (r, k) → accepted r ≤ 0 →
  handleWrite c w = Ok ((), upd w c conn chan loop (write_events (ch_fd_ chan) (pending conn) r) k).
Proof.
  intros Hlv Hwr Hw Hr. unfold handleWrite, mbind, M_bind, deref. simpl.
  rewrite (lv_conn _ _ _ _ _ _ Hlv), assertInLoopThread_ok by eauto using lv_thread.
  rewrite (lv_chan _ _ _ _ _ _ Hlv), Hwr. unfold lift.
  rewrite Buffer.read_peek_ok by by destruct Hlv. fold (pending conn).
  rewrite (do_write_live _ _ _ _ _ _ _ _ _ Hlv Hw). destruct r as [n|e]; [|done].
  simpl in Hr. by rewrite (proj2 (Z.ltb_ge _ _)).
Qed.

Lemma handleWrite_some `{KL : !KernelLaws K} w c conn chan loop p n k :
  live w c conn chan loop p → Channel.isWriting chan = true →
  sys_write (ch_fd_ chan) (pending conn) (w_kernel w) = (Ret n, k) → 0 < n →
  flushing_step (handleWrite c) w c conn chan loop p.
Proof.
  intros Hlv Hwr Hw Hn. pose proof (accepted_bounds _ _ _ _ _ Hw) as Hacc. simpl in Hacc.
  unfold flushing_step, handleWrite, mbind, M_bind, deref. simpl.
  rewrite (lv_conn _ _ _ _ _ _ Hlv), assertInLoopThread_ok by eauto using lv_thread.
  rewrite (lv_chan _ _ _ _ _ _ Hlv), Hwr. unfold lift.
  assert (Buffer.wf (tc_output_buffer_ conn)) as Hwf by by destruct Hlv.
  rewrite Buffer.read_peek_ok by done. fold (pending conn).
  rewrite (do_write_live _ _ _ _ _ _ _ _ _ Hlv Hw). rewrite (proj2 (Z.ltb_lt _ _) Hn).
  destruct (Buffer.retrieve_ok n (tc_output_buffer_ conn)) as (out & -> & Hwf' & Hc & Hwi & _);
    [done|rewrite <- Buffer.contents_length by done; unfold pending in Hacc; lia|].
  unfold modify, mbind, M_bind, deref, store, update. simpl. rewrite lookup_insert_eq.
  assert (live (upd w c (setOutput out conn) chan loop (write_events (ch_fd_ chan) (pending conn)
            (Ret n)) k) c (setOutput out conn) chan loop p) as Hlv1.
  { eapply live_upd; [done|done|by destruct Hlv|done| | | |]; by destruct Hlv as [? []]. }
  set (w1 := set_conns _ _).
  assert (w1 = upd w c (setOutput out conn) chan loop
    (write_events (ch_fd_ chan) (pending conn) (Ret n)) k) as ->.
  { unfold w1, upd. simpl. by rewrite insert_insert_eq. }
  rewrite (lv_fd _ _ _ _ _ _ Hlv) in *. simpl in Hlv1.
  assert (pending conn = take (Z.to_nat n) (pending conn) ++ pending (setOutput out conn)) as Hsplit.
  { change (pending (setOutput out conn)) with (Buffer.contents out). rewrite Hc.
    symmetry. apply take_drop. }
  rewrite readable_0 by done.
  change (Buffer.contents out) with (pending (setOutput out conn)).
  assert (take (Z.to_nat n) (pending conn) ≠ []) as Hd.
  { intros [=]%(f_equal length). rewrite length_take in *. unfold zlen in Hacc. lia. }
  case_bool_decide as Hp.
  - destruct (output_drained_ok _ _ _ _ _ _ Hlv1 Hp) as (chan' & loop' & p' & k' & Hod & Hlv2 & Hfl & Hk).
    cbn zeta in Hod, Hlv2. simpl in Hod. rewrite upd_upd in Hod, Hlv2 by done.
    exists (setOutput out conn), chan', loop', p', (take (Z.to_nat n) (pending conn)), (drained_events conn), k'.
    cbn zeta. split; [exact Hod|]. split; [exact Hlv2|]. rewrite bool_decide_true by done.
    split_and!; try done. eapply kept_trans; [|exact Hk]; apply kept_same; [by eapply lv_chan|done].
  - exists (setOutput out conn), chan, loop, p, (take (Z.to_nat n) (pending conn)), [], k.
    cbn zeta. split; [done|]. split; [exact Hlv1|]. rewrite bool_decide_false by done.
    split_and!; try done; [unfold flushing; by rewrite bool_decide_false|apply kept_same; [by eapply lv_chan|done]].
Qed.

(** *** Sessions: sequences of sends, shutdowns and writable events *)

Inductive command : Type :=
  | CSend (message : list byte)
  | CShutdown
  | CWritable.

Definition exec (c : Z) (cmd : command) : M unit :=
  match cmd with
  | CSend message => send c message
  | CShutdown => shutdown c
  | CWritable => handleWrite c
  end.

(** The bytes a session accepts: the messages sent while connected. *)
Fixpoint accepted_bytes (s : States) (cmds : list command) : list byte :=
  match cmds with
  | [] => []
  | CSend m :: cmds =>
      if bool_decide (s = Connected) then m ++ accepted_bytes s cmds else accepted_bytes s cmds
  | CShutdown :: cmds =>
      accepted_bytes (if bool_decide (s = Connected) then Disconnecting else s) cmds
  | CWritable :: cmds => accepted_bytes s cmds
  end.

Definition next_state (s : States) (cmd : command) : States :=
  match cmd with
  | CShutdown => if bool_decide (s = Connected) then Disconnecting else s
  | _ => s
  end.

Definition command_bytes (cmd : command) : Z :=
  match cmd with CSend m => zlen m | _ => 0 end.

Definition session_bytes (cmds : list command) : Z := foldr (λ cmd z, command_bytes cmd + z) 0 cmds.

(** The number of times the write side of a socket was shut down. *)
Definition shutdowns (fd : Z) (tr : list event) : nat :=
  length (filter (λ e, e = EvShutdownWrite fd) tr).

(** The invariant of a session: the write side is shut down once, exactly when
    the connection is disconnecting and no byte is pending. *)
Record session (w : World) (c : Z) (conn : TcpConnection) (chan : Channel) (loop : EventLoop)
    (p : Poller) : Prop := {
  se_live : live w c conn chan loop p;
  se_flushing : flushing conn chan;
  se_state : tc_state_ conn = Connected ∨ tc_state_ conn = Disconnecting;
  se_shutdown : shutdowns (tc_socket_ conn) (w_trace w) =
    if bool_decide (tc_state_ conn = Disconnecting ∧ pending conn = []) then 1%nat else 0%nat
}.

Lemma shutdowns_app fd tr tr' : shutdowns fd (tr ++ tr') = (shutdowns fd tr + shutdowns fd tr')%nat.
Proof. unfold shutdowns. by rewrite filter_app, length_app. Qed.

Lemma shutdowns_writes fd f evs : only_writes f evs → shutdowns fd evs = 0%nat.
Proof.
  unfold shutdowns. induction 1 as [|e evs [d ->] _ IH]; [done|].
  rewrite filter_cons_False; done.
Qed.

Lemma shutdowns_one fd : shutdowns fd [EvShutdownWrite fd] = 1%nat.
Proof. unfold shutdowns. rewrite filter_cons_True by done. done. Qed.

(** One command of a session. *)
Definition session_step (m : M unit) (w : World) (c : Z) (conn : TcpConnection) (s : States)
    (sent_now : list byte) (room : Z) : Prop :=
  ∃ conn' chan' loop' p' w', m w = Ok ((), w') ∧ session w' c conn' chan' loop' p' ∧
    tc_state_ conn' = s ∧ tc_socket_ conn' = tc_socket_ conn ∧
    out_stream w' conn' = out_stream w conn ++ sent_now ∧
    Buffer.writer_idx_ (tc_output_buffer_ conn') ≤
      Buffer.writer_idx_ (tc_output_buffer_ conn) + room.

Lemma session_unchanged w c conn chan loop p m :
  session w c conn chan loop p → m w = Ok ((), w) →
  session_step m w c conn (tc_state_ conn) [] 0.
Proof.
  intros Hse Hm. exists conn, chan, loop, p, w. split_and!; try done; [by rewrite app_nil_r|lia].
Qed.

Lemma send_session `{KL : !KernelLaws K} w c conn chan loop p message :
  session w c conn chan loop p → tc_state_ conn = Connected →
  writer_room (tc_output_buffer_ conn) (zlen message) →
  session_step (send c message) w c conn Connected message (zlen message).
Proof.
  intros [Hlv Hfl Hst Hsd] Hs Hroom.
  destruct (sendInLoop_ok _ _ _ _ _ _ message Hlv Hfl Hroom)
    as (conn' & chan' & loop' & p' & evs & k' & Hsend & Hlv' & Hfl' & [[Hsame _ _ _ _] _] & Hs' & _ & Hout & Hev & Hle).
  exists conn', chan', loop', p', (upd w c conn' chan' loop' evs k'). split.
  { unfold send, mbind, M_bind, deref. simpl. rewrite (lv_conn _ _ _ _ _ _ Hlv), Hs.
    rewrite bool_decide_true by done. rewrite isInLoopThread_true by eauto using lv_thread. done. }
  destruct Hsame as (_ & _ & Hsock & _).
  split; [|split_and!; congruence || done].
  constructor; [done|done|left; congruence|].
  rewrite Hsock. simpl. rewrite shutdowns_app, Hsd, (shutdowns_writes _ _ _ Hev), Hs', Hs.
  rewrite !bool_decide_false by (intros [? _]; congruence). done.
Qed.

Lemma send_ignored w c conn chan loop p message :
  session w c conn chan loop p → tc_state_ conn = Disconnecting → send c message w = Ok ((), w).
Proof.
  intros [Hlv _ _ _] Hs. unfold send, mbind, M_bind, deref. simpl.
  by rewrite (lv_conn _ _ _ _ _ _ Hlv), Hs.
Qed.

Lemma shutdown_ignored w c conn chan loop p :
  session w c conn chan loop p → tc_state_ conn = Disconnecting → shutdown c w = Ok ((), w).
Proof.
  intros [Hlv _ _ _] Hs. unfold shutdown, mbind, M_bind, deref. simpl.
  by rewrite (lv_conn _ _ _ _ _ _ Hlv), Hs.
Qed.

Lemma shutdown_session w c conn chan loop p :
  session w c conn chan loop p → tc_state_ conn = Connected →
  session_step (shutdown c) w c conn Disconnecting [] 0.
Proof.
  intros [Hlv Hfl Hst Hsd] Hs.
  set (conn1 := setState Disconnecting conn).
  assert (live (upd w c conn1 chan loop [] (w_kernel w)) c conn1 chan loop p) as Hlv1.
  { eapply live_upd; [done|done|by destruct Hlv..| | | |]; by destruct Hlv as [? []]. }
  destruct (shutdownInLoop_ok _ _ _ _ _ _ Hlv1) as (k & Hsh & Hlv2). cbn zeta in Hsh, Hlv2.
  rewrite upd_upd in Hsh, Hlv2 by done. simpl in Hsh, Hlv2.
  eexists conn1, chan, loop, p, _. split.
  { unfold shutdown, mbind, M_bind, deref at 1. simpl. rewrite (lv_conn _ _ _ _ _ _ Hlv), Hs. simpl.
    unfold modify, mbind, M_bind, deref, store, update. simpl. rewrite (lv_conn _ _ _ _ _ _ Hlv).
    set (w1 := set_conns _ _).
    assert (w1 = upd w c conn1 chan loop [] (w_kernel w)) as ->.
    { unfold w1, upd. simpl. rewrite app_nil_r, (insert_id (w_channels w)), (insert_id (w_loops w))
        by eauto using lv_chan, lv_loop. done. }
    unfold EventLoop.runInLoop, mbind, M_bind. rewrite isInLoopThread_true by apply (lv_thread _ _ _ _ _ _ Hlv1).
    exact Hsh. }
  assert (flushing conn1 chan) as Hfl1 by exact Hfl.
  split; [|split_and!; [done|done| |simpl; lia]].
  - constructor; [done|done|by right|]. simpl. rewrite shutdowns_app, Hsd, Hs.
    rewrite bool_decide_false by (intros [? _]; congruence). unfold shutdown_events. rewrite Hfl1.
    simpl. destruct (decide (pending conn1 = [])) as [He|He].
    + rewrite !bool_decide_true by done. apply shutdowns_one.
    + rewrite (bool_decide_false (pending conn1 = [])), bool_decide_false by (done || by intros []).
      done.
  - unfold out_stream. simpl. rewrite sent_app, app_nil_r. unfold shutdown_events.
    destruct (Channel.isWriting chan); simpl; by rewrite app_nil_r.
Qed.

Lemma sent_drained fd conn : sent fd (drained_events conn) = [].
Proof. unfold drained_events. by case_bool_decide. Qed.

Lemma session_write_events w c conn chan loop p r k :
  session w c conn chan loop p → Channel.isWriting chan = true → accepted r ≤ 0 →
  session (upd w c conn chan loop (write_events (ch_fd_ chan) (pending conn) r) k) c conn chan
    loop p.
Proof.
  intros [Hlv Hfl Hst Hsd] Hwr Hr. constructor; [by apply live_events|done|done|].
  simpl. rewrite shutdowns_app, (shutdowns_writes _ _ _ (only_writes_events _ _ _)), Hsd. lia.
Qed.

(** A writable event moves bytes from the buffer to the wire. *)
Lemma handleWrite_session `{KL : !KernelLaws K} w c conn chan loop p :
  session w c conn chan loop p →
  session_step (handleWrite c) w c conn (tc_state_ conn) [] 0.
Proof.
  intros Hse. pose proof Hse as [Hlv Hfl Hst Hsd].
  destruct (Channel.isWriting chan) eqn:Hwr.
  2:{ eapply session_unchanged; [done|]. by eapply handleWrite_idle. }
  destruct (sys_write (ch_fd_ chan) (pending conn) (w_kernel w)) as [r k] eqn:Hw.
  destruct (decide (accepted r ≤ 0)) as [Hr|Hr].
  - eexists conn, chan, loop, p, _.
    split; [by eapply handleWrite_nothing|]. split; [by apply session_write_events|].
    split_and!; [done|done| |lia]. unfold out_stream. simpl.
    rewrite sent_app, <- (lv_fd _ _ _ _ _ _ Hlv), sent_write_events.
    replace (Z.to_nat (accepted r)) with 0%nat by lia. by rewrite take_0, !app_nil_r.
  - destruct r as [n|e]; simpl in Hr; [|lia].
    destruct (handleWrite_some _ _ _ _ _ _ _ _ Hlv Hwr Hw) as
      (conn' & chan' & loop' & p' & d & tail & k' & Hm & Hlv' & Hfl' & [[Hsame _ _ _ _] _] & Hs & _ & Hpe & Htail & Hwi & _);
      [lia|].
    eexists conn', chan', loop', p', _. split; [exact Hm|].
    pose proof Hsame as (_ & _ & Hsock & _).
    assert (pending conn ≠ []) as Hne.
    { intros Hnil. unfold flushing in Hfl. rewrite Hwr, Hnil in Hfl. done. }
    split; [constructor; [done|done|by rewrite Hs|]|].
    + rewrite Hsock. simpl. rewrite shutdowns_app, Hsd. rewrite bool_decide_false by (by intros []).
      change (EvWrite (tc_socket_ conn) d :: tail) with ([EvWrite (tc_socket_ conn) d] ++ tail).
      rewrite shutdowns_app, (shutdowns_writes _ (tc_socket_ conn)) by (repeat constructor; by eexists).
      subst tail. unfold drained_events. rewrite Hs.
      destruct (decide (pending conn' = [])) as [He|He], (decide (tc_state_ conn = Disconnecting)) as [Hd|Hd];
        rewrite ?(bool_decide_true (pending conn' = [])), ?(bool_decide_false (pending conn' = [])),
          ?(bool_decide_true (tc_state_ conn = Disconnecting)),
          ?(bool_decide_false (tc_state_ conn = Disconnecting)),
          ?(bool_decide_true (_ ∧ _)), ?(bool_decide_false (_ ∧ _)) by (done || by intros []);
        rewrite ?shutdowns_one; done.
    + split_and!; [done|done| |lia]. rewrite app_nil_r. unfold out_stream. simpl.
      rewrite Hsock, sent_app.
      change (EvWrite (tc_socket_ conn) d :: tail) with ([EvWrite (tc_socket_ conn) d] ++ tail).
      rewrite sent_app, sent_write, Hpe.
      assert (sent (tc_socket_ conn) tail = []) as ->.
      { subst tail. case_bool_decide; [apply sent_drained|done]. }
      by rewrite app_nil_r, <- app_assoc.
Qed.

Lemma exec_session `{KL : !KernelLaws K} w c conn chan loop p cmd :
  session w c conn chan loop p →
  writer_room (tc_output_buffer_ conn) (command_bytes cmd) →
  session_step (exec c cmd) w c conn (next_state (tc_state_ conn) cmd)
    (accepted_bytes (tc_state_ conn) [cmd]) (command_bytes cmd).
Proof.
  intros Hse Hroom. pose proof (se_state _ _ _ _ _ _ Hse) as Hst.
  destruct cmd as [m| |]; simpl.
  - destruct Hst as [Hs|Hs]; rewrite Hs; simpl.
    + rewrite app_nil_r. eapply send_session; done.
    + destruct (session_unchanged _ _ _ _ _ _ (send c m) Hse) as
        (conn' & chan' & loop' & p' & w' & ? & ? & ? & ? & ? & ?); [by eapply send_ignored|].
      exists conn', chan', loop', p', w'. split_and!; try done; [congruence|].
      pose proof (zlen_nonneg m). lia.
  - destruct Hst as [Hs|Hs]; rewrite Hs; simpl.
    + eapply shutdown_session; done.
    + rewrite <- Hs. eapply session_unchanged; [done|]. by eapply shutdown_ignored.
  - by eapply handleWrite_session.
Qed.

Lemma accepted_bytes_cons s cmd cmds :
  accepted_bytes s (cmd :: cmds) = accepted_bytes s [cmd] ++ accepted_bytes (next_state s cmd) cmds.
Proof.
  destruct cmd; simpl; [|done..]. case_bool_decide; [|done]. by rewrite app_nil_r.
Qed.

Lemma session_bytes_nonneg cmds : 0 ≤ session_bytes cmds.
Proof.
  induction cmds as [|[m| |] cmds IH]; simpl; [lia| |lia..]. pose proof (zlen_nonneg m). lia.
Qed.

Lemma run_session `{KL : !KernelLaws K} cmds w c conn chan loop p :
  session w c conn chan loop p →
  writer_room (tc_output_buffer_ conn) (session_bytes cmds) →
  session_step (for_each (exec c) cmds) w c conn (foldl next_state (tc_state_ conn) cmds)
    (accepted_bytes (tc_state_ conn) cmds) (session_bytes cmds).
Proof.
  revert w conn chan loop p. induction cmds as [|cmd cmds IH]; intros w conn chan loop p Hse Hroom.
  { by eapply session_unchanged. }
  pose proof (session_bytes_nonneg cmds). unfold writer_room in *. simpl in Hroom.
  destruct (exec_session _ _ _ _ _ _ cmd Hse) as
    (conn1 & chan1 & loop1 & p1 & w1 & Hm1 & Hse1 & Hs1 & Hsock1 & Hout1 & Hle1).
  { unfold writer_room. lia. }
  destruct (IH w1 conn1 chan1 loop1 p1 Hse1) as
    (conn2 & chan2 & loop2 & p2 & w2 & Hm2 & Hse2 & Hs2 & Hsock2 & Hout2 & Hle2); [lia|].
  exists conn2, chan2, loop2, p2, w2. split.
  { simpl. unfold mbind, M_bind. by rewrite Hm1. }
  split; [done|]. rewrite accepted_bytes_cons.
  split_and!; [by rewrite Hs2, Hs1|congruence| |simpl; lia].
  by rewrite Hout2, Hout1, Hs1, <- app_assoc.
Qed.

(** *** Reading *)

(** The connection after [d] was read into its input buffer. *)
Lemma handleRead_store w c conn chan loop p evs k input :
  live w c conn chan loop p →
  Buffer.wf input →
  live (upd w c (setInput input conn) chan loop evs k) c (setInput input conn) chan loop p.
Proof.
  intros Hlv Hwf. eapply live_upd; [done|done|done|by destruct Hlv| | | |];
    by destruct Hlv as [? []].
Qed.

Lemma set_input_world w c conn chan loop p k input :
  live w c conn chan loop p →
  set_conns (<[c := setInput input conn]> (w_conns w)) (set_kernel k w) =
  upd w c (setInput input conn) chan loop [] k.
Proof.
  intros Hlv. unfold upd, set_conns, set_kernel. simpl.
  by rewrite app_nil_r, (insert_id (w_channels w)), (insert_id (w_loops w))
    by eauto using lv_chan, lv_loop.
Qed.

(** What a read adds to the trace. *)
Definition read_events (fd : Z) (r : Buffer.readv_result) : list event :=
  match r with Buffer.ReadvBytes ((_ :: _) as d) => [EvRead fd d] | _ => [] end.

Lemma set_input_trace w c conn chan loop p evs k input :
  live w c conn chan loop p →
  set_conns (<[c := setInput input conn]> (w_conns w))
    (set_trace (w_trace w ++ evs) (set_kernel k w)) =
  upd w c (setInput input conn) chan loop evs k.
Proof.
  intros Hlv. unfold upd, set_conns, set_kernel, set_trace. simpl.
  by rewrite (insert_id (w_channels w)), (insert_id (w_loops w)) by eauto using lv_chan, lv_loop.
Qed.

Lemma handleRead_unfold w c conn chan loop p r k t :
  live w c conn chan loop p →
  sys_readv (ch_fd_ chan) (Buffer.iov_room (tc_input_buffer_ conn)) (w_kernel w) = (r, k) →
  handleRead c t w =
    ('(n, _, input) ← lift (Buffer.readFd r (tc_input_buffer_ conn));
     _ ← modify c (setInput input);
     if 0 <? n then call_function (tc_message_cb_ conn) (λ cb, app_message cb c t)
     else if n =? 0 then handleClose c else handleError c)
      (set_trace (w_trace w ++ read_events (ch_fd_ chan) r) (set_kernel k w)).
Proof.
  intros Hlv Hr. unfold handleRead, mbind, M_bind, deref. simpl.
  rewrite (lv_conn _ _ _ _ _ _ Hlv), (lv_chan _ _ _ _ _ _ Hlv).
  unfold do_readv, syscall, emit, update, mbind, M_bind. rewrite Hr. unfold lift.
  assert (set_trace (w_trace w) (set_kernel k w) = set_kernel k w) as He by by destruct w.
  destruct r as [[|x d]|]; cbn [read_events mret M_ret]; rewrite ?app_nil_r, ?He; unfold mret, M_ret;
    simpl; [by destruct (Buffer.readFd _ _) as [[[? ?] ?]|]..|done].
Qed.

(** Bytes arrived: they are appended to the input buffer and the message
    callback is called. *)
Lemma handleRead_arrived w c conn chan loop p d k t input :
  live w c conn chan loop p → d ≠ [] →
  sys_readv (ch_fd_ chan) (Buffer.iov_room (tc_input_buffer_ conn)) (w_kernel w) =
    (Buffer.ReadvBytes d, k) →
  Buffer.readFd (Buffer.ReadvBytes d) (tc_input_buffer_ conn) = Ok (zlen d, None, input) →
  Buffer.wf input →
  let conn' := setInput input conn in
  let w' := upd w c conn' chan loop [EvRead (tc_socket_ conn) d] k in
  handleRead c t w = call_function (tc_message_cb_ conn) (λ cb, app_message cb c t) w' ∧
  live w' c conn' chan loop p.
Proof.
  intros Hlv Hd Hr Hf Hwf. cbn zeta. split; [|by apply handleRead_store].
  rewrite (handleRead_unfold _ _ _ _ _ _ _ _ _ Hlv Hr). rewrite Hf.
  unfold mbind, M_bind, lift, modify, mbind, M_bind, deref, store, update. simpl.
  rewrite (lv_conn _ _ _ _ _ _ Hlv), (lv_fd _ _ _ _ _ _ Hlv).
  rewrite (proj2 (Z.ltb_lt _ _)).
  { rewrite <- (set_input_trace _ _ _ _ _ _ _ _ _ Hlv). by destruct d. }
  destruct d as [|b d]; [done|]. unfold zlen. simpl. lia.
Qed.

Lemma handleRead_data w c conn chan loop p d k t :
  live w c conn chan loop p → d ≠ [] →
  writer_room (tc_input_buffer_ conn) (zlen d) →
  sys_readv (ch_fd_ chan) (Buffer.iov_room (tc_input_buffer_ conn)) (w_kernel w) =
    (Buffer.ReadvBytes d, k) →
  ∃ input, let conn' := setInput input conn in
    let w' := upd w c conn' chan loop [EvRead (tc_socket_ conn) d] k in
    handleRead c t w = call_function (tc_message_cb_ conn) (λ cb, app_message cb c t) w' ∧
    live w' c conn' chan loop p ∧
    Buffer.contents input = Buffer.contents (tc_input_buffer_ conn) ++ d.
Proof.
  intros Hlv Hd Hroom Hr.
  destruct (Buffer.readFd_ok d (tc_input_buffer_ conn)) as (input & Hf & Hwf & Hc & _);
    [by destruct Hlv|done|].
  exists input. cbn zeta.
  destruct (handleRead_arrived _ _ _ _ _ _ _ _ t input Hlv Hd Hr Hf Hwf). done.
Qed.

(** Bytes arrived, and the input buffer cannot grow to hold them. *)
Lemma handleRead_full w c conn chan loop p d k t :
  live w c conn chan loop p →
  sys_readv (ch_fd_ chan) (Buffer.iov_room (tc_input_buffer_ conn)) (w_kernel w) =
    (Buffer.ReadvBytes d, k) →
  Buffer.readFd (Buffer.ReadvBytes d) (tc_input_buffer_ conn) = Fault LengthError →
  handleRead c t w = Fault LengthError.
Proof.
  intros Hlv Hr Hf. rewrite (handleRead_unfold _ _ _ _ _ _ _ _ _ Hlv Hr).
  unfold mbind, M_bind, lift. by rewrite Hf.
Qed.

(** *** Closing *)

(** The connection told its owner: its channel watches nothing any more. *)
Lemma handleClose_ok w c conn chan loop p :
  live w c conn chan loop p → open_state (tc_state_ conn) = true →
  ∃ chan' loop' p', let w' := upd w c conn chan' loop' [] (w_kernel w) in
    handleClose c w = call_function (tc_close_cb_ conn) (λ s, owner_close s c) w' ∧
    live w' c conn chan' loop' p' ∧ ch_events_ chan' = Channel.NoneEvent ∧
    el_pending_functors_ loop' = el_pending_functors_ loop ∧
    changed conn conn chan chan' loop loop' p p' ∧
    (Poller.asked (w_channels w) p → Poller.asked (w_channels w') p').
Proof.
  intros Hlv Hs. destruct (live_change (λ _, Channel.NoneEvent) _ _ _ _ _ _ Hlv Channel.wf_none)
    as (i & p' & Hch & Hlv' & Hk & Has & _). specialize (Has (λ _, eq_refl)). cbn zeta in Hch, Hlv'.
  eexists _, _, p'. cbn zeta. split; [|split; [exact Hlv'|done]].
  unfold handleClose, mbind, M_bind, deref at 1. simpl.
  rewrite (lv_conn _ _ _ _ _ _ Hlv), assertInLoopThread_ok by eauto using lv_thread.
  unfold lift. rewrite assert_true by done. unfold Channel.disableAllEvents. rewrite Hch.
  unfold deref. simpl. by rewrite lookup_insert_eq.
Qed.

(** *** Destroying *)

(** The connection after its state was set. *)
Lemma attached_state w c conn chan loop p s :
  attached w c conn chan loop p →
  attached (upd w c (setState s conn) chan loop [] (w_kernel w)) c (setState s conn) chan loop p ∧
  set_conns (<[c := setState s conn]> (w_conns w)) w =
    upd w c (setState s conn) chan loop [] (w_kernel w).
Proof.
  intros [Hconn Hwt Hreg Hfd Hin Hout].
  assert (set_conns (<[c := setState s conn]> (w_conns w)) w =
    upd w c (setState s conn) chan loop [] (w_kernel w)) as Heq.
  { destruct Hwt as [_ Hl _ _ (Hc & _) _ _]. unfold upd, set_conns. simpl.
    by rewrite app_nil_r, (insert_id (w_channels w)), (insert_id (w_loops w)). }
  split; [|done]. rewrite <- Heq.
  constructor; [apply lookup_insert_eq| |done..].
  destruct Hwt as [Hth Hl Hp Hok Hup Hhome Hown]. constructor; done.
Qed.

Lemma destroyConnection_unfold w c conn chan loop p :
  attached w c conn chan loop p → open_state (tc_state_ conn) = true →
  ∃ chan' loop' p', let conn' := setState Disconnected conn in
    let w' := upd w c conn' chan' loop' [] (w_kernel w) in
    destroyConnection c w =
      (_ ← call_function (tc_connection_cb_ conn) (λ cb, app_connection cb c);
       EventLoop.removeChannel (tc_loop_ conn) (tc_channel_ conn)) w' ∧
    attached w' c conn' chan' loop' p' ∧ ch_events_ chan' = Channel.NoneEvent ∧
    el_pending_functors_ loop' = el_pending_functors_ loop ∧
    changed conn conn' chan chan' loop loop' p p' ∧
    (Poller.asked (w_channels w) p → Poller.asked (w_channels w') p') ∧
    ∃ ig, Poller.lookup_entry (w_channels w') p' (ch_fd_ chan') =
            Some (Poller.mkEntry (tc_channel_ conn) 0 ig).
Proof.
  intros Hat Hs.
  destruct (attached_state _ _ _ _ _ _ Disconnected Hat) as [Hat1 Heq].
  destruct (attached_change (λ _, Channel.NoneEvent) _ _ _ _ _ _ Hat1 Channel.wf_none)
    as (i & p' & Hch & Hat2 & Hk & Has & Hlk). cbn zeta in Hch, Hat2, Hk, Hlk.
  specialize (Has (λ _, eq_refl)). simpl in Has.
  rewrite insert_insert_eq, insert_id in Has by by destruct Hat as [_ [_ _ _ _ [? _] _ _] _ _ _ _].
  rewrite upd_upd in Hch, Hat2, Hlk by done. simpl in Hch, Hat2.
  eexists _, _, p'. cbn zeta. split; [|split; [exact Hat2|split; [done|split; [done|
    split; [eapply changed_trans; [|exact Hk]; by apply changed_same|split; [exact Has|exact Hlk]]]]]].
  unfold destroyConnection, mbind, M_bind, deref at 1. simpl.
  pose proof Hat as [Hconn [Hth _ _ _ _ _ _] _ _ _ _].
  rewrite Hconn, assertInLoopThread_ok by done.
  unfold lift. rewrite assert_true by done.
  unfold modify, mbind, M_bind, deref at 1, store, update. simpl. rewrite Hconn, Heq.
  unfold Channel.disableAllEvents. rewrite Hch. unfold deref. simpl. by rewrite lookup_insert_eq.
Qed.

(** With a connection callback that leaves the process as it is, the
    connection ends disconnected and its channel leaves the poller. *)
Lemma destroyConnection_ok w c conn chan loop p cb :
  attached w c conn chan loop p → open_state (tc_state_ conn) = true →
  tc_connection_cb_ conn = Some cb → (∀ w, app_connection cb c w = Ok ((), w)) →
  ∃ w' loop' p', destroyConnection c w = Ok ((), w') ∧
    w_conns w' = <[c := setState Disconnected conn]> (w_conns w) ∧
    w_loops w' = <[tc_loop_ conn := loop']> (w_loops w) ∧
    el_poller_ loop' = Some p' ∧ Poller.ok (w_channels w') p' ∧
    el_pending_functors_ loop' = el_pending_functors_ loop ∧
    Poller.lookup_entry (w_channels w') p' (tc_socket_ conn) = None ∧
    w_trace w' = w_trace w ∧ w_servers w' = w_servers w ∧ w_kernel w' = w_kernel w ∧
    pl_channel_map_ p' !! tc_socket_ conn = None ∧
    ∃ chan', w_channels w' !! tc_channel_ conn = Some chan' ∧ ch_fd_ chan' = tc_socket_ conn ∧
      ch_events_handling_ chan' = ch_events_handling_ chan.
Proof.
  intros Hat Hs Hcb Happ.
  destruct (destroyConnection_unfold _ _ _ _ _ _ Hat Hs)
    as (chan' & loop' & p' & Hd & Hat' & Hnone & Hpf & Hkept & _ & Hlk). cbn zeta in *.
  destruct Hat' as [_ Hwt Hreg Hfd _ _].
  destruct (LoopFacts.loop_removeChannel_ok _ _ _ _ _ _ Hwt Hreg Hnone Hlk)
    as (h' & p'' & Hrm & Hok & Hsame & Hmap & _ & Hlk').
  eexists _, _, p''. split.
  { rewrite Hd, Hcb. unfold mbind, M_bind. simpl. rewrite Happ. exact Hrm. }
  simpl. split; [done|]. rewrite insert_insert_eq. split; [done|]. split; [done|].
  split; [done|]. split; [done|].
  split; [by rewrite Hlk', decide_True by by rewrite Hfd|]. split; [by rewrite app_nil_r|].
  split; [done|]. split; [done|]. split; [rewrite Hmap, Hfd; apply lookup_delete_eq|].
  specialize (Hsame (tc_channel_ conn)). simpl in Hsame. rewrite lookup_insert_eq in Hsame.
  destruct (h' !! tc_channel_ conn) as [chan''|]; [|done]. destruct Hsame as [i ->].
  eexists. split; [done|]. destruct Hkept as [_ (e & j & ->) _ _ _]. done.
Qed.

End facts.

End TcpConnection.
