(* ===== verification/ConnectionTheorems.v ===== *)
(** * Theorems about connections

    The life of a [TcpConnection] in the thread of its loop: the bytes of the
    application reach the kernel in order, incoming data reaches the message
    callback, and sends of other threads are handed to the loop. *)

From S2P Require Import Prelude Timestamp Buffer Kernel State CurrentThread Channel Poller.
From S2P Require Import EventLoop Sample SocketsOptions Socket TcpConnection.

Section lemmas.
Context `{K : Kernel} `{B : Build} `{BL : !BuildLaws B} `{A : !App} `{O : !ConnectionOwner}.

(** The connection after its input buffer was read to the end of file. *)
Lemma handleRead_eof w c conn chan loop p k t :
  TcpConnection.live w c conn chan loop p →
  sys_readv (ch_fd_ chan) (Buffer.iov_room (tc_input_buffer_ conn)) (w_kernel w) =
    (Buffer.ReadvBytes [], k) →
  ∃ input, let conn' := TcpConnection.setInput input conn in
    let w' := TcpConnection.upd w c conn' chan loop [] k in
    TcpConnection.handleRead c t w = TcpConnection.handleClose c w' ∧
    TcpConnection.live w' c conn' chan loop p ∧
    Buffer.contents input = Buffer.contents (tc_input_buffer_ conn).
Proof.
  intros Hlv Hr. pose proof Hlv as [_ _ _ _ Hin _ _ _].
  destruct (Buffer.readFd_ok [] (tc_input_buffer_ conn)) as (input & Hf & Hwf & Hc & _);
    [done|change (zlen []) with 0; destruct Hin; lia|].
  exists input. cbn zeta. split_and!; [|by apply TcpConnection.handleRead_store|].
  2:{ by rewrite Hc, app_nil_r. }
  rewrite (TcpConnection.handleRead_unfold _ _ _ _ _ _ _ _ _ Hlv Hr). rewrite Hf.
  unfold mbind, M_bind, lift, modify, mbind, M_bind, deref, store, update. simpl.
  rewrite (TcpConnection.lv_conn _ _ _ _ _ _ Hlv).
  by rewrite <- (TcpConnection.set_input_trace _ _ _ _ _ _ _ _ _ Hlv).
Qed.

Lemma handleRead_failed w c conn chan loop p errno k t :
  TcpConnection.live w c conn chan loop p →
  sys_readv (ch_fd_ chan) (Buffer.iov_room (tc_input_buffer_ conn)) (w_kernel w) =
    (Buffer.ReadvError errno, k) →
  TcpConnection.handleRead c t w = Ok ((), set_kernel (snd (sys_so_error (ch_fd_ chan) k)) w).
Proof.
  intros Hlv Hr.
  rewrite (TcpConnection.handleRead_unfold _ _ _ _ _ _ _ _ _ Hlv Hr), Buffer.readFd_error.
  unfold mbind, M_bind, lift, modify, mbind, M_bind, deref, store, update. simpl.
  rewrite (TcpConnection.lv_conn _ _ _ _ _ _ Hlv).
  unfold TcpConnection.handleError, sockets.getSocketError, mbind, M_bind, deref, syscall. simpl.
  rewrite lookup_insert_eq. simpl.
  rewrite (TcpConnection.lv_chan _ _ _ _ _ _ Hlv). simpl.
  destruct (sys_so_error _ k) as [[r v] k']. unfold set_conns, set_kernel, set_trace. simpl.
  rewrite app_nil_r.
  replace (<[c := TcpConnection.setInput (tc_input_buffer_ conn) conn]> (w_conns w)) with (w_conns w).
  { by destruct r. }
  symmetry. apply insert_id. rewrite (TcpConnection.lv_conn _ _ _ _ _ _ Hlv). by destruct conn.
Qed.

End lemmas.

(** ** Draining *)
Section draining.
Context `{K : Kernel} `{KL : !KernelLaws K} `{B : Build} `{BL : !BuildLaws B} `{A : !App}
  `{O : !ConnectionOwner}.

(** A descriptor whose writes take at least a byte (write(2), after poll(2) reported it writable). *)
Definition takes_bytes (fd : Z) : Prop :=
  ∀ d k, d ≠ [] → ∃ n k', sys_write fd d k = (Ret n, k') ∧ 0 < n.

(** A writable event takes bytes off the output buffer, while there are any. *)
Lemma writable_progress w c conn chan loop p :
  TcpConnection.session w c conn chan loop p → takes_bytes (tc_socket_ conn) →
  ∃ conn' chan' loop' p' w', TcpConnection.handleWrite c w = Ok ((), w') ∧
    TcpConnection.session w' c conn' chan' loop' p' ∧ tc_socket_ conn' = tc_socket_ conn ∧
    tc_state_ conn' = tc_state_ conn ∧
    TcpConnection.out_stream w' conn' = TcpConnection.out_stream w conn ∧
    (length (TcpConnection.pending conn') ≤ pred (length (TcpConnection.pending conn)))%nat.
Proof.
  intros Hse Hfd. pose proof Hse as [Hlv Hfl _ _].
  destruct (TcpConnection.handleWrite_session _ _ _ _ _ _ Hse) as
    (conn' & chan' & loop' & p' & w' & Hm & Hse' & Hs & Hsock & Hout & _).
  rewrite app_nil_r in Hout. exists conn', chan', loop', p', w'. split_and!; try done.
  unfold TcpConnection.flushing in Hfl. pose proof (TcpConnection.lv_conn _ _ _ _ _ _ (TcpConnection.se_live _ _ _ _ _ _ Hse')) as Hc'.
  case_bool_decide as Hp.
  { rewrite (TcpConnection.handleWrite_idle _ _ _ _ _ _ Hlv Hfl) in Hm. simplify_eq.
    rewrite (TcpConnection.lv_conn _ _ _ _ _ _ Hlv) in Hc'. simplify_eq. by rewrite Hp. }
  destruct (Hfd (TcpConnection.pending conn) (w_kernel w) Hp) as (n & k & Hw & Hn).
  rewrite <- (TcpConnection.lv_fd _ _ _ _ _ _ Hlv) in Hw.
  destruct (TcpConnection.handleWrite_some _ _ _ _ _ _ _ _ Hlv Hfl Hw Hn) as
    (conn1 & chan1 & loop1 & p1 & d & tail & k1 & Hm1 & Hlv1 & _ & _ & _ & _ & Hpe & _ & _ & Hd).
  rewrite Hm1 in Hm. injection Hm as <-. pose proof (TcpConnection.lv_conn _ _ _ _ _ _ Hlv1) as Hc1.
  simpl in Hc1, Hc'. rewrite Hc1 in Hc'. injection Hc' as <-.
  rewrite Hpe, length_app. destruct d; [done|]. simpl. lia.
Qed.

Lemma writables_drain n w c conn chan loop p :
  TcpConnection.session w c conn chan loop p → takes_bytes (tc_socket_ conn) →
  (length (TcpConnection.pending conn) ≤ n)%nat →
  ∃ conn' chan' loop' p' w',
    for_each (TcpConnection.exec c) (replicate n TcpConnection.CWritable) w = Ok ((), w') ∧
    TcpConnection.session w' c conn' chan' loop' p' ∧ tc_socket_ conn' = tc_socket_ conn ∧
    tc_state_ conn' = tc_state_ conn ∧ TcpConnection.pending conn' = [] ∧
    TcpConnection.out_stream w' conn' = TcpConnection.out_stream w conn.
Proof.
  intros Hse Hfd. revert w conn chan loop p Hse Hfd. induction n as [|n IH]; intros w conn chan loop p Hse Hfd Hle.
  { eexists conn, chan, loop, p, w. split_and!; try done. apply length_zero_iff_nil. lia. }
  destruct (writable_progress _ _ _ _ _ _ Hse Hfd) as
    (conn1 & chan1 & loop1 & p1 & w1 & Hm1 & Hse1 & Hsock1 & Hs1 & Hout1 & Hle1).
  destruct (IH w1 conn1 chan1 loop1 p1 Hse1) as
    (conn2 & chan2 & loop2 & p2 & w2 & Hm2 & Hse2 & Hsock2 & Hs2 & Hp2 & Hout2); [by rewrite Hsock1|lia|].
  exists conn2, chan2, loop2, p2, w2. split; [simpl; unfold mbind, M_bind; by rewrite Hm1|].
  split_and!; first [done|congruence].
Qed.

End draining.

(** ** Theorems *)
Section theorems.
Context `{K : Kernel} `{B : Build} `{BL : !BuildLaws B} `{A : !App} `{O : !ConnectionOwner}.

(** C8: for any sequence of sends, shutdowns and writable events in the thread
    of the loop, and whatever part of each write the kernel accepts, the library
    faults nowhere; the bytes given to the kernel followed by the bytes still in
    the output buffer are exactly the messages sent while connected, in order;
    the channel watches for write events exactly while bytes are pending; and the
    write side is shut down once, after the last pending byte. *)
Theorem session_output_in_order `{KL : !KernelLaws K} cmds w c conn chan loop p :
  TcpConnection.session w c conn chan loop p →
  TcpConnection.writer_room (tc_output_buffer_ conn) (TcpConnection.session_bytes cmds) →
  ∃ conn' chan' loop' p' w',
    for_each (TcpConnection.exec c) cmds w = Ok ((), w') ∧
    TcpConnection.session w' c conn' chan' loop' p' ∧
    tc_state_ conn' = foldl TcpConnection.next_state (tc_state_ conn) cmds ∧
    TcpConnection.out_stream w' conn' =
      TcpConnection.out_stream w conn ++ TcpConnection.accepted_bytes (tc_state_ conn) cmds.
Proof.
  intros Hse Hroom.
  destruct (TcpConnection.run_session cmds _ _ _ _ _ _ Hse Hroom)
    as (conn' & chan' & loop' & p' & w' & Hrun & Hse' & Hs & _ & Hout & _).
  by exists conn', chan', loop', p', w'.
Qed.

(** the output drains.  Once a socket takes at least a byte each time it is
    reported writable, as many writable events as there are bytes pending deliver every byte,
    in order; then the channel no longer watches for write events, so that the loop does not
    spin, and a connection that was shut down has its write side closed, once. *)
Theorem pending_output_drains `{KL : !KernelLaws K} n w c conn chan loop p :
  TcpConnection.session w c conn chan loop p → takes_bytes (tc_socket_ conn) →
  (length (TcpConnection.pending conn) ≤ n)%nat →
  ∃ conn' chan' loop' p' w',
    for_each (TcpConnection.exec c) (replicate n TcpConnection.CWritable) w = Ok ((), w') ∧
    TcpConnection.session w' c conn' chan' loop' p' ∧
    TcpConnection.sent (tc_socket_ conn) (w_trace w') =
      TcpConnection.sent (tc_socket_ conn) (w_trace w) ++ TcpConnection.pending conn ∧
    TcpConnection.pending conn' = [] ∧ Channel.isWriting chan' = false ∧
    TcpConnection.shutdowns (tc_socket_ conn) (w_trace w') =
      if bool_decide (tc_state_ conn = Disconnecting) then 1%nat else 0%nat.
Proof.
  intros Hse Hfd Hle.
  destruct (writables_drain n _ _ _ _ _ _ Hse Hfd Hle) as
    (conn' & chan' & loop' & p' & w' & Hrun & Hse' & Hsock & Hs & Hp & Hout).
  exists conn', chan', loop', p', w'. split; [done|]. split; [done|].
  unfold TcpConnection.out_stream in Hout. rewrite Hsock, Hp, app_nil_r in Hout.
  pose proof (TcpConnection.se_flushing _ _ _ _ _ _ Hse') as Hfl. unfold TcpConnection.flushing in Hfl.
  rewrite Hp in Hfl. pose proof (TcpConnection.se_shutdown _ _ _ _ _ _ Hse') as Hsd.
  rewrite Hsock, Hs, Hp in Hsd. split_and!; [done..|]. rewrite Hsd.
  by rewrite (bool_decide_ext _ (tc_state_ conn = Disconnecting)) by (split; [by intros []|done]).
Qed.

(** C26: [handleRead] of a connection in the thread of its loop: bytes that
    arrive are appended to the input buffer and the message callback is called;
    the end of file closes the connection; a failed read changes nothing in the
    process. *)
Theorem handleRead_outcomes w c conn chan loop p r k t :
  TcpConnection.live w c conn chan loop p →
  (∀ d, r = Buffer.ReadvBytes d → TcpConnection.writer_room (tc_input_buffer_ conn) (zlen d)) →
  sys_readv (ch_fd_ chan) (Buffer.iov_room (tc_input_buffer_ conn)) (w_kernel w) = (r, k) →
  match r with
  | Buffer.ReadvError _ => ∃ k', TcpConnection.handleRead c t w = Ok ((), set_kernel k' w)
  | Buffer.ReadvBytes d =>
      ∃ input, let conn' := TcpConnection.setInput input conn in
        let w' := TcpConnection.upd w c conn' chan loop
                    (if bool_decide (d = []) then [] else [EvRead (tc_socket_ conn) d]) k in
        TcpConnection.live w' c conn' chan loop p ∧
        Buffer.contents input = Buffer.contents (tc_input_buffer_ conn) ++ d ∧
        TcpConnection.handleRead c t w =
          if bool_decide (d = []) then TcpConnection.handleClose c w'
          else TcpConnection.call_function (tc_message_cb_ conn) (λ cb, app_message cb c t) w'
  end.
Proof.
  intros Hlv Hroom Hr. destruct r as [d|errno];
    [|eexists; by eapply handleRead_failed].
  case_bool_decide as Hd.
  - subst d. destruct (handleRead_eof _ _ _ _ _ _ _ t Hlv Hr) as (input & Hrun & Hlv' & Hc).
    exists input. cbn zeta. rewrite app_nil_r. done.
  - destruct (TcpConnection.handleRead_data _ _ _ _ _ _ d _ t Hlv Hd (Hroom _ eq_refl) Hr)
      as (input & Hrun & Hlv' & Hc). exists input. done.
Qed.

(** C27: [send] from another thread touches neither the connection nor its
    socket: it queues [sendInLoop] with a copy of the message behind the functors
    of the loop and writes to the wake-up descriptor; when the connection is not
    connected it does nothing at all. *)
Theorem send_from_other_thread w c conn loop message r k :
  foreign_thread (tc_loop_ conn) w → w_conns w !! c = Some conn →
  w_loops w !! tc_loop_ conn = Some loop → el_mutex_ loop = None →
  sys_write (el_wakeup_fd_ loop) EventLoop.one_bytes (w_kernel w) = (r, k) →
  if bool_decide (tc_state_ conn = Connected) then
    ∃ w', TcpConnection.send c message w = Ok ((), w') ∧
      w_loops w' = <[tc_loop_ conn := LoopFacts.enqueue (fn_sendInLoop c message) loop]> (w_loops w) ∧
      w_conns w' = w_conns w ∧ w_channels w' = w_channels w ∧
      w_trace w' = w_trace w ++
        match r with
        | Ret n => [EvWrite (el_wakeup_fd_ loop) (take (Z.to_nat n) EventLoop.one_bytes)]
        | Err _ => []
        end
  else TcpConnection.send c message w = Ok ((), w).
Proof.
  intros Hfor Hc Hl Hm Hw. unfold TcpConnection.send, mbind, M_bind, deref. simpl. rewrite Hc.
  case_bool_decide as Hs; [|done]. rewrite isInLoopThread_false by done.
  unfold EventLoop.runInLoop, mbind, M_bind. rewrite isInLoopThread_false by done.
  destruct (LoopFacts.queueInLoop_foreign _ (fn_sendInLoop c message) _ _ _ _ Hfor Hl Hm Hw)
    as (w' & Hq & Hls & _ & Hch & Hco & Htr). by exists w'.
Qed.

End theorems.

(** ** On the sample process *)

#[local] Existing Instance Scripted.kernel.
#[local] Existing Instance Scripted.kernel_laws.
#[local] Existing Instance debug_build.

(** An application whose callbacks do nothing. *)
Definition silent_app : App := {|
  app_connection _ _ := mret ();
  app_message _ _ _ := mret ();
  app_write_complete _ _ := mret ();
  app_functor _ := mret ()
|}.

Definition silent_owner : ConnectionOwner := {| owner_close _ _ := mret () |}.

#[local] Existing Instance silent_app.
#[local] Existing Instance silent_owner.

Lemma sample_live k :
  TcpConnection.live (Sample.world 7 k) 1 (Sample.conn Connected) Sample.chan Sample.loop Sample.poller.
Proof. constructor; try done; [apply Sample.watchable|constructor; vm_compute; congruence..]. Qed.

Lemma sample_session k :
  TcpConnection.session (Sample.world 7 k) 1 (Sample.conn Connected) Sample.chan Sample.loop
    Sample.poller.
Proof. constructor; [apply sample_live|vm_compute; done|by left|vm_compute; done]. Qed.

(** The kernel takes one byte of the first message, then refuses, then takes
    everything. *)
Definition sample_cmds : list TcpConnection.command :=
  [TcpConnection.CSend [x61; x62; x63]; TcpConnection.CSend [x64]; TcpConnection.CWritable;
   TcpConnection.CShutdown; TcpConnection.CSend [x65]; TcpConnection.CWritable].

Lemma session_output_in_order_witness :
  ∃ conn' w', for_each (TcpConnection.exec 1) sample_cmds
      (Sample.world 7 (Sample.script [Ret 1; Err EWOULDBLOCK] [])) = Ok ((), w') ∧
    tc_state_ conn' = Disconnecting ∧
    TcpConnection.out_stream w' conn' = [x61; x62; x63; x64].
Proof.
  destruct (session_output_in_order sample_cmds _ _ _ _ _ _
    (sample_session (Sample.script [Ret 1; Err EWOULDBLOCK] [])))
    as (conn' & chan' & loop' & p' & w' & Hrun & _ & Hs & Hout).
  - vm_compute. done.
  - exists conn', w'. split; [done|]. split; [done|]. exact Hout.
Defined.

(** The same kernel, but a write takes one byte at a time. *)
Definition slow_kernel : Kernel := {|
  kstate := Scripted.state;
  sys_poll := sys_poll; sys_gettimeofday := sys_gettimeofday;
  sys_write _ d k := (Ret (Z.min 1 (zlen d)), k);
  sys_readv := sys_readv; sys_read := sys_read; sys_shutdown_wr := sys_shutdown_wr;
  sys_socket := sys_socket; sys_bind := sys_bind; sys_setsockopt := sys_setsockopt;
  sys_listen := sys_listen; sys_accept := sys_accept; sys_close := sys_close;
  sys_getsockname := sys_getsockname; sys_so_error := sys_so_error;
  sys_timerfd_create := sys_timerfd_create; sys_timerfd_settime := sys_timerfd_settime
|}.

Lemma slow_kernel_laws : KernelLaws slow_kernel.
Proof.
  pose proof Scripted.kernel_laws as []. constructor; try done.
  intros fd d k n k' H. cbn in H. simplify_eq. pose proof (zlen_nonneg d). lia.
Qed.

Lemma slow_kernel_takes fd : takes_bytes (K := slow_kernel) fd.
Proof.
  intros d k Hd. eexists _, _. split; [reflexivity|]. destruct d; [done|]. unfold zlen. simpl. lia.
Qed.

Definition slow_world : World (K := slow_kernel) := {|
  w_kernel := Sample.quiet : kstate (Kernel := slow_kernel); w_tid := 7; w_cachedTid := {[7 := 7]}; w_loopInThread := {[7 := 1]};
  w_channels := {[1 := Sample.chan]}; w_loops := {[1 := Sample.loop]};
  w_conns := {[1 := Sample.conn Connected]}; w_acceptors := ∅; w_pools := ∅; w_servers := ∅;
  w_timers := ∅; w_timerQueues := ∅; w_trace := []
|}.

Lemma slow_session :
  TcpConnection.session slow_world 1 (Sample.conn Connected) Sample.chan Sample.loop Sample.poller.
Proof.
  constructor; [|vm_compute; done|by left|vm_compute; done].
  constructor; try done; [|constructor; vm_compute; congruence..].
  constructor; try done; [|apply Sample.poller_ok| |by right].
  - split; [done|]. split; [done|]. by exists Sample.loop.
  - split_and!; try done. by right.
Qed.

(** Three bytes are pending when the connection is shut down; three writable events later they are
    written and the write side is closed. *)
Lemma pending_output_drains_witness :
  ∃ w1 w', for_each (TcpConnection.exec (K := slow_kernel) 1)
      [TcpConnection.CSend [x61; x62; x63; x64]; TcpConnection.CShutdown] slow_world = Ok ((), w1) ∧
    w_trace w1 = [EvWrite 5 [x61]] ∧
    for_each (TcpConnection.exec (K := slow_kernel) 1) (replicate 3 TcpConnection.CWritable) w1 = Ok ((), w') ∧
    TcpConnection.sent 5 (w_trace w') = [x61; x62; x63; x64] ∧
    TcpConnection.shutdowns 5 (w_trace w') = 1%nat.
Proof.
  destruct (session_output_in_order (KL := slow_kernel_laws)
    [TcpConnection.CSend [x61; x62; x63; x64]; TcpConnection.CShutdown] _ _ _ _ _ _ slow_session)
    as (conn1 & chan1 & loop1 & p1 & w1 & Hrun1 & Hse1 & Hs1 & _); [vm_compute; done|].
  assert (match for_each (TcpConnection.exec (K := slow_kernel) 1)
      [TcpConnection.CSend [x61; x62; x63; x64]; TcpConnection.CShutdown] slow_world with
    | Ok (_, w) => Some (w_trace w, (λ t, (tc_socket_ t, TcpConnection.pending t, tc_state_ t)) <$> (w_conns w !! 1))
    | Fault _ => None
    end = Some ([EvWrite 5 [x61]], Some (5, [x62; x63; x64], Disconnecting))) as Hrun by (vm_compute; reflexivity).
  rewrite Hrun1, (TcpConnection.lv_conn _ _ _ _ _ _ (TcpConnection.se_live _ _ _ _ _ _ Hse1)) in Hrun.
  injection Hrun as Htr Hsock Hp Hs.
  destruct (pending_output_drains (KL := slow_kernel_laws) 3 _ _ _ _ _ _ Hse1)
    as (conn' & chan' & loop' & p' & w' & Hrun' & _ & Hsent & _ & _ & Hsd);
    [apply slow_kernel_takes|by rewrite Hp|].
  rewrite Hsock, Htr, Hp in Hsent. rewrite Hsock, Hs in Hsd. by exists w1, w'.
Defined.

Lemma handleRead_outcomes_witness :
  let k := Sample.script [] [Buffer.ReadvBytes [x61; x62]] in
  ∃ input, TcpConnection.handleRead 1 Timestamp.invalid (Sample.world 7 k) =
      Ok ((), TcpConnection.upd (Sample.world 7 k) 1
        (TcpConnection.setInput input (Sample.conn Connected)) Sample.chan Sample.loop
        [EvRead 5 [x61; x62]] (Sample.script [] [])) ∧
    Buffer.contents input = [x61; x62].
Proof.
  intros k. destruct (handleRead_outcomes (K := Scripted.kernel) _ _ _ _ _ _ (Buffer.ReadvBytes [x61; x62])
    (Sample.script [] []) Timestamp.invalid (sample_live k)) as (input & _ & Hc & Hrun).
  - intros d [= <-]. vm_compute. done.
  - reflexivity.
  - exists input. split; [exact Hrun|exact Hc].
Defined.

Lemma send_from_other_thread_witness :
  ∃ w', TcpConnection.send 1 [x61] (Sample.world 8 Sample.quiet) = Ok ((), w') ∧
    w_conns w' = {[1 := Sample.conn Connected]} ∧
    w_trace w' = [EvWrite 4 EventLoop.one_bytes].
Proof.
  destruct (send_from_other_thread (K := Scripted.kernel) (Sample.world 8 Sample.quiet) 1 (Sample.conn Connected)
    Sample.loop [x61] (Ret 8) Sample.quiet (Sample.foreign_thread_world _)
    eq_refl eq_refl eq_refl eq_refl) as (w' & Hrun & _ & Hco & _ & Htr).
  exists w'. done.
Defined.
