(* ===== verification/Acceptor.v ===== *)
(** * The acceptor (src/src/include/acceptor.h, src/src/acceptor.cpp)

    The listening socket and its channel.  The target of [new_conn_cb_] is
    known through [ConnectionAcceptor]. *)

From S2P Require Import Prelude Timestamp Buffer Kernel State CurrentThread Channel Poller.
From S2P Require Import EventLoop SocketsOptions Socket InetAddr.

Class ConnectionAcceptor `{K : Kernel} : Type := {
  accept_connection : ServerPtr → Z → sockaddr_in → M unit
}.

Module Acceptor.

Definition setListenning (b : bool) (a : Acceptor) : Acceptor :=
  mkAcceptor (ac_loop_ a) (ac_socket_ a) (ac_channel_ a) (ac_new_conn_cb_ a) b.
Definition setNewConnectionCallback (cb : ServerPtr) (a : Acceptor) : Acceptor :=
  mkAcceptor (ac_loop_ a) (ac_socket_ a) (ac_channel_ a) (Some cb) (ac_listenning_ a).

Section operations.
Context `{K : Kernel} `{B : Build} `{CA : !ConnectionAcceptor}.

Definition Acceptor_ctor (owner_garbage : LoopPtr) (loop : LoopPtr) (listen_addr : sockaddr_in)
    : M AcceptorPtr :=
  sockfd ← sockets.createNonblockingOrDie;
  ch ← alloc (Channel.Channel_ctor owner_garbage loop sockfd);
  a ← alloc (mkAcceptor loop sockfd ch None false);
  _ ← Socket.setReuseAddr sockfd true;
  _ ← Socket.bindAddress sockfd listen_addr;
  _ ← modify ch (Channel.setReadCallback (cb_acceptorRead a));
  mret a.

Definition listenning (a : AcceptorPtr) : M bool :=
  acc ← deref a;
  mret (ac_listenning_ acc).

Definition listen (a : AcceptorPtr) : M unit :=
  acc ← deref a;
  _ ← assertInLoopThread (ac_loop_ acc);
  _ ← modify a (setListenning true);
  _ ← Socket.listen (ac_socket_ acc);
  Channel.enableReading (ac_channel_ acc).

Definition handleRead (a : AcceptorPtr) : M unit :=
  acc ← deref a;
  _ ← assertInLoopThread (ac_loop_ acc);
  '(connfd, peer_addr) ← Socket.accept (ac_socket_ acc) (InetAddress.InetAddress_port 0);
  if 0 <=? connfd then
    match ac_new_conn_cb_ acc with
    | Some server => accept_connection server connfd peer_addr
    | None => sockets.close connfd
    end
  else mret ().

End operations.
End Acceptor.
