(* ===== verification/EventLoopThreadPool.v ===== *)
(** * The pool of loops (src/src/include/event_loop_thread_pool.h,
      src/src/event_loop_thread_pool.cpp)

    The loops of the I/O threads, handed out in turn.  Starting a thread with
    its loop is known through [LoopThreads]. *)

From S2P Require Import Prelude Timestamp Buffer Kernel State CurrentThread Sample.

(** [(new EventLoopThread)->startLoop()]: the loop of a new thread. *)
Class LoopThreads `{K : Kernel} : Type := {
  startLoop : M LoopPtr
}.

Module EventLoopThreadPool.

Definition setStarted (b : bool) (t : EventLoopThreadPool) : EventLoopThreadPool :=
  mkPool (tp_base_loop_ t) b (tp_num_threads_ t) (tp_next_ t) (tp_loops_ t).
Definition setNumThreads (n : Z) (t : EventLoopThreadPool) : EventLoopThreadPool :=
  mkPool (tp_base_loop_ t) (tp_started_ t) n (tp_next_ t) (tp_loops_ t).
Definition setNext (n : Z) (t : EventLoopThreadPool) : EventLoopThreadPool :=
  mkPool (tp_base_loop_ t) (tp_started_ t) (tp_num_threads_ t) n (tp_loops_ t).
Definition setLoops (l : list LoopPtr) (t : EventLoopThreadPool) : EventLoopThreadPool :=
  mkPool (tp_base_loop_ t) (tp_started_ t) (tp_num_threads_ t) (tp_next_ t) l.

Section operations.
Context `{K : Kernel} `{B : Build}.

Definition EventLoopThreadPool_ctor (base_loop : LoopPtr) : M PoolPtr :=
  alloc (mkPool base_loop false 0 0 []).

Definition setThreadNum (pool : PoolPtr) (numThreads : Z) : M unit :=
  modify pool (setNumThreads numThreads).

Definition start `{LT : !LoopThreads} (pool : PoolPtr) : M unit :=
  t ← deref pool;
  _ ← lift (assert_ (negb (tp_started_ t)));
  _ ← assertInLoopThread (tp_base_loop_ t);
  _ ← modify pool (setStarted true);
  for_each (λ _ : nat,
      loop ← startLoop;
      modify pool (λ t, setLoops (tp_loops_ t ++ [loop]) t))
    (seq 0 (Z.to_nat (tp_num_threads_ t))).

Definition getNextLoop (pool : PoolPtr) : M LoopPtr :=
  t ← deref pool;
  _ ← assertInLoopThread (tp_base_loop_ t);
  match tp_loops_ t with
  | [] => mret (tp_base_loop_ t)
  | _ :: _ =>
      loop ← lift (if tp_next_ t <? 0 then Fault OutOfBounds
                   else result_of_option OutOfBounds (tp_loops_ t !! Z.to_nat (tp_next_ t)));
      next ← lift (checked 32 (tp_next_ t + 1));
      let next := if zlen (tp_loops_ t) <=? u64 next then 0 else next in
      _ ← modify pool (setNext next);
      mret loop
  end.

End operations.

(** ** Round robin *)
Section facts.
Context `{K : Kernel} `{B : Build} `{BL : !BuildLaws B}.

(** The members are in range: a started pool with loops points at one. *)
Record pool_ok (w : World) (pool : Z) (t : EventLoopThreadPool) : Prop := {
  po_lookup : w_pools w !! pool = Some t;
  po_thread : in_loop_thread (tp_base_loop_ t) w;
  po_next : 0 ≤ tp_next_ t;
  po_bound : tp_loops_ t ≠ [] → tp_next_ t < zlen (tp_loops_ t);
  po_size : zlen (tp_loops_ t) < 2 ^ 31
}.

Definition put_pool (pool : Z) (t : EventLoopThreadPool) (w : World) : World :=
  set_pools (<[pool := t]> (w_pools w)) w.

Lemma getNextLoop_base w pool t :
  pool_ok w pool t → tp_loops_ t = [] → getNextLoop pool w = Ok (tp_base_loop_ t, w).
Proof.
  intros Hpo Hnil. unfold getNextLoop, mbind, M_bind, deref. simpl.
  rewrite (po_lookup _ _ _ Hpo), assertInLoopThread_ok by apply (po_thread _ _ _ Hpo).
  by rewrite Hnil.
Qed.

(** The index after [n]: one further, around the array. *)
Definition wrap_next (len n : Z) : Z := (n + 1) mod len.

Lemma getNextLoop_next w pool t :
  pool_ok w pool t → tp_loops_ t ≠ [] →
  ∃ l, tp_loops_ t !! Z.to_nat (tp_next_ t) = Some l ∧
    let t' := setNext (wrap_next (zlen (tp_loops_ t)) (tp_next_ t)) t in
    getNextLoop pool w = Ok (l, put_pool pool t' w) ∧ pool_ok (put_pool pool t' w) pool t'.
Proof.
  intros Hpo Hne. pose proof Hpo as [Hl Hth H0 Hb Hsz]. specialize (Hb Hne).
  destruct (lookup_lt_is_Some_2 (tp_loops_ t) (Z.to_nat (tp_next_ t))) as [l Hlk].
  { unfold zlen in Hb. lia. }
  exists l. split; [done|]. cbn zeta.
  assert (wrap_next (zlen (tp_loops_ t)) (tp_next_ t) =
          if zlen (tp_loops_ t) <=? u64 (tp_next_ t + 1) then 0 else tp_next_ t + 1) as Hw.
  { unfold wrap_next. rewrite u64_small by lia. case Z.leb_spec; intros Hle.
    - replace (tp_next_ t + 1) with (zlen (tp_loops_ t)) by lia. apply Z.mod_same. lia.
    - apply Z.mod_small. lia. }
  split.
  - unfold getNextLoop, mbind, M_bind, deref. simpl.
    rewrite Hl, assertInLoopThread_ok by done. rewrite (proj2 (Z.ltb_ge _ _)) by lia.
    rewrite Hlk. destruct (tp_loops_ t) as [|l0 ls] eqn:Hls; [done|]. unfold lift. simpl.
    rewrite checked_ok by (rewrite <- Hls in *; simpl; lia).
    unfold modify, mbind, M_bind, deref, store, update. simpl. rewrite Hl. by rewrite Hw.
  - constructor; simpl; [apply lookup_insert_eq| | | |done].
    + revert Hth. apply in_loop_thread_frame; [done..|]. eauto.
    + unfold wrap_next. apply Z.mod_pos_bound. lia.
    + intros _. unfold wrap_next. apply Z.mod_pos_bound. lia.
Qed.

(** [n] calls in a row, with their results. *)
Fixpoint next_loops (n : nat) (pool : PoolPtr) : M (list LoopPtr) :=
  match n with
  | O => mret []
  | S n => l ← getNextLoop pool; ls ← next_loops n pool; mret (l :: ls)
  end.

Lemma next_loops_ok n w pool t :
  pool_ok w pool t → tp_loops_ t ≠ [] →
  ∃ ls w', next_loops n pool w = Ok (ls, w') ∧ length ls = n ∧
    ∀ i, (i < n)%nat →
      ls !! i = tp_loops_ t !! Z.to_nat ((tp_next_ t + Z.of_nat i) mod zlen (tp_loops_ t)).
Proof.
  revert w t. induction n as [|n IH]; intros w t Hpo Hne.
  { exists [], w. split_and!; [done|done|]. lia. }
  destruct (getNextLoop_next w pool t Hpo Hne) as (l & Hl & Hg & Hpo').
  cbn zeta in Hg, Hpo'. pose proof Hpo as [_ _ H0 Hb _]. specialize (Hb Hne).
  destruct (IH _ _ Hpo' Hne) as (ls & w' & Hn & Hlen & Hi).
  exists (l :: ls), w'. split_and!.
  - simpl. unfold mbind, M_bind. by rewrite Hg, Hn.
  - simpl. by rewrite Hlen.
  - intros [|i] Hlt; simpl.
    + rewrite Z.add_0_r, Z.mod_small by lia. done.
    + rewrite Hi by lia. cbn [tp_loops_ tp_next_ setNext]. unfold wrap_next.
      rewrite Z.add_mod_idemp_l by lia. do 2 f_equal. f_equal. lia.
Qed.

(** [getNextLoop] of a started pool with loops hands them out in turn: the
    i-th of n calls in the thread of the base loop returns the loop at distance i
    from [next_], around the array, and no call faults. *)
Theorem loops_in_turn n w pool t :
  pool_ok w pool t → tp_loops_ t ≠ [] →
  ∃ ls w', next_loops n pool w = Ok (ls, w') ∧ length ls = n ∧
    ∀ i, (i < n)%nat →
      ls !! i = tp_loops_ t !! Z.to_nat ((tp_next_ t + Z.of_nat i) mod zlen (tp_loops_ t)).
Proof. apply next_loops_ok. Qed.

End facts.

#[local] Existing Instance Scripted.kernel.
#[local] Existing Instance debug_build.

Definition sample_pool : EventLoopThreadPool := mkPool 1 true 3 2 [11; 12; 13].

Lemma loops_in_turn_witness :
  ∃ w', next_loops 4 1 (set_pools {[1 := sample_pool]} (Sample.world 7 Sample.quiet)) =
    Ok ([13; 11; 12; 13], w').
Proof.
  destruct (loops_in_turn 4 (set_pools {[1 := sample_pool]} (Sample.world 7 Sample.quiet)) 1
    sample_pool) as (ls & w' & Hrun & Hlen & Hls).
  - constructor; try done. apply Sample.in_loop_thread_world.
  - done.
  - exists w'. rewrite Hrun. do 2 f_equal. apply list_eq. intros i.
    destruct (decide (i < 4)%nat) as [Hi|Hi].
    + rewrite Hls by done. do 4 (destruct i as [|i]; [reflexivity|]). lia.
    + rewrite !lookup_ge_None_2; simpl; [done|lia..].
Defined.

End EventLoopThreadPool.
