(* ===== verification/TcpServer.v ===== *)
(** * The server (src/src/include/tcp_server.h, src/src/tcp_server.cpp)

    [TcpServer] owns the acceptor, the pool of loops and the map of its
    connections. *)

From S2P Require Import Prelude Format Timestamp Buffer Kernel State CurrentThread Channel Poller.
From S2P Require Import EventLoop SocketsOptions Socket InetAddr TcpConnection Acceptor.
From S2P Require Import EventLoopThreadPool.

Module TcpServer.

Definition setStarted (b : bool) (s : TcpServer) : TcpServer :=
  mkTcpServer (ts_loop_ s) (ts_name_ s) (ts_acceptor_ s) (ts_thread_pool_ s) (ts_connection_cb_ s)
    (ts_message_cb_ s) (ts_write_cmpl_cb_ s) b (ts_next_conn_id_ s) (ts_connections_ s).
Definition setNextConnId (n : Z) (s : TcpServer) : TcpServer :=
  mkTcpServer (ts_loop_ s) (ts_name_ s) (ts_acceptor_ s) (ts_thread_pool_ s) (ts_connection_cb_ s)
    (ts_message_cb_ s) (ts_write_cmpl_cb_ s) (ts_started_ s) n (ts_connections_ s).
Definition setConnections (m : gmap string ConnPtr) (s : TcpServer) : TcpServer :=
  mkTcpServer (ts_loop_ s) (ts_name_ s) (ts_acceptor_ s) (ts_thread_pool_ s) (ts_connection_cb_ s)
    (ts_message_cb_ s) (ts_write_cmpl_cb_ s) (ts_started_ s) (ts_next_conn_id_ s) m.
Definition setConnectionCallback (cb : UserFunction) (s : TcpServer) : TcpServer :=
  mkTcpServer (ts_loop_ s) (ts_name_ s) (ts_acceptor_ s) (ts_thread_pool_ s) (Some cb)
    (ts_message_cb_ s) (ts_write_cmpl_cb_ s) (ts_started_ s) (ts_next_conn_id_ s)
    (ts_connections_ s).
Definition setMessageCallback (cb : UserFunction) (s : TcpServer) : TcpServer :=
  mkTcpServer (ts_loop_ s) (ts_name_ s) (ts_acceptor_ s) (ts_thread_pool_ s) (ts_connection_cb_ s)
    (Some cb) (ts_write_cmpl_cb_ s) (ts_started_ s) (ts_next_conn_id_ s) (ts_connections_ s).
Definition setWriteCallback (cb : UserFunction) (s : TcpServer) : TcpServer :=
  mkTcpServer (ts_loop_ s) (ts_name_ s) (ts_acceptor_ s) (ts_thread_pool_ s) (ts_connection_cb_ s)
    (ts_message_cb_ s) (Some cb) (ts_started_ s) (ts_next_conn_id_ s) (ts_connections_ s).

(** [name_ + buf], where [snprintf] prints "#%d" into [char buf[32]] *)
Definition connection_name (name : string) (id : Z) : string :=
  name +:+ Format.snprintf 32 ("#" +:+ Format.dec id).

Section operations.
Context `{K : Kernel} `{B : Build}.

Definition TcpServer_ctor (owner_garbage : LoopPtr) (loop : LoopPtr) (listen_addr : sockaddr_in)
    : M ServerPtr :=
  a ← Acceptor.Acceptor_ctor owner_garbage loop listen_addr;
  pool ← EventLoopThreadPool.EventLoopThreadPool_ctor loop;
  s ← alloc (mkTcpServer loop (InetAddress.toHostPort listen_addr) a pool None None None false 1 ∅);
  _ ← modify a (Acceptor.setNewConnectionCallback s);
  mret s.

Definition setThreadNum (s : ServerPtr) (num_threads : Z) : M unit :=
  t ← deref s;
  _ ← lift (assert_ (0 <=? num_threads));
  EventLoopThreadPool.setThreadNum (ts_thread_pool_ t) num_threads.

Definition start `{LT : !LoopThreads} (s : ServerPtr) : M unit :=
  t ← deref s;
  _ ← (if ts_started_ t then mret ()
       else _ ← modify s (setStarted true); EventLoopThreadPool.start (ts_thread_pool_ t));
  l ← Acceptor.listenning (ts_acceptor_ t);
  if (l : bool) then mret ()
  else EventLoop.runInLoop (ts_loop_ t) (fn_listen (ts_acceptor_ t))
         (Acceptor.listen (ts_acceptor_ t)).

Definition removeConnection (s : ServerPtr) (conn : ConnPtr) : M unit :=
  t ← deref s;
  _ ← assertInLoopThread (ts_loop_ t);
  c ← deref conn;
  _ ← modify s (λ t, setConnections (delete (tc_name_ c) (ts_connections_ t)) t);
  _ ← lift (assert_ (bool_decide (is_Some (ts_connections_ t !! tc_name_ c))));
  EventLoop.queueInLoop (ts_loop_ t) (fn_destroyConnection conn).

#[export] Instance connection_owner : ConnectionOwner := {| owner_close := removeConnection |}.

Context `{A : !App}.

(** An entry that the new one overwrote would lose its [shared_ptr]; there is none, since names of
    different numbers differ ([ServerTheorems.connection_names_distinct]) and the number grows. *)
Definition newConnection (owner_garbage : LoopPtr) (s : ServerPtr) (sockfd : Z)
    (peerAddr : sockaddr_in) : M unit :=
  t ← deref s;
  _ ← assertInLoopThread (ts_loop_ t);
  let connName := connection_name (ts_name_ t) (ts_next_conn_id_ t) in
  next ← lift (checked 32 (ts_next_conn_id_ t + 1));
  _ ← modify s (setNextConnId next);
  localAddr ← sockets.getLocalAddr sockfd;
  io_loop ← EventLoopThreadPool.getNextLoop (ts_thread_pool_ t);
  conn ← TcpConnection.TcpConnection_ctor owner_garbage io_loop connName sockfd localAddr peerAddr;
  _ ← modify s (λ t, setConnections (<[connName := conn]> (ts_connections_ t)) t);
  _ ← modify conn (TcpConnection.setConnectionCallback (ts_connection_cb_ t));
  _ ← modify conn (TcpConnection.setMessageCallback (ts_message_cb_ t));
  _ ← modify conn (TcpConnection.setWriteCallback (ts_write_cmpl_cb_ t));
  _ ← modify conn (TcpConnection.setCloseCallback (Some s));
  TcpConnection.establishConnection conn.

End operations.
End TcpServer.
