(* ===== verification/Reactor.v ===== *)
(** * The assembled reactor

    The targets bound into callbacks and functors are the operations of the
    components: [Callbacks], [Functors] and [ConnectionAcceptor] are discharged
    here, and the loop of the library is the loop of [EventLoop] at these
    instances.  [owner_garbage] is what memory holds where a new [Channel]
    leaves [owner_loop_]. *)

From S2P Require Import Prelude Timestamp Buffer Kernel State CurrentThread Channel Poller.
From S2P Require Import EventLoop TimerQueue SocketsOptions Socket InetAddr.
From S2P Require Import TcpConnection Acceptor.
From S2P Require Import EventLoopThreadPool TcpServer.

Class Memory : Type := { owner_garbage : LoopPtr }.

Section reactor.
Context `{K : Kernel} `{B : Build} `{A : !App} `{Mem : Memory}.

#[export] Instance connection_acceptor : ConnectionAcceptor :=
  {| accept_connection := TcpServer.newConnection owner_garbage |}.

(** ** Shared ownership

    A [TcpConnection] is owned by the [shared_ptr]s to it: those in the maps of the
    servers and those bound into functors.  The functors of [send] and [shutdown]
    bind a plain [this] and own nothing. *)
Definition captured (f : Functor) : option ConnPtr :=
  match f with
  | fn_destroyConnection conn | fn_writeComplete _ conn => Some conn
  | fn_sendInLoop _ _ | fn_shutdownInLoop _ | fn_listen _ | fn_user _ => None
  end.

(** Some server or some queued functor holds a [shared_ptr] to the connection. *)
Definition held (c : ConnPtr) (w : World) : Prop :=
  map_Exists (λ _ srv, map_Exists (λ _ c', c' = c) (ts_connections_ srv)) (w_servers w) ∨
  map_Exists (λ _ loop, Exists (λ f, captured f = Some c) (el_pending_functors_ loop)) (w_loops w).

#[export] Instance held_dec c w : Decision (held c w).
Proof. unfold held. apply _. Defined.

(** The end of a [shared_ptr], when the functors [fs] are those of the vector that are still
    to be destroyed: the last owner deletes the connection. *)
Definition release (c : ConnPtr) (fs : list Functor) : M unit :=
  owned ← read (λ w, bool_decide (held c w ∨ Exists (λ f, captured f = Some c) fs));
  if (owned : bool) then mret () else TcpConnection.TcpConnection_dtor c.

(** The destructor of a vector of functors. *)
Fixpoint release_all (fs : list Functor) : M unit :=
  match fs with
  | [] => mret ()
  | f :: fs =>
      _ ← match captured f with Some c => release c fs | None => mret () end;
      release_all fs
  end.

#[export] Instance functors : Functors := {|
  drop_functors := release_all;
  run_functor f :=
    match f with
    | fn_sendInLoop conn message => TcpConnection.sendInLoop conn message
    | fn_shutdownInLoop conn => TcpConnection.shutdownInLoop conn
    | fn_destroyConnection conn => TcpConnection.destroyConnection conn
    | fn_writeComplete cb conn => app_write_complete cb conn
    | fn_listen acceptor => Acceptor.listen acceptor
    | fn_user f => app_functor f
    end
|}.

#[export] Instance callbacks : Callbacks := {|
  call cb recv_time :=
    match cb with
    | cb_handleRead conn =>
        TcpConnection.handleRead (O := TcpServer.connection_owner) conn recv_time
    | cb_handleWrite conn => TcpConnection.handleWrite conn
    | cb_handleError conn => TcpConnection.handleError conn
    | cb_handleClose conn => TcpConnection.handleClose (O := TcpServer.connection_owner) conn
    | cb_acceptorRead acceptor => Acceptor.handleRead acceptor
    | cb_timerRead queue => TimerQueue.handleRead queue
    end
|}.

End reactor.
