(* ===== verification/Ledger.v ===== *)
(** * Books on the descriptors

    What an application wants to know of its connections is a relation between what was
    read from a descriptor, what was written to it and what its buffers still hold.  Such a
    relation is an instance of [Ledger]; with [LedgerLaws] the library keeps it.

    What the library itself promises of its descriptors is an automaton that runs along
    the trace: a descriptor is used and closed only between its acceptance and its close. *)

From S2P Require Import Prelude Buffer Kernel State.

(** The descriptor an event is about *)
Definition event_fd (e : event) : Z :=
  match e with
  | EvRead fd _ | EvWrite fd _ | EvShutdownWrite fd | EvListen fd | EvAccept fd | EvClose fd => fd
  | EvAlarm fd _ _ => fd
  end.

(** Reading from the connection at [fd], writing to it, closing its writing half *)
Definition io_event (fd : Z) (e : event) : Prop :=
  match e with
  | EvRead f _ | EvWrite f _ | EvShutdownWrite f => f = fd
  | _ => False
  end.

Lemma io_event_fd fd e : io_event fd e → event_fd e = fd.
Proof. by destruct e. Qed.

Lemma io_events_fd fd evs : Forall (io_event fd) evs → Forall (λ e, event_fd e = fd) evs.
Proof. intros H. eapply Forall_impl; [exact H|]. intros e. apply io_event_fd. Qed.

(** [led_conn fd tr s i o] is about a connection on the descriptor [fd] with state [s] and the bytes [i]
    and [o] in its input and output buffers, after the trace [tr]; [led_input] is about the same while bytes that
    were just read wait for the application, and [led_fd fd tr] about the descriptor alone. *)
Class Ledger : Type := {
  led_conn : Z → list event → States → list byte → list byte → Prop;
  led_input : Z → list event → States → list byte → list byte → Prop;
  led_fd : Z → list event → Prop
}.

Class LedgerLaws (L : Ledger) : Prop := {
  led_of_conn fd tr s i o : led_conn fd tr s i o → led_fd fd tr;
  led_conn_other fd tr s i o e :
    event_fd e ≠ fd → led_conn fd tr s i o → led_conn fd (tr ++ [e]) s i o;
  led_fd_other fd tr e : event_fd e ≠ fd → led_fd fd tr → led_fd fd (tr ++ [e]);
  led_listen fd tr : led_fd fd tr → led_fd fd (tr ++ [EvListen fd]);
  led_close fd tr : led_fd fd tr → led_fd fd (tr ++ [EvClose fd]);
  led_accept fd tr : led_conn fd (tr ++ [EvAccept fd]) Connected [] [];
  led_read fd tr s i o d : led_conn fd tr s i o → led_input fd (tr ++ [EvRead fd d]) s (i ++ d) o;
  led_write fd tr s i o d :
    led_conn fd tr s i (d ++ o) → led_conn fd (tr ++ [EvWrite fd d]) s i o;
  led_shutdown fd tr s i o :
    led_conn fd tr s i o → led_conn fd (tr ++ [EvShutdownWrite fd]) s i o
}.

Section events.
Context {L : Ledger} {LL : LedgerLaws L}.

Lemma led_conn_others fd tr s i o evs :
  Forall (λ e, event_fd e ≠ fd) evs → led_conn fd tr s i o → led_conn fd (tr ++ evs) s i o.
Proof.
  intros Hevs. revert tr. induction Hevs as [|e evs He _ IH]; intros tr Hl; [by rewrite app_nil_r|].
  rewrite cons_middle, app_assoc. by apply IH, led_conn_other.
Qed.

Lemma led_fd_others fd tr evs :
  Forall (λ e, event_fd e ≠ fd) evs → led_fd fd tr → led_fd fd (tr ++ evs).
Proof.
  intros Hevs. revert tr. induction Hevs as [|e evs He _ IH]; intros tr Hl; [by rewrite app_nil_r|].
  rewrite cons_middle, app_assoc. by apply IH, led_fd_other.
Qed.

(** Events of one connection leave the books of every descriptor in order. *)
Lemma led_fd_conn fd tr evs s i o :
  Forall (λ e, event_fd e = fd) evs → led_conn fd (tr ++ evs) s i o →
  (∀ fd', led_fd fd' tr) → ∀ fd', led_fd fd' (tr ++ evs).
Proof.
  intros Hevs Hc Hfd fd'. destruct (decide (fd = fd')) as [<-|Hne]; [by eapply led_of_conn|].
  apply led_fd_others; [|done]. eapply Forall_impl; [exact Hevs|]. by intros e ->.
Qed.

End events.

(** No books *)
Definition no_ledger : Ledger := {| led_conn _ _ _ _ _ := True; led_input _ _ _ _ _ := True; led_fd _ _ := True |}.

#[export] Instance no_ledger_laws : LedgerLaws no_ledger.
Proof. by constructor. Qed.

(** ** The life of a descriptor *)

Inductive fd_state : Type :=
  | FdClosed
  | FdListening
  | FdOpen
  | FdMisused.

#[export] Instance fd_state_eq_dec : EqDecision fd_state.
Proof. solve_decision. Defined.

(** An event on the descriptor: [accept4] gives it, [close] takes it back, and what is not open is
    neither read, written, shut down nor closed. *)
Definition fd_step (st : fd_state) (e : event) : fd_state :=
  match e, st with
  | EvAccept _, FdClosed => FdOpen
  | EvListen _, (FdClosed | FdListening) => FdListening
  | (EvRead _ _ | EvWrite _ _ | EvShutdownWrite _), FdOpen => FdOpen
  | EvClose _, (FdOpen | FdListening) => FdClosed
  | EvAlarm _ _ _, _ => st
  | _, _ => FdMisused
  end.

Definition fd_next (fd : Z) (st : fd_state) (e : event) : fd_state :=
  if event_fd e =? fd then fd_step st e else st.

Definition fd_after (fd : Z) (tr : list event) : fd_state := foldl (fd_next fd) FdClosed tr.

Lemma fd_after_snoc fd tr e : fd_after fd (tr ++ [e]) = fd_next fd (fd_after fd tr) e.
Proof. unfold fd_after. by rewrite foldl_app. Qed.

Lemma fd_after_this fd tr e : event_fd e = fd → fd_after fd (tr ++ [e]) = fd_step (fd_after fd tr) e.
Proof. intros <-. rewrite fd_after_snoc. unfold fd_next. by rewrite Z.eqb_refl. Qed.

Lemma fd_after_other fd tr e : event_fd e ≠ fd → fd_after fd (tr ++ [e]) = fd_after fd tr.
Proof. intros Hne. rewrite fd_after_snoc. unfold fd_next. by rewrite (proj2 (Z.eqb_neq _ _)). Qed.

(** Reading and writing on an open descriptor changes the state of none. *)
Lemma fd_after_io fd tr evs fd' :
  Forall (io_event fd) evs → fd_after fd tr = FdOpen → fd_after fd' (tr ++ evs) = fd_after fd' tr.
Proof.
  intros Hevs. revert tr. induction Hevs as [|e evs He _ IH]; intros tr Ho; [by rewrite app_nil_r|].
  assert (∀ f, fd_after f (tr ++ [e]) = fd_after f tr) as Hf.
  { intros f. destruct (decide (fd = f)) as [<-|Hne].
    - rewrite fd_after_this by (by apply io_event_fd). rewrite Ho. by destruct e.
    - apply fd_after_other. by rewrite (io_event_fd _ _ He). }
  rewrite cons_middle, app_assoc, IH by by rewrite Hf. apply Hf.
Qed.
