(* ===== verification/Lifetime.v ===== *)
(** * The end of a connection

    Who owns a connection, and what its destructor does: the last [shared_ptr] to
    it is that of a functor in the vector that [doPendingFunctors] destroys. *)

From S2P Require Import Prelude Timestamp Buffer Kernel State CurrentThread Channel Poller.
From S2P Require Import EventLoop Dispatch SocketsOptions Socket TcpConnection Acceptor.
From S2P Require Import EventLoopThreadPool TcpServer Reactor.

Module Lifetime.

Section destructor.
Context `{K : Kernel} `{B : Build}.

(** The process without the connection, its channel and its descriptor. *)
Definition freed (w : World) (c : Z) (conn : TcpConnection) (k : kstate) : World :=
  mkWorld k (w_tid w) (w_cachedTid w) (w_loopInThread w) (delete (tc_channel_ conn) (w_channels w))
    (w_loops w) (delete c (w_conns w)) (w_acceptors w) (w_pools w) (w_servers w) (w_timers w)
    (w_timerQueues w) (w_trace w ++ [EvClose (tc_socket_ conn)]).

Lemma dtor_ok w c conn chan r k :
  w_conns w !! c = Some conn → w_channels w !! tc_channel_ conn = Some chan →
  ch_events_handling_ chan = false → sys_close (tc_socket_ conn) (w_kernel w) = (r, k) →
  TcpConnection.TcpConnection_dtor c w = Ok ((), freed w c conn k).
Proof.
  intros Hc Hch Hh Hclose. unfold TcpConnection.TcpConnection_dtor, Channel.Channel_dtor,
    Socket.Socket_dtor, sockets.close, emit, free, mbind, M_bind, deref, lift, update, syscall.
  simpl. rewrite Hc, Hch, assert_true by by rewrite Hh. simpl. rewrite Hch. simpl. rewrite Hclose. simpl.
  by rewrite Hc.
Qed.

(** Destroying a channel while its events are handled is an error. *)
Lemma dtor_handling w c conn chan :
  NDEBUG = false → w_conns w !! c = Some conn → w_channels w !! tc_channel_ conn = Some chan →
  ch_events_handling_ chan = true → TcpConnection.TcpConnection_dtor c w = Fault Assertion.
Proof.
  intros Hd Hc Hch Hh. unfold TcpConnection.TcpConnection_dtor, Channel.Channel_dtor, mbind, M_bind,
    deref, lift. simpl. by rewrite Hc, Hch, assert_false by (done || by rewrite Hh).
Qed.
End destructor.

Section owners.
Context `{K : Kernel} `{B : Build} `{A : !App} `{Mem : Memory}.

(** No server other than [s] and no loop other than [l] holds the connection. *)
Record not_elsewhere (w : World) (c s l : Z) : Prop := {
  ne_servers s' srv name : s' ≠ s → w_servers w !! s' = Some srv → ts_connections_ srv !! name ≠ Some c;
  ne_loops l' loop f : l' ≠ l → w_loops w !! l' = Some loop → f ∈ el_pending_functors_ loop →
    captured f ≠ Some c
}.

Lemma not_held w c s l srv loop :
  not_elsewhere w c s l → w_servers w !! s = Some srv → w_loops w !! l = Some loop →
  (∀ name, ts_connections_ srv !! name ≠ Some c) →
  (∀ f, f ∈ el_pending_functors_ loop → captured f ≠ Some c) → ¬ held c w.
Proof.
  intros [Hne Hnl] Hs Hl Hmap Hpend [(s' & srv' & Hs' & name & c' & Hn & ->)|(l' & loop' & Hl' & Hex)].
  - destruct (decide (s' = s)) as [->|Hd]; [simplify_eq; by apply (Hmap name)|].
    by apply (Hne _ _ name Hd Hs').
  - apply Exists_exists in Hex as (f & Hin & Hf).
    destruct (decide (l' = l)) as [->|Hd]; [simplify_eq; by apply (Hpend f)|].
    by apply (Hnl _ _ f Hd Hl').
Qed.

(** The last owner deletes the connection, another one does nothing. *)
Lemma release_last w c fs :
  ¬ held c w → (∀ f, f ∈ fs → captured f ≠ Some c) →
  release c fs w = TcpConnection.TcpConnection_dtor c w.
Proof.
  intros Hh Hfs. unfold release, read, mbind, M_bind. rewrite bool_decide_false; [done|].
  intros [?|(f & Hin & Hf)%Exists_exists]; [done|]. by apply (Hfs f).
Qed.

Lemma release_shared w c fs : held c w → release c fs w = Ok ((), w).
Proof. intros Hh. unfold release, read, mbind, M_bind. by rewrite bool_decide_true by by left. Qed.

End owners.

(** ** The flag of a channel whose events are handled *)
Section handling.
Context `{K : Kernel} `{B : Build}.

Definition set_handling (ch : Z) (b : bool) (chan : Channel) (w : World) : World :=
  set_channels (<[ch := Channel.setHandling b chan]> (w_channels w)) w.

Lemma attached_handling w c conn chan loop p b :
  TcpConnection.attached w c conn chan loop p →
  TcpConnection.attached (set_handling (tc_channel_ conn) b chan w) c conn (Channel.setHandling b chan)
    loop p.
Proof.
  intros [Hconn [Hth Hl Hp Hok (Hc & Hfd0 & Hev & Hup) Hhome Hown] Hreg Hfd Hin Hout].
  constructor; try done. constructor; try done.
  - apply (Poller.ok_channels (w_channels w)); [|done]. intros ch chan0 H0. simpl.
    destruct (decide (tc_channel_ conn = ch)) as [<-|Hne].
    + rewrite lookup_insert_eq. simplify_eq. eauto.
    + rewrite lookup_insert_ne by done. eauto.
  - split; [apply lookup_insert_eq|done].
Qed.

Lemma live_handling w c conn chan loop p b :
  TcpConnection.live w c conn chan loop p →
  TcpConnection.live (set_handling (tc_channel_ conn) b chan w) c conn (Channel.setHandling b chan)
    loop p.
Proof.
  intros Hlv. apply TcpConnection.attached_live; [|by destruct Hlv..].
  by apply attached_handling, TcpConnection.live_attached.
Qed.

End handling.

End Lifetime.
