(* ===== verification/ServerTheorems.v ===== *)
(** * Theorems about the server

    Accepting, closing and destroying connections through TcpServer, Acceptor
    and EventLoop, on the assembled reactor. *)

From S2P Require Import Prelude Format Timestamp Buffer Kernel State CurrentThread Channel Poller.
From S2P Require Import EventLoop Sample Dispatch SocketsOptions Socket InetAddr TcpConnection.
From S2P Require Import ConnectionTheorems Acceptor EventLoopThreadPool TcpServer Reactor Lifetime.
From S2P Require Import Descriptors.

Section closing.
Context `{K : Kernel} `{B : Build} `{BL : !BuildLaws B}.

(** The process after [removeConnection]. *)
Definition removed (w : World) (s : Z) (srv : TcpServer) (name : string) (loop : EventLoop) (c : Z)
    : World :=
  LoopFacts.put_loop (ts_loop_ srv) (LoopFacts.enqueue (fn_destroyConnection c) loop)
    (set_servers (<[s := TcpServer.setConnections (delete name (ts_connections_ srv)) srv]>
                    (w_servers w)) w).

Lemma removeConnection_ok w s srv c conn loop :
  in_loop_thread (ts_loop_ srv) w → w_servers w !! s = Some srv → w_conns w !! c = Some conn →
  is_Some (ts_connections_ srv !! tc_name_ conn) →
  w_loops w !! ts_loop_ srv = Some loop → el_mutex_ loop = None →
  el_calling_pending_functors_ loop = false →
  TcpServer.removeConnection s c w = Ok ((), removed w s srv (tc_name_ conn) loop c).
Proof.
  intros Hin Hs Hc Hname Hl Hm Hcall.
  unfold TcpServer.removeConnection, mbind, M_bind, deref at 1. simpl. rewrite Hs.
  rewrite assertInLoopThread_ok by done. unfold deref at 1. simpl. rewrite Hc.
  unfold modify, mbind, M_bind, deref at 1, store, update. simpl. rewrite Hs.
  unfold lift. rewrite assert_true by by apply bool_decide_eq_true.
  rewrite (LoopFacts.queueInLoop_ok _ _ loop) by done. done.
Qed.

(** [attached] does not depend on the queue, the mutex or the servers. *)
Lemma attached_loop w c conn chan loop p loop' sv :
  TcpConnection.attached w c conn chan loop p →
  el_poller_ loop' = Some p → el_thread_id_ loop' = el_thread_id_ loop →
  TcpConnection.attached (LoopFacts.put_loop (tc_loop_ conn) loop' (set_servers sv w)) c conn chan
    loop' p.
Proof.
  intros [Hconn [Hth Hl Hp Hok Hup Hhome Hown] Hreg Hfd Hin Hout] Hp' Ht.
  constructor; try done. constructor; try done.
  - revert Hth. apply in_loop_thread_frame; [done..|]. intros e He. simplify_eq. simpl.
    rewrite lookup_insert_eq. eauto.
  - apply lookup_insert_eq.
Qed.

Context `{A : !App} `{Mem : Memory}.

(** The functor [destroyConnection], run by [doPendingFunctors] alone, is the last owner. *)
Lemma destroy_pending w c conn chan loop p cb s srv :
  TcpConnection.attached w c conn chan loop p → el_mutex_ loop = None →
  el_pending_functors_ loop = [fn_destroyConnection c] →
  TcpConnection.open_state (tc_state_ conn) = true → ch_events_handling_ chan = false →
  tc_connection_cb_ conn = Some cb → (∀ w, app_connection cb c w = Ok ((), w)) →
  Lifetime.not_elsewhere w c s (tc_loop_ conn) → w_servers w !! s = Some srv →
  (∀ name, ts_connections_ srv !! name ≠ Some c) →
  ∃ w' loop' p', EventLoop.doPendingFunctors (tc_loop_ conn) w = Ok ((), w') ∧
    w_conns w' = delete c (w_conns w) ∧ w_channels w' !! tc_channel_ conn = None ∧
    w_servers w' = w_servers w ∧ w_trace w' = w_trace w ++ [EvClose (tc_socket_ conn)] ∧
    w_kernel w' = snd (sys_close (tc_socket_ conn) (w_kernel w)) ∧
    w_loops w' !! tc_loop_ conn = Some loop' ∧ el_poller_ loop' = Some p' ∧
    el_pending_functors_ loop' = [] ∧ el_mutex_ loop' = None ∧
    Poller.ok (w_channels w') p' ∧ pl_channel_map_ p' !! tc_socket_ conn = None.
Proof.
  intros Hat Hm Hpend Hs Hh Hcb Happ Hne Hsrv Hmap. pose proof Hat as [_ [_ Hl Hp _ _ _ _] _ _ _ _].
  pose proof (attached_loop w c conn chan loop p (Dispatch.draining (w_tid w) loop) (w_servers w)
    Hat Hp eq_refl) as Hat1.
  destruct (TcpConnection.destroyConnection_ok _ _ _ _ _ _ _ Hat1 Hs Hcb Happ)
    as (w1 & loop1 & p1 & Hd & Hco & Hlo & Hpo & Hok & Hpe & _ & Htr & Hsv & Hk & Hun & chan1 & Hch1 & Hf1 & Hh1).
  set (loop2 := EventLoop.setMutex None (EventLoop.setCalling false loop1)).
  set (w2 := LoopFacts.put_loop (tc_loop_ conn) loop2 w1).
  destruct (sys_close (tc_socket_ conn) (w_kernel w2)) as [r k] eqn:Hclose.
  assert (¬ held c w2) as Hfree.
  { apply (Lifetime.not_held w2 c s (tc_loop_ conn) srv loop2); simpl; try done.
    - destruct Hne as [Hns Hnl]. constructor.
      + intros s' srv' name Hd'. simpl. rewrite Hsv. by apply Hns.
      + intros l' loop' f Hd'. simpl. rewrite Hlo. simpl. rewrite !lookup_insert_ne by done. by apply Hnl.
    - by rewrite Hsv.
    - apply lookup_insert_eq.
    - intros f Hf. rewrite Hpe in Hf. by apply elem_of_nil in Hf. }
  eexists (Lifetime.freed w2 c (TcpConnection.setState Disconnected conn) k), loop2, p1. split.
  { rewrite (Dispatch.doPendingFunctors_unfold _ loop) by done. rewrite Hpend.
    unfold mbind at 1, M_bind at 1. simpl. unfold mbind at 1, M_bind at 1.
    replace (LoopFacts.put_loop (tc_loop_ conn) (Dispatch.draining (w_tid w) loop) w) with
      (LoopFacts.put_loop (tc_loop_ conn) (Dispatch.draining (w_tid w) loop) (set_servers (w_servers w) w))
      by by destruct w.
    rewrite Hd. simpl.
    unfold EventLoop.unlock, modify, mbind, M_bind, deref, store, update. simpl.
    rewrite Hlo, lookup_insert_eq. simpl. rewrite lookup_insert_eq. simpl.
    replace (set_loops _ _) with w2.
    2:{ unfold w2, LoopFacts.put_loop, set_loops. simpl. by rewrite Hlo, !insert_insert_eq. }
    rewrite Lifetime.release_last; [|exact Hfree|by intros f Hf%elem_of_nil].
    rewrite (Lifetime.dtor_ok w2 c (TcpConnection.setState Disconnected conn) chan1 r k); try done.
    - simpl. rewrite Hco. apply lookup_insert_eq.
    - by rewrite Hh1. }
  simpl. rewrite Hco. simpl. rewrite delete_insert_eq.
  split; [done|]. split; [apply lookup_delete_eq|]. rewrite Hsv. split; [done|].
  rewrite Htr. split; [done|]. simpl in Hclose. rewrite Hk in Hclose. simpl in Hclose.
  rewrite Hclose. split; [done|]. split; [apply lookup_insert_eq|].
  split; [done|]. split; [done|]. split; [done|]. split; [|done].
  apply Poller.ok_delete_object; [done|]. apply (Poller.unregistered_fd (w_channels w1) p1 _ chan1); [done..|].
  by rewrite Hf1.
Qed.

(** C36: a message that outlives its connection.  Let the destruction of a connection
    be queued, and another thread, in [send], have seen the connection up and then hand its
    message over only after the loop has swapped the queue.  The loop destroys the
    connection and deletes it, since the functor of the message binds the plain [this] and
    owns nothing; and the next round calls [sendInLoop] on the deleted object.  No other
    server and no other loop holds the connection. *)
Theorem late_send_dangles w c conn chan loop p cb s srv message :
  TcpConnection.attached w c conn chan loop p → el_mutex_ loop = None →
  el_pending_functors_ loop = [fn_destroyConnection c] →
  TcpConnection.open_state (tc_state_ conn) = true → ch_events_handling_ chan = false →
  tc_connection_cb_ conn = Some cb → (∀ w, app_connection cb c w = Ok ((), w)) →
  Lifetime.not_elsewhere w c s (tc_loop_ conn) → w_servers w !! s = Some srv →
  (∀ name, ts_connections_ srv !! name ≠ Some c) →
  ∃ w' loop', EventLoop.doPendingFunctors (tc_loop_ conn) w = Ok ((), w') ∧
    w_loops w' !! tc_loop_ conn = Some loop' ∧ el_pending_functors_ loop' = [] ∧
    EventLoop.doPendingFunctors (tc_loop_ conn)
      (LoopFacts.put_loop (tc_loop_ conn) (LoopFacts.enqueue (fn_sendInLoop c message) loop') w') =
      Fault DanglingPointer.
Proof.
  intros Hat Hm Hpend Hs Hh Hcb Happ Hne Hsrv Hmap.
  destruct (destroy_pending _ _ _ _ _ _ _ _ _ Hat Hm Hpend Hs Hh Hcb Happ Hne Hsrv Hmap)
    as (w' & loop' & p' & Hd & Hco & _ & _ & _ & _ & Hl & _ & Hpe & Hm' & _).
  exists w', loop'. split; [exact Hd|]. split; [exact Hl|]. split; [exact Hpe|].
  rewrite (Dispatch.doPendingFunctors_unfold _ (LoopFacts.enqueue (fn_sendInLoop c message) loop'))
    by (done || apply lookup_insert_eq).
  simpl. rewrite Hpe. unfold mbind, M_bind. simpl. unfold TcpConnection.sendInLoop, mbind, M_bind, deref.
  simpl. by rewrite Hco, lookup_delete_eq.
Qed.

(** A close of the connection up to the queueing of its destruction. *)
Lemma close_removes w c conn chan loop p s srv :
  TcpConnection.live w c conn chan loop p → TcpConnection.open_state (tc_state_ conn) = true →
  tc_close_cb_ conn = Some s → w_servers w !! s = Some srv → ts_loop_ srv = tc_loop_ conn →
  is_Some (ts_connections_ srv !! tc_name_ conn) → el_pending_functors_ loop = [] →
  ∃ chan' loop' p',
    let srv' := TcpServer.setConnections (delete (tc_name_ conn) (ts_connections_ srv)) srv in
    let w' := LoopFacts.put_loop (tc_loop_ conn) (LoopFacts.enqueue (fn_destroyConnection c) loop')
      (set_servers (<[s := srv']> (w_servers w)) (TcpConnection.upd w c conn chan' loop' [] (w_kernel w))) in
    TcpConnection.handleClose (O := TcpServer.connection_owner) c w = Ok ((), w') ∧
    TcpConnection.attached w' c conn chan' (LoopFacts.enqueue (fn_destroyConnection c) loop') p' ∧
    el_mutex_ loop' = None ∧ el_pending_functors_ loop' = [] ∧ TcpConnection.same_chan chan chan'.
Proof.
  intros Hlv Hs Hcb Hsrv Hts Hname Hpend.
  destruct (TcpConnection.handleClose_ok (O := TcpServer.connection_owner) _ _ _ _ _ _ Hlv Hs)
    as (chan' & loop' & p' & Hclose & Hlv' & _ & Hpe & Hkept & _). cbn zeta in Hclose, Hlv'.
  rewrite Hcb in Hclose. simpl in Hclose.
  exists chan', loop', p'. cbn zeta. rewrite Hclose.
  rewrite (removeConnection_ok _ _ srv _ conn loop'); rewrite ?Hts;
    [|by eapply TcpConnection.lv_thread|done|by eapply TcpConnection.lv_conn|done
     |by eapply TcpConnection.lv_loop|by destruct Hlv'..].
  unfold removed. rewrite Hts. split; [done|]. split; [apply (attached_loop _ _ _ _ loop')|].
  - exact (TcpConnection.live_attached _ _ _ _ _ _ Hlv').
  - exact (TcpConnection.lv_poller _ _ _ _ _ _ Hlv').
  - done.
  - split; [by destruct Hlv'|]. split; [congruence|by destruct Hkept].
Qed.

(** The events of a channel that only reports input. *)
Lemma handleEvents_input t ch w c chan :
  w_channels w !! ch = Some chan → ch_revents_ chan = POLLIN → ch_read_cb_ chan = Some (cb_handleRead c) →
  (∀ w' , call (cb_handleRead c) t (Lifetime.set_handling ch true chan w) = Ok ((), w') →
     ∃ chan', w_channels w' !! ch = Some chan' ∧ ch_revents_ chan' = POLLIN) →
  Channel.handleEvents t ch w =
    (_ ← call (cb_handleRead c) t; modify ch (Channel.setHandling false))
      (Lifetime.set_handling ch true chan w).
Proof.
  intros Hch Hr Hcb Hafter.
  assert (modify ch (Channel.setHandling true) w = Ok ((), Lifetime.set_handling ch true chan w)) as Hm.
  { unfold modify, mbind, M_bind, deref, store, update. simpl. by rewrite Hch. }
  unfold Channel.handleEvents. unfold mbind at 1, M_bind at 1. rewrite Hm.
  set (w1 := Lifetime.set_handling _ _ _ _) in *.
  assert (∀ w c test cb, w_channels w !! ch = Some c → test (ch_revents_ c) = false →
    Channel.on_revents test cb t ch w = Ok ((), w)) as Hskip.
  { intros w0 c0 test cb H0 Ht. unfold Channel.on_revents, mbind, M_bind, deref. simpl. by rewrite H0, Ht. }
  assert (w_channels w1 !! ch = Some (Channel.setHandling true chan)) as H1 by apply lookup_insert_eq.
  unfold mbind at 1, M_bind at 1. rewrite (Hskip _ _ _ _ H1) by by simpl; rewrite Hr.
  unfold mbind at 1, M_bind at 1. rewrite (Hskip _ _ _ _ H1) by by simpl; rewrite Hr.
  unfold mbind, M_bind. unfold Channel.on_revents at 1, Channel.dispatch, mbind, M_bind, deref. simpl.
  rewrite lookup_insert_eq. simpl. rewrite Hr. simpl. rewrite lookup_insert_eq. simpl. rewrite Hcb.
  destruct (TcpConnection.handleRead c t w1) as [[[] w2]|f] eqn:Hcall; [|done].
  destruct (Hafter w2 Hcall) as (chan2 & H2 & Hr2).
  by rewrite (Hskip _ _ _ _ H2) by by rewrite Hr2.
Qed.

(** C14: when the peer of a connection of a server in one thread closes, the
    readable event and the next [doPendingFunctors] end the connection: it leaves the
    map of the server, its channel leaves the poller, its descriptor is closed, once and
    after that, and the two objects are deleted, none of them earlier; nothing is
    written, and the loop ends with an empty queue and a free mutex.  No other server and
    no other loop holds the connection. *)
Theorem peer_close_destroys_connection w c conn chan loop p s srv cb k t :
  TcpConnection.live w c conn chan loop p → TcpConnection.open_state (tc_state_ conn) = true →
  ch_revents_ chan = POLLIN → ch_read_cb_ chan = Some (cb_handleRead c) →
  tc_close_cb_ conn = Some s → w_servers w !! s = Some srv → ts_loop_ srv = tc_loop_ conn →
  (∀ name, ts_connections_ srv !! name = Some c ↔ name = tc_name_ conn) →
  Lifetime.not_elsewhere w c s (tc_loop_ conn) → el_pending_functors_ loop = [] →
  tc_connection_cb_ conn = Some cb → (∀ w, app_connection cb c w = Ok ((), w)) →
  sys_readv (ch_fd_ chan) (Buffer.iov_room (tc_input_buffer_ conn)) (w_kernel w) =
    (Buffer.ReadvBytes [], k) →
  ∃ w' loop' p',
    (_ ← Channel.handleEvents t (tc_channel_ conn); EventLoop.doPendingFunctors (tc_loop_ conn)) w =
      Ok ((), w') ∧
    w_conns w' = delete c (w_conns w) ∧ w_channels w' !! tc_channel_ conn = None ∧
    w_servers w' !! s = Some (TcpServer.setConnections
                                (delete (tc_name_ conn) (ts_connections_ srv)) srv) ∧
    w_loops w' !! tc_loop_ conn = Some loop' ∧ el_poller_ loop' = Some p' ∧
    Poller.ok (w_channels w') p' ∧ pl_channel_map_ p' !! tc_socket_ conn = None ∧
    el_pending_functors_ loop' = [] ∧ el_mutex_ loop' = None ∧
    w_trace w' = w_trace w ++ [EvClose (tc_socket_ conn)] ∧
    w_kernel w' = snd (sys_close (tc_socket_ conn) k).
Proof.
  intros Hlv Hs Hrev Hrcb Hcb Hsrv Hts Hname Hne Hpend Hccb Happ Hr.
  pose proof (TcpConnection.lv_chan _ _ _ _ _ _ Hlv) as Hch.
  pose proof (Lifetime.live_handling _ _ _ _ _ _ true Hlv) as Hlv0.
  destruct (handleRead_eof (O := TcpServer.connection_owner) _ _ _ _ _ _ _ t Hlv0 Hr)
    as (input & Hread & Hlv1 & _). cbn zeta in Hread, Hlv1.
  set (conn1 := TcpConnection.setInput input conn) in *.
  destruct (close_removes _ _ conn1 _ _ _ s srv Hlv1 Hs Hcb Hsrv Hts) as (chan2 & loop2 & p2 & Hcl);
    [by exists c; apply Hname|done|]. cbn zeta in Hcl.
  set (srv' := TcpServer.setConnections _ _) in *. set (w2 := LoopFacts.put_loop _ _ _) in Hcl.
  destruct Hcl as (Hclose & Hat2 & Hm2 & Hpe2 & (e & i & ->)). rewrite <- Hread in Hclose.
  pose proof (Lifetime.attached_handling _ _ _ _ _ _ false Hat2) as Hat3.
  destruct (destroy_pending _ _ _ _ _ _ cb s srv' Hat3) as (w4 & loop4 & p4 & Hrun & Hco & Hcn & Hsv & Htr & Hk & Hrest).
  { done. } { simpl. by rewrite Hpe2. } { done. } { done. } { done. } { done. }
  { destruct Hne as [Hns Hnl]. constructor.
    - intros s' srv0 name Hd. simpl. rewrite lookup_insert_ne by done. by apply Hns.
    - intros l' loop0 f Hd. simpl. rewrite !lookup_insert_ne by done. by apply Hnl. }
  { simpl. apply lookup_insert_eq. }
  { intros name Hn. simpl in Hn. apply lookup_delete_Some in Hn as [Hd Hn]. by apply Hname in Hn. }
  exists w4, loop4, p4. split.
  { unfold mbind at 1, M_bind at 1. rewrite (handleEvents_input t _ w c chan) by
      (done || (intros w' Hw'; change (call (cb_handleRead c) t) with
        (TcpConnection.handleRead (O := TcpServer.connection_owner) c t) in Hw'; rewrite Hclose in Hw';
       simplify_eq; eexists; split; [apply Hat2|done])).
    unfold mbind at 1, M_bind at 1. simpl. rewrite Hclose.
    unfold modify, mbind, M_bind, deref, store, update. simpl. rewrite lookup_insert_eq. exact Hrun. }
  change (tc_channel_ conn1) with (tc_channel_ conn) in *. change (tc_socket_ conn1) with (tc_socket_ conn) in *.
  change (tc_loop_ conn1) with (tc_loop_ conn) in *.
  rewrite Hco, Hcn, Hsv, Htr, Hk. simpl. rewrite lookup_insert_eq, !delete_insert_eq, !app_nil_r.
  by destruct_and?.
Qed.

(** [sendInLoop] of a whole message while the loop runs its functors. *)
Lemma sendInLoop_holding_mutex w c conn chan loop p message cb k :
  TcpConnection.live w c conn chan loop p → TcpConnection.idle conn chan = true →
  0 ≤ zlen message < 2 ^ 64 → tc_write_cmpl_cb_ conn = Some cb →
  sys_write (ch_fd_ chan) message (w_kernel w) = (Ret (zlen message), k) →
  TcpConnection.sendInLoop c message
    (LoopFacts.put_loop (tc_loop_ conn) (Dispatch.draining (w_tid w) loop) w) = Fault Deadlock.
Proof.
  intros Hlv Hidle Hlen Hcb Hw. pose proof (TcpConnection.lv_loop _ _ _ _ _ _ Hlv) as Hl.
  pose proof (TcpConnection.lv_conn _ _ _ _ _ _ Hlv) as Hc.
  set (w1 := LoopFacts.put_loop _ _ w).
  assert (in_loop_thread (tc_loop_ conn) w1) as Hth1.
  { eapply Dispatch.put_loop_thread; [by eapply TcpConnection.lv_thread|done..]. }
  unfold TcpConnection.sendInLoop, mbind, M_bind, deref. simpl.
  rewrite Hc, assertInLoopThread_ok by done.
  unfold TcpConnection.write_directly, mbind, M_bind, deref. simpl. rewrite Hc.
  change (w_channels w1) with (w_channels w). rewrite (TcpConnection.lv_chan _ _ _ _ _ _ Hlv).
  fold (TcpConnection.idle conn chan). rewrite Hidle.
  rewrite (TcpConnection.do_write_ok _ _ w1 _ _ Hw).
  rewrite u64_small, Z.ltb_irrefl by lia.
  unfold TcpConnection.queue_write_complete, mbind, M_bind, deref. simpl. rewrite Hc, Hcb.
  rewrite (LoopFacts.queueInLoop_deadlock _ _ (Dispatch.draining (w_tid w) loop)); [done| |done].
  simpl. apply lookup_insert_eq.
Qed.

(** C37: a message sent from another thread to a connection with a
    write-complete callback deadlocks the loop when the kernel takes the whole
    message: [doPendingFunctors] holds the mutex while it runs [sendInLoop], which
    queues the callback on the same loop. *)
Theorem queued_send_with_write_callback_deadlocks w c conn chan loop p message rest cb k :
  TcpConnection.live w c conn chan loop p → TcpConnection.idle conn chan = true →
  0 ≤ zlen message < 2 ^ 64 →
  el_pending_functors_ loop = fn_sendInLoop c message :: rest →
  tc_write_cmpl_cb_ conn = Some cb →
  sys_write (ch_fd_ chan) message (w_kernel w) = (Ret (zlen message), k) →
  EventLoop.doPendingFunctors (tc_loop_ conn) w = Fault Deadlock.
Proof.
  intros Hlv Hidle Hlen Hpend Hcb Hw. pose proof (TcpConnection.lv_loop _ _ _ _ _ _ Hlv) as Hl.
  rewrite (Dispatch.doPendingFunctors_unfold _ loop) by (done || by destruct Hlv). rewrite Hpend.
  unfold mbind at 1, M_bind at 1. simpl. unfold mbind at 1, M_bind at 1.
  by rewrite (sendInLoop_holding_mutex w c conn chan loop p message cb k).
Qed.

End closing.

(** ** Accepting *)
Section accepting.
Context `{K : Kernel} `{B : Build} `{BL : !BuildLaws B} `{A : !App} `{Mem : Memory}.

(** The address [newConnection] gives the connection for its own end. *)
Definition local_addr (r : sysret) (addr : sockaddr_in) : sockaddr_in :=
  match r with Ret _ => addr | Err _ => mkSockaddr 0 0 0 end.

(** The channel and the connection [newConnection] builds. *)
Definition new_channel (io sockfd conn : Z) : Channel := {|
  ch_read_cb_ := Some (cb_handleRead conn); ch_write_cb_ := Some (cb_handleWrite conn);
  ch_error_cb_ := Some (cb_handleError conn); ch_close_cb_ := Some (cb_handleClose conn);
  ch_loop_ := io; ch_fd_ := sockfd; ch_events_ := 0; ch_revents_ := 0; ch_index_ := -1;
  ch_owner_loop_ := owner_garbage; ch_events_handling_ := false
|}.

Definition new_connection (s : Z) (srv : TcpServer) (io sockfd ch : Z) (name : string)
    (local peer : sockaddr_in) : TcpConnection := {|
  tc_loop_ := io; tc_name_ := name; tc_state_ := Connecting; tc_socket_ := sockfd;
  tc_channel_ := ch; tc_local_addr_ := local; tc_peer_addr_ := peer;
  tc_connection_cb_ := ts_connection_cb_ srv; tc_write_cmpl_cb_ := ts_write_cmpl_cb_ srv;
  tc_message_cb_ := ts_message_cb_ srv; tc_close_cb_ := Some s;
  tc_input_buffer_ := Buffer.init; tc_output_buffer_ := Buffer.init
|}.

Definition new_name (srv : TcpServer) : string :=
  TcpServer.connection_name (ts_name_ srv) (ts_next_conn_id_ srv).

(** The server while the connection is created, and after it was entered. *)
Definition counted (srv : TcpServer) : TcpServer :=
  TcpServer.setNextConnId (ts_next_conn_id_ srv + 1) srv.
Definition entered (srv : TcpServer) (conn : Z) : TcpServer :=
  TcpServer.setConnections (<[new_name srv := conn]> (ts_connections_ srv)) (counted srv).

(** The addresses the two objects get. *)
Definition new_ch (w : World) : Z := fresh (dom (w_channels w)).
Definition new_c (w : World) : Z := fresh (dom (w_conns w)).

(** The process when [newConnection] calls [establishConnection]. *)
Definition created (w : World) (s : Z) (srv : TcpServer) (io sockfd : Z) (peer : sockaddr_in)
    (r : sysret) (addr : sockaddr_in) (k : kstate) (pools : gmap Z EventLoopThreadPool) : World :=
  mkWorld k (w_tid w) (w_cachedTid w) (w_loopInThread w)
    (<[new_ch w := new_channel io sockfd (new_c w)]> (w_channels w)) (w_loops w)
    (<[new_c w := new_connection s srv io sockfd (new_ch w) (new_name srv) (local_addr r addr) peer]>
       (w_conns w))
    (w_acceptors w) pools (<[s := entered srv (new_c w)]> (w_servers w))
    (w_timers w) (w_timerQueues w) (w_trace w).

(** The process when [newConnection] asks the pool for a loop. *)
Definition choosing (w : World) (s : Z) (srv : TcpServer) (k : kstate) : World :=
  set_kernel k (set_servers (<[s := counted srv]> (w_servers w)) w).

Lemma TcpConnection_ctor_ok io name sockfd local peer w :
  let ch := new_ch w in let c := new_c w in
  TcpConnection.TcpConnection_ctor owner_garbage io name sockfd local peer w =
    Ok (c, set_conns (<[c := mkTcpConnection io name Connecting sockfd ch local peer None None None
                              None Buffer.init Buffer.init]> (w_conns w))
             (set_channels (<[ch := new_channel io sockfd c]> (w_channels w)) w)).
Proof.
  intros ch c. unfold TcpConnection.TcpConnection_ctor, alloc, read, store, update, lift, modify, mbind,
    M_bind, deref. simpl.
  rewrite Buffer.Buffer_ctor_ok. simpl.
  repeat (rewrite lookup_insert_eq; simpl). rewrite !insert_insert_eq. done.
Qed.

Lemma newConnection_creates w s srv sockfd peer r addr k io pools :
  in_loop_thread (ts_loop_ srv) w → w_servers w !! s = Some srv →
  - 2 ^ 31 ≤ ts_next_conn_id_ srv < 2 ^ 31 - 1 →
  sys_getsockname sockfd (w_kernel w) = (r, addr, k) →
  EventLoopThreadPool.getNextLoop (ts_thread_pool_ srv) (choosing w s srv k) =
    Ok (io, set_pools pools (choosing w s srv k)) →
  TcpServer.newConnection owner_garbage s sockfd peer w =
    TcpConnection.establishConnection (new_c w) (created w s srv io sockfd peer r addr k pools).
Proof.
  intros Hin Hs Hid Haddr Hpool.
  unfold TcpServer.newConnection, mbind, M_bind, deref at 1. simpl. rewrite Hs.
  rewrite assertInLoopThread_ok by done. unfold lift at 1. rewrite checked_ok by lia.
  unfold modify at 1, mbind, M_bind, deref at 1, store, update. simpl. rewrite Hs.
  unfold sockets.getLocalAddr, syscall, mbind, M_bind. simpl. rewrite Haddr. simpl.
  change (set_kernel k _) with (choosing w s srv k). rewrite Hpool.
  rewrite TcpConnection_ctor_ok.
  unfold modify, mbind, M_bind, deref, store, update. simpl.
  repeat (rewrite lookup_insert_eq; simpl). rewrite !insert_insert_eq. done.
Qed.

(** [establishConnection] of a new connection whose loop can watch it. *)
Lemma establishConnection_ok w c conn chan loop p :
  TcpConnection.attached_new w c conn chan loop p → tc_state_ conn = Connecting →
  ∃ chan' loop' p', let conn' := TcpConnection.setState Connected conn in
    let w' := TcpConnection.upd w c conn' chan' loop' [] (w_kernel w) in
    TcpConnection.establishConnection c w =
      TcpConnection.call_function (tc_connection_cb_ conn) (λ cb, app_connection cb c) w' ∧
    TcpConnection.attached w' c conn' chan' loop' p' ∧
    el_mutex_ loop' = el_mutex_ loop ∧
    el_calling_pending_functors_ loop' = el_calling_pending_functors_ loop ∧
    ch_events_ chan' = Channel.withReading (ch_events_ chan) ∧
    TcpConnection.same_chan chan chan' ∧ loop' = Poller.setPoller (Some p') loop ∧
    pl_channel_map_ p' = <[ch_fd_ chan := tc_channel_ conn]> (pl_channel_map_ p) ∧
    (Channel.isNoneEvent chan = true → ¬ LoopFacts.registered p (tc_channel_ conn) chan →
     Poller.asked (w_channels w) p → Poller.asked (w_channels w') p').
Proof.
  intros [Hconn Hwt Hfd Hin Hout] Hs.
  pose proof Hwt as [Hth Hl _ _ (Hc & _ & Hev & _) _ _].
  set (conn' := TcpConnection.setState Connected conn).
  set (w1 := TcpConnection.upd w c conn' chan loop [] (w_kernel w)).
  assert (set_conns (<[c := conn']> (w_conns w)) w = w1) as Heq.
  { unfold w1, TcpConnection.upd, set_conns. simpl.
    by rewrite app_nil_r, (insert_id (w_channels w)), (insert_id (w_loops w)). }
  assert (LoopFacts.watchable w1 (tc_loop_ conn) (tc_channel_ conn) loop p chan) as Hwt1.
  { rewrite <- Heq. by destruct Hwt; constructor. }
  destruct (LoopFacts.change_ok Channel.withReading w1 _ _ loop p chan Hwt1)
    as (i & p' & Hch & Hwt' & Hreg' & Hmap & Hlk).
  { by apply Channel.wf_withReading. }
  cbn zeta in Hch, Hwt'.
  set (chan' := Channel.setIndex i _) in *. set (loop' := Poller.setPoller _ _) in *.
  assert (Poller.put_poller (tc_loop_ conn) loop (<[tc_channel_ conn := chan']> (w_channels w1)) p' w1
    = TcpConnection.upd w c conn' chan' loop' [] (w_kernel w)) as Heq'.
  { unfold w1, TcpConnection.upd, Poller.put_poller, set_loops, set_channels. simpl.
    by rewrite !insert_insert_eq. }
  rewrite Heq' in Hch, Hwt'. exists chan', loop', p'. cbn zeta. fold conn'.
  assert (Channel.isNoneEvent chan = true → ¬ LoopFacts.registered p (tc_channel_ conn) chan →
    Poller.asked (w_channels w) p → Poller.asked (<[tc_channel_ conn := chan']> (w_channels w)) p') as Has.
  { intros _ Hnr Has. replace (w_channels w) with (w_channels w1) in * by by apply insert_id.
    eapply LoopFacts.change_asked; [exact Hwt1|done| |exact Hlk|exact Has].
    intros _. apply Channel.watchesInput_some. by apply Channel.reading_withReading. }
  split; [|split; [|split_and!; try done; by do 2 eexists]].
  - unfold TcpConnection.establishConnection, mbind, M_bind, deref at 1. simpl.
    rewrite Hconn, assertInLoopThread_ok by done. unfold lift. rewrite Hs.
    rewrite assert_true by done.
    unfold modify, mbind, M_bind, deref at 1, store, update. simpl. rewrite Hconn. fold conn'.
    rewrite Heq. unfold Channel.enableReading. rewrite Hch. unfold deref. simpl.
    by rewrite lookup_insert_eq.
  - constructor; try done. apply lookup_insert_eq.
Qed.

(** A server that can accept a connection on [sockfd], in the thread of its
    loop. *)
Record server_ready (w : World) (s : Z) (srv : TcpServer) (pool : EventLoopThreadPool)
    (sockfd : Z) : Prop := {
  sr_thread : in_loop_thread (ts_loop_ srv) w;
  sr_server : w_servers w !! s = Some srv;
  sr_id : 0 ≤ ts_next_conn_id_ srv < 2 ^ 31 - 1;
  sr_pool : EventLoopThreadPool.pool_ok w (ts_thread_pool_ srv) pool;
  sr_base : tp_base_loop_ pool = ts_loop_ srv;
  sr_fd : 0 ≤ sockfd
}.

(** A loop that can take a new descriptor. *)
Record loop_ready (w : World) (l : Z) (loop : EventLoop) (p : Poller) (fd : Z) : Prop := {
  lr_loop : w_loops w !! l = Some loop;
  lr_poller : el_poller_ loop = Some p;
  lr_ok : Poller.ok (w_channels w) p;
  lr_free : pl_channel_map_ p !! fd = None;
  lr_room : zlen (pl_poll_fds_ p) < 2 ^ 31 - 1;
  lr_mutex : el_mutex_ loop = None;
  lr_calling : el_calling_pending_functors_ loop = false
}.

Lemma choosing_pool w s srv k pool t :
  EventLoopThreadPool.pool_ok w pool t → EventLoopThreadPool.pool_ok (choosing w s srv k) pool t.
Proof. by intros []; constructor. Qed.

Lemma choosing_base w s srv k pool sockfd :
  server_ready w s srv pool sockfd → tp_loops_ pool = [] →
  EventLoopThreadPool.getNextLoop (ts_thread_pool_ srv) (choosing w s srv k) =
    Ok (ts_loop_ srv, set_pools (w_pools w) (choosing w s srv k)).
Proof.
  intros [_ _ _ Hpool Hbase _] Hnil.
  rewrite (EventLoopThreadPool.getNextLoop_base _ _ pool) by (done || by apply choosing_pool).
  by rewrite Hbase.
Qed.

Lemma new_ch_fresh w : w_channels w !! new_ch w = None.
Proof. apply (not_elem_of_dom (D := gset Z)). unfold new_ch, new_c. apply is_fresh. Qed.

Lemma new_c_fresh w : w_conns w !! new_c w = None.
Proof. apply (not_elem_of_dom (D := gset Z)). unfold new_ch, new_c. apply is_fresh. Qed.

Lemma created_attached_new w s srv io loop p sockfd peer r addr k pools :
  loop_ready w io loop p sockfd → in_loop_thread io w → 0 ≤ sockfd → owned owner_garbage io →
  TcpConnection.attached_new (created w s srv io sockfd peer r addr k pools) (new_c w)
    (new_connection s srv io sockfd (new_ch w) (new_name srv) (local_addr r addr) peer)
    (new_channel io sockfd (new_c w)) loop p.
Proof.
  intros [Hl Hp Hok Hfree Hroom _ _] Hin Hfd Hown.
  constructor; [apply lookup_insert_eq| |done|apply Buffer.init_wf..].
  constructor; try done.
  - apply Poller.ok_new_object; [done|apply new_ch_fresh].
  - split; [apply lookup_insert_eq|]. split; [done|]. split; [apply Channel.wf_none|].
    left. by split_and!.
Qed.

(** Under these conditions the run of [newConnection], with the kernel and the poller after it. *)
Lemma newConnection_ok w s srv pool loop p sockfd peer r addr k :
  server_ready w s srv pool sockfd → tp_loops_ pool = [] →
  loop_ready w (ts_loop_ srv) loop p sockfd → owned owner_garbage (ts_loop_ srv) →
  sys_getsockname sockfd (w_kernel w) = (r, addr, k) →
  ∃ conn chan loop' p' w',
    TcpServer.newConnection owner_garbage s sockfd peer w =
      TcpConnection.call_function (ts_connection_cb_ srv) (λ cb, app_connection cb (new_c w)) w' ∧
    TcpConnection.live w' (new_c w) conn chan loop' p' ∧ TcpConnection.flushing conn chan ∧
    w_conns w !! new_c w = None ∧ w_servers w' !! s = Some (entered srv (new_c w)) ∧
    tc_state_ conn = Connected ∧ tc_socket_ conn = sockfd ∧ tc_name_ conn = new_name srv ∧
    tc_peer_addr_ conn = peer ∧ TcpConnection.pending conn = [] ∧
    ch_events_ chan = Channel.ReadEvent ∧ w_trace w' = w_trace w ∧
    w_kernel w' = k ∧ pl_channel_map_ p' !! sockfd = Some (tc_channel_ conn).
Proof.
  intros Hsr Hnil Hlr Hown Haddr. pose proof Hsr as [Hth Hs Hid Hpool Hbase Hfd].
  rewrite (newConnection_creates w s srv sockfd peer r addr k (ts_loop_ srv) (w_pools w))
    by (done || lia || by eapply choosing_base).
  pose proof (created_attached_new w s srv _ loop p sockfd peer r addr k (w_pools w) Hlr Hth Hfd Hown) as Hat.
  destruct (establishConnection_ok _ _ _ _ _ _ Hat eq_refl)
    as (chan & loop' & p' & Hrun & Hat' & Hm & Hcall & Hev & _ & _ & Hmap & _).
  eexists _, chan, loop', p', _. split; [exact Hrun|].
  split; [apply TcpConnection.attached_live; [exact Hat'|by rewrite Hm; destruct Hlr..|
          by rewrite Hcall; destruct Hlr]|].
  split; [|split; [apply new_c_fresh|]].
  - unfold TcpConnection.flushing, Channel.isWriting. rewrite Hev. done.
  - simpl. rewrite lookup_insert_eq, app_nil_r. split_and!; try done. rewrite Hmap. apply lookup_insert_eq.
Qed.

(** C15: [newConnection] of a server without I/O threads, in the thread of its
    loop: it creates a connection at a fresh address, enters it under its name
    into the map of the server, counts it, registers it for read events in state
    connected with empty buffers, and then calls the connection callback.  In a debug build
    the memory of the new channel must happen to hold its loop in [owner_loop_]. *)
Theorem newConnection_establishes w s srv pool loop p sockfd peer r addr k :
  server_ready w s srv pool sockfd → tp_loops_ pool = [] →
  loop_ready w (ts_loop_ srv) loop p sockfd → owned owner_garbage (ts_loop_ srv) →
  sys_getsockname sockfd (w_kernel w) = (r, addr, k) →
  ∃ conn chan loop' p' w',
    TcpServer.newConnection owner_garbage s sockfd peer w =
      TcpConnection.call_function (ts_connection_cb_ srv) (λ cb, app_connection cb (new_c w)) w' ∧
    TcpConnection.live w' (new_c w) conn chan loop' p' ∧ TcpConnection.flushing conn chan ∧
    w_conns w !! new_c w = None ∧ w_servers w' !! s = Some (entered srv (new_c w)) ∧
    tc_state_ conn = Connected ∧ tc_socket_ conn = sockfd ∧ tc_name_ conn = new_name srv ∧
    tc_peer_addr_ conn = peer ∧ TcpConnection.pending conn = [] ∧
    ch_events_ chan = Channel.ReadEvent ∧ w_trace w' = w_trace w.
Proof.
  intros Hsr Hnil Hlr Hown Haddr.
  destruct (newConnection_ok _ _ _ _ _ _ _ peer _ _ _ Hsr Hnil Hlr Hown Haddr)
    as (conn & chan & loop' & p' & w' & ? & ? & ? & ? & ? & ? & ? & ? & ? & ? & ? & ? & _).
  by exists conn, chan, loop', p', w'.
Qed.

(** C38: with I/O threads [newConnection] aborts: it runs in the thread of the
    acceptor, and [establishConnection] asserts the thread of the loop it chose. *)
Theorem newConnection_with_io_threads_aborts w s srv pool sockfd peer r addr k io :
  server_ready w s srv pool sockfd → tp_loops_ pool ≠ [] →
  tp_loops_ pool !! Z.to_nat (tp_next_ pool) = Some io → foreign_thread io w →
  sys_getsockname sockfd (w_kernel w) = (r, addr, k) →
  TcpServer.newConnection owner_garbage s sockfd peer w = Fault NotInLoopThread.
Proof.
  intros Hsr Hne Hio Hfor Haddr. pose proof Hsr as [Hth Hs Hid Hpool Hbase Hfd].
  destruct (EventLoopThreadPool.getNextLoop_next _ _ _ (choosing_pool w s srv k _ _ Hpool) Hne)
    as (io' & Hio' & Hnext & _). simplify_eq.
  erewrite (newConnection_creates w s srv sockfd peer r addr k io); [|done..|lia|done|exact Hnext].
  unfold TcpConnection.establishConnection, mbind, M_bind, deref. simpl. rewrite lookup_insert_eq.
  simpl. rewrite assertInLoopThread_abort; [done|]. by destruct Hfor.
Qed.

End accepting.

(** What an accept leaves of a ready server and its loop *)
Lemma server_ready_accepted `{K : Kernel} w s srv pool fd k tr :
  server_ready w s srv pool fd → server_ready (set_trace tr (set_kernel k w)) s srv pool fd.
Proof. intros [? ? ? [] ? ?]. by constructor. Qed.

Lemma loop_ready_accepted `{K : Kernel} w l loop p fd k tr :
  loop_ready w l loop p fd → loop_ready (set_trace tr (set_kernel k w)) l loop p fd.
Proof. intros []. by constructor. Qed.

(** C28: what becomes of a descriptor when the listening socket is readable.  The acceptor accepts
    once.  If that fails, only the kernel moved on and no descriptor was opened or closed by
    the process.  Without a server behind it the new descriptor is closed again: it is not open at
    the end, and every descriptor that was open before still is.  With a server that is
    ready (without I/O threads, in its loop), the descriptor is open at the end and belongs to a live
    connection with the address of the peer, which the map of the server holds and whose
    channel the poller has under the descriptor, when the connection callback is called. *)
Theorem accepted_descriptor_owned_or_closed `{K : Kernel} `{KL : !KernelLaws K} `{D : !Descriptors K}
    `{DL : !DescriptorLaws K} `{B : Build} `{BL : !BuildLaws B} `{A : !App} `{Mem : Memory}
    w a acc r addr k t :
  in_loop_thread (ac_loop_ acc) w → w_acceptors w !! a = Some acc →
  sys_accept (ac_socket_ acc) (w_kernel w) = (r, addr, k) →
  match r, ac_new_conn_cb_ acc with
  | Err _, _ =>
      call (cb_acceptorRead a) t w = Ok ((), set_kernel k w) ∧ open_fds (w_kernel w) ⊆ open_fds k
  | Ret fd, None => ∃ k',
      call (cb_acceptorRead a) t w =
        Ok ((), set_trace (w_trace w ++ [EvAccept fd; EvClose fd]) (set_kernel k' w)) ∧
      (fd ∉ open_fds k') ∧ open_fds (w_kernel w) ⊆ open_fds k'
  | Ret fd, Some s => ∀ srv pool loop p r' laddr k',
      server_ready w s srv pool fd → tp_loops_ pool = [] → loop_ready w (ts_loop_ srv) loop p fd →
      owned owner_garbage (ts_loop_ srv) → sys_getsockname fd k = (r', laddr, k') →
      ∃ c conn chan loop' p' w',
        call (cb_acceptorRead a) t w =
          TcpConnection.call_function (ts_connection_cb_ srv) (λ cb, app_connection cb c) w' ∧
        TcpConnection.live w' c conn chan loop' p' ∧ w_conns w !! c = None ∧
        tc_socket_ conn = fd ∧ tc_peer_addr_ conn = addr ∧ tc_state_ conn = Connected ∧
        pl_channel_map_ p' !! fd = Some (tc_channel_ conn) ∧
        (∃ srv', w_servers w' !! s = Some srv' ∧
           ts_connections_ srv' = <[new_name srv := c]> (ts_connections_ srv)) ∧
        w_trace w' = w_trace w ++ [EvAccept fd] ∧ fd ∈ open_fds (w_kernel w')
  end.
Proof.
  intros Hin Ha Hacc. pose proof (fds_accept _ _ _ _ _ Hacc) as [Hk Hr].
  set (w1 := λ fd, set_trace (w_trace w ++ [EvAccept fd]) (set_kernel k w)).
  assert (call (cb_acceptorRead a) t w =
    match r with
    | Err _ => Ok ((), set_kernel k w)
    | Ret fd => match ac_new_conn_cb_ acc with
                | Some s => TcpServer.newConnection owner_garbage s fd addr
                | None => sockets.close fd
                end (w1 fd)
    end) as ->.
  { simpl. unfold Acceptor.handleRead, mbind, M_bind, deref. simpl. rewrite Ha.
    rewrite assertInLoopThread_ok by done.
    unfold Socket.accept, sockets.accept, mbind, M_bind, syscall. rewrite Hacc. simpl.
    destruct r as [fd|e]; simpl; [|done].
    rewrite (proj2 (Z.leb_le _ _)) by (by eapply accept_fd). by destruct (ac_new_conn_cb_ acc). }
  destruct r as [fd|e]; [|done]. destruct (ac_new_conn_cb_ acc) as [s|].
  - intros srv pool loop p r' laddr k' Hsr Hnil Hlr Hown Haddr.
    destruct (newConnection_ok (w1 fd) s srv pool loop p fd addr r' laddr k')
      as (conn & chan & loop' & p' & w' & Hrun & Hlv & _ & Hnone & Hs & Hst & Hsock & _ & Hpeer & _ & _ &
          Htr & Hker & Hmap); [by apply server_ready_accepted|done|by apply loop_ready_accepted|done|done|].
    exists (new_c (w1 fd)), conn, chan, loop', p', w'. split_and!; try done.
    + by exists (entered srv (new_c (w1 fd))).
    + rewrite Hker. pose proof (fds_getsockname fd k) as Hg. rewrite Haddr in Hg. by apply Hg, Hr.
  - pose proof (fds_close fd k) as Hc. destruct (sys_close fd k) as [r' k'] eqn:Hcl. simpl in Hc.
    exists k'. split; [|split; [rewrite Hc; by intros [_ []%not_elem_of_singleton]%elem_of_difference|]].
    + unfold sockets.close, mbind, M_bind, syscall, emit, update, w1. simpl. rewrite Hcl. simpl.
      unfold set_trace, set_kernel. simpl. by rewrite <- app_assoc.
    + destruct Hr as [Hnew _]. rewrite Hc. intros x Hx. apply elem_of_difference.
      split; [by apply Hk|]. by intros ->%elem_of_singleton.
Qed.

Lemma string_app_inj_l (s t t' : string) : s +:+ t = s +:+ t' → t = t'.
Proof.
  induction s as [|c s IH]; [done|]. change (String c s +:+ ?x) with (String c (s +:+ x)).
  intros [= H]. by apply IH.
Qed.

Lemma connection_name_inj name id id' :
  0 ≤ id < 2 ^ 31 → 0 ≤ id' < 2 ^ 31 →
  TcpServer.connection_name name id = TcpServer.connection_name name id' → id = id'.
Proof.
  intros Hid Hid' Heq. unfold TcpServer.connection_name in Heq. apply string_app_inj_l in Heq.
  assert (∀ i, 0 ≤ i < 2 ^ 31 → (String.length ("#" +:+ Format.dec i) < 32)%nat) as Hlen.
  { intros i Hi. rewrite Format.length_string_app.
    pose proof (Format.length_dec 10 i). simpl in *. lia. }
  rewrite !Format.snprintf_fits in Heq by auto. apply string_app_inj_l in Heq.
  apply Format.dec_inj; [lia..|done].
Qed.

(** the names of the connections of a server are different for different
    connection numbers: [snprintf] into 32 characters truncates no number of an
    [int], so that entering a connection never replaces another one. *)
Theorem connection_names_distinct name id id' :
  0 ≤ id < 2 ^ 31 → 0 ≤ id' < 2 ^ 31 →
  TcpServer.connection_name name id = TcpServer.connection_name name id' → id = id'.
Proof. apply connection_name_inj. Qed.

(** ** On the sample process *)

#[local] Existing Instance Scripted.kernel.
#[local] Existing Instance Scripted.kernel_laws.
#[local] Existing Instance debug_build.
#[local] Existing Instance silent_app.

(** New memory holds 1, the address of the loop. *)
#[local] Instance sample_memory : Memory := {| owner_garbage := 1 |}.

(** The sample connection reports input. *)
Definition ready_chan : Channel := Channel.setRevents POLLIN Sample.chan.
Definition ready_world : World := set_channels {[1 := ready_chan]} (Sample.world 7 Sample.quiet).

Lemma ready_live :
  TcpConnection.live ready_world 1 (Sample.conn Connected) ready_chan Sample.loop Sample.poller.
Proof.
  pose proof (sample_live Sample.quiet) as [? [? ? ? Hok (_ & ? & ? & _) ? ?] ? ? ? ? ? ?].
  constructor; try done. constructor; try done.
  - apply (Poller.ok_channels {[1 := Sample.chan]}); [|done].
    intros ch c0 [<- <-]%lookup_singleton_Some. by exists ready_chan.
  - split_and!; try done. by right.
Qed.

Lemma peer_close_destroys_connection_witness :
  ∃ w', (_ ← Channel.handleEvents Timestamp.invalid 1; EventLoop.doPendingFunctors 1) ready_world =
      Ok ((), w') ∧
    w_conns w' = ∅ ∧ w_channels w' !! 1 = None ∧ w_trace w' = [EvClose 5] ∧
    w_servers w' !! 1 = Some (TcpServer.setConnections ∅ Sample.server).
Proof.
  destruct (peer_close_destroys_connection (K := Scripted.kernel) ready_world 1 (Sample.conn Connected)
    ready_chan Sample.loop Sample.poller 1 Sample.server 1 Sample.quiet Timestamp.invalid ready_live)
    as (w' & _ & _ & Hrun & Hconn & Hchan & Hsv & _ & _ & _ & _ & _ & _ & Htr & _); try done.
  - intros name. simpl. split; [by intros [-> _]%lookup_singleton_Some|intros ->; done].
  - constructor.
    + intros s' srv name Hd Hs. simpl in Hs. by rewrite lookup_singleton_ne in Hs.
    + intros l' loop f Hd Hl. simpl in Hl. by rewrite lookup_singleton_ne in Hl.
  - exists w'. split; [exact Hrun|]. split; [by rewrite Hconn|]. split; [exact Hchan|].
    split; [exact Htr|]. rewrite Hsv. vm_compute. reflexivity.
Defined.

(** The sample connection out of the map, its destruction queued. *)
Definition leaving_loop : EventLoop := EventLoop.setPending [fn_destroyConnection 1] Sample.loop.
Definition leaving_world : World :=
  set_servers {[1 := TcpServer.setConnections ∅ Sample.server]}
    (LoopFacts.put_loop 1 leaving_loop (Sample.world 7 Sample.quiet)).

Lemma leaving_attached :
  TcpConnection.attached leaving_world 1 (Sample.conn Connected) Sample.chan leaving_loop Sample.poller.
Proof.
  pose proof (sample_live Sample.quiet) as [? [? ? ? Hok (_ & ? & ? & ?) ? ?] ? ? ? ? ? ?].
  constructor; try done. constructor; try done. split; [done|]. split; [done|]. by eexists.
Qed.

Lemma late_send_dangles_witness :
  ∃ w' loop', EventLoop.doPendingFunctors 1 leaving_world = Ok ((), w') ∧
    EventLoop.doPendingFunctors 1
      (LoopFacts.put_loop 1 (LoopFacts.enqueue (fn_sendInLoop 1 [x61]) loop') w') = Fault DanglingPointer.
Proof.
  destruct (late_send_dangles (K := Scripted.kernel) leaving_world 1 (Sample.conn Connected) Sample.chan
    leaving_loop Sample.poller 1 1 (TcpServer.setConnections ∅ Sample.server) [x61] leaving_attached)
    as (w' & loop' & Hd & _ & _ & Hf); try done.
  - constructor.
    + intros s' srv name Hd Hs. simpl in Hs. by rewrite lookup_singleton_ne in Hs.
    + intros l' loop f Hd Hl. simpl in Hl. apply lookup_insert_Some in Hl as [[<- _]|[_ Hl]]; [done|].
      by rewrite lookup_singleton_ne in Hl.
  - exists w', loop'. split; [exact Hd|exact Hf].
Defined.

(** The sample connection with a write-complete callback, and the loop with a
    message queued by another thread. *)
Definition callback_conn : TcpConnection :=
  TcpConnection.setWriteCallback (Some 3) (Sample.conn Connected).
Definition queued_loop : EventLoop :=
  EventLoop.setPending [fn_sendInLoop 1 [x61]] Sample.loop.
Definition queued_world : World :=
  set_conns {[1 := callback_conn]} (LoopFacts.put_loop 1 queued_loop (Sample.world 7 Sample.quiet)).

Lemma queued_live :
  TcpConnection.live queued_world 1 callback_conn Sample.chan queued_loop Sample.poller.
Proof.
  constructor; try done; [|constructor; vm_compute; congruence..].
  constructor; try done; [|apply Sample.poller_ok| |by right].
  - split; [done|]. split; [done|]. by eexists.
  - split_and!; try done. by right.
Qed.

Lemma queued_send_with_write_callback_deadlocks_witness :
  EventLoop.doPendingFunctors 1 queued_world = Fault Deadlock.
Proof.
  apply (queued_send_with_write_callback_deadlocks (K := Scripted.kernel) _ _ _ _ _ _ [x61] [] 3
    Sample.quiet queued_live); [reflexivity|vm_compute; split; congruence|reflexivity..].
Defined.

Lemma sample_server_ready k pool :
  w_pools (Sample.world 7 k) !! 1 = Some pool →
  server_ready (Sample.world 7 k) 1 Sample.server pool 6.
Proof.
  intros [= <-]. constructor; try done; [apply Sample.in_loop_thread_world|].
  constructor; try done. apply Sample.in_loop_thread_world.
Qed.

Lemma sample_loop_ready k : loop_ready (Sample.world 7 k) 1 Sample.loop Sample.poller 6.
Proof. constructor; try done. apply Sample.poller_ok. Qed.

Lemma newConnection_establishes_witness :
  ∃ conn w', TcpServer.newConnection 1 1 6 Scripted.null_addr (Sample.world 7 Sample.quiet) =
      Ok ((), w') ∧
    w_conns w' !! new_c (Sample.world 7 Sample.quiet) = Some conn ∧ tc_state_ conn = Connected ∧
    tc_name_ conn = "s#1".
Proof.
  destruct (newConnection_establishes (K := Scripted.kernel) (Mem := sample_memory) _ 1 Sample.server _ _ _ 6
    Scripted.null_addr _ _ _ (sample_server_ready Sample.quiet _ eq_refl) eq_refl
    (sample_loop_ready _) (or_intror eq_refl) eq_refl)
    as (conn & chan & loop' & p' & w' & Hrun & Hlv & _ & _ & _ & Hst & _ & Hname & _).
  exists conn, w'. split; [exact Hrun|]. split; [by destruct Hlv|]. split; [exact Hst|].
  rewrite Hname. vm_compute. reflexivity.
Defined.

(** Two loops, the second of thread 9; the pool hands out the second. *)
Definition pooled_world : World :=
  set_pools {[1 := mkPool 1 true 1 0 [2]]}
    (LoopFacts.put_loop 2
       (mkEventLoop true false false 9 Timestamp.invalid None None 8 [] None [])
       (Sample.world 7 Sample.quiet)).

Lemma newConnection_with_io_threads_aborts_witness :
  TcpServer.newConnection 1 1 6 Scripted.null_addr pooled_world = Fault NotInLoopThread.
Proof.
  assert (in_loop_thread 1 pooled_world) as Hth.
  { split; [done|]. split; [done|]. by eexists. }
  apply (newConnection_with_io_threads_aborts (K := Scripted.kernel) (Mem := sample_memory) _ 1 Sample.server
    (mkPool 1 true 1 0 [2]) 6 Scripted.null_addr (Ret 0) Scripted.null_addr Sample.quiet 2).
  - constructor; done.
  - done.
  - reflexivity.
  - split; [done|]. split; [done|]. by eexists.
  - reflexivity.
Defined.

Lemma connection_names_distinct_witness :
  TcpServer.connection_name "s" 1 = TcpServer.connection_name "s" 1 ∧ 1 = 1.
Proof. split; [reflexivity|]. apply (connection_names_distinct "s" 1 1); [lia..|reflexivity]. Defined.

#[local] Existing Instance Tabled.kernel.
#[local] Existing Instance Tabled.kernel_laws.
#[local] Existing Instance Tabled.table.
#[local] Existing Instance Tabled.descriptor_laws.

#[local] Instance tabled_app : App := {|
  app_connection _ _ := mret (); app_message _ _ _ := mret ();
  app_write_complete _ _ := mret (); app_functor _ := mret ()
|}.

(** The sample process over a kernel with a table of descriptors; its first acceptor has a server,
    its second has none, and a client waits. *)
Definition one_client : Tabled.state :=
  (Scripted.mkState [] [] [] [] [(Ret 9, Scripted.null_addr)], {[3]}).

Definition client_taken : Tabled.state := (Scripted.mkState [] [] [] [] [], {[9]} ∪ {[3]}).

Definition accepting_world : World := {|
  w_kernel := one_client : kstate;
  w_tid := 7; w_cachedTid := {[7 := 7]}; w_loopInThread := {[7 := 1]};
  w_channels := {[1 := Sample.chan]}; w_loops := {[1 := Sample.loop]};
  w_conns := {[1 := Sample.conn Connected]};
  w_acceptors := {[1 := mkAcceptor 1 3 2 (Some 1) true; 2 := mkAcceptor 1 3 2 None true]};
  w_pools := {[1 := mkPool 1 true 0 0 []]}; w_servers := {[1 := Sample.server]};
  w_timers := ∅; w_timerQueues := ∅; w_trace := []
|}.

Lemma accepting_thread : in_loop_thread 1 accepting_world.
Proof. split; [done|]. split; [done|]. by exists Sample.loop. Qed.

Lemma accepted_descriptor_owned_or_closed_witness :
  (∃ k, call (cb_acceptorRead 2) Timestamp.invalid accepting_world =
     Ok ((), set_trace [EvAccept 9; EvClose 9] (set_kernel k accepting_world)) ∧
     (9 ∉ open_fds k)) ∧
  ∃ conn c w', call (cb_acceptorRead 1) Timestamp.invalid accepting_world =
      Ok ((), w') ∧
    w_conns w' !! c = Some conn ∧ tc_socket_ conn = 9 ∧ 9 ∈ open_fds (w_kernel w').
Proof.
  split.
  - destruct (accepted_descriptor_owned_or_closed accepting_world 2 (mkAcceptor 1 3 2 None true) (Ret 9)
      Scripted.null_addr _ Timestamp.invalid accepting_thread eq_refl eq_refl) as (k & Hrun & Hc & _).
    exists k. split; [exact Hrun|exact Hc].
  - destruct (accepted_descriptor_owned_or_closed accepting_world 1 (mkAcceptor 1 3 2 (Some 1) true) (Ret 9)
      Scripted.null_addr _ Timestamp.invalid accepting_thread eq_refl eq_refl Sample.server
      (mkPool 1 true 0 0 []) Sample.loop Sample.poller (Ret 0) Scripted.null_addr client_taken)
      as (c & conn & chan & loop' & p' & w' & Hrun & Hlv & _ & Hsock & _ & _ & _ & _ & _ & Hopen).
    + constructor; try done; [apply accepting_thread|]. constructor; try done. apply accepting_thread.
    + reflexivity.
    + constructor; try done. apply Sample.poller_ok.
    + by right.
    + reflexivity.
    + exists conn, c, w'. split; [exact Hrun|]. split; [by destruct Hlv|]. split; [exact Hsock|exact Hopen].
Defined.
