(* ===== verification/Serving.v ===== *)
(** * A server at work in one thread

    The invariant of a process in which a [TcpServer] without I/O threads runs
    on its loop: every connection in the map of the server is established and
    registered with the poller, every connection out of the map waits for
    [destroyConnection], and the poller knows no other channel than these and
    that of the acceptor.  Between two iterations the queue is empty
    and every connection object has an owner, so that none leaks.  Throughout, the books
    of a [Ledger] are in order and the descriptors agree with the history of the calls.  The lemmas of this file
    say which changes of the process keep all that. *)

From S2P Require Import Prelude Format Timestamp Buffer Kernel State CurrentThread Channel.
From S2P Require Import Descriptors Poller EventLoop Dispatch SocketsOptions Socket TcpConnection.
From S2P Require Import Acceptor EventLoopThreadPool TcpServer Reactor Ledger Lifetime ServerTheorems.

Module Serving.

Section invariant.
Context `{K : Kernel} `{B : Build} `{D : !Descriptors K} {L : Ledger} {LL : LedgerLaws L}.

(** The loop, the server, the two functions the application gave it, and the other servers and loops of
    the process, which are left alone. *)
Variables (l : LoopPtr) (s : ServerPtr) (fcon fmsg : UserFunction).
Variable others : gmap Z TcpServer * gmap Z EventLoop.

(** The channel of the connection at [c] has its four callbacks. *)
Definition bound_to (c : Z) (chan : Channel) : Prop :=
  ch_close_cb_ chan = Some (cb_handleClose c) ∧ ch_error_cb_ chan = Some (cb_handleError c) ∧
  ch_read_cb_ chan = Some (cb_handleRead c) ∧ ch_write_cb_ chan = Some (cb_handleWrite c).

(** The last poll did not report the channel closed and readable. *)
Definition calm (chan : Channel) : Prop :=
  Channel.hup (ch_revents_ chan) = true → Channel.readable (ch_revents_ chan) = false.

(** The channel of an established connection watches for input always, for output exactly while bytes are
    pending. *)
Definition watching (conn : TcpConnection) (chan : Channel) : Prop :=
  TcpConnection.flushing conn chan ∧ Channel.watchesInput chan = true.

(** The books of a connection are in order. *)
Definition books (w : World) (conn : TcpConnection) : Prop :=
  led_conn (tc_socket_ conn) (w_trace w) (tc_state_ conn) (Buffer.contents (tc_input_buffer_ conn))
    (TcpConnection.pending conn).

(** They are, but for the bytes that were just read. *)
Definition unread (w : World) (conn : TcpConnection) : Prop :=
  led_input (tc_socket_ conn) (w_trace w) (tc_state_ conn) (Buffer.contents (tc_input_buffer_ conn))
    (TcpConnection.pending conn).

(** The descriptors of the process agree with the history of its calls: none was misused, those in use
    are open in the kernel, and every connection object has one, which no other has. *)
Record disciplined (w : World) : Prop := {
  dc_sound fd : fd_after fd (w_trace w) ≠ FdMisused;
  dc_open fd : fd_after fd (w_trace w) ≠ FdClosed → fd ∈ open_fds (w_kernel w);
  dc_conn c conn : w_conns w !! c = Some conn → fd_after (tc_socket_ conn) (w_trace w) = FdOpen;
  dc_inj c c' conn conn' : w_conns w !! c = Some conn → w_conns w !! c' = Some conn' →
    tc_socket_ conn = tc_socket_ conn' → c = c'
}.

(** The descriptor is of a connection object. *)
Definition in_use (w : World) (fd : Z) : Prop :=
  ∃ c conn, w_conns w !! c = Some conn ∧ tc_socket_ conn = fd.

(** Every descriptor that is open, apart from [fds], is of a connection object. *)
Definition accounted_but (fds : list Z) (w : World) : Prop :=
  ∀ fd, fd_after fd (w_trace w) = FdOpen → fd ∈ fds ∨ in_use w fd.

(** An established connection of the server. *)
Record member (w : World) (p : Poller) (c : Z) (conn : TcpConnection) (chan : Channel) : Prop := {
  mb_conn : w_conns w !! c = Some conn;
  mb_chan : w_channels w !! tc_channel_ conn = Some chan;
  mb_loop : tc_loop_ conn = l;
  mb_bound : bound_to c chan;
  mb_home : ch_loop_ chan = l ∧ owned (ch_owner_loop_ chan) l;
  mb_fd : ch_fd_ chan = tc_socket_ conn;
  mb_registered : LoopFacts.registered p (tc_channel_ conn) chan;
  mb_events : Channel.wf_events (ch_events_ chan);
  mb_input : Buffer.wf (tc_input_buffer_ conn);
  mb_output : Buffer.wf (tc_output_buffer_ conn);
  mb_state : TcpConnection.open_state (tc_state_ conn) = true;
  mb_cbs : tc_connection_cb_ conn = Some fcon ∧ tc_message_cb_ conn = Some fmsg ∧
           tc_write_cmpl_cb_ conn = None ∧ tc_close_cb_ conn = Some s;
  mb_calm : calm chan;
  mb_books : books w conn
}.

(** The acceptor of the server, listening. *)
Record listener (w : World) (p : Poller) (a : Z) (acc : Acceptor) (chan : Channel) : Prop := {
  ls_acceptor : w_acceptors w !! a = Some acc;
  ls_loop : ac_loop_ acc = l;
  ls_server : ac_new_conn_cb_ acc = Some s;
  ls_chan : w_channels w !! ac_channel_ acc = Some chan;
  ls_bound : ch_close_cb_ chan = None ∧ ch_error_cb_ chan = None ∧
             ch_read_cb_ chan = Some (cb_acceptorRead a) ∧ ch_write_cb_ chan = None;
  ls_registered : LoopFacts.registered p (ac_channel_ acc) chan;
  ls_listening f : fd_after f (w_trace w) = FdListening ↔ f = ac_socket_ acc
}.

(** A connection the server still knows, or one that awaits its destruction. *)
Definition owned (srv : TcpServer) (ds : list Z) (c : Z) : Prop :=
  c ∈ ds ∨ ∃ name, ts_connections_ srv !! name = Some c.

(** [serving w srv loop p ds x]: in [w], the server [srv] works on the loop
    [loop] with poller [p]; the connections [ds] await their destruction; the
    connection [x], when there is one, is in the middle of an operation. *)
Record serving (w : World) (srv : TcpServer) (loop : EventLoop) (p : Poller) (ds : list Z)
    (x : option Z) : Prop := {
  sv_thread : in_loop_thread l w;
  sv_server : w_servers w !! s = Some srv;
  sv_config : ts_loop_ srv = l ∧ ts_connection_cb_ srv = Some fcon ∧
              ts_message_cb_ srv = Some fmsg ∧ ts_write_cmpl_cb_ srv = None;
  sv_id : 0 ≤ ts_next_conn_id_ srv < 2 ^ 31;
  sv_names name c : ts_connections_ srv !! name = Some c →
    ∃ id, 0 ≤ id < ts_next_conn_id_ srv ∧ name = TcpServer.connection_name (ts_name_ srv) id;
  sv_pool : ∃ pool, EventLoopThreadPool.pool_ok w (ts_thread_pool_ srv) pool ∧
    tp_base_loop_ pool = l ∧ tp_loops_ pool = [];
  sv_loop : w_loops w !! l = Some loop;
  sv_poller : el_poller_ loop = Some p;
  sv_ok : Poller.ok (w_channels w) p;
  sv_asked : Poller.asked (w_channels w) p;
  sv_fds fd : is_Some (pl_channel_map_ p !! fd) → fd ∈ open_fds (w_kernel w);
  sv_listener : ∃ acc chan, listener w p (ts_acceptor_ srv) acc chan;
  sv_members name c : ts_connections_ srv !! name = Some c → x ≠ Some c →
    ∃ conn chan, member w p c conn chan ∧ tc_name_ conn = name ∧ watching conn chan;
  sv_closing c : c ∈ ds → (∀ name, ts_connections_ srv !! name ≠ Some c) ∧
    (x ≠ Some c → ∃ conn chan, member w p c conn chan ∧ ch_events_ chan = Channel.NoneEvent);
  sv_nodup : NoDup ds;
  sv_registered fd ch : pl_channel_map_ p !! fd = Some ch →
    (∃ acc, w_acceptors w !! ts_acceptor_ srv = Some acc ∧ ac_channel_ acc = ch) ∨
    ∃ c conn, owned srv ds c ∧ w_conns w !! c = Some conn ∧ tc_channel_ conn = ch;
  sv_books fd : led_fd fd (w_trace w);
  sv_disciplined : disciplined w;
  sv_others : (delete s (w_servers w), delete l (w_loops w)) = others
}.

(** Outside [doPendingFunctors]. *)
Definition resting (loop : EventLoop) : Prop :=
  el_mutex_ loop = None ∧ el_calling_pending_functors_ loop = false.

(** The server between two callbacks of an iteration of its loop: the queue of
    the loop holds the destructions, and nothing else. *)
Definition running (w : World) (srv : TcpServer) (loop : EventLoop) (p : Poller) (ds : list Z)
    : Prop :=
  serving w srv loop p ds None ∧ resting loop ∧
  el_pending_functors_ loop = fn_destroyConnection <$> ds.

(** No channel is in the middle of [handleEvents]. *)
Definition idle (w : World) : Prop :=
  ∀ ch chan, w_channels w !! ch = Some chan → ch_events_handling_ chan = false.

(** Every connection object has an owner: a map or a queued functor, or it is among [ds]. *)
Definition tidy_but (ds : list Z) (w : World) : Prop :=
  ∀ c, is_Some (w_conns w !! c) → held c w ∨ c ∈ ds.
Definition tidy (w : World) : Prop := ∀ c, is_Some (w_conns w !! c) → held c w.

(** Nothing leaks: every connection object has an owner, every open descriptor a connection. *)
Definition settled (w : World) : Prop := tidy w ∧ accounted_but [] w.

(** The server between two iterations: nothing is left to destroy, to delete or to close. *)
Definition at_rest (w : World) : Prop :=
  idle w ∧ settled w ∧ ∃ srv loop p, running w srv loop p [].

(** A connection that was destroyed and is still to be deleted. *)
Definition dead (w : World) (p : Poller) (c : Z) : Prop :=
  ∃ conn chan, w_conns w !! c = Some conn ∧ w_channels w !! tc_channel_ conn = Some chan ∧
    bound_to c chan ∧ ch_fd_ chan = tc_socket_ conn ∧ pl_channel_map_ p !! tc_socket_ conn = None.

(** ** Owners *)

Lemma held_iff c w :
  held c w ↔
    (∃ s' srv name, w_servers w !! s' = Some srv ∧ ts_connections_ srv !! name = Some c) ∨
    (∃ l' loop f, w_loops w !! l' = Some loop ∧ f ∈ el_pending_functors_ loop ∧ captured f = Some c).
Proof.
  unfold held, map_Exists. setoid_rewrite Exists_exists. split.
  - intros [(s' & srv & ? & name & ? & ? & ->)|(l' & loop & ? & f & ? & ?)]; [left|right]; eauto 10.
  - intros [(s' & srv & name & ? & ?)|(l' & loop & f & ? & ? & ?)]; [left|right]; eauto 10.
Qed.

Lemma held_frame c w w' :
  held c w → w_servers w' = w_servers w →
  (∀ l' loop, w_loops w !! l' = Some loop → ∃ loop', w_loops w' !! l' = Some loop' ∧
     el_pending_functors_ loop' = el_pending_functors_ loop) → held c w'.
Proof.
  rewrite !held_iff. intros [(s' & srv & name & Hs & Hn)|(l' & loop & f & Hl' & Hf & Hc)] Hsv Hlo.
  - left. rewrite Hsv. eauto.
  - right. destruct (Hlo _ _ Hl') as (loop' & ? & He). exists l', loop', f. by rewrite He.
Qed.

(** A change that touches no map, no queue and creates no connection. *)
Lemma tidy_but_frame ds w w' :
  tidy_but ds w → w_servers w' = w_servers w →
  (∀ l' loop, w_loops w !! l' = Some loop → ∃ loop', w_loops w' !! l' = Some loop' ∧
     el_pending_functors_ loop' = el_pending_functors_ loop) →
  (∀ c, is_Some (w_conns w' !! c) → is_Some (w_conns w !! c)) → tidy_but ds w'.
Proof.
  intros Ht Hs Hlo Hc c Hin. destruct (Ht c (Hc c Hin)) as [Hh|?]; [|by right].
  left. by eapply held_frame.
Qed.

Lemma tidy_nil w : tidy_but [] w ↔ tidy w.
Proof.
  split; intros Ht c Hc; [|by left; apply Ht]. destruct (Ht c Hc) as [?|?%elem_of_nil]; done.
Qed.

Lemma tidy_frame w w' :
  tidy w → w_servers w' = w_servers w →
  (∀ l' loop, w_loops w !! l' = Some loop → ∃ loop', w_loops w' !! l' = Some loop' ∧
     el_pending_functors_ loop' = el_pending_functors_ loop) →
  (∀ c, is_Some (w_conns w' !! c) → is_Some (w_conns w !! c)) → tidy w'.
Proof. rewrite <- !tidy_nil. apply tidy_but_frame. Qed.

(** A change of one loop that keeps its queue. *)
Lemma loops_put (loop loop' : EventLoop) (h : gmap Z EventLoop) l1 :
  h !! l1 = Some loop → el_pending_functors_ loop' = el_pending_functors_ loop →
  ∀ l' loop0, h !! l' = Some loop0 → ∃ loop1, <[l1 := loop']> h !! l' = Some loop1 ∧
    el_pending_functors_ loop1 = el_pending_functors_ loop0.
Proof.
  intros Hl Hp l' loop0 H0. destruct (decide (l1 = l')) as [<-|Hne].
  - rewrite lookup_insert_eq. simplify_eq. eauto.
  - rewrite lookup_insert_ne by done. eauto.
Qed.

(** ** Descriptors *)

(** Whatever keeps the descriptors of the connections and of the history. *)
Lemma disciplined_frame w w' :
  disciplined w → (∀ fd, fd_after fd (w_trace w') = fd_after fd (w_trace w)) →
  open_fds (w_kernel w) ⊆ open_fds (w_kernel w') →
  (∀ c conn', w_conns w' !! c = Some conn' →
     ∃ conn, w_conns w !! c = Some conn ∧ tc_socket_ conn' = tc_socket_ conn) → disciplined w'.
Proof.
  intros [Hs Ho Hc Hi] Htr Hk Hco. constructor.
  - intros fd. by rewrite Htr.
  - intros fd. rewrite Htr. intros Hne. by apply Hk, Ho.
  - intros c conn' Hc'. destruct (Hco _ _ Hc') as (conn & H0 & ->). rewrite Htr. by eapply Hc.
  - intros c1 c2 conn1 conn2 H1 H2 Heq. destruct (Hco _ _ H1) as (conn1' & ? & He1).
    destruct (Hco _ _ H2) as (conn2' & ? & He2). eapply Hi; [done..|congruence].
Qed.

Lemma accounted_frame fds w w' :
  accounted_but fds w → (∀ fd, fd_after fd (w_trace w') = fd_after fd (w_trace w)) →
  (∀ c conn, w_conns w !! c = Some conn →
     ∃ conn', w_conns w' !! c = Some conn' ∧ tc_socket_ conn' = tc_socket_ conn) → accounted_but fds w'.
Proof.
  intros Ha Htr Hco fd. rewrite Htr. intros Ho. destruct (Ha fd Ho) as [?|(c & conn & Hc & <-)]; [by left|].
  right. destruct (Hco _ _ Hc) as (conn' & ? & ?). by exists c, conn'.
Qed.

(** A step of one connection that keeps its descriptor and reads or writes on it. *)
Lemma upd_conns (w : World) c conn conn' chan' loop' evs k :
  w_conns w !! c = Some conn → tc_socket_ conn' = tc_socket_ conn →
  let w' := TcpConnection.upd w c conn' chan' loop' evs k in
  (∀ c0 conn0, w_conns w !! c0 = Some conn0 →
     ∃ conn0', w_conns w' !! c0 = Some conn0' ∧ tc_socket_ conn0' = tc_socket_ conn0) ∧
  (∀ c0 conn0', w_conns w' !! c0 = Some conn0' →
     ∃ conn0, w_conns w !! c0 = Some conn0 ∧ tc_socket_ conn0' = tc_socket_ conn0).
Proof.
  intros Hc Hs w'. split; intros c0 conn0; simpl; destruct (decide (c = c0)) as [<-|Hne].
  - rewrite lookup_insert_eq. intros. simplify_eq. eauto.
  - rewrite lookup_insert_ne by done. eauto.
  - rewrite lookup_insert_eq. intros [= <-]. eauto.
  - rewrite lookup_insert_ne by done. eauto.
Qed.

Lemma upd_trace w c conn conn' chan' loop' evs k :
  disciplined w → w_conns w !! c = Some conn → Forall (io_event (tc_socket_ conn)) evs →
  ∀ fd, fd_after fd (w_trace (TcpConnection.upd w c conn' chan' loop' evs k)) = fd_after fd (w_trace w).
Proof. intros Hd Hc Hevs fd. simpl. eapply fd_after_io; [exact Hevs|]. by eapply dc_conn. Qed.

Lemma disciplined_upd w c conn conn' chan' loop' evs k :
  disciplined w → w_conns w !! c = Some conn → tc_socket_ conn' = tc_socket_ conn →
  Forall (io_event (tc_socket_ conn)) evs → open_fds (w_kernel w) ⊆ open_fds k →
  disciplined (TcpConnection.upd w c conn' chan' loop' evs k).
Proof.
  intros Hd Hc Hs Hevs Hk. eapply disciplined_frame; [done|by eapply upd_trace|done|].
  by apply (upd_conns _ _ _ _ chan' loop' evs k Hc Hs).
Qed.

Lemma accounted_upd fds w c conn conn' chan' loop' evs k :
  accounted_but fds w → disciplined w → w_conns w !! c = Some conn → tc_socket_ conn' = tc_socket_ conn →
  Forall (io_event (tc_socket_ conn)) evs →
  accounted_but fds (TcpConnection.upd w c conn' chan' loop' evs k).
Proof.
  intros Ha Hd Hc Hs Hevs. eapply accounted_frame; [done|by eapply upd_trace|].
  by apply (upd_conns _ _ _ _ chan' loop' evs k Hc Hs).
Qed.

(** A descriptor was accepted. *)
Definition just_accepted (fd : Z) (w : World) : World := set_trace (w_trace w ++ [EvAccept fd]) w.

Lemma disciplined_accepted w fd :
  disciplined w → fd_after fd (w_trace w) = FdClosed → fd ∈ open_fds (w_kernel w) →
  disciplined (just_accepted fd w) ∧ ¬ in_use (just_accepted fd w) fd.
Proof.
  intros [Hs Ho Hc Hi] Hcl Hin. split.
  2:{ intros (c & conn & H & <-). pose proof (Hc c conn H). congruence. }
  constructor; simpl; [| | |done].
  - intros f. destruct (decide (fd = f)) as [<-|Hne]; [by rewrite fd_after_this, Hcl|].
    by rewrite fd_after_other.
  - intros f. destruct (decide (fd = f)) as [<-|Hne]; [done|]. rewrite fd_after_other by done. apply Ho.
  - intros c conn H. destruct (decide (fd = tc_socket_ conn)) as [->|Hne]; [by rewrite fd_after_this, Hcl|].
    rewrite fd_after_other by done. by eapply Hc.
Qed.

Lemma accounted_accepted fds w fd :
  accounted_but fds w → accounted_but (fd :: fds) (just_accepted fd w).
Proof.
  intros Ha f Ho. destruct (decide (fd = f)) as [<-|Hne]; [left; by left|].
  simpl in Ho. rewrite fd_after_other in Ho by done. destruct (Ha f Ho); [left; by right|by right].
Qed.

(** ** Members and the poller *)

Lemma member_attached w srv loop p ds x c conn chan :
  serving w srv loop p ds x → member w p c conn chan → TcpConnection.attached w c conn chan loop p.
Proof.
  intros Hsv [Hconn Hchan Hl Hbound [Hhome Hown] Hfd Hreg Hev Hin Hout _ _ _ _].
  constructor; [done| |done..]. rewrite Hl. constructor; try done; try apply Hsv.
  split; [done|]. split; [|by split; [|right]].
  by destruct (Poller.ok_map _ _ (sv_ok _ _ _ _ _ _ Hsv) _ _ Hreg).
Qed.

Lemma member_live w srv loop p ds x c conn chan :
  serving w srv loop p ds x → resting loop → member w p c conn chan →
  TcpConnection.live w c conn chan loop p.
Proof.
  intros Hsv [? ?] Hmb. apply TcpConnection.attached_live; [|done..]. by eapply member_attached.
Qed.

(** The channels of two connections differ: they are bound to different ones. *)
Lemma bound_ne w c c' ch ch' chan chan' :
  w_channels w !! ch = Some chan → w_channels w !! ch' = Some chan' → bound_to c chan →
  bound_to c' chan' → c ≠ c' → ch ≠ ch'.
Proof.
  intros H1 H2 (_ & _ & Hr & _) (_ & _ & Hr' & _) Hne ->. rewrite H1 in H2. congruence.
Qed.

Lemma listener_ne w p a acc chan c ch' chan' :
  listener w p a acc chan → w_channels w !! ch' = Some chan' → bound_to c chan' →
  ac_channel_ acc ≠ ch'.
Proof.
  intros [_ _ _ H1 (_ & _ & Hr & _) _] H2 (_ & _ & Hr' & _) Heq. rewrite Heq in H1. congruence.
Qed.

(** ** Channels that only the poller and the dispatch touch *)

Definition moved (chan chan' : Channel) : Prop :=
  ∃ i r b, chan' = Channel.setHandling b (Channel.setRevents r (Channel.setIndex i chan)) ∧
    (calm chan → calm chan').

Lemma moved_refl chan : moved chan chan.
Proof.
  exists (ch_index_ chan), (ch_revents_ chan), (ch_events_handling_ chan). by destruct chan.
Qed.

Lemma moved_index i chan : moved chan (Channel.setIndex i chan).
Proof. by exists i, (ch_revents_ chan), (ch_events_handling_ chan). Qed.

Lemma moved_handling b chan : moved chan (Channel.setHandling b chan).
Proof. exists (ch_index_ chan), (ch_revents_ chan), b. by destruct chan. Qed.

Lemma moved_revents r chan :
  (Channel.hup r = true → Channel.readable r = false) → moved chan (Channel.setRevents r chan).
Proof. intros Hr. exists (ch_index_ chan), r, (ch_events_handling_ chan). by destruct chan. Qed.

Lemma member_moved w w' p p' c conn chan chan' :
  member w p c conn chan → w_conns w' !! c = Some conn →
  w_channels w' !! tc_channel_ conn = Some chan' → moved chan chan' →
  LoopFacts.registered p' (tc_channel_ conn) chan → (books w conn → books w' conn) →
  member w' p' c conn chan'.
Proof.
  intros [] Hc Hch (i & r & b & -> & Hcalm) Hreg Hbk. constructor; try done; auto.
Qed.

(** Two connections have two descriptors. *)
Lemma member_fd_ne w p c c' conn conn' chan chan' :
  w_channels w !! tc_channel_ conn = Some chan → bound_to c chan →
  (∀ ch, pl_channel_map_ p !! ch_fd_ chan = Some ch → ch = tc_channel_ conn) →
  member w p c' conn' chan' → c ≠ c' → tc_socket_ conn' ≠ ch_fd_ chan.
Proof.
  intros Hch Hbd Hreg Hmb Hne Heq.
  pose proof (mb_registered _ _ _ _ _ Hmb) as Hreg'. unfold LoopFacts.registered in Hreg'.
  rewrite (mb_fd _ _ _ _ _ Hmb), Heq in Hreg'.
  by eapply (bound_ne w c c' (tc_channel_ conn) (tc_channel_ conn'));
    [done|apply Hmb|done|apply Hmb|done|symmetry; apply Hreg].
Qed.

Lemma listener_moved w w' p p' a acc chan chan' :
  listener w p a acc chan → w_acceptors w' !! a = Some acc →
  w_channels w' !! ac_channel_ acc = Some chan' → moved chan chan' →
  LoopFacts.registered p' (ac_channel_ acc) chan →
  (∀ f, fd_after f (w_trace w') = FdListening ↔ fd_after f (w_trace w) = FdListening) →
  listener w' p' a acc chan'.
Proof.
  intros [] Ha Hch (i & r & b & -> & Hcalm) Hreg Htr. constructor; try done. intros f. by rewrite Htr.
Qed.

Lemma watching_moved conn chan chan' : moved chan chan' → watching conn chan → watching conn chan'.
Proof. by intros (i & r & b & -> & _). Qed.

Lemma events_moved chan chan' : moved chan chan' → ch_events_ chan' = ch_events_ chan.
Proof. by intros (i & r & b & -> & _). Qed.

(** ** The parts of the process that the poller and the loop leave alone *)

Record same_rest (w w' : World) : Prop := {
  sr_tid : w_tid w' = w_tid w;
  sr_cached : w_cachedTid w' = w_cachedTid w;
  sr_conns : w_conns w' = w_conns w;
  sr_servers : w_servers w' = w_servers w;
  sr_pools : w_pools w' = w_pools w;
  sr_acceptors : w_acceptors w' = w_acceptors w;
  sr_trace : w_trace w' = w_trace w;
  sr_others : delete l (w_loops w') = delete l (w_loops w)
}.

(** A change of the loop itself *)
Lemma same_rest_loops w h k loop :
  same_rest w (set_kernel k (set_channels h (set_loops (<[l := loop]> (w_loops w)) w))).
Proof. constructor; try done. apply delete_insert_eq. Qed.

Lemma pool_kept w w' pool t :
  in_loop_thread (tp_base_loop_ t) w' → w_pools w' = w_pools w →
  EventLoopThreadPool.pool_ok w pool t → EventLoopThreadPool.pool_ok w' pool t.
Proof. intros Hth Hp []. constructor; try done. by rewrite Hp. Qed.

(** A change of the channels, the loop and the kernel. *)
Lemma serving_frame w w' srv loop loop' p p' ds x :
  serving w srv loop p ds x → same_rest w w' →
  w_loops w' !! l = Some loop' → el_thread_id_ loop' = el_thread_id_ loop →
  el_poller_ loop' = Some p' → pl_channel_map_ p' = pl_channel_map_ p →
  Poller.ok (w_channels w') p' → (Poller.asked (w_channels w) p → Poller.asked (w_channels w') p') →
  open_fds (w_kernel w) ⊆ open_fds (w_kernel w') →
  (∀ ch chan, w_channels w !! ch = Some chan →
     ∃ chan', w_channels w' !! ch = Some chan' ∧ moved chan chan') →
  serving w' srv loop' p' ds x.
Proof.
  intros [Hth Hs Hcfg Hid Hnm (pool & Hpool & Hbase & Hnil) Hl Hp Hok Has Hfds (acc & achan & Hls) Hmem Hcl
    Hnd Hreg Hbk Hdc Hoth] [Ht Hc Hco Hsv Hpl Hac Htr Holo] Hl' Hth' Hp' Hmap Hok' Has' Hk Hch.
  assert (in_loop_thread l w') as Hin.
  { revert Hth. apply in_loop_thread_frame; [done..|]. intros e He. simplify_eq. eauto. }
  assert (∀ ch chan, LoopFacts.registered p ch chan → LoopFacts.registered p' ch chan) as Hr
    by (unfold LoopFacts.registered; by rewrite Hmap).
  assert (∀ c conn chan, member w p c conn chan →
    ∃ chan', member w' p' c conn chan' ∧ moved chan chan') as Hmb.
  { intros c conn chan Hmb. destruct (Hch _ _ (mb_chan _ _ _ _ _ Hmb)) as (chan' & Hch' & Hmv).
    exists chan'. split; [|done]. eapply member_moved; [done|rewrite Hco; apply Hmb|done..| |].
    - apply Hr, Hmb.
    - unfold books. by rewrite Htr. }
  constructor; try done.
  - by rewrite Hsv.
  - exists pool. split; [|done]. eapply (pool_kept w); [by rewrite Hbase|done..].
  - by apply Has'.
  - intros fd Hfd. rewrite Hmap in Hfd. apply Hk, Hfds, Hfd.
  - destruct (Hch _ _ (ls_chan _ _ _ _ _ Hls)) as (chan' & Hch' & Hmv). exists acc, chan'.
    eapply listener_moved; [done|rewrite Hac; apply Hls|done..|apply Hr, Hls|]. by rewrite Htr.
  - intros name c Hn Hx. destruct (Hmem name c Hn Hx) as (conn & chan & Hm & Hname & Hfl).
    destruct (Hmb _ _ _ Hm) as (chan' & ? & ?). exists conn, chan'. eauto using watching_moved.
  - intros c Hin'. destruct (Hcl c Hin') as [Hno Hm]. split; [done|]. intros Hx.
    destruct (Hm Hx) as (conn & chan & Hm' & Hev). destruct (Hmb _ _ _ Hm') as (chan' & ? & Hmv).
    exists conn, chan'. split; [done|]. by rewrite (events_moved _ _ Hmv).
  - intros fd ch Hm. rewrite Hmap in Hm. rewrite Hac, Hco. by apply (Hreg fd).
  - by rewrite Htr.
  - eapply disciplined_frame; [exact Hdc|by rewrite Htr|done|rewrite Hco; eauto].
  - by rewrite Hsv, Holo.
Qed.

(** A descriptor was accepted that no connection has. *)
Lemma serving_accepted w srv loop p ds fd :
  serving w srv loop p ds None → fd_after fd (w_trace w) = FdClosed → fd ∈ open_fds (w_kernel w) →
  serving (just_accepted fd w) srv loop p ds None.
Proof.
  intros [Hth Hs Hcfg Hid Hnm (pool & Hpool & Hbase & Hnil) Hl Hp Hok Has Hfds (acc & achan & Hls) Hmem Hcl
    Hnd Hreg Hbk Hdc Hoth] Hcls Hin.
  assert (∀ c conn chan, member w p c conn chan → member (just_accepted fd w) p c conn chan) as Hmb.
  { intros c conn chan Hmb. eapply member_moved; [exact Hmb|apply Hmb|apply Hmb|apply moved_refl|apply Hmb|].
    apply led_conn_other. simpl. intros ->.
    pose proof (dc_conn _ Hdc _ _ (mb_conn _ _ _ _ _ Hmb)). congruence. }
  constructor; try done.
  - exists pool. split; [|done]. eapply (pool_kept w); [by rewrite Hbase|done..].
  - exists acc, achan. pose proof Hls as [? ? ? ? ? ? Hlis]. constructor; try done.
    intros f. rewrite <- Hlis. simpl. destruct (decide (fd = f)) as [<-|Hne].
    + by rewrite fd_after_this, Hcls.
    + by rewrite fd_after_other.
  - intros name c Hn Hx. destruct (Hmem name c Hn Hx) as (conn & chan & ? & ? & ?).
    exists conn, chan. auto.
  - intros c Hc. destruct (Hcl c Hc) as [Hno Hm]. split; [done|]. intros Hx.
    destruct (Hm Hx) as (conn & chan & ? & ?). exists conn, chan. auto.
  - intros f. simpl. destruct (decide (fd = f)) as [<-|Hne]; [by eapply led_of_conn, led_accept|].
    by apply led_fd_other.
  - by apply disciplined_accepted.
Qed.

(** ** One connection in the middle of an operation *)

Lemma serving_except w srv loop p ds c :
  serving w srv loop p ds None → serving w srv loop p ds (Some c).
Proof.
  intros []. constructor; try done.
  - intros name c' Hn _. by apply sv_members0.
  - intros c' Hin. destruct (sv_closing0 c' Hin) as [? Hm]. split; [done|]. intros _. by apply Hm.
Qed.

(** The operation left the connection established, in the map. *)
Lemma serving_mapped w srv loop p ds c conn chan :
  serving w srv loop p ds (Some c) → member w p c conn chan → watching conn chan →
  (∀ name, ts_connections_ srv !! name = Some c → name = tc_name_ conn) → c ∉ ds →
  serving w srv loop p ds None.
Proof.
  intros [] Hmb Hfl Hname Hds. constructor; try done.
  - intros name c' Hn _. destruct (decide (c = c')) as [<-|Hne].
    + exists conn, chan. by rewrite (Hname name Hn).
    + apply sv_members0; congruence.
  - intros c' Hin. destruct (sv_closing0 c' Hin) as [? Hm]. split; [done|]. intros _. apply Hm.
    intros [= <-]. done.
Qed.

(** The operation left the connection closed, out of the map. *)
Lemma serving_closed w srv loop p ds c conn chan :
  serving w srv loop p ds (Some c) → member w p c conn chan →
  ch_events_ chan = Channel.NoneEvent → c ∈ ds → serving w srv loop p ds None.
Proof.
  intros [] Hmb Hev Hds. destruct (sv_closing0 c Hds) as [Hno _]. constructor; try done.
  - intros name c' Hn _. apply sv_members0; [done|]. intros [= <-]. by apply (Hno name).
  - intros c' Hin. destruct (sv_closing0 c' Hin) as [Hno' Hm]. split; [done|]. intros _.
    destruct (decide (c = c')) as [<-|Hne]; [eauto|]. apply Hm. congruence.
Qed.

(** A step of the connection [c] that replaces it, its channel and the loop; [fd] is the
    descriptor of its channel, registered before or not. *)
Lemma serving_upd w srv loop p ds c conn chan conn' chan' loop' p' evs k' :
  serving w srv loop p ds (Some c) → owned srv ds c →
  TcpConnection.attached (TcpConnection.upd w c conn' chan' loop' evs k') c conn' chan' loop' p' →
  w_conns w !! c = Some conn → w_channels w !! tc_channel_ conn = Some chan → bound_to c chan →
  tc_loop_ conn' = l → tc_channel_ conn' = tc_channel_ conn →
  ch_fd_ chan' = ch_fd_ chan →
  pl_channel_map_ p' = <[ch_fd_ chan := tc_channel_ conn]> (pl_channel_map_ p) →
  (∀ ch, pl_channel_map_ p !! ch_fd_ chan = Some ch → ch = tc_channel_ conn) →
  ch_fd_ chan ∈ open_fds k' → open_fds (w_kernel w) ⊆ open_fds k' →
  ch_fd_ chan = tc_socket_ conn → tc_socket_ conn' = tc_socket_ conn →
  Forall (io_event (tc_socket_ conn)) evs → (∀ fd, led_fd fd (w_trace w ++ evs)) →
  (Poller.asked (w_channels w) p → Poller.asked (<[tc_channel_ conn := chan']> (w_channels w)) p') →
  serving (TcpConnection.upd w c conn' chan' loop' evs k') srv loop' p' ds (Some c).
Proof.
  intros [Hth Hs Hcfg Hid Hnm (pool & Hpool & Hbase & Hnil) Hl Hp Hok Has Hfds (acc & achan & Hls) Hmem Hcl
    Hnd Hreg Hbk Hdc Hoth] Hown Hat Hc Hch Hbd Hcl' Hcc Hfd Hmap Hfree Hfdo Hk Hcfd Hsock Hevs
    Hbk' Has'.
  pose proof (TcpConnection.at_watch _ _ _ _ _ _ Hat) as [Hth' Hl' Hp' Hok' _ _ _].
  rewrite Hcl' in *. set (w' := TcpConnection.upd w c conn' chan' loop' evs k') in *.
  assert (∀ ch ch0, ch ≠ tc_channel_ conn → LoopFacts.registered p ch ch0 →
            LoopFacts.registered p' ch ch0) as Hr.
  { unfold LoopFacts.registered. intros ch ch0 Hne Hr. rewrite Hmap, lookup_insert_ne; [done|].
    intros Heq. rewrite <- Heq in Hr. by apply Hne, Hfree. }
  assert (∀ c0 conn0 chan0, c ≠ c0 → member w p c0 conn0 chan0 → member w' p' c0 conn0 chan0) as Hmb.
  { intros c0 conn0 chan0 Hne Hmb.
    assert (tc_channel_ conn ≠ tc_channel_ conn0) as Hchne
      by (eapply bound_ne; [done|apply Hmb|done|apply Hmb|done]).
    eapply member_moved; [done| | |apply moved_refl| |].
    - simpl. rewrite lookup_insert_ne by done. apply Hmb.
    - simpl. rewrite Hcc, lookup_insert_ne by done. apply Hmb.
    - apply Hr; [done|]. apply Hmb.
    - apply led_conn_others. eapply Forall_impl; [exact Hevs|]. intros e ->%io_event_fd.
      rewrite <- Hcfd. apply not_eq_sym. by eapply member_fd_ne. }
  constructor; try done.
  - exists pool. split; [|done]. eapply (pool_kept w); [by rewrite Hbase|done..].
  - simpl. rewrite Hcc. by apply Has'.
  - intros fd0 Hfd0. simpl. rewrite Hmap in Hfd0.
    destruct (decide (fd0 = ch_fd_ chan)) as [->|Hne]; [done|].
    rewrite lookup_insert_ne in Hfd0 by done. apply Hk, Hfds, Hfd0.
  - exists acc, achan. pose proof (listener_ne _ _ _ _ _ _ _ _ Hls Hch Hbd) as Hne.
    eapply listener_moved; [done|apply Hls| |apply moved_refl| |].
    + simpl. rewrite Hcc, lookup_insert_ne by done. apply Hls.
    + apply Hr; [done|]. apply Hls.
    + intros f. simpl. by rewrite (fd_after_io _ _ _ _ Hevs (dc_conn _ Hdc _ _ Hc)).
  - intros name c0 Hn Hx. destruct (Hmem name c0 Hn Hx) as (conn0 & chan0 & Hm & ? & ?).
    exists conn0, chan0. split; [|done]. apply Hmb; [congruence|done].
  - intros c0 Hin. destruct (Hcl c0 Hin) as [Hno Hm]. split; [done|]. intros Hx.
    destruct (Hm Hx) as (conn0 & chan0 & Hm' & Hev). exists conn0, chan0. split; [|done].
    apply Hmb; [congruence|done].
  - intros fd0 ch Hm. rewrite Hmap in Hm. simpl.
    destruct (decide (fd0 = ch_fd_ chan)) as [->|Hne].
    + rewrite lookup_insert_eq in Hm. simplify_eq. right. exists c, conn'.
      by rewrite lookup_insert_eq.
    + rewrite lookup_insert_ne in Hm by done. destruct (Hreg _ _ Hm) as [?|(c0 & conn0 & ? & Hc0 & ?)];
        [by left|right]. destruct (decide (c = c0)) as [<-|].
      * exists c, conn'. rewrite lookup_insert_eq. simplify_eq. done.
      * exists c0, conn0. by rewrite lookup_insert_ne.
  - by eapply disciplined_upd.
  - simpl. by rewrite Hcl', delete_insert_eq.
Qed.

(** [removeConnection] moves a connection from the map to the queue. *)
Lemma serving_removed w srv loop p ds c name :
  serving w srv loop p ds (Some c) → ts_connections_ srv !! name = Some c →
  (∀ name', ts_connections_ srv !! name' = Some c → name' = name) → c ∉ ds →
  let srv' := TcpServer.setConnections (delete name (ts_connections_ srv)) srv in
  serving (removed w s srv name loop c) srv' (LoopFacts.enqueue (fn_destroyConnection c) loop) p
    (ds ++ [c]) (Some c).
Proof.
  intros [Hth Hs Hcfg Hid Hnm (pool & Hpool & Hbase & Hnil) Hl Hp Hok Has Hfds (acc & achan & Hls) Hmem Hcl
    Hnd Hreg Hbk Hdc Hoth] Hn Hname Hds srv'.
  assert (ts_loop_ srv = l) as Hsl by apply Hcfg.
  set (w' := removed w s srv name loop c).
  assert (in_loop_thread l w') as Hth'.
  { revert Hth. apply in_loop_thread_frame; [done..|]. intros e He. unfold w', removed. simpl.
    rewrite Hsl, lookup_insert_eq. simplify_eq. by eexists. }
  assert (∀ c0 conn0 chan0, member w p c0 conn0 chan0 → member w' p c0 conn0 chan0) as Hmb
    by (intros ??? []; by constructor).
  assert (∀ name0 c0, delete name (ts_connections_ srv) !! name0 = Some c0 →
    name ≠ name0 ∧ ts_connections_ srv !! name0 = Some c0) as Hdel.
  { intros ?? Hd. by apply lookup_delete_Some in Hd. }
  constructor; try done.
  - unfold w', removed. simpl. apply lookup_insert_eq.
  - intros name0 c0 [_ Hd]%Hdel. by apply (Hnm name0 c0).
  - exists pool. split; [|done]. eapply (pool_kept w); [by rewrite Hbase|done..].
  - unfold w', removed. simpl. rewrite Hsl. apply lookup_insert_eq.
  - exists acc, achan. by destruct Hls; constructor.
  - intros name0 c0 [_ Hd]%Hdel Hx. destruct (Hmem name0 c0 Hd Hx) as (conn0 & chan0 & ? & ? & ?).
    exists conn0, chan0. auto.
  - intros c0 [Hin|Hin]%elem_of_app.
    + destruct (Hcl c0 Hin) as [Hno Hm]. split.
      * intros name0 [_ Hd]%Hdel. by apply (Hno name0).
      * intros Hx. destruct (Hm Hx) as (conn0 & chan0 & ? & ?). exists conn0, chan0. auto.
    + apply list_elem_of_singleton in Hin as ->. split; [|done].
      intros name0 [Hne Hd]%Hdel. by rewrite (Hname name0 Hd) in Hne.
  - apply NoDup_app. split; [done|]. split; [|apply NoDup_singleton].
    intros c0 Hin ->%list_elem_of_singleton. done.
  - intros fd ch Hm. destruct (Hreg fd ch Hm) as [?|(c0 & conn0 & Hown & Hc0 & ?)]; [by left|right].
    exists c0, conn0. split; [|done]. destruct Hown as [Hin|[name0 Hn0]].
    + left. apply elem_of_app. by left.
    + destruct (decide (name = name0)) as [<-|Hne].
      * simplify_eq. left. apply elem_of_app. right. by constructor.
      * right. exists name0. simpl. by rewrite lookup_delete_ne.
  - eapply disciplined_frame; [exact Hdc|done|done|eauto].
  - simpl. by rewrite Hsl, !delete_insert_eq.
Qed.

Lemma tidy_removed w srv name loop c :
  tidy w → w_servers w !! s = Some srv → w_loops w !! ts_loop_ srv = Some loop →
  ts_connections_ srv !! name = Some c → tidy (removed w s srv name loop c).
Proof.
  intros Ht Hs Hl Hn c0 Hin. specialize (Ht c0 Hin). rewrite held_iff in Ht |- *. simpl.
  destruct Ht as [(s' & srv0 & name0 & Hs0 & Hn0)|(l' & loop0 & f & Hl0 & Hf & Hcap)].
  - destruct (decide (s = s')) as [<-|Hne]; [|left; exists s', srv0, name0; by rewrite lookup_insert_ne].
    rewrite Hs in Hs0. injection Hs0 as <-. destruct (decide (name = name0)) as [<-|Hne].
    + rewrite Hn in Hn0. injection Hn0 as <-. right. eexists (ts_loop_ srv), _, (fn_destroyConnection c).
      rewrite lookup_insert_eq. split; [done|]. split; [|done]. apply elem_of_app. right. by constructor.
    + left. eexists s, _, name0. rewrite lookup_insert_eq. split; [done|]. simpl.
      by rewrite lookup_delete_ne.
  - right. destruct (decide (ts_loop_ srv = l')) as [<-|Hne].
    + rewrite Hl in Hl0. injection Hl0 as <-. eexists (ts_loop_ srv), _, f. rewrite lookup_insert_eq. split; [done|]. split; [|done].
      apply elem_of_app. by left.
    + exists l', loop0, f. by rewrite lookup_insert_ne.
Qed.

(** A connection is taken off the poller and is gone. *)
Lemma serving_destroyed w srv loop p ds c conn chan h' p' :
  serving w srv loop p (c :: ds) (Some c) →
  w_conns w !! c = Some conn → w_channels w !! tc_channel_ conn = Some chan → bound_to c chan →
  LoopFacts.registered p (tc_channel_ conn) chan →
  Poller.ok h' p' → Poller.same_but_index (w_channels w) h' →
  pl_channel_map_ p' = delete (ch_fd_ chan) (pl_channel_map_ p) →
  (Poller.asked (w_channels w) p → Poller.asked h' p') →
  serving (Poller.put_poller l loop h' p' w) srv (Poller.setPoller (Some p') loop) p' ds None.
Proof.
  intros [Hth Hs Hcfg Hid Hnm (pool & Hpool & Hbase & Hnil) Hl Hp Hok Has Hfds (acc & achan & Hls) Hmem Hcl
    Hnd Hreg Hbk Hdc Hoth] Hc Hch Hbd Hrc Hok' Hsame Hmap Has'.
  set (w' := Poller.put_poller l loop h' p' w). unfold LoopFacts.registered in Hrc.
  apply NoDup_cons in Hnd as [Hcds Hnd].
  assert (in_loop_thread l w') as Hth' by by apply LoopFacts.put_poller_thread.
  assert (∀ ch chan0, w_channels w !! ch = Some chan0 →
    ∃ i, w_channels w' !! ch = Some (Channel.setIndex i chan0)) as Hchs.
  { intros ch chan0 H0. specialize (Hsame ch). rewrite H0 in Hsame. simpl.
    destruct (h' !! ch) as [chan1|]; [|done]. destruct Hsame as [i ->]. eauto. }
  assert (∀ ch chan0, ch ≠ tc_channel_ conn → w_channels w !! ch = Some chan0 →
    LoopFacts.registered p ch chan0 → LoopFacts.registered p' ch chan0) as Hr.
  { unfold LoopFacts.registered. intros ch chan0 Hne H0 H1. rewrite Hmap, lookup_delete_ne; [done|].
    intros Heq. rewrite <- Heq in H1. congruence. }
  assert (∀ c0 conn0 chan0, c ≠ c0 → member w p c0 conn0 chan0 →
    ∃ i, member w' p' c0 conn0 (Channel.setIndex i chan0)) as Hmb.
  { intros c0 conn0 chan0 Hne Hmb. pose proof (mb_chan _ _ _ _ _ Hmb) as Hch0.
    destruct (Hchs _ _ Hch0) as [i Hi]. exists i.
    eapply member_moved; [done|apply Hmb|done|apply moved_index| |done]. apply Hr; [|done|apply Hmb].
    apply not_eq_sym. eapply bound_ne; [done|exact Hch0|done|apply Hmb|done]. }
  assert (∀ name, ts_connections_ srv !! name ≠ Some c) as Hno
    by (apply (Hcl c); by constructor).
  constructor; try done.
  - exists pool. split; [|done]. eapply (pool_kept w); [by rewrite Hbase|done..].
  - simpl. apply lookup_insert_eq.
  - by apply Has'.
  - intros fd [ch Hfd]. rewrite Hmap in Hfd. apply lookup_delete_Some in Hfd as [_ Hfd].
    apply Hfds. by eexists.
  - destruct (Hchs _ _ (ls_chan _ _ _ _ _ Hls)) as [i Hi]. exists acc, (Channel.setIndex i achan).
    eapply listener_moved; [done|apply Hls|done|apply moved_index| |done].
    apply Hr; [by eapply listener_ne|apply Hls..].
  - intros name c0 Hn _. destruct (Hmem name c0 Hn) as (conn0 & chan0 & Hm & ? & Hfl).
    { intros [= <-]. by apply (Hno name). }
    destruct (Hmb c0 conn0 chan0) as [i Hi]; [intros <-; by apply (Hno name)|done|].
    exists conn0, (Channel.setIndex i chan0). split_and!; try done.
  - intros c0 Hin. destruct (Hcl c0) as [Hno0 Hm]; [by right|]. split; [done|]. intros _.
    destruct Hm as (conn0 & chan0 & Hm & Hev); [congruence|].
    destruct (Hmb c0 conn0 chan0) as [i Hi]; [congruence|done|].
    by exists conn0, (Channel.setIndex i chan0).
  - intros fd ch Hfd. rewrite Hmap in Hfd. apply lookup_delete_Some in Hfd as [Hne Hfd].
    destruct (Hreg fd ch Hfd) as [?|(c0 & conn0 & Hown & Hc0 & Hch0)]; [by left|right].
    exists c0, conn0. split; [|done]. destruct Hown as [Hin|Hn]; [|by right].
    apply elem_of_cons in Hin as [->|Hin]; [|by left]. exfalso. simplify_eq.
    destruct (Poller.ok_map _ _ Hok _ _ Hfd) as (_ & c1 & _ & _ & Hc1 & Hf1 & _).
    apply Hne. congruence.
  - eapply disciplined_frame; [exact Hdc|done|done|eauto].
  - simpl. by rewrite delete_insert_eq.
Qed.

(** ** What the destruction of a connection leaves of the others *)

Lemma idle_upd w c conn chan loop evs k :
  idle w → ch_events_handling_ chan = false → idle (TcpConnection.upd w c conn chan loop evs k).
Proof.
  intros Hi Hc ch chan0 Hch. simpl in Hch.
  apply lookup_insert_Some in Hch as [[_ <-]|[_ Hch]]; [done|by eapply Hi].
Qed.

Lemma idle_put_poller w loop h p :
  idle w → Poller.same_but_index (w_channels w) h → idle (Poller.put_poller l loop h p w).
Proof.
  intros Hi Hsame ch chan Hch. simpl in Hch. specialize (Hsame ch). rewrite Hch in Hsame.
  destruct (w_channels w !! ch) as [chan0|] eqn:H0; [|done]. destruct Hsame as [i ->].
  exact (Hi ch chan0 H0).
Qed.

Lemma dead_upd w p p' c0 c conn conn' chan chan' loop evs k :
  dead w p c0 → c ≠ c0 → w_channels w !! tc_channel_ conn = Some chan → bound_to c chan →
  tc_channel_ conn' = tc_channel_ conn → pl_channel_map_ p' = pl_channel_map_ p →
  dead (TcpConnection.upd w c conn' chan' loop evs k) p' c0.
Proof.
  intros (conn0 & chan0 & Hc0 & Hch0 & Hbd0 & Hfd0 & Hun0) Hne Hch Hbd Hcc Hmap.
  assert (tc_channel_ conn ≠ tc_channel_ conn0) as Hchne by by eapply bound_ne.
  exists conn0, chan0. simpl. rewrite Hcc, Hmap, !lookup_insert_ne by done. done.
Qed.

Lemma dead_put_poller w p c0 loop h p' :
  dead w p c0 → Poller.same_but_index (w_channels w) h →
  (∀ fd, pl_channel_map_ p !! fd = None → pl_channel_map_ p' !! fd = None) →
  dead (Poller.put_poller l loop h p' w) p' c0.
Proof.
  intros (conn0 & chan0 & Hc0 & Hch0 & Hbd0 & Hfd0 & Hun0) Hsame Hmap.
  destruct (Poller.same_index_lookup _ _ _ _ Hsame Hch0) as [i Hi].
  exists conn0, (Channel.setIndex i chan0). simpl. split_and!; auto; apply Hbd0.
Qed.

(** ** Deleting a connection *)

(** The loop takes its queue: the functors of its vector are owners. *)
Lemma tidy_draining w loop loop' ds :
  tidy w → w_loops w !! l = Some loop → el_pending_functors_ loop = fn_destroyConnection <$> ds →
  tidy_but ds (LoopFacts.put_loop l loop' w).
Proof.
  intros Ht Hl Hp c Hin. simpl in Hin. specialize (Ht c Hin). rewrite held_iff in Ht |- *. simpl.
  destruct Ht as [?|(l' & loop0 & f & Hl0 & Hf & Hcap)]; [by left; left|].
  destruct (decide (l = l')) as [<-|Hne].
  - right. rewrite Hl in Hl0. injection Hl0 as <-. rewrite Hp in Hf.
    apply list_elem_of_fmap in Hf as (c0 & -> & ?). by injection Hcap as ->.
  - left. right. exists l', loop0, f. by rewrite lookup_insert_ne.
Qed.

(** The connection that a server has just entered in its map is its own. *)
Lemma tidy_entered w w' srv c :
  tidy w → w_servers w !! s = Some srv → ts_connections_ srv !! new_name srv = None →
  w_servers w' = <[s := entered srv c]> (w_servers w) →
  (∀ l' loop, w_loops w !! l' = Some loop → ∃ loop', w_loops w' !! l' = Some loop' ∧
     el_pending_functors_ loop' = el_pending_functors_ loop) →
  (∀ c0, is_Some (w_conns w' !! c0) → is_Some (w_conns w !! c0) ∨ c0 = c) → tidy w'.
Proof.
  intros Ht Hs Hnew Hs' Hlo Hc c0 Hin. rewrite held_iff. destruct (Hc c0 Hin) as [Hold| ->].
  - destruct (proj1 (held_iff c0 w) (Ht c0 Hold)) as
      [(s' & srv0 & name0 & Hs0 & Hn0)|(l' & loop0 & f & Hl0 & Hf & Hcap)].
    + left. destruct (decide (s = s')) as [<-|Hne].
      * rewrite Hs in Hs0. injection Hs0 as <-. eexists s, _, name0. rewrite Hs', lookup_insert_eq. split; [done|]. simpl.
        rewrite lookup_insert_ne; [done|]. congruence.
      * exists s', srv0, name0. by rewrite Hs', lookup_insert_ne.
    + right. destruct (Hlo _ _ Hl0) as (loop' & ? & He). exists l', loop', f. by rewrite He.
  - left. eexists s, _, (new_name srv). rewrite Hs', lookup_insert_eq. split; [done|]. simpl.
    apply lookup_insert_eq.
Qed.

Lemma idle_freed w c conn k : idle w → idle (Lifetime.freed w c conn k).
Proof. intros Hi ch chan Hch. simpl in Hch. apply lookup_delete_Some in Hch as [_ Hch]. by eapply Hi. Qed.

Lemma tidy_freed ds w c conn k :
  tidy_but (c :: ds) w → tidy_but ds (Lifetime.freed w c conn k).
Proof.
  intros Ht c0 Hin. simpl in Hin. apply lookup_delete_is_Some in Hin as [Hne Hin].
  destruct (Ht c0 Hin) as [Hh|[->|?]%elem_of_cons]; [|done|by right]. left.
  eapply held_frame; [exact Hh|done|eauto].
Qed.

(** The descriptor of the connection is closed, and no other. *)
Lemma freed_trace w c conn k fd :
  disciplined w → w_conns w !! c = Some conn →
  fd_after fd (w_trace (Lifetime.freed w c conn k)) =
    if decide (tc_socket_ conn = fd) then FdClosed else fd_after fd (w_trace w).
Proof.
  intros Hd Hc. simpl. destruct (decide _) as [<-|Hne].
  - by rewrite fd_after_this, (dc_conn _ Hd _ _ Hc).
  - by apply fd_after_other.
Qed.

Lemma disciplined_freed w c conn k :
  disciplined w → w_conns w !! c = Some conn →
  open_fds (w_kernel w) ∖ {[tc_socket_ conn]} ⊆ open_fds k → disciplined (Lifetime.freed w c conn k).
Proof.
  intros Hd Hc Hk. constructor.
  - intros fd. rewrite freed_trace by done. case_decide; [done|by apply dc_sound].
  - intros fd. rewrite freed_trace by done. case_decide; [done|]. intros Hf. simpl.
    apply Hk, elem_of_difference. split; [by apply dc_open|by intros ->%elem_of_singleton].
  - change (w_conns (Lifetime.freed w c conn k)) with (delete c (w_conns w)).
    intros c0 conn0 [Hne H0]%lookup_delete_Some. rewrite freed_trace by done.
    rewrite decide_False; [by eapply dc_conn|].
    intros Heq. by apply Hne, (dc_inj _ Hd c c0 conn conn0).
  - simpl. intros c1 c2 conn1 conn2 [_ H1]%lookup_delete_Some [_ H2]%lookup_delete_Some. by eapply dc_inj.
Qed.

Lemma accounted_freed fds w c conn k :
  accounted_but fds w → disciplined w → w_conns w !! c = Some conn →
  accounted_but fds (Lifetime.freed w c conn k).
Proof.
  intros Ha Hd Hc fd. rewrite freed_trace by done. case_decide as Hne; [done|]. intros Ho.
  destruct (Ha fd Ho) as [?|(c0 & conn0 & H0 & <-)]; [by left|right]. exists c0, conn0.
  split; [|done]. simpl. rewrite lookup_delete_ne; [done|]. intros <-. by simplify_eq.
Qed.

(** What other connections have is not touched. *)
Lemma freed_other w c conn chan k c0 conn0 chan0 :
  w_channels w !! tc_channel_ conn = Some chan → bound_to c chan → c ≠ c0 →
  w_conns w !! c0 = Some conn0 → w_channels w !! tc_channel_ conn0 = Some chan0 → bound_to c0 chan0 →
  w_conns (Lifetime.freed w c conn k) !! c0 = Some conn0 ∧
  w_channels (Lifetime.freed w c conn k) !! tc_channel_ conn0 = Some chan0.
Proof.
  intros Hch Hbd Hne Hc0 Hch0 Hbd0. simpl.
  split; (rewrite lookup_delete_ne; [done|]); [done|]. by eapply bound_ne.
Qed.

Lemma dead_freed w p c conn chan k c0 :
  w_channels w !! tc_channel_ conn = Some chan → bound_to c chan → c ≠ c0 →
  dead w p c0 → dead (Lifetime.freed w c conn k) p c0.
Proof.
  intros Hch Hbd Hne (conn0 & chan0 & Hc0 & Hch0 & Hbd0 & ? & ?).
  destruct (freed_other _ _ _ _ k _ _ _ Hch Hbd Hne Hc0 Hch0 Hbd0) as [? ?].
  by exists conn0, chan0.
Qed.

Lemma serving_freed w srv loop p ds c conn chan k :
  serving w srv loop p ds None → ¬ owned srv ds c →
  w_conns w !! c = Some conn → w_channels w !! tc_channel_ conn = Some chan → bound_to c chan →
  ch_fd_ chan = tc_socket_ conn → pl_channel_map_ p !! tc_socket_ conn = None →
  open_fds (w_kernel w) ∖ {[tc_socket_ conn]} ⊆ open_fds k →
  serving (Lifetime.freed w c conn k) srv loop p ds None.
Proof.
  intros [Hth Hs Hcfg Hid Hnm (pool & Hpool & Hbase & Hnil) Hl Hp Hok Has Hfds (acc & achan & Hls) Hmem Hcl
    Hnd Hreg Hbk Hdc Hoth] Hown Hc Hch Hbd Hfd Hun Hk.
  set (w' := Lifetime.freed w c conn k).
  assert (∀ f, pl_channel_map_ p !! f ≠ Some (tc_channel_ conn)) as Hunreg
    by (apply (Poller.unregistered_fd (w_channels w) p _ chan); [done..|by rewrite Hfd]).
  assert (in_loop_thread l w') as Hth'.
  { revert Hth. apply in_loop_thread_frame; [done..|]. eauto. }
  assert (∀ c0 conn0 chan0, c ≠ c0 → member w p c0 conn0 chan0 → member w' p c0 conn0 chan0) as Hmb.
  { intros c0 conn0 chan0 Hne Hmb.
    destruct (freed_other w c conn chan k c0 conn0 chan0) as [? ?]; try done; [apply Hmb..|].
    eapply member_moved; [exact Hmb|done|done|apply moved_refl|apply Hmb|].
    apply led_conn_other. intros Heq. simpl in Heq.
    pose proof (mb_registered _ _ _ _ _ Hmb) as Hr. unfold LoopFacts.registered in Hr.
    by rewrite (mb_fd _ _ _ _ _ Hmb), <- Heq, Hun in Hr. }
  constructor; try done.
  - exists pool. split; [|done]. eapply (pool_kept w); [by rewrite Hbase|done..].
  - by apply Poller.ok_delete_object.
  - by apply Poller.asked_delete_object.
  - intros fd Hf. simpl. apply Hk, elem_of_difference. split; [by apply Hfds|].
    intros ->%elem_of_singleton. rewrite Hun in Hf. by destruct Hf.
  - exists acc, achan. pose proof (listener_ne _ _ _ _ _ _ _ _ Hls Hch Hbd) as Hne.
    eapply listener_moved; [done|apply Hls| |apply moved_refl|apply Hls|].
    + simpl. rewrite lookup_delete_ne by done. apply Hls.
    + intros f. unfold w'. rewrite freed_trace by done. case_decide as Hf; [|done].
      by rewrite <- Hf, (dc_conn _ Hdc _ _ Hc).
  - intros name c0 Hn Hx. destruct (Hmem name c0 Hn Hx) as (conn0 & chan0 & Hm & ? & ?).
    exists conn0, chan0. split; [|done]. apply Hmb; [|done]. intros <-. apply Hown. right. by eexists.
  - intros c0 Hin. destruct (Hcl c0 Hin) as [Hno Hm]. split; [done|]. intros Hx.
    destruct (Hm Hx) as (conn0 & chan0 & Hm' & Hev). exists conn0, chan0. split; [|done].
    apply Hmb; [|done]. intros <-. apply Hown. by left.
  - intros fd ch Hm. destruct (Hreg fd ch Hm) as [?|(c0 & conn0 & Hown0 & Hc0 & Hch0)]; [by left|right].
    exists c0, conn0. split; [done|]. simpl. rewrite lookup_delete_ne; [done|]. by intros <-.
  - intros fd. simpl. destruct (decide (tc_socket_ conn = fd)) as [<-|Hne]; [by apply led_close|].
    by apply led_fd_other.
  - by apply disciplined_freed.
Qed.

(** The name of the next connection is not in the map. *)
Lemma new_name_fresh w srv loop p ds x :
  serving w srv loop p ds x → ts_connections_ srv !! new_name srv = None.
Proof.
  intros []. destruct (ts_connections_ srv !! new_name srv) as [c|] eqn:Hn; [|done].
  destruct (sv_names0 _ _ Hn) as (id & Hlt & Heq). unfold new_name in Heq.
  apply connection_name_inj in Heq; lia.
Qed.

(** The descriptor of a new connection is that which was just accepted. *)
Lemma disciplined_created `{Mem : Memory} w srv sockfd peer r addr k :
  disciplined w → open_fds (w_kernel w) ⊆ open_fds k →
  fd_after sockfd (w_trace w) = FdOpen → ¬ in_use w sockfd →
  disciplined (created w s srv l sockfd peer r addr k (w_pools w)).
Proof.
  intros [Hs Ho Hc Hi] Hk Hop Hun. constructor; simpl; [done| | |].
  - intros fd Hf. by apply Hk, Ho.
  - intros c conn [[<- <-]|[_ H]]%lookup_insert_Some; [done|by eapply Hc].
  - intros c1 c2 conn1 conn2 [[<- <-]|[_ H1]]%lookup_insert_Some [[<- <-]|[_ H2]]%lookup_insert_Some Heq;
      [done| | |by eapply Hi]; destruct Hun; by eexists _, _.
Qed.

Lemma accounted_created `{Mem : Memory} fds w srv sockfd peer r addr k :
  accounted_but (sockfd :: fds) w →
  accounted_but fds (created w s srv l sockfd peer r addr k (w_pools w)).
Proof.
  intros Ha fd Ho. destruct (Ha fd Ho) as [[->|?]%elem_of_cons|(c & conn & Hc & <-)]; [|by left|].
  - right. eexists _, _. split; [apply lookup_insert_eq|done].
  - right. exists c, conn. split; [|done]. simpl. rewrite lookup_insert_ne; [done|].
    intros <-. by rewrite new_c_fresh in Hc.
Qed.

(** A new connection is in the map of the server, not yet registered. *)
Lemma serving_created `{Mem : Memory} w srv loop p ds sockfd peer r addr k :
  serving w srv loop p ds None → ts_next_conn_id_ srv < 2 ^ 31 - 1 →
  pl_channel_map_ p !! sockfd = None → open_fds (w_kernel w) ⊆ open_fds k →
  fd_after sockfd (w_trace w) = FdOpen → ¬ in_use w sockfd →
  serving (created w s srv l sockfd peer r addr k (w_pools w)) (entered srv (new_c w)) loop p ds
    (Some (new_c w)).
Proof.
  intros Hsv Hlt Hfree Hk Ho Hun. pose proof (new_name_fresh _ _ _ _ _ _ Hsv) as Hnew.
  destruct Hsv as [Hth Hs Hcfg Hid Hnm (pool & Hpool & Hbase & Hnil) Hl Hp Hok Has Hfds
    (acc & achan & Hls) Hmem Hcl Hnd Hreg Hbk Hdc Hoth].
  set (w' := created w s srv l sockfd peer r addr k (w_pools w)).
  assert (in_loop_thread l w') as Hth'.
  { revert Hth. apply in_loop_thread_frame; [done..|]. intros e He. by exists e. }
  assert (∀ ch chan, w_channels w !! ch = Some chan → ch ≠ new_ch w) as Hchne.
  { intros ch chan Hch ->. by rewrite new_ch_fresh in Hch. }
  assert (∀ c conn, w_conns w !! c = Some conn → c ≠ new_c w) as Hcne.
  { intros c conn Hc ->. by rewrite new_c_fresh in Hc. }
  assert (∀ c conn chan, member w p c conn chan → member w' p c conn chan) as Hmb.
  { intros c conn chan Hmb. pose proof Hmb as []. eapply member_moved; [done| | |apply moved_refl|done|done].
    - simpl. rewrite lookup_insert_ne by (apply not_eq_sym; eauto). done.
    - simpl. rewrite lookup_insert_ne by (apply not_eq_sym; eauto). done. }
  assert (∀ name c, ts_connections_ srv !! name = Some c → c ≠ new_c w) as Hold.
  { intros name c Hn. destruct (Hmem name c Hn) as (conn & chan & Hm & _); [done|].
    eapply Hcne, (mb_conn _ _ _ _ _ Hm). }
  assert (∀ name c, ts_connections_ (entered srv (new_c w)) !! name = Some c →
    (name = new_name srv ∧ c = new_c w) ∨ ts_connections_ srv !! name = Some c) as Hins.
  { intros name c Hn. simpl in Hn. apply lookup_insert_Some in Hn as [[<- <-]|[_ ?]]; [by left|by right]. }
  constructor; try done.
  - simpl. apply lookup_insert_eq.
  - simpl. lia.
  - intros name c [[-> ->]|Hn]%Hins.
    + exists (ts_next_conn_id_ srv). simpl. split; [lia|done].
    + destruct (Hnm name c Hn) as (id & Hi & ?). exists id. simpl. split; [lia|done].
  - exists pool. split; [|done]. eapply (pool_kept w); [by rewrite Hbase|done..].
  - simpl. apply Poller.ok_new_object; [done|apply new_ch_fresh].
  - simpl. apply Poller.asked_new_object; [done|apply new_ch_fresh|done].
  - intros fd Hfd. apply Hk, Hfds, Hfd.
  - exists acc, achan. eapply listener_moved; [done|apply Hls| |apply moved_refl|apply Hls|done].
    simpl. rewrite lookup_insert_ne by (apply not_eq_sym; eapply Hchne, Hls). apply Hls.
  - intros name c [[-> ->]|Hn]%Hins Hx; [done|].
    destruct (Hmem name c Hn) as (conn & chan & ? & ? & ?); [done|]. exists conn, chan. auto.
  - intros c Hin. destruct (Hcl c Hin) as [Hno Hm].
    destruct Hm as (conn & chan & Hm & Hev); [done|]. split.
    + intros name [[-> ->]|Hn]%Hins; [|by apply (Hno name)].
      by destruct (Hcne _ _ (mb_conn _ _ _ _ _ Hm)).
    + intros _. exists conn, chan. auto.
  - intros fd ch Hfd. destruct (Hreg fd ch Hfd) as [?|(c & conn & Hown & Hc & ?)]; [by left|right].
    exists c, conn. split_and!; [|simpl; rewrite lookup_insert_ne by (apply not_eq_sym; eauto)|]; try done.
    destruct Hown as [?|[name Hn]]; [by left|right]. exists name. simpl.
    rewrite lookup_insert_ne; [done|]. intros <-. congruence.
  - by apply disciplined_created.
  - simpl. by rewrite delete_insert_eq.
Qed.

End invariant.

End Serving.
