(* ===== verification/Frames.v ===== *)
(** * What a callback leaves of the connections

    While a loop dispatches to the channel [ch], it keeps the other channels and the connections that
    lead to them; it appends to the streams of bytes on their way, and leaks no object and no descriptor. *)

From S2P Require Import Prelude Format Timestamp Buffer Kernel State CurrentThread Channel.
From S2P Require Import Descriptors Poller EventLoop TcpConnection TcpServer Ledger Reactor Lifetime.
From S2P Require Import ServerTheorems Serving.

Module Frames.

(** ** Streams *)
Section streams.
Context `{K : Kernel}.

(** Nothing is sent on a descriptor by events of another. *)
Lemma sent_others fd evs : Forall (λ e, event_fd e ≠ fd) evs → TcpConnection.sent fd evs = [].
Proof.
  induction 1 as [|e evs He _ IH]; [done|]. unfold TcpConnection.sent in *. simpl. rewrite IH.
  destruct e; try done. simpl in He. by rewrite (proj2 (Z.eqb_neq _ _)).
Qed.

(** The history goes on, and the descriptor stays with its connection: it is read, written and shut down, but not
    accepted or closed. *)
Definition in_use (fd : Z) (tr tr' : list event) : Prop :=
  ∃ evs, tr' = tr ++ evs ∧ Forall (λ e, event_fd e = fd → io_event fd e) evs.

Lemma in_use_trans fd tr tr1 tr2 : in_use fd tr tr1 → in_use fd tr1 tr2 → in_use fd tr tr2.
Proof.
  intros (evs1 & -> & H1) (evs2 & -> & H2). exists (evs1 ++ evs2). split; [by rewrite app_assoc|].
  by apply Forall_app.
Qed.

Lemma in_use_others fd tr evs : Forall (λ e, event_fd e ≠ fd) evs → in_use fd tr (tr ++ evs).
Proof. intros H. exists evs. split; [done|]. eapply Forall_impl; [exact H|]. by intros e He ?. Qed.

Lemma in_use_io fd tr evs : Forall (io_event fd) evs → in_use fd tr (tr ++ evs).
Proof. intros H. exists evs. split; [done|]. by eapply Forall_impl. Qed.

(** The connection at [c] goes on: what is on its way in its socket and its output buffer is kept, more may
    follow. *)
Definition goes_on (w w' : World) (c : Z) (conn conn' : TcpConnection) : Prop :=
  w_conns w' !! c = Some conn' ∧ TcpConnection.same_conn conn conn' ∧
  in_use (tc_socket_ conn) (w_trace w) (w_trace w') ∧
  TcpConnection.out_stream w conn `prefix_of` TcpConnection.out_stream w' conn'.

Lemma goes_on_refl w c conn : w_conns w !! c = Some conn → goes_on w w c conn conn.
Proof.
  intros Hc. split; [done|]. split; [apply TcpConnection.same_conn_refl|]. split; [|done].
  exists []. by rewrite app_nil_r.
Qed.

Lemma goes_on_trans w w1 w2 c conn conn1 conn2 :
  goes_on w w1 c conn conn1 → goes_on w1 w2 c conn1 conn2 → goes_on w w2 c conn conn2.
Proof.
  intros (_ & (?&?&?&?&?&?&?&?) & Ht1 & Ho1) (Hc & (?&?&?&?&?&?&?&?) & Ht2 & Ho2).
  split; [done|]. split; [by split_and!; congruence|]. split; [|by etrans].
  eapply in_use_trans; [exact Ht1|]. by replace (tc_socket_ conn) with (tc_socket_ conn1).
Qed.

(** A connection that is left alone while others work *)
Lemma goes_on_same w w' c conn evs :
  w_conns w' !! c = Some conn → w_trace w' = w_trace w ++ evs →
  Forall (λ e, event_fd e ≠ tc_socket_ conn) evs → goes_on w w' c conn conn.
Proof.
  intros Hc Ht Hevs. split; [done|]. split; [apply TcpConnection.same_conn_refl|].
  split; [rewrite Ht; by apply in_use_others|]. unfold TcpConnection.out_stream.
  by rewrite Ht, TcpConnection.sent_app, (sent_others _ evs), app_nil_r.
Qed.

(** The bytes that left are kept. *)
Lemma goes_on_sent w w' c conn conn' :
  goes_on w w' c conn conn' →
  TcpConnection.sent (tc_socket_ conn) (w_trace w) `prefix_of` TcpConnection.sent (tc_socket_ conn) (w_trace w').
Proof. intros (_ & _ & (evs & -> & _) & _). rewrite TcpConnection.sent_app. by apply prefix_app_r. Qed.

(** When no more bytes left, those that are pending still are. *)
Lemma goes_on_pending w w' c conn conn' :
  goes_on w w' c conn conn' →
  (length (TcpConnection.sent (tc_socket_ conn) (w_trace w')) ≤
     length (TcpConnection.sent (tc_socket_ conn) (w_trace w)))%nat →
  TcpConnection.pending conn `prefix_of` TcpConnection.pending conn'.
Proof.
  intros Hg Hle. pose proof (goes_on_sent _ _ _ _ _ Hg) as [x Hx].
  destruct Hg as (_ & (_ & _ & Hs & _) & _ & Ho). unfold TcpConnection.out_stream in Ho.
  rewrite Hs, Hx in Ho. rewrite Hx, length_app in Hle. assert (x = []) as -> by (apply length_zero_iff_nil; lia).
  rewrite app_nil_r in Ho. by apply prefix_app_inv in Ho.
Qed.

(** Bytes that leave later count, when none left before. *)
Lemma goes_on_progress w w1 w' c conn conn1 conn' :
  goes_on w w1 c conn conn1 → goes_on w1 w' c conn1 conn' → TcpConnection.pending conn ≠ [] →
  (TcpConnection.pending conn1 ≠ [] →
     length (TcpConnection.sent (tc_socket_ conn1) (w_trace w1)) <
     length (TcpConnection.sent (tc_socket_ conn1) (w_trace w')))%nat →
  (length (TcpConnection.sent (tc_socket_ conn) (w_trace w)) <
     length (TcpConnection.sent (tc_socket_ conn) (w_trace w')))%nat.
Proof.
  intros G1 G2 Hne Hlt. pose proof G1 as (_ & (_ & _ & Hs & _) & _).
  pose proof (prefix_length _ _ (goes_on_sent _ _ _ _ _ G1)) as L1.
  pose proof (prefix_length _ _ (goes_on_sent _ _ _ _ _ G2)) as L2. rewrite Hs in *.
  destruct (decide (length (TcpConnection.sent (tc_socket_ conn) (w_trace w1)) ≤
    length (TcpConnection.sent (tc_socket_ conn) (w_trace w)))%nat) as [Hle|]; [|lia].
  pose proof (goes_on_pending _ _ _ _ _ G1 Hle) as [x Hp]. rewrite Hp in Hlt.
  enough (TcpConnection.pending conn ++ x ≠ []) as Hne1 by (specialize (Hlt Hne1); lia).
  by intros [? _]%app_eq_nil.
Qed.

(** What was pending and has left *)
Lemma goes_on_left w w' c conn conn' :
  goes_on w w' c conn conn' →
  (length (TcpConnection.sent (tc_socket_ conn) (w_trace w)) + length (TcpConnection.pending conn) ≤
     length (TcpConnection.sent (tc_socket_ conn) (w_trace w')))%nat →
  TcpConnection.out_stream w conn `prefix_of` TcpConnection.sent (tc_socket_ conn) (w_trace w').
Proof.
  intros (_ & (_ & _ & Hs & _) & _ & Ho) Hle. unfold TcpConnection.out_stream in *. rewrite Hs in Ho.
  destruct Ho as [x Hx]. exists (drop (length (TcpConnection.sent (tc_socket_ conn) (w_trace w) ++
    TcpConnection.pending conn)) (TcpConnection.sent (tc_socket_ conn) (w_trace w'))).
  apply (f_equal (take (length (TcpConnection.sent (tc_socket_ conn) (w_trace w) ++ TcpConnection.pending conn)))) in Hx.
  rewrite take_app_length, take_app_le in Hx by (rewrite length_app; lia).
  rewrite <- Hx at 1. symmetry. apply take_drop.
Qed.
End streams.

(** The connections but [ds] are left alone. *)
Definition spares `{K : Kernel} (ds : list Z) (w w' : World) : Prop :=
  w_servers w' = w_servers w ∧
  ∀ c conn, c ∉ ds → w_conns w !! c = Some conn → goes_on w w' c conn conn.

Lemma spares_refl `{K : Kernel} ds w : spares ds w w.
Proof. split; [done|]. intros c conn _ Hc. by apply goes_on_refl. Qed.

Lemma spares_trans `{K : Kernel} ds w w1 w' : spares ds w w1 → spares ds w1 w' → spares ds w w'.
Proof.
  intros [Hs1 H1] [Hs2 H2]. split; [congruence|]. intros c conn Hin Hc.
  pose proof (H1 c conn Hin Hc) as G1. eapply goes_on_trans; [exact G1|]. apply H2; [done|apply G1].
Qed.

Lemma spares_weaken `{K : Kernel} ds ds' w w' : spares ds w w' → ds ⊆ ds' → spares ds' w w'.
Proof. intros [Hs H] Hsub. split; [done|]. intros c conn Hin. apply H. intros ?. by apply Hin, Hsub. Qed.

(** A change that leaves all connections and the trace as they are *)
Lemma spares_same `{K : Kernel} ds w w' :
  w_servers w' = w_servers w → w_conns w' = w_conns w → w_trace w' = w_trace w → spares ds w w'.
Proof.
  intros Hs Hc Ht. split; [done|]. intros c conn _ H0.
  apply (goes_on_same _ _ _ _ []); [by rewrite Hc|by rewrite app_nil_r|done].
Qed.

Section frames.
Context `{K : Kernel}.
Variable s : ServerPtr.

(** ** Where the channels lead *)

(** The connection at [c] is in the map of the server. *)
Definition served (w : World) (c : Z) : Prop :=
  ∃ srv name, w_servers w !! s = Some srv ∧ ts_connections_ srv !! name = Some c.

(** The channel is of the acceptor or of a connection in the map. *)
Definition target (w : World) (ch : Z) : Prop :=
  (∃ srv acc, w_servers w !! s = Some srv ∧ w_acceptors w !! ts_acceptor_ srv = Some acc ∧
     ac_channel_ acc = ch) ∨
  ∃ c conn, served w c ∧ w_conns w !! c = Some conn ∧ tc_channel_ conn = ch.

(** The channel is in the middle of [handleEvents]. *)
Definition busy (w : World) (ch : Z) : Prop :=
  ∃ chan, w_channels w !! ch = Some chan ∧ ch_events_handling_ chan = true.

(** The connections go on; but for that of the channel [ch] they stay in the map, no connection comes back
    into it, and the other channels are not touched. *)
Record keeps_conns (ch : Z) (w w' : World) : Prop := {
  kc_goes_on c conn : w_conns w !! c = Some conn → ∃ conn', goes_on w w' c conn conn';
  kc_served c conn : w_conns w !! c = Some conn → tc_channel_ conn ≠ ch → served w c → served w' c;
  kc_back c : is_Some (w_conns w !! c) → served w' c → served w c;
  kc_channels ch' chan : ch' ≠ ch → w_channels w !! ch' = Some chan → w_channels w' !! ch' = Some chan
}.

(** Apart from [ch], no channel ceases to be a target and none becomes busy; no
    connection loses its last owner without being deleted. *)
Record keeps_objects (ch : Z) (w w' : World) : Prop := {
  ko_target ch' : ch' ≠ ch → target w ch' → target w' ch';
  ko_busy ch' : ch' ≠ ch → busy w' ch' → busy w ch';
  ko_tidy : Serving.tidy w → Serving.tidy w';
  ko_conns : keeps_conns ch w w'
}.

(** No descriptor loses its connection without being closed, either. *)
Definition keeps_targets (ch : Z) (w w' : World) : Prop :=
  keeps_objects ch w w' ∧ ∀ fds, Serving.accounted_but fds w → Serving.accounted_but fds w'.

Lemma keeps_conns_refl ch w : keeps_conns ch w w.
Proof. constructor; try done. intros c conn Hc. exists conn. by apply goes_on_refl. Qed.

Lemma keeps_conns_trans ch w w1 w2 : keeps_conns ch w w1 → keeps_conns ch w1 w2 → keeps_conns ch w w2.
Proof.
  intros [Hg1 Hs1 Hb1 Hc1] [Hg2 Hs2 Hb2 Hc2]. constructor.
  - intros c conn Hc. destruct (Hg1 _ _ Hc) as (conn1 & Hg). pose proof Hg as (Hc' & _).
    destruct (Hg2 _ _ Hc') as (conn2 & ?). exists conn2. by eapply goes_on_trans.
  - intros c conn Hc Hne Hs. destruct (Hg1 _ _ Hc) as (conn1 & Hc' & (_ & Hch & _) & _).
    apply (Hs2 c conn1); [done|congruence|by eapply Hs1].
  - intros c [conn Hc] Hs. apply Hb1; [by eexists|]. apply Hb2; [|done].
    destruct (Hg1 _ _ Hc) as (conn1 & ? & _). by eexists.
  - auto.
Qed.

Lemma keeps_targets_refl ch w : keeps_targets ch w w.
Proof. split; [|done]. constructor; try done. apply keeps_conns_refl. Qed.

Lemma keeps_idle ch w w' : keeps_targets ch w w' → ¬ busy w' ch → Serving.idle w → Serving.idle w'.
Proof.
  intros [Hk _] Hn Hi ch' chan' Hch'. destruct (ch_events_handling_ chan') eqn:Hh; [|done]. exfalso.
  assert (busy w' ch') as Hb by by exists chan'.
  destruct (decide (ch' = ch)) as [->|Hne]; [done|].
  destruct (ko_busy _ _ _ Hk ch' Hne Hb) as (chan & Hc & Ht). by rewrite (Hi _ _ Hc) in Ht.
Qed.

Lemma keeps_settled ch w w' : keeps_targets ch w w' → Serving.settled w → Serving.settled w'.
Proof. intros [[_ _ Ht _] Ha] [? ?]. split; auto. Qed.

Lemma keeps_objects_trans ch w w1 w2 :
  keeps_objects ch w w1 → keeps_objects ch w1 w2 → keeps_objects ch w w2.
Proof. intros [] []. constructor; eauto using keeps_conns_trans. Qed.

Lemma keeps_targets_trans ch w w1 w2 :
  keeps_targets ch w w1 → keeps_targets ch w1 w2 → keeps_targets ch w w2.
Proof. intros [H1 Ha1] [H2 Ha2]. split; [by eapply keeps_objects_trans|auto]. Qed.

(** A change that keeps the server and the channels of the connections. *)
Lemma target_conns w w' ch' :
  w_servers w' = w_servers w → w_acceptors w' = w_acceptors w →
  (∀ c conn, w_conns w !! c = Some conn →
     ∃ conn', w_conns w' !! c = Some conn' ∧ tc_channel_ conn' = tc_channel_ conn) →
  target w ch' → target w' ch'.
Proof.
  intros Hs Ha Hc [(srv & acc & ? & ? & ?)|(c & conn & (srv & name & ? & ?) & Hconn & ?)].
  - left. exists srv, acc. by rewrite Hs, Ha.
  - right. destruct (Hc _ _ Hconn) as (conn' & ? & ?). exists c, conn'. split; [|split; congruence].
    exists srv, name. by rewrite Hs.
Qed.

Lemma keeps_objects_conns ch w w' :
  w_servers w' = w_servers w → w_acceptors w' = w_acceptors w →
  (∀ l' loop, w_loops w !! l' = Some loop → ∃ loop', w_loops w' !! l' = Some loop' ∧
     el_pending_functors_ loop' = el_pending_functors_ loop) →
  (∀ c, is_Some (w_conns w' !! c) → is_Some (w_conns w !! c)) →
  (∀ c conn, w_conns w !! c = Some conn → ∃ conn', goes_on w w' c conn conn') →
  (∀ ch', ch' ≠ ch → w_channels w' !! ch' = w_channels w !! ch') → keeps_objects ch w w'.
Proof.
  intros Hs Ha Hl Hd Hc Hch. constructor.
  - intros ch' Hne. apply target_conns; [done..|]. intros c conn Hc0.
    destruct (Hc _ _ Hc0) as (conn' & ? & (_ & ? & _) & _). eauto.
  - intros ch' Hne. unfold busy. by rewrite Hch.
  - intros Ht. by eapply Serving.tidy_frame.
  - unfold served in *. constructor; [done|unfold served; by rewrite Hs..|]. intros ch' chan Hne. by rewrite Hch.
Qed.

Lemma keeps_targets_conns ch w w' :
  w_servers w' = w_servers w → w_acceptors w' = w_acceptors w →
  (∀ l' loop, w_loops w !! l' = Some loop → ∃ loop', w_loops w' !! l' = Some loop' ∧
     el_pending_functors_ loop' = el_pending_functors_ loop) →
  (∀ c, is_Some (w_conns w' !! c) → is_Some (w_conns w !! c)) →
  (∀ c conn, w_conns w !! c = Some conn → ∃ conn', goes_on w w' c conn conn') →
  (∀ ch', ch' ≠ ch → w_channels w' !! ch' = w_channels w !! ch') →
  (∀ fd, fd_after fd (w_trace w') = fd_after fd (w_trace w)) →
  keeps_targets ch w w'.
Proof.
  intros Hs Ha Hl Hd Hc Hch Htr. split; [by apply keeps_objects_conns|].
  intros fds Hfds. eapply Serving.accounted_frame; [done..|].
  intros c conn Hc0. destruct (Hc _ _ Hc0) as (conn' & ? & (_ & _ & ? & _) & _). eauto.
Qed.

(** A change of the kernel or of a channel *)
Lemma keeps_targets_rest ch w w' :
  w_servers w' = w_servers w → w_acceptors w' = w_acceptors w → w_loops w' = w_loops w →
  w_conns w' = w_conns w → w_trace w' = w_trace w →
  (∀ ch', ch' ≠ ch → w_channels w' !! ch' = w_channels w !! ch') → keeps_targets ch w w'.
Proof.
  intros Hs Ha Hl Hc Ht Hch. apply keeps_targets_conns; try done.
  - rewrite Hl. eauto.
  - by rewrite Hc.
  - intros c conn H0. exists conn. apply (goes_on_same _ _ _ _ []); [congruence|by rewrite app_nil_r|done].
  - by rewrite Ht.
Qed.

End frames.
End Frames.
