(* ===== verification/ConnectionCallbacks.v ===== *)
(** * The callbacks of a connection keep the server running

    What the server asks of its application ([AppLaws]), and the invariant of
    [Serving] through [handleRead], [handleWrite], [handleClose] and [handleError] and the
    dispatch of [Channel::handleEvents] to them. *)

From S2P Require Import Prelude Format Timestamp Buffer Kernel State CurrentThread Channel.
From S2P Require Import Descriptors Poller EventLoop Sample Registry Dispatch SocketsOptions Socket.
From S2P Require Import TcpConnection ConnectionTheorems Acceptor EventLoopThreadPool TcpServer.
From S2P Require Import Reactor Ledger Lifetime ServerTheorems Serving Frames.

(** The faults of a process that ran out of something. *)
Definition exhausted (f : fault) : Prop := f = LengthError ∨ f = SignedOverflow.

Lemma now_exhausted sec usec f : Timestamp.now sec usec = Fault f → exhausted f.
Proof.
  unfold Timestamp.now, checked. destruct (in_range 64 _); simpl; [|intros [= <-]; by right].
  destruct (in_range 64 _); simpl; [done|]. intros [= <-]. by right.
Qed.

Section steps.
Context `{K : Kernel} `{B : Build} `{D : !Descriptors K} {L : Ledger}.

(** Work on a live connection alone that leaves it established and its books in order *)
Definition quiet (w : World) (c : Z) (conn : TcpConnection) (chan : Channel) (loop : EventLoop) (p : Poller)
    (w' : World) : Prop :=
  ∃ conn' chan' loop' p' evs k',
    w' = TcpConnection.upd w c conn' chan' loop' evs k' ∧
    TcpConnection.live w' c conn' chan' loop' p' ∧ TcpConnection.flushing conn' chan' ∧
    TcpConnection.kept (w_channels w) conn conn' chan chan' loop loop' p p' ∧
    TcpConnection.open_state (tc_state_ conn') = true ∧
    TcpConnection.out_stream w conn `prefix_of` TcpConnection.out_stream w' conn' ∧
    open_fds (w_kernel w) ⊆ open_fds k' ∧
    Forall (io_event (tc_socket_ conn)) evs ∧ Serving.books w' conn'.

Definition quiet_step (m : M unit) (w : World) (c : Z) (conn : TcpConnection) (chan : Channel)
    (loop : EventLoop) (p : Poller) : Prop :=
  wpe exhausted m (λ _, quiet w c conn chan loop p) w.

(** The step after one that filled the input buffer *)
Lemma quiet_input w c conn chan loop p input evs k w' :
  w_channels w !! tc_channel_ conn = Some chan → open_fds (w_kernel w) ⊆ open_fds k →
  Forall (io_event (tc_socket_ conn)) evs → TcpConnection.sent (tc_socket_ conn) evs = [] →
  let conn1 := TcpConnection.setInput input conn in
  quiet (TcpConnection.upd w c conn1 chan loop evs k) c conn1 chan loop p w' → quiet w c conn chan loop p w'.
Proof.
  intros Hch Hk Hevs Hsent conn1
    (conn' & chan' & loop' & p' & evs' & k' & -> & Hlv & Hfl & Hkept & Hst & Hout & Hk' & Hevs' & Hbk).
  rewrite TcpConnection.upd_upd in Hlv, Hout, Hbk |- * by apply Hkept.
  exists conn', chan', loop', p', (evs ++ evs'), k'. split_and!; try done.
  - eapply (TcpConnection.kept_trans _ conn conn1); [by apply TcpConnection.kept_same|exact Hkept].
  - etrans; [|exact Hout]. unfold TcpConnection.out_stream. simpl.
    by rewrite TcpConnection.sent_app, Hsent, app_nil_r.
  - by etrans.
  - by apply Forall_app.
Qed.

(** What the server asks of the application: its connection callback changes
    nothing in the process, and its message callback works on its own
    connection, through the operations of [TcpConnection], keeps it established and
    brings its books in order, after the bytes that were just read. *)
Class AppLaws (A : App) (fcon fmsg : UserFunction) : Prop := {
  connection_callback w c conn :
    w_conns w !! c = Some conn → in_loop_thread (tc_loop_ conn) w →
    app_connection fcon c w = Ok ((), w);
  message_callback w c conn chan loop p t :
    TcpConnection.live w c conn chan loop p → TcpConnection.flushing conn chan →
    TcpConnection.open_state (tc_state_ conn) = true → tc_write_cmpl_cb_ conn = None →
    Serving.unread w conn → quiet_step (app_message fmsg c t) w c conn chan loop p
}.
End steps.

Section callbacks.
Context `{K : Kernel} `{KL : !KernelLaws K} `{D : !Descriptors K} `{DL : !DescriptorLaws K}.
Context `{B : Build} `{BL : !BuildLaws B} `{A : !App} `{Mem : Memory}.
Context {L : Ledger} {LL : LedgerLaws L}.
Context {l : LoopPtr} {s : ServerPtr} {fcon fmsg : UserFunction} `{AL : !AppLaws A fcon fmsg}.
Context {others : gmap Z TcpServer * gmap Z EventLoop}.

#[local] Abbreviation member := (Serving.member l s fcon fmsg).
#[local] Abbreviation serving := (Serving.serving l s fcon fmsg others).
#[local] Abbreviation running := (Serving.running l s fcon fmsg others).
#[local] Abbreviation at_rest := (Serving.at_rest l s fcon fmsg others).
#[local] Abbreviation dead := Serving.dead.
#[local] Abbreviation settled := Serving.settled.
#[local] Abbreviation served := (Frames.served s).
#[local] Abbreviation target := (Frames.target s).
#[local] Abbreviation busy := Frames.busy.
#[local] Abbreviation keeps_objects := (Frames.keeps_objects s).
#[local] Abbreviation keeps_targets := (Frames.keeps_targets s).

(** ** Connections in the map, and those that leave it *)

(** The server runs, and the connection [c] with channel [ch] and reported events [r] is in its map, or
    at least not destroyed. *)
Definition mapped_at (w : World) (c ch r : Z) : Prop :=
  ∃ srv loop p ds conn chan, running w srv loop p ds ∧
    ts_connections_ srv !! tc_name_ conn = Some c ∧ member w p c conn chan ∧
    tc_channel_ conn = ch ∧ ch_revents_ chan = r ∧ Serving.watching conn chan.
Definition owned_at (w : World) (c ch r : Z) : Prop :=
  ∃ srv loop p ds conn chan, running w srv loop p ds ∧ Serving.owned srv ds c ∧
    member w p c conn chan ∧ tc_channel_ conn = ch ∧ ch_revents_ chan = r.

Lemma mapped_owned w c ch r : mapped_at w c ch r → owned_at w c ch r.
Proof.
  intros (srv & loop & p & ds & conn & chan & Hrun & Hn & Hmb & Hch & Hr & _).
  exists srv, loop, p, ds, conn, chan. split_and!; try done. right. by eexists.
Qed.

Lemma keeps_targets_upd ch w srv loop p ds c conn conn' chan chan' loop' p' evs k :
  running w srv loop p ds → member w p c conn chan →
  running (TcpConnection.upd w c conn' chan' loop' evs k) srv loop' p' ds →
  TcpConnection.same_conn conn conn' → tc_channel_ conn = ch →
  Forall (io_event (tc_socket_ conn)) evs →
  TcpConnection.out_stream w conn `prefix_of`
    TcpConnection.out_stream (TcpConnection.upd w c conn' chan' loop' evs k) conn' →
  keeps_targets ch w (TcpConnection.upd w c conn' chan' loop' evs k).
Proof.
  intros (Hsv & _ & Hpend) Hmb (_ & _ & Hpend') Hsame <- Hevs Hout.
  pose proof (Serving.mb_conn _ _ _ _ _ _ _ _ _ Hmb) as Hc. pose proof Hsame as (Hl & Hch & _).
  rewrite (Serving.mb_loop _ _ _ _ _ _ _ _ _ Hmb) in Hl. apply Frames.keeps_targets_conns; [done..| | | | |].
  5:{ eapply Serving.upd_trace; [apply Hsv|done..]. }
  - simpl. rewrite Hl. apply Serving.loops_put with loop; [apply Hsv|congruence].
  - intros c0 Hin. simpl in Hin. apply lookup_insert_is_Some in Hin as [<-|[_ ?]]; [by eexists|done].
  - intros c' conn0 Hc'. destruct (decide (c = c')) as [<-|Hne].
    + exists conn'. simplify_eq. split; [apply lookup_insert_eq|]. split; [done|]. split; [|done].
      simpl. by apply Frames.in_use_io.
    + exists conn0. apply (Frames.goes_on_same _ _ _ _ evs); [simpl; by rewrite lookup_insert_ne|done|].
      eapply Forall_impl; [exact Hevs|]. intros e ->%io_event_fd Heq. apply Hne.
      by apply (Serving.dc_inj _ (Serving.sv_disciplined _ _ _ _ _ _ _ _ _ _ _ Hsv) c c' conn conn0).
  - intros ch' Hne. simpl. by rewrite Hch, lookup_insert_ne.
Qed.

(** A connection the server owns is established. *)
Lemma owned_member w srv loop p ds c :
  running w srv loop p ds → Serving.owned srv ds c →
  ∃ conn chan, member w p c conn chan ∧
    ((ts_connections_ srv !! tc_name_ conn = Some c ∧ Serving.watching conn chan) ∨
     (c ∈ ds ∧ ch_events_ chan = Channel.NoneEvent)).
Proof.
  intros (Hsv & _ & _) [Hin|[name Hn]].
  - destruct (Serving.sv_closing _ _ _ _ _ _ _ _ _ _ _ Hsv c Hin) as [_ Hm].
    destruct Hm as (conn & chan & ? & ?); [done|]. exists conn, chan. auto.
  - destruct (Serving.sv_members _ _ _ _ _ _ _ _ _ _ _ Hsv name c Hn) as (conn & chan & ? & <- & ?);
      [done|]. exists conn, chan. auto.
Qed.

Lemma member_unique w p c conn chan conn' chan' :
  member w p c conn chan → member w p c conn' chan' → conn' = conn ∧ chan' = chan.
Proof. intros [] []. simplify_eq. done. Qed.

(** The name under which a connection is in the map. *)
Lemma running_name w srv loop p ds c conn chan name :
  running w srv loop p ds → member w p c conn chan →
  ts_connections_ srv !! name = Some c → name = tc_name_ conn.
Proof.
  intros (Hsv & _) Hmb Hn.
  destruct (Serving.sv_members _ _ _ _ _ _ _ _ _ _ _ Hsv name c Hn) as (conn' & chan' & Hm & <- & _);
    [done|]. by destruct (member_unique _ _ _ _ _ _ _ Hmb Hm) as [-> _].
Qed.

Lemma running_not_closing w srv loop p ds c name :
  running w srv loop p ds → ts_connections_ srv !! name = Some c → c ∉ ds.
Proof.
  intros (Hsv & _) Hn Hin. by apply (Serving.sv_closing _ _ _ _ _ _ _ _ _ _ _ Hsv c Hin) in Hn.
Qed.

(** ** Steps of one connection *)

(** A step that keeps a connection established keeps the server running. *)
Lemma running_upd w srv loop p ds c conn chan conn' chan' loop' p' evs k' :
  running w srv loop p ds → member w p c conn chan →
  TcpConnection.live (TcpConnection.upd w c conn' chan' loop' evs k') c conn' chan' loop' p' →
  TcpConnection.kept (w_channels w) conn conn' chan chan' loop loop' p p' →
  TcpConnection.open_state (tc_state_ conn') = true → open_fds (w_kernel w) ⊆ open_fds k' →
  Forall (io_event (tc_socket_ conn)) evs →
  Serving.books (TcpConnection.upd w c conn' chan' loop' evs k') conn' →
  ts_connections_ srv !! tc_name_ conn = Some c → Channel.watchesInput chan = true →
  TcpConnection.flushing conn' chan' →
  let w' := TcpConnection.upd w c conn' chan' loop' evs k' in
  running w' srv loop' p' ds ∧ member w' p' c conn' chan' ∧ Serving.watching conn' chan'.
Proof.
  intros Hrun Hmb Hlv [[(Hcl & Hcc & Hcs & Hcw & Hcn & Hccb & Hcm & Hccl) (e & i & ->) _ Hpe Hmap] Hwat]
    Hst Hk Hevs Hbk Hn Hwi Hfl w'. destruct (Hwat Hwi) as [Hwi' Has].
  pose proof Hrun as (Hsv & Hrest & Hpend).
  pose proof Hmb as [Hc Hch Hml Hbd [Hhome Howner] Hfd Hreg Hev Hin Hout _ (Hcb1 & Hcb2 & Hcb3 & Hcb4) Hcalm _].
  set (chan1 := Channel.setIndex i (Channel.setEvents e chan)) in *.
  assert (pl_channel_map_ p' = <[ch_fd_ chan := tc_channel_ conn]> (pl_channel_map_ p)) as Hmap'.
  { rewrite Hmap. symmetry. by apply insert_id. }
  assert (serving w' srv loop' p' ds (Some c)) as Hsv'.
  { eapply Serving.serving_upd; [by apply Serving.serving_except|
      |by apply TcpConnection.live_attached|exact Hc|exact Hch|exact Hbd| | |done|done| | |done|exact Hfd|exact Hcs|exact Hevs| |].
    - right. by eexists.
    - congruence.
    - congruence.
    - intros ch0 Hch0. unfold LoopFacts.registered in Hreg. congruence.
    - apply Hk, (Serving.sv_fds _ _ _ _ _ _ _ _ _ _ _ Hsv). by eexists.
    - eapply led_fd_conn; [by apply io_events_fd| |apply Hsv]. unfold Serving.books in Hbk.
      rewrite Hcs in Hbk. exact Hbk.
    - exact Has. }
  assert (member w' p' c conn' chan1) as Hmb'.
  { constructor; try done; try congruence.
    - apply lookup_insert_eq.
    - simpl. apply lookup_insert_eq.
    - simpl. congruence.
    - unfold LoopFacts.registered. rewrite Hmap', Hcc. apply lookup_insert_eq.
    - by eapply TcpConnection.lv_events.
    - by destruct Hlv.
    - by destruct Hlv.
    - by rewrite Hccb, Hcm, Hcw, Hccl. }
  split; [|done]. split; [|split].
  - eapply Serving.serving_mapped; [done|exact Hmb'|done| |by eapply running_not_closing].
    intros name Hn'. rewrite Hcn. by eapply running_name.
  - by destruct Hlv.
  - rewrite Hpe by done. done.
Qed.

(** Work on a connection in the map alone *)
Lemma quiet_mapped w srv loop p ds c conn chan ch r w' :
  running w srv loop p ds → ts_connections_ srv !! tc_name_ conn = Some c →
  member w p c conn chan → tc_channel_ conn = ch → ch_revents_ chan = r →
  Channel.watchesInput chan = true → quiet w c conn chan loop p w' →
  mapped_at w' c ch r ∧ keeps_targets ch w w'.
Proof.
  intros Hrun Hn Hmb Hch Hr Hwi
    (conn' & chan' & loop' & p' & evs & k' & -> & Hlv & Hfl & Hkept & Hst & Hout & Hk & Hevs & Hbk).
  destruct (running_upd _ _ _ _ _ _ _ _ _ _ _ _ _ _ Hrun Hmb Hlv Hkept Hst Hk Hevs Hbk Hn Hwi Hfl)
    as (Hrun' & Hmb' & Hwt').
  destruct Hkept as [[Hsame (e & i & ->) _ _ _] _]. pose proof Hsame as (_ & Hcc & _ & _ & Hcn & _).
  split; [|eapply keeps_targets_upd; [exact Hrun|exact Hmb|exact Hrun'|done..]].
  eexists srv, loop', p', ds, conn', _. split; [exact Hrun'|]. split; [by rewrite Hcn|].
  split; [exact Hmb'|]. split_and!; [congruence|done|done].
Qed.

(** ** The callbacks of a connection *)

Lemma running_kernel w srv loop p ds k :
  running w srv loop p ds → open_fds (w_kernel w) ⊆ open_fds k →
  running (set_kernel k w) srv loop p ds.
Proof.
  intros (Hsv & Hrest & Hpend) Hk. split; [|done].
  eapply Serving.serving_frame; [exact Hsv|done|apply Hsv|done|apply Hsv|done|apply Hsv|done|done|].
  intros ch chan Hch. exists chan. split; [done|]. apply Serving.moved_refl.
Qed.

Lemma member_kernel w p c conn chan k : member w p c conn chan → member (set_kernel k w) p c conn chan.
Proof. intros []. by constructor. Qed.

Lemma keeps_targets_kernel ch w k : keeps_targets ch w (set_kernel k w).
Proof. by apply Frames.keeps_targets_rest. Qed.

Lemma handleError_mapped w c ch r :
  owned_at w c ch r →
  ∃ k, TcpConnection.handleError c w = Ok ((), set_kernel k w) ∧
    open_fds (w_kernel w) ⊆ open_fds k.
Proof.
  intros (srv & loop & p & ds & conn & chan & Hrun & _ & Hmb & _).
  exists (snd (sys_so_error (ch_fd_ chan) (w_kernel w))). split; [|apply fds_so_error].
  unfold TcpConnection.handleError, sockets.getSocketError, mbind, M_bind, deref, syscall. simpl.
  rewrite (Serving.mb_conn _ _ _ _ _ _ _ _ _ Hmb), (Serving.mb_chan _ _ _ _ _ _ _ _ _ Hmb).
  by destruct (sys_so_error _ _) as [[[?|?] ?] ?].
Qed.

Lemma mapped_at_kernel w c ch r k :
  mapped_at w c ch r → open_fds (w_kernel w) ⊆ open_fds k → mapped_at (set_kernel k w) c ch r.
Proof.
  intros (srv & loop & p & ds & conn & chan & Hrun & ? & ? & ? & ? & ?) Hk.
  exists srv, loop, p, ds, conn, chan. split_and!; try done;
    [by apply running_kernel|by apply member_kernel].
Qed.

Lemma owned_at_kernel w c ch r k :
  owned_at w c ch r → open_fds (w_kernel w) ⊆ open_fds k → owned_at (set_kernel k w) c ch r.
Proof.
  intros (srv & loop & p & ds & conn & chan & Hrun & ? & ? & ? & ?) Hk.
  exists srv, loop, p, ds, conn, chan. split_and!; try done;
    [by apply running_kernel|by apply member_kernel].
Qed.

(** The post-condition of a callback of the connection [c]. *)
Definition callback_done (c ch r : Z) (w w' : World) : Prop :=
  owned_at w' c ch r ∧ keeps_targets ch w w'.

Lemma callback_after c ch r w w1 w' :
  keeps_targets ch w w1 → callback_done c ch r w1 w' → callback_done c ch r w w'.
Proof. intros Hk [? ?]. split; [done|]. by eapply Frames.keeps_targets_trans. Qed.

(** The connection left the map for the queue. *)
Lemma keeps_targets_closed w srv loop p ds c conn chan chan' loop' :
  running w srv loop p ds → ts_connections_ srv !! tc_name_ conn = Some c → member w p c conn chan →
  (∀ name, ts_connections_ srv !! name = Some c → name = tc_name_ conn) →
  el_pending_functors_ loop' = el_pending_functors_ loop →
  let w1 := TcpConnection.upd w c conn chan' loop' [] (w_kernel w) in
  w_servers w1 !! s = Some srv →
  keeps_targets (tc_channel_ conn) w (removed w1 s srv (tc_name_ conn) loop' c).
Proof.
  intros (Hsv & Hrest & Hpend) Hn Hmb Hname Hpe w1 Hs. set (w2 := removed _ _ _ _ _ _).
  destruct (Serving.sv_config _ _ _ _ _ _ _ _ _ _ _ Hsv) as (Hsl & _).
  pose proof (Serving.mb_loop _ _ _ _ _ _ _ _ _ Hmb) as Hcl.
  pose proof (Serving.mb_conn _ _ _ _ _ _ _ _ _ Hmb) as Hc.
  assert (w_conns w2 = w_conns w) as Hcs by (simpl; by apply insert_id).
  assert (w_servers w2 = <[s := TcpServer.setConnections (delete (tc_name_ conn) (ts_connections_ srv)) srv]> (w_servers w))
    as Hss by done.
  assert (∀ c0, Frames.served s w2 c0 ↔ c0 ≠ c ∧ served w c0) as Hserved.
  { intros c0. unfold Frames.served. rewrite Hss. setoid_rewrite lookup_insert_eq. split.
    - intros (srv0 & name0 & [= <-] & Hn0). simpl in Hn0. apply lookup_delete_Some in Hn0 as [Hne Hn0].
      split; [|by exists srv, name0]. intros ->. by rewrite (Hname _ Hn0) in Hne.
    - intros (Hne & srv0 & name0 & Hs0 & Hn0). simpl in Hs. rewrite Hs in Hs0. injection Hs0 as <-.
      eexists _, name0. split; [done|]. simpl. rewrite lookup_delete_ne; [done|]. intros <-. congruence. }
  split.
  2:{ intros fds Ha. eapply Serving.accounted_frame; [exact Ha|simpl; by rewrite app_nil_r|].
      rewrite Hcs. eauto. }
  constructor.
  - intros ch' Hne [(srv0 & acc & Hs0 & Ha & Hac)|(c0 & conn0 & Hs0 & Hc0 & Hch0)].
    + left. simpl in Hs. rewrite Hs in Hs0. injection Hs0 as <-. eexists _, acc. rewrite Hss, lookup_insert_eq. done.
    + right. exists c0, conn0. rewrite Hcs. split; [|done]. apply Hserved. split; [|done].
      intros ->. congruence.
  - intros ch' Hne (chan0 & Hch0 & ?). exists chan0. split; [|done]. simpl in Hch0. by rewrite lookup_insert_ne in Hch0.
  - intros Ht. apply Serving.tidy_removed; [|done|rewrite Hsl, <- Hcl; apply lookup_insert_eq|done].
    eapply Serving.tidy_frame; [exact Ht|done| |simpl; rewrite insert_id by done; done].
    simpl. rewrite Hcl. apply Serving.loops_put with loop; [apply Hsv|done].
  - constructor.
    + intros c0 conn0 Hc0. exists conn0. by apply (Frames.goes_on_same _ _ _ _ []); rewrite ?Hcs.
    + intros c0 conn0 Hc0 Hne Hs0. apply Hserved. split; [|done]. intros ->. congruence.
    + intros c0 _ [_ ?]%Hserved. done.
    + intros ch' chan0 Hne Hch0. simpl. by rewrite lookup_insert_ne.
Qed.

(** Closing: the connection leaves the map and waits for its destruction. *)
Lemma handleClose_serving w c ch r :
  mapped_at w c ch r →
  wpe exhausted (TcpConnection.handleClose (O := TcpServer.connection_owner) c)
    (λ _ w', callback_done c ch r w w') w.
Proof.
  intros (srv & loop & p & ds & conn & chan & Hrun & Hn & Hmb & Hch & Hr & _).
  pose proof Hrun as (Hsv & Hrest & Hpend).
  pose proof (Serving.member_live _ _ _ _ _ _ _ _ _ _ _ _ _ _ Hsv Hrest Hmb) as Hlv.
  destruct (TcpConnection.handleClose_ok (O := TcpServer.connection_owner) _ _ _ _ _ _ Hlv
    (Serving.mb_state _ _ _ _ _ _ _ _ _ Hmb)) as (chan' & loop' & p' & Hclose & Hlv' & Hnone & Hpe & Hkept & Hask).
  cbn zeta in *. destruct (Serving.mb_cbs _ _ _ _ _ _ _ _ _ Hmb) as (_ & _ & _ & Hcb).
  set (w1 := TcpConnection.upd w c conn chan' loop' [] (w_kernel w)) in *.
  destruct (Serving.sv_config _ _ _ _ _ _ _ _ _ _ _ Hsv) as (Hsl & _).
  pose proof (Serving.mb_loop _ _ _ _ _ _ _ _ _ Hmb) as Hcl.
  pose proof (TcpConnection.lv_loop _ _ _ _ _ _ Hlv') as Hl'. rewrite Hcl in Hl'.
  rewrite Hcb in Hclose. simpl in Hclose.
  rewrite (removeConnection_ok w1 s srv c conn loop') in Hclose;
    [|rewrite Hsl, <- Hcl; by eapply TcpConnection.lv_thread|apply Hsv|by eapply TcpConnection.lv_conn|by eexists
     |by rewrite Hsl|by destruct Hlv'|by destruct Hlv'].
  eapply wpe_ok; [exact Hclose|].
  assert (serving w1 srv loop' p' ds (Some c)) as Hsv1.
  { destruct Hkept as [_ (e & i & ->) _ _ Hmap].
    pose proof (Serving.mb_registered _ _ _ _ _ _ _ _ _ Hmb) as Hreg. unfold LoopFacts.registered in Hreg.
    eapply Serving.serving_upd; [by apply Serving.serving_except|right; by eexists
      |by apply TcpConnection.live_attached|apply Hmb|apply Hmb|apply Hmb|done|done|done| | | |done|apply Hmb|done|constructor| |exact Hask].
    - rewrite Hmap. symmetry. by apply insert_id.
    - intros ch0 Hch0. congruence.
    - apply (Serving.sv_fds _ _ _ _ _ _ _ _ _ _ _ Hsv). by eexists.
    - rewrite app_nil_r. apply Hsv. }
  pose proof (running_not_closing _ _ _ _ _ _ _ Hrun Hn) as Hnin.
  assert (∀ name, ts_connections_ srv !! name = Some c → name = tc_name_ conn) as Hname
    by (intros; by eapply running_name).
  pose proof (Serving.serving_removed _ _ _ _ _ _ _ _ _ _ _ _ Hsv1 Hn Hname Hnin) as Hsv2.
  cbn zeta in Hsv2. set (w2 := removed _ _ _ _ _ _) in *. set (srv' := TcpServer.setConnections _ _) in *.
  assert (member w2 p' c conn chan') as Hmb2.
  { pose proof Hlv' as [Hc1 [Hth1 Hlo1 Hpo1 Hok1 (Hch1 & _ & Hev1 & _) Hh1 Ho1] Hreg1 Hfd1 Hin1 Hout1 _ _].
    destruct Hkept as [_ (e & i & ->) _ _ _]. rewrite Hcl in Hh1, Ho1.
    pose proof Hmb as []. constructor; try done. unfold Serving.books. simpl. by rewrite app_nil_r. }
  split.
  - exists srv', (LoopFacts.enqueue (fn_destroyConnection c) loop'), p', (ds ++ [c]), conn, chan'.
    split; [|split; [left; apply elem_of_app; right; by constructor|split; [done|split; [done|]]]].
    + split; [eapply Serving.serving_closed; [done..|apply elem_of_app; right; by constructor]|].
      split; [by destruct Hlv'|]. simpl. by rewrite fmap_app, Hpe, Hpend.
    + by destruct Hkept as [_ (e & i & ->) _ _ _].
  - subst ch. apply (keeps_targets_closed w srv loop p ds c conn chan); try done. apply Hsv1.
Qed.

(** The connection with an input buffer of the same content *)
Lemma mapped_input w srv loop p ds c conn chan ch r input k :
  running w srv loop p ds → ts_connections_ srv !! tc_name_ conn = Some c →
  member w p c conn chan → tc_channel_ conn = ch → ch_revents_ chan = r →
  Serving.watching conn chan → Buffer.wf input → open_fds (w_kernel w) ⊆ open_fds k →
  Buffer.contents input = Buffer.contents (tc_input_buffer_ conn) →
  let w' := TcpConnection.upd w c (TcpConnection.setInput input conn) chan loop [] k in
  mapped_at w' c ch r ∧ keeps_targets ch w w'.
Proof.
  intros Hrun Hn Hmb Hch Hr [Hfl Hwi] Hwf Hk Hin w'. pose proof Hrun as (Hsv & Hrest & _).
  pose proof (Serving.member_live _ _ _ _ _ _ _ _ _ _ _ _ _ _ Hsv Hrest Hmb) as Hlv.
  eapply quiet_mapped; [exact Hrun|exact Hn|exact Hmb|done..|].
  exists (TcpConnection.setInput input conn), chan, loop, p, [], k. split_and!; try done.
  - by apply TcpConnection.handleRead_store.
  - apply TcpConnection.kept_same; [apply Hmb|done].
  - apply Hmb.
  - unfold TcpConnection.out_stream. simpl. by rewrite app_nil_r.
  - pose proof (Serving.mb_books _ _ _ _ _ _ _ _ _ Hmb) as Hbk. unfold Serving.books in *. simpl.
    by rewrite Hin, app_nil_r.
Qed.

Lemma handleRead_serving w c ch r t :
  mapped_at w c ch r →
  wpe exhausted (TcpConnection.handleRead (O := TcpServer.connection_owner) c t)
    (λ _ w', callback_done c ch r w w') w.
Proof.
  intros Hat. pose proof Hat as (srv & loop & p & ds & conn & chan & Hrun & Hn & Hmb & Hch & Hr & Hfl).
  pose proof Hrun as (Hsv & Hrest & Hpend).
  pose proof (Serving.member_live _ _ _ _ _ _ _ _ _ _ _ _ _ _ Hsv Hrest Hmb) as Hlv.
  pose proof (fds_readv (ch_fd_ chan) (Buffer.iov_room (tc_input_buffer_ conn)) (w_kernel w)) as Hk.
  destruct (sys_readv _ _ _) as [rv k] eqn:Hrv. simpl in Hk.
  assert (Buffer.wf (tc_input_buffer_ conn)) as Hwf by by destruct Hmb.
  destruct rv as [d|errno].
  2:{ eapply wpe_ok; [by eapply handleRead_failed|].
      assert (open_fds (w_kernel w) ⊆ open_fds (snd (sys_so_error (ch_fd_ chan) k))) as Hk'
        by (etrans; [exact Hk|apply fds_so_error]).
      split; [|apply keeps_targets_kernel]. by apply mapped_owned, mapped_at_kernel. }
  destruct (decide (d = [])) as [->|Hd].
  { destruct (handleRead_eof (O := TcpServer.connection_owner) _ _ _ _ _ _ _ t Hlv Hrv)
      as (input & Hread & Hlv1 & Hc). cbn zeta in *.
    destruct (mapped_input _ _ _ _ _ _ _ _ _ _ input k Hrun Hn Hmb Hch Hr Hfl) as [Hat1 Hkt];
      [by destruct Hlv1|done|done|].
    eapply wpe_eq; [exact Hread|]. eapply wpe_mono; [by apply handleClose_serving|].
    intros [] w'. by apply callback_after. }
  assert (0 ≤ Buffer.writableBytes (tc_input_buffer_ conn)) as Hwr.
  { rewrite Buffer.writableBytes_wf by done. destruct Hwf. lia. }
  destruct (Buffer.readFd_outcomes d (tc_input_buffer_ conn) Hwf) as [[Hf _]|(_ & input & Hf & Hwf' & Hc & _)].
  { apply readv_room in Hrv; unfold Buffer.iov_room, Buffer.extrabuf_size, vector_max_size in *; lia. }
  { eapply wpe_fault; [by eapply TcpConnection.handleRead_full|by left]. }
  destruct (TcpConnection.handleRead_arrived (O := TcpServer.connection_owner)
    _ _ _ _ _ _ _ _ t input Hlv Hd Hrv Hf Hwf') as [Hread Hlv1]. cbn zeta in *.
  destruct (Serving.mb_cbs _ _ _ _ _ _ _ _ _ Hmb) as (_ & Hm & Hw & _). rewrite Hm in Hread. simpl in Hread.
  eapply wpe_eq; [exact Hread|].
  eapply wpe_mono; [apply message_callback; [exact Hlv1|apply Hfl|apply Hmb|done|]|].
  - pose proof (Serving.mb_books _ _ _ _ _ _ _ _ _ Hmb) as Hbk. unfold Serving.books, Serving.unread in *.
    simpl. rewrite Hc. by apply led_read.
  - intros [] w' Hq%quiet_input; [|apply Hmb|done|by repeat constructor|done].
    destruct (quiet_mapped _ _ _ _ _ _ _ _ _ _ _ Hrun Hn Hmb Hch Hr (proj2 Hfl) Hq) as [Hat' Hkt'].
    split; [by apply mapped_owned|done].
Qed.

(** A connection that watches for nothing has nothing to write. *)
Lemma none_not_writing chan :
  ch_events_ chan = Channel.NoneEvent → Channel.isWriting chan = false.
Proof. unfold Channel.isWriting. by intros ->. Qed.

Lemma keeps_handleWrite c : keeps_fds (TcpConnection.handleWrite c).
Proof.
  unfold TcpConnection.handleWrite, TcpConnection.output_drained, TcpConnection.queue_write_complete,
    TcpConnection.shutdownInLoop, Socket.shutdownWrite, sockets.shutdownWrite, EventLoop.queueInLoop, EventLoop.lock,
    EventLoop.unlock, EventLoop.wakeup, Channel.disableWriting, Channel.change, Channel.update,
    assertInLoopThread, isInLoopThread, CurrentThread.tid, emit.
  simpl. unfold EventLoop.updateChannel, Poller.updateChannel, Poller.on_poller, Poller.the_poller,
    assertInLoopThread, isInLoopThread, CurrentThread.tid.
  keeps_fds.
Qed.

(** What a writable event does to a connection that asked for it *)
Lemma handleWrite_step w c conn chan loop p :
  TcpConnection.live w c conn chan loop p → TcpConnection.flushing conn chan →
  Channel.isWriting chan = true → Serving.books w conn →
  ∃ conn' chan' loop' p' evs k', let w' := TcpConnection.upd w c conn' chan' loop' evs k' in
    TcpConnection.handleWrite c w = Ok ((), w') ∧ TcpConnection.live w' c conn' chan' loop' p' ∧
    TcpConnection.flushing conn' chan' ∧
    TcpConnection.kept (w_channels w) conn conn' chan chan' loop loop' p p' ∧
    tc_state_ conn' = tc_state_ conn ∧ Forall (io_event (tc_socket_ conn)) evs ∧ Serving.books w' conn' ∧
    TcpConnection.out_stream w' conn' = TcpConnection.out_stream w conn ∧
    (takes_bytes (tc_socket_ conn) → TcpConnection.sent (tc_socket_ conn) evs ≠ []).
Proof.
  intros Hlv Hfl Hwr Hbk. pose proof (TcpConnection.lv_fd _ _ _ _ _ _ Hlv) as Hfd.
  destruct (sys_write (ch_fd_ chan) (TcpConnection.pending conn) (w_kernel w)) as [rv k] eqn:Hw.
  assert (TcpConnection.pending conn ≠ []) as Hne.
  { intros Hnil. unfold TcpConnection.flushing in Hfl. by rewrite Hwr, Hnil in Hfl. }
  destruct (decide (TcpConnection.accepted rv ≤ 0)) as [Hacc|Hacc].
  - assert (TcpConnection.sent (tc_socket_ conn) (TcpConnection.write_events (ch_fd_ chan) (TcpConnection.pending conn) rv) = [])
      as Hsent.
    { rewrite Hfd, TcpConnection.sent_write_events. by replace (Z.to_nat _) with 0%nat by lia. }
    eexists conn, chan, loop, p, _, k. split; [by eapply TcpConnection.handleWrite_nothing|].
    split; [by apply TcpConnection.live_events|].
    split_and!; [done|apply TcpConnection.kept_same; [by eapply TcpConnection.lv_chan|done]|done
      |rewrite <- Hfd; by destruct rv; repeat constructor| | |].
    + unfold Serving.books in *. simpl. rewrite Hfd. destruct rv as [n|e]; simpl; [|by rewrite app_nil_r].
      simpl in Hacc. replace (Z.to_nat n) with 0%nat by lia. by apply led_write.
    + unfold TcpConnection.out_stream. simpl. by rewrite TcpConnection.sent_app, Hsent, app_nil_r.
    + intros Htake. destruct (Htake _ (w_kernel w) Hne) as (n & k' & Hn & Hpos). rewrite <- Hfd, Hw in Hn.
      simplify_eq/=. lia.
  - destruct rv as [n|e]; simpl in Hacc; [|lia].
    destruct (TcpConnection.handleWrite_some _ _ _ _ _ _ _ _ Hlv Hwr Hw) as
      (conn' & chan' & loop' & p' & d & tail & k' & Hm & Hlv' & Hfl' & Hkept & Hst & Hin & Hpe & Htail & _ & Hd);
      [lia|].
    assert (tail = [] ∨ tail = [EvShutdownWrite (tc_socket_ conn)]) as Htl.
    { subst tail. unfold TcpConnection.drained_events. repeat case_bool_decide; auto. }
    assert (TcpConnection.sent (tc_socket_ conn) ([EvWrite (tc_socket_ conn) d] ++ tail) = d) as Hsent.
    { rewrite TcpConnection.sent_app, TcpConnection.sent_write. by destruct Htl as [->| ->]; rewrite app_nil_r. }
    destruct Hkept as [Hch Hwat]. pose proof Hch as [(_ & _ & Hs & _) _ _ _ _].
    eexists conn', chan', loop', p', _, k'. split; [exact Hm|]. split; [exact Hlv'|].
    split_and!; [done|done|done| | | |by rewrite Hsent].
    + constructor; [done|]. by destruct Htl as [->| ->]; repeat constructor.
    + unfold Serving.books in *. rewrite Hs, Hin, Hst. simpl.
      rewrite Hpe in Hbk. apply led_write in Hbk. rewrite cons_middle, app_assoc.
      destruct Htl as [->| ->]; [by rewrite app_nil_r|by apply led_shutdown].
    + unfold TcpConnection.out_stream. rewrite Hs. change (w_trace (TcpConnection.upd _ _ _ _ _ ?evs _)) with (w_trace w ++ evs).
      by rewrite TcpConnection.sent_app, Hsent, Hpe, <- app_assoc.
Qed.

(** A writable event took bytes off a connection in the map that had some, and whose socket takes some. *)
Definition bytes_left (c : Z) (w w' : World) : Prop :=
  ∀ conn, w_conns w !! c = Some conn → served w c → takes_bytes (tc_socket_ conn) →
    TcpConnection.pending conn ≠ [] →
    (length (TcpConnection.sent (tc_socket_ conn) (w_trace w)) <
       length (TcpConnection.sent (tc_socket_ conn) (w_trace w')))%nat.

Lemma handleWrite_serving w c ch r :
  owned_at w c ch r →
  wpe exhausted (TcpConnection.handleWrite c) (λ _ w', callback_done c ch r w w' ∧ bytes_left c w w') w.
Proof.
  intros Hat. pose proof Hat as (srv & loop & p & ds & conn & chan & Hrun & Hown & Hmb & Hch & Hr).
  pose proof Hrun as (Hsv & Hrest & Hpend).
  pose proof (Serving.member_live _ _ _ _ _ _ _ _ _ _ _ _ _ _ Hsv Hrest Hmb) as Hlv.
  destruct (owned_member _ _ _ _ _ _ Hrun Hown) as (conn0 & chan0 & Hmb0 & Hcase).
  destruct (member_unique _ _ _ _ _ _ _ Hmb Hmb0) as [-> ->].
  destruct (Channel.isWriting chan) eqn:Hwr.
  2:{ eapply wpe_ok; [by eapply TcpConnection.handleWrite_idle|].
      split; [split; [done|apply Frames.keeps_targets_refl]|].
      intros conn1 Hc1 (srv1 & name & Hs1 & Hn1) _ Hne. rewrite (Serving.mb_conn _ _ _ _ _ _ _ _ _ Hmb) in Hc1.
      rewrite (Serving.sv_server _ _ _ _ _ _ _ _ _ _ _ Hsv) in Hs1. simplify_eq.
      destruct Hcase as [[_ [Hfl _]]|[Hin _]]; [|by destruct (running_not_closing _ _ _ _ _ _ _ Hrun Hn1)].
      unfold TcpConnection.flushing in Hfl. by rewrite Hwr, bool_decide_false in Hfl. }
  destruct Hcase as [[Hn [Hfl Hwi]]|[_ Hnone]]; [|by rewrite none_not_writing in Hwr].
  pose proof (Serving.mb_books _ _ _ _ _ _ _ _ _ Hmb) as Hbk.
  destruct (handleWrite_step _ _ _ _ _ _ Hlv Hfl Hwr Hbk)
    as (conn' & chan' & loop' & p' & evs & k' & Hm & Hlv' & Hfl' & Hkept & Hst & Hevs & Hbk' & Hout & Hleft).
  cbn zeta in *. pose proof (keeps_ok _ _ _ _ (keeps_handleWrite c) Hm) as Hk.
  eapply wpe_ok; [exact Hm|].
  destruct (running_upd _ _ _ _ _ _ _ _ _ _ _ _ _ _ Hrun Hmb Hlv' Hkept) as (Hrun' & Hmb' & Hwt');
    [rewrite Hst; apply Hmb|done..|].
  destruct Hkept as [[Hsame (e & i & ->) _ _ _] _]. pose proof Hsame as (_ & Hcc & _ & _ & Hcn & _).
  split; [split|].
  - eexists srv, loop', p', ds, conn', _. split; [exact Hrun'|].
    split; [right; by eexists|]. split; [exact Hmb'|]. split; [congruence|done].
  - eapply keeps_targets_upd; [exact Hrun|exact Hmb|exact Hrun'|done..|by rewrite Hout].
  - intros conn1 Hc1 _ Htake _. rewrite (Serving.mb_conn _ _ _ _ _ _ _ _ _ Hmb) in Hc1. simplify_eq.
    simpl. rewrite TcpConnection.sent_app, length_app. specialize (Hleft Htake).
    destruct (TcpConnection.sent (tc_socket_ conn1) evs); [done|]. simpl. lia.
Qed.

(** ** Dispatching to a channel *)

#[local] Abbreviation set_handling := Lifetime.set_handling.

Lemma moved_in_handling ch b chan w ch' chan' :
  w_channels w !! ch = Some chan → w_channels w !! ch' = Some chan' →
  ∃ chan1, w_channels (set_handling ch b chan w) !! ch' = Some chan1 ∧ Serving.moved chan' chan1 ∧
    ch_revents_ chan1 = ch_revents_ chan' ∧ ch_fd_ chan1 = ch_fd_ chan' ∧ ch_index_ chan1 = ch_index_ chan'.
Proof.
  intros Hch Hch'. simpl. destruct (decide (ch = ch')) as [<-|Hne].
  - rewrite lookup_insert_eq. simplify_eq. eexists. split; [done|]. split; [apply Serving.moved_handling|done].
  - rewrite lookup_insert_ne by done. exists chan'. split; [done|]. split; [apply Serving.moved_refl|done].
Qed.

Lemma running_handling w srv loop p ds ch chan b :
  running w srv loop p ds → w_channels w !! ch = Some chan →
  running (set_handling ch b chan w) srv loop p ds.
Proof.
  intros (Hsv & Hrest & Hpend) Hch. split; [|done].
  eapply Serving.serving_frame; [exact Hsv|done|apply Hsv|done|apply Hsv|done| | |done|].
  - apply (Poller.ok_channels (w_channels w)); [|apply Hsv]. intros ch' c Hc.
    destruct (moved_in_handling ch b chan w ch' c Hch Hc) as (c' & ? & _ & _ & ? & ?). eauto.
  - apply Poller.asked_channels; [|apply Hsv]. intros ch' c Hc.
    destruct (moved_in_handling ch b chan w ch' c Hch Hc) as (c' & ? & Hmv & _ & _ & ?).
    exists c'. split_and!; [done..|by apply Serving.events_moved].
  - intros ch' c Hc. destruct (moved_in_handling ch b chan w ch' c Hch Hc) as (c' & ? & ? & _). eauto.
Qed.

Lemma member_handling w p c conn chan b ch0 chan0 :
  member w p c conn chan0 → w_channels w !! ch0 = Some chan →
  ∃ chan', member (set_handling ch0 b chan w) p c conn chan' ∧ Serving.moved chan0 chan' ∧
    ch_revents_ chan' = ch_revents_ chan0.
Proof.
  intros Hmb Hch. pose proof (Serving.mb_chan _ _ _ _ _ _ _ _ _ Hmb) as H0.
  destruct (moved_in_handling ch0 b chan w _ _ Hch H0) as (chan' & ? & ? & ? & _).
  exists chan'. split; [|done]. eapply Serving.member_moved; [done|apply Hmb|done|done|apply Hmb|done].
Qed.

Lemma mapped_handling w c ch r chan b :
  mapped_at w c ch r → w_channels w !! ch = Some chan → mapped_at (set_handling ch b chan w) c ch r.
Proof.
  intros (srv & loop & p & ds & conn & chan0 & Hrun & Hn & Hmb & Hc & Hr & Hfl) Hch.
  destruct (member_handling _ _ _ _ _ b _ _ Hmb Hch) as (chan' & Hmb' & Hmv & Hr').
  exists srv, loop, p, ds, conn, chan'. split; [by apply running_handling|].
  split_and!; try done; [congruence|by eapply Serving.watching_moved].
Qed.

Lemma owned_handling w c ch r chan b :
  owned_at w c ch r → w_channels w !! ch = Some chan → owned_at (set_handling ch b chan w) c ch r.
Proof.
  intros (srv & loop & p & ds & conn & chan0 & Hrun & Hn & Hmb & Hc & Hr) Hch.
  destruct (member_handling _ _ _ _ _ b _ _ Hmb Hch) as (chan' & Hmb' & Hmv & Hr').
  exists srv, loop, p, ds, conn, chan'. split; [by apply running_handling|].
  split_and!; try done; congruence.
Qed.

Lemma keeps_targets_handling ch b chan w : keeps_targets ch w (set_handling ch b chan w).
Proof.
  apply Frames.keeps_targets_rest; try done. intros ch' Hne. simpl. by rewrite lookup_insert_ne.
Qed.

Lemma handled_idle ch chan w : ¬ busy (set_handling ch false chan w) ch.
Proof. intros (c & Hc & Hh). simpl in Hc. rewrite lookup_insert_eq in Hc. by simplify_eq. Qed.

(** The channel of a connection: its descriptor's events and its callbacks. *)
Lemma owned_channel w c ch r :
  owned_at w c ch r → ∃ chan, w_channels w !! ch = Some chan ∧ ch_revents_ chan = r ∧
    Serving.bound_to c chan ∧ Serving.calm chan.
Proof.
  intros (srv & loop & p & ds & conn & chan & _ & _ & Hmb & <- & <-). exists chan. by destruct Hmb.
Qed.

Lemma on_revents_ok test cb t ch chan w :
  w_channels w !! ch = Some chan →
  Channel.on_revents test cb t ch w =
    (if test (ch_revents_ chan)
     then match cb chan with Some f => call f t | None => mret () end else mret ()) w.
Proof.
  intros Hch. unfold Channel.on_revents, Channel.dispatch, mbind, M_bind, deref. simpl. rewrite Hch.
  destruct (test (ch_revents_ chan)); [|done]. rewrite Hch. by destruct (cb chan).
Qed.

(** One test of [handleEvents], for a callback that is done or left out. *)
Lemma on_revents_then (Q : World → Prop) test cb t ch c r w f :
  owned_at w c ch r → (∀ chan, Serving.bound_to c chan → cb chan = Some f) →
  (test r = true → wpe exhausted (call f t) (λ _ w', callback_done c ch r w w' ∧ Q w') w) →
  (test r = false → Q w) →
  wpe exhausted (Channel.on_revents test cb t ch) (λ _ w', callback_done c ch r w w' ∧ Q w') w.
Proof.
  intros Hat Hcb Hrun HQ. destruct (owned_channel _ _ _ _ Hat) as (chan & Hch & Hr & Hbd & _).
  eapply wpe_eq; [by apply on_revents_ok|]. rewrite Hr, (Hcb chan Hbd).
  destruct (test r); [by apply Hrun|]. apply wpe_ret.
  split; [split; [done|apply Frames.keeps_targets_refl]|by apply HQ].
Qed.

Lemma on_revents_serving test cb t ch c r w f :
  owned_at w c ch r → (∀ chan, Serving.bound_to c chan → cb chan = Some f) →
  (test r = true → wpe exhausted (call f t) (λ _ w', callback_done c ch r w w') w) →
  wpe exhausted (Channel.on_revents test cb t ch) (λ _ w', callback_done c ch r w w') w.
Proof.
  intros Hat Hcb Hrun. eapply wpe_mono.
  - apply (on_revents_then (λ _, True) test cb t ch c r w f Hat Hcb); [|done].
    intros Ht. eapply wpe_mono; [by apply Hrun|done].
  - by intros [] w' [? _].
Qed.

(** The error callback does not move the connection. *)
Lemma on_error_serving P w c ch r t :
  owned_at w c ch r → P w → (∀ k, open_fds (w_kernel w) ⊆ open_fds k → P (set_kernel k w)) →
  wpe exhausted (Channel.on_revents Channel.err ch_error_cb_ t ch)
    (λ _ w', P w' ∧ keeps_targets ch w w') w.
Proof.
  intros Hat HP Hk. destruct (owned_channel _ _ _ _ Hat) as (chan & Hch & Hr & Hbd & _).
  eapply wpe_eq; [by apply on_revents_ok|]. destruct Hbd as (_ & -> & _).
  destruct (Channel.err _); [|apply wpe_ret; split; [done|apply Frames.keeps_targets_refl]].
  destruct (handleError_mapped _ _ _ _ Hat) as (k & Hrun & Hfds).
  eapply wpe_ok; [exact Hrun|]. split; [by apply Hk|apply keeps_targets_kernel].
Qed.

Definition is_running (w : World) : Prop := ∃ srv loop p ds, running w srv loop p ds.

(** What [handleEvents] of the channel [ch] leaves. *)
Definition dispatched (ch : Z) (w w' : World) : Prop :=
  is_running w' ∧ keeps_targets ch w w' ∧ ¬ busy w' ch.

(** A connection whose socket was reported writable and takes bytes has got rid of some, or left the map. *)
Definition progress (c r : Z) (w w' : World) : Prop :=
  ∀ conn, w_conns w !! c = Some conn → served w' c → Channel.writable r = true →
    takes_bytes (tc_socket_ conn) → TcpConnection.pending conn ≠ [] →
    (length (TcpConnection.sent (tc_socket_ conn) (w_trace w)) <
       length (TcpConnection.sent (tc_socket_ conn) (w_trace w')))%nat.

Lemma progress_of_write ch c r w w1 w2 w' :
  keeps_targets ch w w1 → keeps_targets ch w1 w2 → keeps_targets ch w2 w' →
  (Channel.writable r = true → bytes_left c w1 w2) → progress c r w w'.
Proof.
  intros [[_ _ _ [Hg1 _ _ _]] _] [[_ _ _ [Hg2 _ Hb2 _]] _] [[_ _ _ [Hg3 _ Hb3 _]] _] Hw
    conn Hc Hs Hr Htake Hne.
  destruct (Hg1 _ _ Hc) as (conn1 & G1). pose proof G1 as (Hc1 & (_ & _ & Hso1 & _) & _).
  destruct (Hg2 _ _ Hc1) as (conn2 & G2). pose proof G2 as (Hc2 & (_ & _ & Hso2 & _) & _).
  destruct (Hg3 _ _ Hc2) as (conn3 & G3).
  assert (served w1 c) as Hs1 by (apply Hb2; [by eexists|]; apply Hb3; [by eexists|done]).
  eapply Frames.goes_on_progress; [exact G1|by eapply Frames.goes_on_trans|done|]. intros Hne1.
  eapply Nat.lt_le_trans; [apply (Hw Hr conn1); [done|done|by rewrite Hso1|done]|].
  rewrite <- Hso2. apply prefix_length, (Frames.goes_on_sent _ _ _ _ _ G3).
Qed.

(** The end of [handleEvents]: the write event *)
Lemma write_event_serving w w1 c ch r t :
  callback_done c ch r w w1 →
  wpe exhausted (_ ← Channel.on_revents Channel.writable ch_write_cb_ t ch;
                 modify ch (Channel.setHandling false))
    (λ _ w', dispatched ch w w' ∧ progress c r w w') w1.
Proof.
  intros [Hat1 Hkt1]. apply wpe_bind. eapply wpe_mono.
  { apply (on_revents_then (λ w2, Channel.writable r = true → bytes_left c w1 w2) _ _ _ _ c r _ (cb_handleWrite c));
      [exact Hat1|by intros ? (_ & _ & _ & ?)| |congruence].
    intros _. eapply wpe_mono; [by apply handleWrite_serving|]. by intros [] w' [? ?]. }
  intros [] w2 [[Hat2 Hkt2] Hleft]. destruct (owned_channel _ _ _ _ Hat2) as (chan2 & Hch2 & _).
  eapply wpe_modify; [exact Hch2|]. pose proof (owned_handling _ _ _ _ _ false Hat2 Hch2) as Hat3.
  pose proof (keeps_targets_handling ch false chan2 w2) as Hkt3.
  split; [|by eapply progress_of_write].
  split; [destruct Hat3 as (srv & loop & p & ds & ? & ? & ? & _); by exists srv, loop, p, ds|].
  split; [|apply handled_idle]. eapply Frames.keeps_targets_trans; [exact Hkt1|].
  by eapply Frames.keeps_targets_trans.
Qed.

(** All that [handleEvents] calls for a connection in the map. *)
Lemma conn_events_serving w c ch r t :
  mapped_at w c ch r →
  wpe exhausted (Channel.handleEvents t ch)
    (λ _ w', dispatched ch w w' ∧ progress c r w w') w.
Proof.
  intros Hat. destruct (owned_channel _ _ _ _ (mapped_owned _ _ _ _ Hat)) as (chan & Hch & Hr & Hbd & Hcalm).
  unfold Serving.calm in Hcalm. rewrite Hr in Hcalm.
  pose proof (λ w1, write_event_serving w w1 c ch r t) as Hend.
  unfold Channel.handleEvents. apply wpe_bind. eapply wpe_modify; [exact Hch|].
  change (wpe exhausted (Channel.on_revents Channel.hup ch_close_cb_ t ch ≫= λ _,
    Channel.on_revents Channel.err ch_error_cb_ t ch ≫= λ _,
    Channel.on_revents Channel.readable ch_read_cb_ t ch ≫= λ _,
    Channel.on_revents Channel.writable ch_write_cb_ t ch ≫= λ _,
    modify ch (Channel.setHandling false))
    (λ _ w', dispatched ch w w' ∧ progress c r w w')
    (set_handling ch true chan w)).
  pose proof (mapped_handling _ _ _ _ _ true Hat Hch) as Hat0.
  pose proof (keeps_targets_handling ch true chan w) as Hkt0.
  set (w0 := set_handling ch true chan w) in *. clearbody w0.
  destruct (Channel.hup r) eqn:Hhup.
  - (* closed: only the error and the write callback can follow *)
    specialize (Hcalm eq_refl). apply wpe_bind. eapply wpe_mono.
    { eapply on_revents_serving; [by apply mapped_owned|by intros ? (? & _)|].
      intros _. by apply handleClose_serving. }
    intros [] w1 Hd1%(callback_after _ _ _ _ _ _ Hkt0). pose proof Hd1 as [Hat1 Hkt1].
    apply wpe_bind. eapply wpe_mono.
    { eapply (on_error_serving (λ w, owned_at w c ch r)); [done..|].
      intros k Hk. by apply owned_at_kernel. }
    intros [] w2 [Hat2 Hkt2]. apply wpe_bind.
    destruct (owned_channel _ _ _ _ Hat2) as (chan2 & Hch2 & Hr2 & _).
    eapply wpe_ok; [rewrite (on_revents_ok _ _ _ _ _ _ Hch2), Hr2, Hcalm; done|].
    apply Hend. split; [done|by eapply Frames.keeps_targets_trans].
  - apply wpe_bind.
    destruct (owned_channel _ _ _ _ (mapped_owned _ _ _ _ Hat0)) as (chan1 & Hch1 & Hr1 & _).
    eapply wpe_ok; [rewrite (on_revents_ok _ _ _ _ _ _ Hch1), Hr1, Hhup; done|].
    apply wpe_bind. eapply wpe_mono.
    { eapply (on_error_serving (λ w, mapped_at w c ch r)); [by apply mapped_owned|done|].
      intros k Hk. by apply mapped_at_kernel. }
    intros [] w2 [Hat2 Hkt2]. apply wpe_bind. eapply wpe_mono.
    { eapply on_revents_serving; [by apply mapped_owned|by intros ? (_ & _ & ? & _)|].
      intros _. by apply handleRead_serving. }
    intros [] w3 Hd3. apply Hend. eapply callback_after; [|exact Hd3].
    by eapply Frames.keeps_targets_trans.
Qed.
End callbacks.
