(* ===== verification/LoopFunctors.v ===== *)
(** * Accepting connections and running the functors keep the server running

    The invariant of [Serving] through [Acceptor::handleRead] with
    [TcpServer::newConnection], and through [doPendingFunctors], which destroys the
    connections that left the map and drops the last [shared_ptr] to them. *)

From S2P Require Import Prelude Format Timestamp Buffer Kernel State CurrentThread Channel.
From S2P Require Import Descriptors Poller EventLoop Sample Registry Dispatch SocketsOptions Socket.
From S2P Require Import TcpConnection ConnectionTheorems Acceptor EventLoopThreadPool TcpServer.
From S2P Require Import Reactor Ledger Lifetime ServerTheorems Serving Frames.
From S2P Require Import ConnectionCallbacks.

Section functors.
Context `{K : Kernel} `{KL : !KernelLaws K} `{D : !Descriptors K} `{DL : !DescriptorLaws K}.
Context `{B : Build} `{BL : !BuildLaws B} `{A : !App} `{Mem : Memory}.
Context {L : Ledger} {LL : LedgerLaws L}.
Context {l : LoopPtr} {s : ServerPtr} {fcon fmsg : UserFunction} `{AL : !AppLaws A fcon fmsg}.
Context {others : gmap Z TcpServer * gmap Z EventLoop}.

#[local] Abbreviation member := (Serving.member l s fcon fmsg).
#[local] Abbreviation serving := (Serving.serving l s fcon fmsg others).
#[local] Abbreviation running := (Serving.running l s fcon fmsg others).
#[local] Abbreviation at_rest := (Serving.at_rest l s fcon fmsg others).
#[local] Abbreviation dead := Serving.dead.
#[local] Abbreviation settled := Serving.settled.
#[local] Abbreviation served := (Frames.served s).
#[local] Abbreviation target := (Frames.target s).
#[local] Abbreviation busy := Frames.busy.
#[local] Abbreviation keeps_objects := (Frames.keeps_objects s).
#[local] Abbreviation keeps_targets := (Frames.keeps_targets s).
#[local] Abbreviation is_running :=
  (ConnectionCallbacks.is_running (l := l) (s := s) (fcon := fcon) (fmsg := fmsg) (others := others)).
#[local] Abbreviation dispatched :=
  (ConnectionCallbacks.dispatched (l := l) (s := s) (fcon := fcon) (fmsg := fmsg) (others := others)).
#[local] Abbreviation progress := (ConnectionCallbacks.progress (s := s)).
#[local] Abbreviation set_handling := Lifetime.set_handling.

(** ** Accepting *)

(** A connection number beyond [int]. *)
Lemma newConnection_overflow w srv fd peer :
  in_loop_thread (ts_loop_ srv) w → w_servers w !! s = Some srv →
  ts_next_conn_id_ srv = 2 ^ 31 - 1 →
  TcpServer.newConnection owner_garbage s fd peer w = Fault SignedOverflow.
Proof.
  intros Hth Hs Hid. unfold TcpServer.newConnection, mbind, M_bind, deref at 1. simpl. rewrite Hs.
  by rewrite assertInLoopThread_ok, Hid by done.
Qed.

(** A descriptor that was just opened can be watched. *)
Lemma running_ready w srv loop p ds fd :
  running w srv loop p ds → pl_channel_map_ p !! fd = None → loop_ready w l loop p fd.
Proof.
  intros (Hsv & [Hm Hc] & _) Hfd. constructor; try done; try apply Hsv.
  pose proof (Poller.ok_length _ _ _ (Serving.sv_ok _ _ _ _ _ _ _ _ _ _ _ Hsv)
    (Serving.sv_fds _ _ _ _ _ _ _ _ _ _ _ Hsv)) as Hlen.
  pose proof (open_fds_count (w_kernel w)). unfold zlen. lia.
Qed.

Lemma running_free w srv loop p ds fd :
  running w srv loop p ds → fd ∉ open_fds (w_kernel w) → pl_channel_map_ p !! fd = None.
Proof.
  intros (Hsv & _) Hfd. destruct (pl_channel_map_ p !! fd) as [ch|] eqn:Hch; [|done]. exfalso.
  apply Hfd, (Serving.sv_fds _ _ _ _ _ _ _ _ _ _ _ Hsv). by eexists.
Qed.

(** The connections of the server are older than the next one. *)
Lemma owned_not_new w srv loop p ds c :
  running w srv loop p ds → Serving.owned srv ds c → c ≠ new_c w.
Proof.
  intros Hrun Hown ->. destruct (owned_member _ _ _ _ _ _ Hrun Hown) as (conn & chan & Hm & _).
  pose proof (Serving.mb_conn _ _ _ _ _ _ _ _ _ Hm) as Hc. by rewrite new_c_fresh in Hc.
Qed.

(** Establishing the connection that was entered last. *)
Lemma established w srv loop p ds fd peer r addr k conn chan p' :
  running w srv loop p ds → ts_next_conn_id_ srv < 2 ^ 31 - 1 →
  pl_channel_map_ p !! fd = None → open_fds (w_kernel w) ⊆ open_fds k → fd ∈ open_fds k →
  led_conn fd (w_trace w) Connected [] [] → fd_after fd (w_trace w) = FdOpen →
  ¬ Serving.in_use w fd →
  let w2 := created w s srv l fd peer r addr k (w_pools w) in
  conn = TcpConnection.setState Connected
    (new_connection s srv l fd (new_ch w) (new_name srv) (local_addr r addr) peer) →
  TcpConnection.same_chan (new_channel l fd (new_c w)) chan →
  ch_events_ chan = Channel.ReadEvent →
  pl_channel_map_ p' = <[fd := new_ch w]> (pl_channel_map_ p) →
  let w3 := TcpConnection.upd w2 (new_c w) conn chan (Poller.setPoller (Some p') loop) [] k in
  TcpConnection.attached w3 (new_c w) conn chan (Poller.setPoller (Some p') loop) p' →
  (Poller.asked (w_channels w2) p → Poller.asked (w_channels w3) p') →
  running w3 (entered srv (new_c w)) (Poller.setPoller (Some p') loop) p' ds.
Proof.
  intros Hrun Hid Hfree Hk Hin Hbk Ho Hun w2 Hconn (e & i & Hchan) Hev Hmap w3 Hat Hask. pose proof Hrun as (Hsv & Hrest & Hpend).
  pose proof (Serving.sv_config _ _ _ _ _ _ _ _ _ _ _ Hsv) as (_ & Hcon & Hmsg & Hwr).
  pose proof (Serving.serving_created l s fcon fmsg others _ _ _ _ _ fd peer r addr k Hsv Hid Hfree Hk Ho Hun) as Hsv2.
  fold w2 in Hsv2.
  assert (serving w3 (entered srv (new_c w)) (Poller.setPoller (Some p') loop) p' ds (Some (new_c w)))
    as Hsv3.
  { eapply Serving.serving_upd; [exact Hsv2| |exact Hat|apply lookup_insert_eq
      |simpl; apply lookup_insert_eq|by split_and!|by subst conn|by subst conn|by subst chan|exact Hmap| |exact Hin|done|done|by subst conn|constructor| |clear -Hconn Hask; unfold w3 in Hask; by subst conn].
    - right. exists (new_name srv). simpl. apply lookup_insert_eq.
    - intros ch0 Hch0. simpl in Hch0. congruence.
    - rewrite app_nil_r. apply Hsv. }
  assert (member w3 p' (new_c w) conn chan) as Hmb3.
  { pose proof Hat as [Hc3 [_ _ _ _ (Hch3 & _ & Hev3 & _) Hh3 Ho3] Hreg3 Hf3 Hi3 Hou3]. subst conn chan.
    constructor; try done. unfold Serving.books. simpl. by rewrite app_nil_r. }
  split; [|done]. eapply Serving.serving_mapped; [exact Hsv3|exact Hmb3| | |].
  - split; [unfold TcpConnection.flushing, Channel.isWriting|unfold Channel.watchesInput]; rewrite Hev;
      by subst conn.
  - intros name Hn. simpl in Hn. apply lookup_insert_Some in Hn as [[<- _]|[_ Hn]]; [by subst conn|].
    by destruct (owned_not_new _ _ _ _ _ (new_c w) Hrun (or_intror (ex_intro _ _ Hn))).
  - intros Hin'. by destruct (owned_not_new _ _ _ _ _ (new_c w) Hrun (or_introl Hin')).
Qed.

Lemma keeps_objects_entered ch w srv loop p ds w' :
  running w srv loop p ds →
  w_servers w' = <[s := entered srv (new_c w)]> (w_servers w) → w_acceptors w' = w_acceptors w →
  (∀ l' loop, w_loops w !! l' = Some loop → ∃ loop', w_loops w' !! l' = Some loop' ∧
     el_pending_functors_ loop' = el_pending_functors_ loop) →
  (∀ c, c ≠ new_c w → w_conns w' !! c = w_conns w !! c) → (∀ ch, busy w' ch → busy w ch) →
  w_trace w' = w_trace w → (∀ ch chan, w_channels w !! ch = Some chan → w_channels w' !! ch = Some chan) →
  keeps_objects ch w w'.
Proof.
  intros Hrun Hs Ha Hlo Hc Hb Htr Hch. pose proof Hrun as (Hsv & _).
  pose proof (Serving.sv_server _ _ _ _ _ _ _ _ _ _ _ Hsv) as Hsrv.
  pose proof (Serving.new_name_fresh _ _ _ _ _ _ _ _ _ _ _ Hsv) as Hnew.
  assert (∀ c conn, w_conns w !! c = Some conn → c ≠ new_c w) as Hold
    by (intros c conn Hc0 ->; by rewrite new_c_fresh in Hc0).
  assert (∀ c, served w c → served w' c) as Hserved.
  { intros c (srv0 & name & Hs0 & Hn). rewrite Hsrv in Hs0. injection Hs0 as <-.
    exists (entered srv (new_c w)), name. rewrite Hs. split; [apply lookup_insert_eq|]. simpl.
    rewrite lookup_insert_ne; [done|]. intros <-. congruence. }
  constructor.
  - intros ch' _ [(srv0 & acc & Hs0 & ? & ?)|(c0 & conn0 & Hs0 & Hc0 & Hch0)].
    + left. simplify_eq. exists (entered srv (new_c w)), acc. by rewrite Hs, Ha, lookup_insert_eq.
    + right. exists c0, conn0. rewrite Hc by eauto. auto.
  - intros ch' _. apply Hb.
  - intros Ht. eapply Serving.tidy_entered; [exact Ht|done..|].
    intros c Hin. destruct (decide (c = new_c w)) as [->|Hne]; [by right|left]. by rewrite <- Hc.
  - constructor.
    + intros c conn Hc0. exists conn. apply (Frames.goes_on_same _ _ _ _ []); [|by rewrite app_nil_r|done].
      rewrite Hc; eauto.
    + auto.
    + intros c [conn Hc0] (srv0 & name & Hs0 & Hn). rewrite Hs, lookup_insert_eq in Hs0. injection Hs0 as <-.
      simpl in Hn. apply lookup_insert_Some in Hn as [[_ Heq]|[_ Hn]]; [|by exists srv, name].
      by destruct (Hold _ _ Hc0).
    + auto.
Qed.

(** A new connection, for a descriptor that was just opened. *)
Lemma newConnection_serving w srv loop p ds fd peer ch :
  running w srv loop p ds → owned owner_garbage l → 0 ≤ fd → pl_channel_map_ p !! fd = None →
  fd ∈ open_fds (w_kernel w) → led_conn fd (w_trace w) Connected [] [] →
  fd_after fd (w_trace w) = FdOpen → ¬ Serving.in_use w fd →
  wpe exhausted (TcpServer.newConnection owner_garbage s fd peer)
    (λ _ w', is_running w' ∧ keeps_objects ch w w' ∧
       (∀ fds, Serving.accounted_but (fd :: fds) w → Serving.accounted_but fds w') ∧
       ∀ ch chan, w_channels w !! ch = Some chan → w_channels w' !! ch = Some chan) w.
Proof.
  intros Hrun Hown Hfd Hnew Hin Hbk Ho Hun. pose proof (running_ready _ _ _ _ _ _ Hrun Hnew) as Hlr.
  pose proof Hrun as (Hsv & _).
  pose proof (Serving.sv_thread _ _ _ _ _ _ _ _ _ _ _ Hsv) as Hth.
  pose proof (Serving.sv_server _ _ _ _ _ _ _ _ _ _ _ Hsv) as Hs.
  pose proof (Serving.sv_id _ _ _ _ _ _ _ _ _ _ _ Hsv) as Hid.
  destruct (Serving.sv_config _ _ _ _ _ _ _ _ _ _ _ Hsv) as (Hsl & Hcon & _).
  destruct (Serving.sv_pool _ _ _ _ _ _ _ _ _ _ _ Hsv) as (pool & Hpool & Hbase & Hnil).
  destruct (decide (ts_next_conn_id_ srv = 2 ^ 31 - 1)) as [Hmax|Hmax].
  { eapply wpe_fault; [apply (newConnection_overflow w srv); [by rewrite Hsl|done|done]|by right]. }
  pose proof (fds_getsockname fd (w_kernel w)) as Hk.
  destruct (sys_getsockname fd (w_kernel w)) as [[r addr] k] eqn:Hname. simpl in Hk.
  assert (server_ready w s srv pool fd) as Hsr.
  { constructor; [by rewrite Hsl|done|lia|done|congruence|done]. }
  pose proof (choosing_base _ _ _ k _ _ Hsr Hnil) as Hloop. rewrite Hsl in Hloop.
  eapply wpe_eq; [eapply newConnection_creates; [by rewrite Hsl|done|lia|done|exact Hloop]|].
  pose proof (created_attached_new w s srv l loop p fd peer r addr k (w_pools w) Hlr Hth Hfd Hown) as Hat.
  destruct (establishConnection_ok _ _ _ _ _ _ Hat eq_refl)
    as (chan & loop' & p' & Hest & Hat' & _ & _ & Hev & Hsame & -> & Hmap & Hask). cbn zeta in *.
  eapply wpe_ok.
  { rewrite Hest. change (tc_connection_cb_ (new_connection _ _ _ _ _ _ _ _)) with (ts_connection_cb_ srv).
    rewrite Hcon. simpl. by eapply connection_callback; apply Hat'. }
  set (w' := TcpConnection.upd _ _ _ _ _ _ _).
  assert (∀ ch0 chan0, w_channels w !! ch0 = Some chan0 → w_channels w' !! ch0 = Some chan0) as Hkeep.
  { intros ch0 chan0 Hch0. simpl. rewrite !lookup_insert_ne; [done|..];
      intros <-; by rewrite new_ch_fresh in Hch0. }
  split; [|split; [|split]].
  - eexists _, _, p', ds. eapply (established w srv); first [done|lia|by apply Hk|apply Hask; [done|]; unfold LoopFacts.registered; simpl; congruence].
  - eapply keeps_objects_entered; [done..| | | | |exact Hkeep].
    + simpl. apply Serving.loops_put with loop; [apply Hsv|done].
    + intros c Hc. simpl. by rewrite !lookup_insert_ne by done.
    + intros ch0 (chan0 & Hch0 & Hh). simpl in Hch0. destruct (decide (new_ch w = ch0)) as [<-|Hne].
      * rewrite lookup_insert_eq in Hch0. simplify_eq. destruct Hsame as (e & i & ->). done.
      * rewrite !lookup_insert_ne in Hch0 by done. by exists chan0.
    + simpl. by rewrite app_nil_r.
  - intros fds Ha. apply (Serving.accounted_created l s fds w srv fd peer r addr k) in Ha.
    eapply Serving.accounted_frame; [exact Ha|simpl; by rewrite app_nil_r|].
    intros c conn Hc. simpl in *. destruct (decide (new_c w = c)) as [<-|Hne].
    + rewrite lookup_insert_eq in Hc |- *. simplify_eq. eauto.
    + rewrite lookup_insert_ne in Hc by done. rewrite !lookup_insert_ne by done. eauto.
  - exact Hkeep.
Qed.

(** A descriptor was accepted: it is no descriptor of the connections. *)
Lemma running_accept w srv loop p ds fd :
  running w srv loop p ds → fd_after fd (w_trace w) = FdClosed → fd ∈ open_fds (w_kernel w) →
  running (Serving.just_accepted fd w) srv loop p ds.
Proof. intros (Hsv & Hrest & Hpend) Hcl Hin. split; [by apply Serving.serving_accepted|done]. Qed.

(** What the kernel has not open is of no connection. *)
Lemma running_closed w srv loop p ds fd :
  running w srv loop p ds → fd ∉ open_fds (w_kernel w) → fd_after fd (w_trace w) = FdClosed.
Proof.
  intros (Hsv & _) Hfd. destruct (decide (fd_after fd (w_trace w) = FdClosed)) as [|Hne]; [done|].
  by apply (Serving.dc_open w) in Hne; [|apply Hsv].
Qed.

(** The listening socket is readable. *)
Lemma acceptorRead_serving w srv loop p ds t ch :
  running w srv loop p ds → owned owner_garbage l →
  wpe exhausted (call (cb_acceptorRead (ts_acceptor_ srv)) t)
    (λ _ w', is_running w' ∧ keeps_targets ch w w' ∧
       ∀ ch chan, w_channels w !! ch = Some chan → w_channels w' !! ch = Some chan) w.
Proof.
  intros Hrun Hown. pose proof Hrun as (Hsv & _).
  destruct (Serving.sv_listener _ _ _ _ _ _ _ _ _ _ _ Hsv) as (acc & chan & [Ha Hl Hs _ _ _]).
  simpl. unfold Acceptor.handleRead. apply wpe_bind, (wpe_deref _ _ acc); [done|].
  apply wpe_bind. eapply wpe_ok; [apply assertInLoopThread_ok; rewrite Hl; apply Hsv|].
  apply wpe_bind. unfold Socket.accept, sockets.accept. apply wpe_bind, wpe_bind, wpe_syscall.
  intros [r addr] k Hacc. destruct (fds_accept _ _ _ _ _ Hacc) as [Hk Hr].
  pose proof (running_kernel _ _ _ _ _ _ Hrun Hk) as Hrun1. destruct r as [fd|e].
  - destruct Hr as [Hnew Hin]. pose proof (accept_fd _ _ _ _ _ Hacc) as Hfd.
    unfold wpe. simpl. rewrite (proj2 (Z.leb_le _ _) Hfd), Hs. simpl.
    fold (wpe exhausted (TcpServer.newConnection owner_garbage s fd addr)
      (λ _ w', is_running w' ∧ keeps_targets ch w w' ∧
         ∀ ch chan, w_channels w !! ch = Some chan → w_channels w' !! ch = Some chan)
      (Serving.just_accepted fd (set_kernel k w))).
    assert (pl_channel_map_ p !! fd = None) as Hfree by by eapply (running_free w).
    pose proof (running_closed w _ _ _ _ _ Hrun Hnew) as Hcls.
    pose proof (running_accept (set_kernel k w) _ _ _ _ _ Hrun1 Hcls Hin) as Hrun2.
    destruct (Serving.disciplined_accepted (set_kernel k w) fd) as [_ Hun]; [apply Hrun1|done..|].
    eapply wpe_mono; [eapply newConnection_serving; [exact Hrun2|done..|apply led_accept| |exact Hun]|].
    { simpl. rewrite fd_after_this by done. by rewrite Hcls. }
    intros [] w' (Hr' & Hkt & Hacc' & Hch'). split; [done|]. split; [|exact Hch']. split.
    + eapply Frames.keeps_objects_trans; [|exact Hkt]. apply Frames.keeps_objects_conns; simpl; eauto.
      intros c conn Hc. exists conn. apply (Frames.goes_on_same _ _ _ _ [EvAccept fd]); [done..|].
      constructor; [|done]. intros Heq. apply Hun. by exists c, conn.
    + intros fds Hfds. by apply Hacc', (Serving.accounted_accepted _ (set_kernel k w)).
  - unfold wpe. simpl. split; [by eexists _, _, _, _|]. split; [apply keeps_targets_kernel|done].
Qed.

(** All that [handleEvents] calls for the acceptor. *)
Lemma acceptor_events_serving w srv loop p ds acc t :
  running w srv loop p ds → owned owner_garbage l →
  w_acceptors w !! ts_acceptor_ srv = Some acc →
  wpe exhausted (Channel.handleEvents t (ac_channel_ acc))
    (λ _ w', dispatched (ac_channel_ acc) w w') w.
Proof.
  intros Hrun Hown Ha. pose proof Hrun as (Hsv & _). set (ch := ac_channel_ acc).
  destruct (Serving.sv_listener _ _ _ _ _ _ _ _ _ _ _ Hsv)
    as (acc' & chan & [Ha' _ _ Hch (Hb1 & Hb2 & Hb3 & Hb4) _]).
  rewrite Ha in Ha'. injection Ha' as <-. fold ch in Hch.
  unfold Channel.handleEvents. apply wpe_bind. eapply wpe_modify; [exact Hch|].
  pose proof (running_handling _ _ _ _ _ _ _ true Hrun Hch) as Hrun0.
  pose proof (keeps_targets_handling (s := s) ch true chan w) as Hkt0.
  assert (w_channels (set_handling ch true chan w) !! ch = Some (Channel.setHandling true chan)) as Hch0
    by apply lookup_insert_eq.
  unfold set_handling in *. cbn [heap_get heap_set channel_heap]. set (w0 := set_channels _ w) in *. clearbody w0.
  apply wpe_bind. eapply wpe_ok.
  { rewrite (on_revents_ok _ _ _ _ _ _ Hch0). simpl. rewrite Hb1. by destruct (Channel.hup _). }
  apply wpe_bind. eapply wpe_ok.
  { rewrite (on_revents_ok _ _ _ _ _ _ Hch0). simpl. rewrite Hb2. by destruct (Channel.err _). }
  apply wpe_bind. eapply (wpe_mono _ _ (λ _ w', is_running w' ∧ keeps_targets ch w0 w' ∧
    w_channels w' !! ch = Some (Channel.setHandling true chan))).
  { eapply wpe_eq; [by apply on_revents_ok|]. simpl. rewrite Hb3. destruct (Channel.readable _).
    - eapply wpe_mono; [by eapply (acceptorRead_serving _ _ _ _ _ t ch)|]. intros [] w' (? & ? & Hkeep). split_and!; auto.
    - apply wpe_ret. split; [by eexists _, _, _, _|]. split; [apply Frames.keeps_targets_refl|done]. }
  intros [] w1 ((srv1 & loop1 & p1 & ds1 & Hrun1) & Hkt1 & Hch1).
  apply wpe_bind. eapply wpe_ok.
  { rewrite (on_revents_ok _ _ _ _ _ _ Hch1). simpl. rewrite Hb4. by destruct (Channel.writable _). }
  eapply wpe_modify; [exact Hch1|].
  pose proof (running_handling _ _ _ _ _ _ _ false Hrun1 Hch1) as Hrun2.
  split; [by eexists _, _, _, _|]. split; [|apply handled_idle].
  eapply Frames.keeps_targets_trans; [exact Hkt0|].
  eapply Frames.keeps_targets_trans; [exact Hkt1|]. apply keeps_targets_handling.
Qed.

(** ** The functors *)

(** What the destruction of a connection leaves of the others: owners, descriptors and streams *)
Lemma destroyed_frame w srv loop p ds c conn chan conn' chan' loop' h' p' :
  serving w srv loop p ds None → member w p c conn chan → TcpConnection.same_conn conn conn' →
  el_pending_functors_ loop' = el_pending_functors_ loop →
  let w' := Poller.put_poller l loop' h' p' (TcpConnection.upd w c conn' chan' loop' [] (w_kernel w)) in
  (∀ cs, Serving.tidy_but cs w → Serving.tidy_but cs w') ∧
  (∀ fds, Serving.accounted_but fds w → Serving.accounted_but fds w') ∧ Frames.spares [c] w w'.
Proof.
  intros Hsv Hmb Hsame Hpf w'. pose proof Hsame as (Hl & _). pose proof (Serving.mb_loop _ _ _ _ _ _ _ _ _ Hmb) as Hcl.
  split; [|split].
  - intros cs Ht. eapply Serving.tidy_but_frame; [exact Ht|done| |].
    + simpl. rewrite Hl, Hcl, insert_insert_eq. apply Serving.loops_put with loop; [apply Hsv|done].
    + intros c0 Hin. simpl in Hin. apply lookup_insert_is_Some in Hin as [<-|[_ ?]]; [|done].
      eexists. apply Hmb.
  - intros fds Ha. eapply Serving.accounted_frame; [|done|eauto].
    eapply (Serving.accounted_upd fds w c conn conn' chan' loop' [] (w_kernel w)); [exact Ha|apply Hsv|apply Hmb|apply Hsame|done..].
  - split; [done|]. intros c0 conn0 Hne%not_elem_of_cons Hc0. apply (Frames.goes_on_same _ _ _ _ []);
      [|simpl; by rewrite app_nil_r|done].
    simpl. by rewrite lookup_insert_ne by (apply not_eq_sym, Hne).
Qed.

(** The next destruction: the connection is unwatched, what was unwatched stays so. *)
Lemma destroyConnection_serving w srv loop p ds c :
  serving w srv loop p (c :: ds) None → el_pending_functors_ loop = [] → Serving.idle w →
  wpe exhausted (TcpConnection.destroyConnection c)
    (λ _ w', ∃ loop' p', serving w' srv loop' p' ds None ∧ el_pending_functors_ loop' = [] ∧
       Serving.idle w' ∧ dead w' p' c ∧ (∀ c0, c ≠ c0 → dead w p c0 → dead w' p' c0) ∧
       (∀ cs, Serving.tidy_but cs w → Serving.tidy_but cs w') ∧
       (∀ fds, Serving.accounted_but fds w → Serving.accounted_but fds w') ∧ Frames.spares [c] w w') w.
Proof.
  intros Hsv Hpend Hidle.
  destruct (Serving.sv_closing _ _ _ _ _ _ _ _ _ _ _ Hsv c) as [_ Hm]; [by left|].
  destruct Hm as (conn & chan & Hmb & _); [done|].
  pose proof (Serving.member_attached _ _ _ _ _ _ _ _ _ _ _ _ _ _ Hsv Hmb) as Hat.
  destruct (TcpConnection.destroyConnection_unfold _ _ _ _ _ _ Hat
    (Serving.mb_state _ _ _ _ _ _ _ _ _ Hmb)) as (chan' & loop' & p' & Hd & Hat' & Hnone & Hpf & Hkept & Hask & Hlk).
  cbn zeta in *. set (conn' := TcpConnection.setState Disconnected conn) in *.
  set (w1 := TcpConnection.upd w c conn' chan' loop' [] (w_kernel w)) in *.
  pose proof Hat' as [Hc1 Hwt1 Hreg1 Hfd1 _ _].
  destruct (LoopFacts.loop_removeChannel_ok _ _ _ _ _ _ Hwt1 Hreg1 Hnone Hlk)
    as (h' & p'' & Hrm & Hok & Hsame & Hmap & _ & Hent).
  destruct (Serving.mb_cbs _ _ _ _ _ _ _ _ _ Hmb) as (Hcb & _).
  eapply wpe_ok.
  { rewrite Hd, Hcb. unfold mbind, M_bind. simpl.
    rewrite (connection_callback w1 c conn') by (done || apply Hwt1). exact Hrm. }
  destruct Hkept as [_ (e & i & Hchan') _ _ Hmap1].
  assert (Serving.bound_to c chan') as Hbd1 by (rewrite Hchan'; apply Hmb).
  assert (w_channels w1 !! tc_channel_ conn' = Some chan') as Hch1 by apply Hwt1.
  assert (serving w1 srv loop' p' (c :: ds) (Some c)) as Hsv1.
  { pose proof (Serving.mb_registered _ _ _ _ _ _ _ _ _ Hmb) as Hreg. unfold LoopFacts.registered in Hreg.
    eapply Serving.serving_upd; [by apply Serving.serving_except|left; by left
      |exact Hat'|apply Hmb|apply Hmb|apply Hmb|apply Hmb|done|by rewrite Hchan'| | | |done|apply Hmb|done|constructor| |exact Hask].
    - rewrite Hmap1. symmetry. by apply insert_id.
    - intros ch0 Hch0. congruence.
    - apply (Serving.sv_fds _ _ _ _ _ _ _ _ _ _ _ Hsv). by eexists.
    - rewrite app_nil_r. apply Hsv. }
  pose proof (Serving.mb_loop _ _ _ _ _ _ _ _ _ Hmb) as Hcl.
  change (tc_loop_ conn') with (tc_loop_ conn). rewrite Hcl.
  destruct (destroyed_frame w srv loop p (c :: ds) c conn chan conn' chan' loop' h' p'' Hsv Hmb)
    as (Htidy & Hacc & Hspare); [done|congruence|].
  exists (Poller.setPoller (Some p'') loop'), p''. split_and!; [| | | | |exact Htidy|exact Hacc|exact Hspare].
  - eapply Serving.serving_destroyed; [exact Hsv1|exact Hc1|exact Hch1|exact Hbd1|exact Hreg1|done..|].
    by eapply Poller.asked_removed.
  - simpl; congruence.
  - apply Serving.idle_put_poller; [|done]. apply Serving.idle_upd; [done|]. rewrite Hchan'.
    exact (Hidle _ _ (Serving.mb_chan _ _ _ _ _ _ _ _ _ Hmb)).
  - destruct (Poller.same_index_lookup _ _ _ _ Hsame Hch1) as [j Hj].
    exists conn', (Channel.setIndex j chan'). split_and!; [done|done|apply Hbd1..|done|].
    rewrite Hmap, Hfd1. apply lookup_delete_eq.
  - intros c0 Hne Hdead. eapply Serving.dead_put_poller; [|exact Hsame|].
    + eapply Serving.dead_upd; [exact Hdead|done|apply Hmb|apply Hmb|done|exact Hmap1].
    + intros fd Hfd. rewrite Hmap. apply lookup_delete_None. by right.
Qed.

(** Each destroyed connection loses a [shared_ptr], and is deleted when it was the last. *)
Lemma release_serving w srv loop p ds :
  serving w srv loop p [] None → el_pending_functors_ loop = [] → Serving.idle w → NoDup ds →
  Forall (λ c, dead w p c ∧ ∀ name, ts_connections_ srv !! name ≠ Some c) ds →
  Serving.tidy_but ds w → Serving.accounted_but [] w →
  wpe exhausted (drop_functors (fn_destroyConnection <$> ds))
    (λ _ w', serving w' srv loop p [] None ∧ Serving.idle w' ∧ settled w' ∧ Frames.spares ds w w') w.
Proof.
  simpl. intros Hsv Hpend. revert w Hsv.
  induction ds as [|c ds IH]; intros w Hsv Hidle Hnd Hds Htidy Hacc.
  { apply wpe_ret. split; [done|]. split; [done|]. split; [|apply Frames.spares_refl].
    split; [by apply Serving.tidy_nil|done]. }
  apply NoDup_cons in Hnd as [Hc Hnd]. apply Forall_cons in Hds as [[Hdead Hmap] Hds].
  assert (ds ⊆ c :: ds) as Hsub by (intros x Hx; by right).
  simpl. apply wpe_bind. destruct (decide (held c w)) as [Hh|Hh].
  { eapply wpe_ok; [by apply Lifetime.release_shared|].
    eapply wpe_mono; [apply IH; try done|intros [] w' (? & ? & ? & ?); split_and!; eauto using Frames.spares_weaken].
    intros c0 Hin. destruct (Htidy c0 Hin) as [?|[->|?]%elem_of_cons]; [by left|by left|by right]. }
  destruct Hdead as (conn & chan & Hconn & Hchan & Hbd & Hfd & Hun).
  destruct (sys_close (tc_socket_ conn) (w_kernel w)) as [r k] eqn:Hclose.
  eapply wpe_ok.
  { rewrite Lifetime.release_last; [eapply Lifetime.dtor_ok; [done..|by eapply Hidle|done]|done|].
    intros f (c0 & -> & Hin)%list_elem_of_fmap. simpl. congruence. }
  assert (∀ c0, c0 ∈ ds → c ≠ c0) as Hne by (by intros c0 Hin <-).
  assert (Frames.spares (c :: ds) w (Lifetime.freed w c conn k)) as Hsp.
  { split; [done|]. intros c0 conn0 [Hne0 _]%not_elem_of_cons Hc0.
    apply (Frames.goes_on_same _ _ _ _ [EvClose (tc_socket_ conn)]); [simpl; by rewrite lookup_delete_ne|done|].
    constructor; [|done]. intros Heq. apply Hne0.
    by apply (Serving.dc_inj _ (Serving.sv_disciplined _ _ _ _ _ _ _ _ _ _ _ Hsv) c0 c conn0 conn). }
  apply (wpe_mono _ _ (λ _ w', serving w' srv loop p [] None ∧ Serving.idle w' ∧ settled w' ∧
    Frames.spares ds (Lifetime.freed w c conn k) w')).
  2:{ intros [] w' (? & ? & ? & ?). split_and!; [done..|].
      eapply Frames.spares_trans; [exact Hsp|by eapply Frames.spares_weaken]. }
  apply IH; [|by apply Serving.idle_freed|done| |by apply Serving.tidy_freed
    |apply Serving.accounted_freed; [done|apply Hsv|done]].
  - eapply Serving.serving_freed; [done| |done..|].
    + intros [Hin|[name Hn]]; [by apply not_elem_of_nil in Hin|by apply (Hmap name)].
    + pose proof (fds_close (tc_socket_ conn) (w_kernel w)) as He. rewrite Hclose in He. simpl in He.
      by rewrite He.
  - rewrite Forall_forall in Hds |- *. intros c0 Hin. destruct (Hds c0 Hin) as [Hd0 Hm0].
    split; [|done]. eapply Serving.dead_freed; [done..|by apply Hne|done].
Qed.

(** A change of the loop that keeps its poller. *)
Lemma serving_put_loop w srv loop loop' p ds :
  serving w srv loop p ds None → el_thread_id_ loop' = el_thread_id_ loop →
  el_poller_ loop' = Some p → serving (LoopFacts.put_loop l loop' w) srv loop' p ds None.
Proof.
  intros Hsv Ht Hp.
  eapply Serving.serving_frame; [exact Hsv|apply (Serving.same_rest_loops l w (w_channels w) (w_kernel w))
    |apply lookup_insert_eq|done|done|done|apply Hsv|done|done|].
  intros ch chan Hch. exists chan. split; [done|]. apply Serving.moved_refl.
Qed.

(** The functors of the queue run one after the other. *)
Lemma run_destroys w srv loop p ds cs :
  serving w srv loop p ds None → el_pending_functors_ loop = [] → Serving.idle w →
  Serving.tidy_but cs w → Serving.accounted_but [] w →
  wpe exhausted (for_each run_functor (fn_destroyConnection <$> ds))
    (λ _ w', ∃ loop' p', serving w' srv loop' p' [] None ∧ el_pending_functors_ loop' = [] ∧
       Serving.idle w' ∧ Forall (dead w' p') ds ∧ Serving.tidy_but cs w' ∧ Serving.accounted_but [] w' ∧
       Frames.spares ds w w') w.
Proof.
  intros Hsv Hpend Hidle Htidy Hacc. eapply wpe_mono.
  { apply (wpe_for_each _ _ (λ todo w', ∃ ds0 ds' loop' p', ds = ds0 ++ ds' ∧
      todo = fn_destroyConnection <$> ds' ∧ serving w' srv loop' p' ds' None ∧
      el_pending_functors_ loop' = [] ∧ Serving.idle w' ∧ Forall (dead w' p') ds0 ∧ Serving.tidy_but cs w' ∧
      Serving.accounted_but [] w' ∧ Frames.spares ds w w')).
    - exists [], ds, loop, p. do 8 (split; [done|]). apply Frames.spares_refl.
    - intros f todo w1 (ds0 & [|c ds'] & loop1 & p1 & Hds & Hf & Hsv1 & Hp1 & Hi1 & Hdead & Ht1 & Ha1 & Hsp1);
      simplify_eq/=.
      eapply wpe_mono; [by eapply destroyConnection_serving|].
      intros [] w2 (loop2 & p2 & Hsv2 & Hp2 & Hi2 & Hc & Hkeep & Ht2 & Ha2 & Hsp2).
      assert (Frames.spares (ds0 ++ c :: ds') w w2) as Hsp3.
      { eapply Frames.spares_trans; [exact Hsp1|]. eapply Frames.spares_weaken; [exact Hsp2|].
          intros x ->%list_elem_of_singleton. apply elem_of_app. right. by left. }
      exists (ds0 ++ [c]), ds', loop2, p2. rewrite <- app_assoc. split_and!; auto.
      apply Forall_app. split; [|by constructor]. apply Forall_forall. intros c0 Hin.
      rewrite Forall_forall in Hdead. apply Hkeep; [|by apply Hdead]. intros <-.
      pose proof (Serving.sv_nodup _ _ _ _ _ _ _ _ _ _ _ Hsv) as Hnd.
      apply NoDup_app in Hnd as (_ & Hnd & _). apply (Hnd c Hin). by left. }
  intros [] w1 (ds0 & [|] & loop1 & p1 & Hds & Hf & Hsv1 & Hp1 & Hi1 & Hdead & Ht1 & Ha1 & Hsp1); [|done].
  rewrite app_nil_r in Hds. subst ds0. by exists loop1, p1.
Qed.

(** The queue is emptied, its connections destroyed and deleted. *)
Lemma doPendingFunctors_serving w srv loop p ds :
  running w srv loop p ds → Serving.idle w → settled w →
  wpe exhausted (EventLoop.doPendingFunctors l) (λ _ w', at_rest w' ∧ Frames.spares ds w w') w.
Proof.
  intros (Hsv & [Hm Hc] & Hpend) Hidle [Htidy Hacc].
  eapply wpe_eq; [apply Dispatch.doPendingFunctors_unfold; [apply Hsv|done]|].
  assert (serving (LoopFacts.put_loop l (Dispatch.draining (w_tid w) loop) w) srv
    (Dispatch.draining (w_tid w) loop) p ds None) as Hsv0
    by (apply serving_put_loop with loop; [done|done|simpl; apply Hsv]).
  assert (Serving.tidy_but ds (LoopFacts.put_loop l (Dispatch.draining (w_tid w) loop) w)) as Htidy0
    by (eapply Serving.tidy_draining; [done|apply Hsv|done]).
  rewrite Hpend. apply wpe_bind. eapply wpe_mono; [by eapply (run_destroys _ _ _ _ _ ds)|].
  intros [] w1 (loop1 & p1 & Hsv1 & Hp1 & Hi1 & Hdead & Htidy1 & Hacc1 & Hsp1).
  apply wpe_bind. eapply wpe_modify; [apply Hsv1|].
  fold (LoopFacts.put_loop l (EventLoop.setCalling false loop1) w1).
  assert (serving (LoopFacts.put_loop l (EventLoop.setCalling false loop1) w1) srv
    (EventLoop.setCalling false loop1) p1 [] None) as Hsv2
    by (apply serving_put_loop with loop1; [done|done|simpl; apply Hsv1]).
  apply wpe_bind. eapply wpe_modify; [apply Hsv2|].
  set (loop2 := EventLoop.setMutex None (EventLoop.setCalling false loop1)).
  eapply wpe_mono; [eapply (release_serving _ srv loop2 p1)|].
  - eapply serving_put_loop; [exact Hsv2|done|simpl; apply Hsv1].
  - done.
  - done.
  - apply Hsv.
  - rewrite Forall_forall in Hdead |- *. intros c Hin. split; [by apply Hdead|].
    by apply (Serving.sv_closing _ _ _ _ _ _ _ _ _ _ _ Hsv c).
  - eapply Serving.tidy_but_frame; [exact Htidy1|done| |done]. simpl. rewrite insert_insert_eq.
    apply Serving.loops_put with loop1; [apply Hsv1|done].
  - exact Hacc1.
  - intros [] w2 (Hsv3 & Hi3 & Ht3 & Hsp3). split.
    { split; [done|]. split; [done|]. exists srv, loop2, p1. split; [done|].
      split; [done|]. simpl. by rewrite Hp1. }
    eapply Frames.spares_trans; [|exact Hsp3]. eapply Frames.spares_trans; [|by apply Frames.spares_same].
    eapply Frames.spares_trans; [by apply Frames.spares_same|exact Hsp1].
Qed.
End functors.
