(* ===== verification/ServingTheorems.v ===== *)
(** * A server at work never faults

    The invariant of [Serving] is kept by every callback of the loop, by the
    functors it runs and so by its iterations, for every kernel and every
    application that meet their laws; the faults that remain are a buffer that
    outgrows its address space, the connection number 2^31 and the year 292277. *)

From S2P Require Import Prelude Format Timestamp Buffer Kernel State CurrentThread Channel.
From S2P Require Import Descriptors Poller EventLoop Sample Registry Dispatch SocketsOptions Socket.
From S2P Require Import TcpConnection ConnectionTheorems Acceptor EventLoopThreadPool TcpServer.
From S2P Require Import Reactor Ledger Lifetime ServerTheorems Serving Frames.
From S2P Require Import ConnectionCallbacks LoopFunctors.

Section iterations.
Context `{K : Kernel} `{KL : !KernelLaws K} `{D : !Descriptors K} `{DL : !DescriptorLaws K}.
Context `{B : Build} `{BL : !BuildLaws B} `{A : !App} `{Mem : Memory}.
Context {L : Ledger} {LL : LedgerLaws L}.
Context (l : LoopPtr) (s : ServerPtr) (fcon fmsg : UserFunction) `{AL : !AppLaws A fcon fmsg}.
Context (others : gmap Z TcpServer * gmap Z EventLoop).

#[local] Abbreviation member := (Serving.member l s fcon fmsg).
#[local] Abbreviation serving := (Serving.serving l s fcon fmsg others).
#[local] Abbreviation running := (Serving.running l s fcon fmsg others).
#[local] Abbreviation at_rest := (Serving.at_rest l s fcon fmsg others).
#[local] Abbreviation dead := Serving.dead.
#[local] Abbreviation settled := Serving.settled.
#[local] Abbreviation served := (Frames.served s).
#[local] Abbreviation target := (Frames.target s).
#[local] Abbreviation busy := Frames.busy.
#[local] Abbreviation keeps_objects := (Frames.keeps_objects s).
#[local] Abbreviation keeps_targets := (Frames.keeps_targets s).
#[local] Abbreviation is_running :=
  (ConnectionCallbacks.is_running (l := l) (s := s) (fcon := fcon) (fmsg := fmsg) (others := others)).
#[local] Abbreviation dispatched :=
  (ConnectionCallbacks.dispatched (l := l) (s := s) (fcon := fcon) (fmsg := fmsg) (others := others)).
#[local] Abbreviation progress := (ConnectionCallbacks.progress (s := s)).
#[local] Abbreviation set_handling := Lifetime.set_handling.

(** ** Polling *)

(** What a poll leaves of the channels *)
Definition polled (r : sysret) (p : Poller) (revs : list Z) (h h' : gmap Z Channel) : Prop :=
  match r with
  | Ret _ => Poller.revents_stored (pl_channel_map_ p) (Poller.store_revents (pl_poll_fds_ p) revs) h h'
  | Err _ => h' = h
  end.

(** Each gets the events of its entry, among which a hang-up comes alone. *)
Lemma polled_moved w p timeout r revs k h' ch chan :
  sys_poll (pl_poll_fds_ p) timeout (w_kernel w) = (r, revs, k) → polled r p revs (w_channels w) h' →
  w_channels w !! ch = Some chan → ∃ chan', h' !! ch = Some chan' ∧ Serving.moved chan chan'.
Proof.
  intros Hpoll Hst Hc. destruct r as [n|e]; simpl in Hst;
    [|subst h'; exists chan; split; [done|apply Serving.moved_refl]].
  specialize (Hst ch). rewrite Hc in Hst. destruct (h' !! ch) as [chan'|]; [|done].
  exists chan'. split; [done|]. destruct Hst as [[-> _]|(pfd & Hin & _ & _ & ->)];
    [apply Serving.moved_refl|]. apply Serving.moved_revents. intros Hh.
  eapply poll_hup_alone; [exact Hpoll| |done].
  rewrite <- (Poller.revents_store_revents (pl_poll_fds_ p) revs) by (by eapply poll_length).
  apply list_elem_of_fmap. by exists pfd.
Qed.

Lemma polled_revents r p revs h h' ch chan :
  polled r p revs h h' → h !! ch = Some chan → ∃ rv, h' !! ch = Some (Channel.setRevents rv chan).
Proof.
  intros Hst Hc. destruct r as [n|e]; simpl in Hst; [by eapply Poller.stored_revents|subst h'].
  exists (ch_revents_ chan). rewrite Hc. by destruct chan.
Qed.

(** None begins to handle events. *)
Lemma polled_idle r p revs w w' :
  polled r p revs (w_channels w) (w_channels w') → Serving.idle w → Serving.idle w'.
Proof.
  intros Hst Hidle ch chan' Hc'. destruct r as [n|e]; simpl in Hst; [|rewrite Hst in Hc'; by eapply Hidle].
  specialize (Hst ch). rewrite Hc' in Hst. destruct (w_channels w !! ch) as [chan|] eqn:Hc; [|done].
  specialize (Hidle _ _ Hc). by destruct Hst as [[-> _]|(? & _ & _ & _ & ->)].
Qed.

(** A channel that reports is of the acceptor or of a connection in the map. *)
Lemma running_target w srv loop p fd ch :
  running w srv loop p [] → pl_channel_map_ p !! fd = Some ch → target w ch.
Proof.
  intros (Hsv & _) Hch. destruct (Serving.sv_registered _ _ _ _ _ _ _ _ _ _ _ Hsv _ _ Hch)
    as [(acc & ? & ?)|(c & conn & Hown & ? & ?)].
  - left. exists srv, acc. split; [apply Hsv|done].
  - right. exists c, conn. split; [|done].
    destruct Hown as [Hin|[name Hn]]; [by apply not_elem_of_nil in Hin|].
    exists srv, name. split; [apply Hsv|done].
Qed.

Lemma poll_serving w srv loop p timeout :
  running w srv loop p [] → Serving.idle w → settled w →
  wpe exhausted (Poller.poll l timeout []) (λ r w', ∃ loop' p', running w' srv loop' p' [] ∧
    Serving.idle w' ∧ settled w' ∧ Forall (target w') (snd r) ∧ NoDup (snd r)) w.
Proof.
  intros Hrun Hidle [Htidy Hacc]. pose proof Hrun as (Hsv & Hrest & Hpend).
  pose proof (Serving.sv_ok _ _ _ _ _ _ _ _ _ _ _ Hsv) as Hok.
  destruct (sys_poll (pl_poll_fds_ p) timeout (w_kernel w)) as [[r revs] k1] eqn:Hpoll.
  destruct (sys_gettimeofday k1) as [[sec usec] k2] eqn:Htime.
  assert (open_fds (w_kernel w) ⊆ open_fds k2) as Hk.
  { pose proof (fds_poll (pl_poll_fds_ p) timeout (w_kernel w)) as H1. rewrite Hpoll in H1.
    pose proof (fds_time k1) as H2. rewrite Htime in H2. simpl in *. by etrans. }
  destruct (Timestamp.now sec usec) as [now|f] eqn:Hnow.
  2:{ eapply wpe_fault; [eapply Poller.poll_late; [apply Hsv|apply Hsv|done..]|].
      by eapply now_exhausted. }
  destruct (Poller.poll_ok l loop p timeout [] r revs k1 sec usec k2 now w) as (h' & Hp & Hok' & Hst);
    [apply Hsv|apply Hsv|done..|]. cbn zeta in *.
  eapply wpe_ok; [exact Hp|]. set (p' := mkPoller _ _) in *. set (w' := Poller.put_poller _ _ _ _ _).
  change (polled r p revs (w_channels w) h') in Hst.
  pose proof (λ ch chan, polled_moved w p timeout r revs k1 h' ch chan Hpoll Hst) as Hch.
  assert (running w' srv (Poller.setPoller (Some p') loop) p' []) as Hrun'.
  { split; [|done]. eapply Serving.serving_frame;
      [exact Hsv|apply (Serving.same_rest_loops l w h' k2)|apply lookup_insert_eq|done|done|done|done| |done|done].
    intros Hask. apply (Poller.asked_polled (w_channels w)); [by eapply poll_length|done| |done].
    intros ch c. by eapply polled_revents. }
  eexists _, p'. split; [exact Hrun'|]. split; [by eapply polled_idle|]. split.
  { split; [|exact Hacc]. eapply Serving.tidy_frame; [exact Htidy|done| |done]. simpl.
    apply Serving.loops_put with loop; [apply Hsv|done]. }
  split.
  - destruct r as [n|e]; [|by constructor]. apply Forall_forall. intros ch Hin.
    apply Poller.reported_registered in Hin as [fd Hfd].
    by apply (running_target _ _ _ _ _ _ Hrun' Hfd).
  - destruct r as [n|e]; [|constructor].
    apply (Poller.reported_nodup h' p' Hok').
Qed.

(** The descriptor is reported writable whenever a poll asks for it. *)
Definition reports_writable (fd0 : Z) : Prop :=
  ∀ fds timeout k r revs k' i q, sys_poll fds timeout k = (r, revs, k') → fds !! i = Some q →
    fd q = fd0 → Channel.has (events q) POLLOUT = true →
    ∃ n rv, r = Ret n ∧ revs !! i = Some rv ∧ Channel.writable rv = true.

(** The array has an entry for a connection that has something to write, and asks for that. *)
Lemma pending_entry w srv loop p ds c :
  running w srv loop p ds → served w c →
  ∃ conn chan, w_conns w !! c = Some conn ∧ w_channels w !! tc_channel_ conn = Some chan ∧
    (TcpConnection.pending conn ≠ [] → ∃ i q, pl_poll_fds_ p !! i = Some q ∧ fd q = tc_socket_ conn ∧
       Channel.has (events q) POLLOUT = true ∧
       Poller.lookup_entry (w_channels w) p (fd q) = Some (Poller.mkEntry (tc_channel_ conn) (events q) false)).
Proof.
  intros Hrun (srv0 & name & Hs0 & Hn). pose proof Hrun as (Hsv & _).
  rewrite (Serving.sv_server _ _ _ _ _ _ _ _ _ _ _ Hsv) in Hs0. injection Hs0 as <-.
  destruct (Serving.sv_members _ _ _ _ _ _ _ _ _ _ _ Hsv name c Hn) as (conn & chan & Hmb & _ & Hfl & Hwi); [done|].
  exists conn, chan. split; [apply Hmb|]. split; [apply Hmb|]. intros Hne.
  pose proof (Serving.mb_registered _ _ _ _ _ _ _ _ _ Hmb) as Hreg. unfold LoopFacts.registered in Hreg.
  rewrite (Serving.mb_fd _ _ _ _ _ _ _ _ _ Hmb) in Hreg.
  pose proof (Serving.mb_chan _ _ _ _ _ _ _ _ _ Hmb) as Hch.
  pose proof (Serving.sv_ok _ _ _ _ _ _ _ _ _ _ _ Hsv) as Hok.
  pose proof (Poller.ok_entry _ _ _ _ _ Hok (Serving.sv_asked _ _ _ _ _ _ _ _ _ _ _ Hsv) Hreg Hch) as He.
  rewrite (Channel.watchesInput_some _ Hwi) in He.
  destruct (Poller.ok_registered _ _ _ _ _ Hok Hreg Hch) as (Hpos & _ & i & q & Hi & Hq & Hk).
  pose proof (Poller.ok_lookup_entry _ _ _ _ _ _ _ Hreg Hch Hi Hq) as He'. rewrite He in He'.
  injection He' as Hev Hneg. rewrite Hev in He. symmetry in Hneg. apply Z.ltb_ge in Hneg.
  rewrite Poller.key_pos in Hk by done. exists i, q. rewrite Hk. split_and!; try done.
  rewrite <- Hev. unfold TcpConnection.flushing, Channel.isWriting in Hfl.
  by rewrite bool_decide_false in Hfl.
Qed.

(** A poll reports the connections that have something to write. *)
Lemma poll_pending w srv loop p timeout :
  running w srv loop p [] →
  wpe exhausted (Poller.poll l timeout []) (λ r w', w_servers w' = w_servers w ∧
    w_conns w' = w_conns w ∧ w_trace w' = w_trace w ∧
    ∀ c conn, served w c → w_conns w !! c = Some conn → reports_writable (tc_socket_ conn) →
      TcpConnection.pending conn ≠ [] → tc_channel_ conn ∈ snd r ∧
      ∃ chan, w_channels w' !! tc_channel_ conn = Some chan ∧ Channel.writable (ch_revents_ chan) = true) w.
Proof.
  intros Hrun. pose proof Hrun as (Hsv & Hrest & Hpend).
  pose proof (Serving.sv_ok _ _ _ _ _ _ _ _ _ _ _ Hsv) as Hok.
  destruct (sys_poll (pl_poll_fds_ p) timeout (w_kernel w)) as [[r revs] k1] eqn:Hpoll.
  destruct (sys_gettimeofday k1) as [[sec usec] k2] eqn:Htime.
  destruct (Timestamp.now sec usec) as [now|f] eqn:Hnow.
  2:{ eapply wpe_fault; [eapply Poller.poll_late; [apply Hsv|apply Hsv|done..]|].
      by eapply now_exhausted. }
  pose proof (poll_length _ _ _ _ _ _ Hpoll) as Hlen.
  destruct (Poller.poll_ok l loop p timeout [] r revs k1 sec usec k2 now w) as (h' & Hp & Hok' & Hst);
    [apply Hsv|apply Hsv|done..|]. cbn zeta in *.
  eapply wpe_ok; [exact Hp|]. split; [done|]. split; [done|]. split; [done|].
  intros c conn Hs Hc Hrep Hne. destruct (pending_entry _ _ _ _ _ _ Hrun Hs) as (conn' & chan & Hc' & Hch & Hent).
  rewrite Hc in Hc'. injection Hc' as <-. destruct (Hent Hne) as (i & q & Hq & Hfd & Hev & He).
  destruct (Hrep _ _ _ _ _ _ i q Hpoll Hq Hfd Hev) as (n & rv & -> & Hrv & Hw).
  pose proof (Registry.implements_table l loop p w ltac:(apply Hsv) ltac:(apply Hsv) ltac:(apply Hsv) Hok) as Him.
  assert (Registry.kernel_reports (Registry.table (w_channels w) p) (pl_poll_fds_ p) revs (tc_channel_ conn) rv)
    as Hkr.
  { exists i, q. split; [done|]. split; [done|]. split.
    - pose proof (poll_revents _ _ _ _ _ _ Hpoll) as Hr. rewrite Forall_lookup in Hr.
      destruct (Hr _ _ Hrv) as [? _]. destruct (decide (rv = 0)) as [->|]; [done|lia].
    - by rewrite <- (Registry.im_entries _ _ _ _ _ Him). }
  split.
  - simpl. by apply (Registry.reported_kernel l loop p w _ revs _ Him Hlen); exists rv.
  - destruct (Registry.kernel_revents _ _ _ _ _ _ _ _ _ Him Hlen Hok' Hst Hkr) as (chan' & Hch' & Hr').
    exists chan'. split; [exact Hch'|]. by rewrite Hr'.
Qed.

(** ** The iterations *)

Lemma running_loop w srv loop loop' p ds :
  running w srv loop p ds → el_thread_id_ loop' = el_thread_id_ loop → el_poller_ loop' = el_poller_ loop →
  Serving.resting loop' → el_pending_functors_ loop' = el_pending_functors_ loop →
  running (LoopFacts.put_loop l loop' w) srv loop' p ds.
Proof.
  intros (Hsv & Hrest & Hpend) Ht Hp Hr' Hpe. split; [|split; [done|congruence]].
  eapply serving_put_loop; [exact Hsv|done|]. rewrite Hp. apply Hsv.
Qed.

Lemma settled_loop w srv loop loop' p ds :
  running w srv loop p ds → settled w → el_pending_functors_ loop' = el_pending_functors_ loop →
  settled (LoopFacts.put_loop l loop' w).
Proof.
  intros (Hsv & _) [Ht Ha] Hp. split; [|exact Ha]. eapply Serving.tidy_frame; [exact Ht|done| |done]. simpl.
  apply Serving.loops_put with loop; [apply Hsv|done].
Qed.

(** A connection in the map of a server that runs *)
Lemma served_member w srv loop p ds c :
  running w srv loop p ds → served w c →
  ∃ conn chan, ts_connections_ srv !! tc_name_ conn = Some c ∧ member w p c conn chan ∧
    Serving.watching conn chan.
Proof.
  intros (Hsv & _) (srv0 & name & Hs0 & Hn). rewrite (Serving.sv_server _ _ _ _ _ _ _ _ _ _ _ Hsv) in Hs0.
  injection Hs0 as <-. destruct (Serving.sv_members _ _ _ _ _ _ _ _ _ _ _ Hsv name c Hn)
    as (conn & chan & ? & <- & ?); [done|]. by exists conn, chan.
Qed.

(** The channel of a connection that was reported writable *)
Definition channel_progress (ch : Z) (w w' : World) : Prop :=
  ∀ c conn chan, served w c → w_conns w !! c = Some conn → tc_channel_ conn = ch →
    w_channels w !! ch = Some chan → progress c (ch_revents_ chan) w w'.

(** Dispatching to a channel that is due. *)
Lemma handle_active_serving w srv loop p ds ch :
  running w srv loop p ds → owned owner_garbage l → target w ch →
  wpe exhausted (EventLoop.handle_active l ch) (λ _ w', dispatched ch w w' ∧ channel_progress ch w w') w.
Proof.
  intros Hrun Hown Ht. pose proof Hrun as (Hsv & _).
  apply wpe_bind, (wpe_deref _ _ loop); [apply Hsv|].
  destruct Ht as [(srv0 & acc & Hs0 & Ha & <-)|(c & conn & Hs & Hc & <-)].
  - rewrite (Serving.sv_server _ _ _ _ _ _ _ _ _ _ _ Hsv) in Hs0. injection Hs0 as <-.
    eapply wpe_mono; [by eapply acceptor_events_serving|]. intros [] w' Hd. split; [done|].
    intros c conn chan Hs Hc Heq. destruct (served_member _ _ _ _ _ _ Hrun Hs) as (conn0 & chan0 & _ & Hmb & _).
    destruct (Serving.sv_listener _ _ _ _ _ _ _ _ _ _ _ Hsv) as (acc' & chan' & Hls).
    rewrite (Serving.ls_acceptor _ _ _ _ _ _ _ Hls) in Ha. injection Ha as <-.
    exfalso. apply (Serving.listener_ne _ _ _ _ _ _ _ c (tc_channel_ conn) chan0 Hls); [|apply Hmb|done].
    rewrite (Serving.mb_conn _ _ _ _ _ _ _ _ _ Hmb) in Hc. injection Hc as <-. apply Hmb.
  - destruct (served_member _ _ _ _ _ _ Hrun Hs) as (conn0 & chan & Hn & Hmb & Hwt).
    rewrite (Serving.mb_conn _ _ _ _ _ _ _ _ _ Hmb) in Hc. injection Hc as <-.
    eapply wpe_mono; [by eapply (conn_events_serving _ c _ (ch_revents_ chan)); eexists _, _, _, _, _, _|].
    intros [] w' [Hd Hp]. split; [done|]. intros c1 conn1 chan1 Hs1 Hc1 Heq Hch1.
    rewrite (Serving.mb_chan _ _ _ _ _ _ _ _ _ Hmb) in Hch1. injection Hch1 as <-.
    destruct (decide (c = c1)) as [<-|Hne]; [done|].
    destruct (served_member _ _ _ _ _ _ Hrun Hs1) as (conn2 & chan2 & _ & Hmb2 & _).
    rewrite (Serving.mb_conn _ _ _ _ _ _ _ _ _ Hmb2) in Hc1. injection Hc1 as <-. exfalso.
    by eapply (Serving.bound_ne w c c1); [apply Hmb|apply Hmb2|apply Hmb|apply Hmb2|..].
Qed.

(** While the channels [todo] of [active] are still to be dispatched to, after a poll that left [w0]: the
    connection goes on; it is untouched before its turn, and has made progress after it. *)
Record turn (active todo : list Z) (w0 w : World) (c : Z) (conn : TcpConnection) : Prop := {
  tn_goes_on : ∃ conn', Frames.goes_on w0 w c conn conn';
  tn_before : tc_channel_ conn ∈ todo →
    served w c ∧ w_channels w !! tc_channel_ conn = w_channels w0 !! tc_channel_ conn;
  tn_after chan : tc_channel_ conn ∈ active → tc_channel_ conn ∉ todo →
    w_channels w0 !! tc_channel_ conn = Some chan → progress c (ch_revents_ chan) w0 w
}.

Lemma turn_start active w c conn :
  served w c → w_conns w !! c = Some conn → turn active active w w c conn.
Proof. intros Hs Hc. constructor; [exists conn; by apply Frames.goes_on_refl|done|done]. Qed.

Lemma turn_step active ch todo w0 w w' c conn :
  w_conns w0 !! c = Some conn → is_Some (w_channels w0 !! tc_channel_ conn) →
  turn active (ch :: todo) w0 w c conn → ch ∉ todo →
  keeps_targets ch w w' → channel_progress ch w w' → turn active todo w0 w' c conn.
Proof.
  intros Hc0 [chan0 Hchan0] [(conn1 & G1) Hbefore Hafter] Hnin [[_ _ _ [Hg Hs Hb Hch]] _] Hprog.
  pose proof G1 as (Hc1 & (_ & Hcc & Hso & _) & _). destruct (Hg _ _ Hc1) as (conn2 & G2). constructor.
  - exists conn2. by eapply Frames.goes_on_trans.
  - intros Hin. destruct Hbefore as [Hs1 Heq]; [by right|].
    assert (tc_channel_ conn ≠ ch) as Hne by by intros <-.
    split; [apply (Hs c conn1); [done|congruence|done]|]. rewrite <- Heq in Hchan0. rewrite <- Heq, Hchan0.
    by apply Hch.
  - intros chan Hact Hn Hchan conn' Hc' Hs' Hwr Htake Hne. rewrite Hc0 in Hc'. injection Hc' as <-.
    destruct (decide (tc_channel_ conn = ch)) as [Heq|Hcne].
    + destruct Hbefore as [Hs1 Hsame]; [rewrite Heq; by left|]. rewrite Hchan, Heq in Hsame.
      eapply Frames.goes_on_progress; [exact G1|exact G2|done|]. intros Hne1.
      apply (Hprog c conn1 chan); try done; [congruence|by rewrite Hso].
    + eapply Nat.lt_le_trans.
      * eapply (Hafter chan); [done|by intros [?|?]%elem_of_cons|done|done| |done..].
        apply Hb; [by eexists|done].
      * rewrite <- Hso. apply prefix_length, (Frames.goes_on_sent _ _ _ _ _ G2).
Qed.

(** What an iteration does for a connection that stays in the map: when its socket is writable, some of what
    is pending leaves. *)
Definition advances (w w' : World) : Prop :=
  ∀ c conn, served w c → w_conns w !! c = Some conn → served w' c →
    ∃ conn', Frames.goes_on w w' c conn conn' ∧
      (reports_writable (tc_socket_ conn) → takes_bytes (tc_socket_ conn) →
       TcpConnection.pending conn ≠ [] →
       length (TcpConnection.sent (tc_socket_ conn) (w_trace w)) <
         length (TcpConnection.sent (tc_socket_ conn) (w_trace w')))%nat.

Lemma handle_all_serving w srv loop p active :
  running w srv loop p [] → Serving.idle w → settled w → owned owner_garbage l → NoDup active →
  Forall (target w) active →
  wpe exhausted (for_each (EventLoop.handle_active l) active)
    (λ _ w', is_running w' ∧ Serving.idle w' ∧ settled w' ∧
       ∀ c conn, served w c → w_conns w !! c = Some conn → turn active [] w w' c conn) w.
Proof.
  intros Hrun Hidle Hset Hown Hnd Htg. eapply wpe_mono.
  { apply (wpe_for_each _ _ (λ todo w', is_running w' ∧ Serving.idle w' ∧ settled w' ∧ NoDup todo ∧
      Forall (target w') todo ∧
      ∀ c conn, served w c → w_conns w !! c = Some conn → turn active todo w w' c conn)).
    - split; [by eexists _, _, _, _|]. do 4 (split; [done|]). intros c conn. apply turn_start.
    - intros ch todo w2 ((srv2 & loop3 & p2 & ds2 & Hrun3) & Hidle2 & Htidy2 & [Hch Hnd2]%NoDup_cons &
        [Ht2 Htg2]%Forall_cons & Hturn).
      eapply wpe_mono; [by eapply handle_active_serving|]. intros [] w3 ((Hr3 & Hkt & Hnb) & Hprog).
      split; [done|]. split; [by eapply Frames.keeps_idle|].
      split; [by eapply Frames.keeps_settled|]. split; [done|]. split.
      + apply Forall_forall. intros ch' Hin. apply Hkt; [by intros ->|].
        rewrite Forall_forall in Htg2. by apply Htg2.
      + intros c conn Hs Hc. apply (turn_step active ch todo w w2); auto.
        destruct (served_member _ _ _ _ _ _ Hrun Hs) as (conn0 & chan & _ & Hmb & _).
        rewrite (Serving.mb_conn _ _ _ _ _ _ _ _ _ Hmb) in Hc. injection Hc as <-. eexists. apply Hmb. }
  intros [] w' (? & ? & ? & _ & _ & ?). done.
Qed.

Lemma loop_iteration_serving w :
  at_rest w → owned owner_garbage l →
  wpe exhausted (EventLoop.loop_iteration l) (λ _ w', at_rest w' ∧ advances w w') w.
Proof.
  intros (Hidle & Htidy & srv & loop & p & Hrun) Hown. pose proof Hrun as (Hsv & Hrest & _).
  unfold EventLoop.loop_iteration. apply wpe_bind. eapply wpe_modify; [apply Hsv|].
  fold (LoopFacts.put_loop l (EventLoop.setActive [] loop) w).
  set (w0 := LoopFacts.put_loop l (EventLoop.setActive [] loop) w).
  assert (running w0 srv (EventLoop.setActive [] loop) p []) as Hrun0 by by eapply running_loop.
  assert (settled w0) as Hset0 by by eapply settled_loop.
  apply wpe_bind. eapply wpe_mono; [apply wpe_and;
    [by eapply poll_serving|by eapply poll_pending]|].
  intros [now active] w1 [(loop1 & p1 & Hrun1 & Hidle1 & Htidy1 & Htg & Hnd) (Hs1 & Hc1 & Htr1 & Hdue)].
  simpl in Htg, Hnd, Hdue, Hs1, Hc1, Htr1.
  pose proof Hrun1 as (Hsv1 & Hrest1 & _). apply wpe_bind. eapply wpe_modify; [apply Hsv1|].
  set (loop2 := EventLoop.setPollReturn now (EventLoop.setActive active loop1)).
  fold (LoopFacts.put_loop l loop2 w1).
  assert (running (LoopFacts.put_loop l loop2 w1) srv loop2 p1 []) as Hrun2 by by eapply running_loop.
  apply wpe_bind. eapply wpe_mono; [eapply handle_all_serving; [exact Hrun2|done|by eapply settled_loop|done|done|]|].
  { eapply Forall_impl; [exact Htg|]. intros ch. apply Frames.target_conns; [done..|eauto]. }
  intros [] w2 ((srv2 & loop3 & p2 & ds2 & Hrun3) & Hidle2 & Htidy2 & Hturn).
  eapply wpe_mono; [by eapply doPendingFunctors_serving|]. intros [] w3 [Hat Hsp]. split; [done|].
  intros c conn Hs Hc Hs3. rewrite <- Hc1 in Hc.
  destruct (Hturn c conn) as [(conn2 & G2) _ Hafter]; [|exact Hc|].
  { destruct Hs as (srv' & name & Hsrv & Hn). exists srv', name. split; [|done]. simpl. by rewrite Hs1. }
  assert (Frames.goes_on w (LoopFacts.put_loop l loop2 w1) c conn conn) as G1.
  { apply (Frames.goes_on_same _ _ _ _ []); [exact Hc|simpl; by rewrite Htr1, app_nil_r|done]. }
  assert (served w2 c) as Hs2.
  { destruct Hs3 as (srv' & name & Hsrv & Hn). exists srv', name. split; [|done].
    by rewrite <- (proj1 Hsp). }
  assert (c ∉ ds2) as Hnin.
  { destruct Hs2 as (srv' & name & Hsrv & Hn). pose proof Hrun3 as (Hsv3 & _).
    rewrite (Serving.sv_server _ _ _ _ _ _ _ _ _ _ _ Hsv3) in Hsrv. injection Hsrv as <-.
    by eapply running_not_closing. }
  pose proof (proj2 Hsp c conn2 Hnin (proj1 G2)) as G3. exists conn2.
  split; [eapply Frames.goes_on_trans; [exact G1|]; by eapply Frames.goes_on_trans|].
  intros Hrep Htake Hne. rewrite Hc1 in Hc.
  destruct (Hdue c conn Hs Hc Hrep Hne) as (Hin & chan & Hchan & Hwr).
  pose proof G2 as (_ & (_ & _ & Hso & _) & _). rewrite <- Htr1.
  eapply Nat.lt_le_trans; [|rewrite <- Hso; eapply prefix_length, (Frames.goes_on_sent _ _ _ _ _ G3)].
  rewrite Hso. eapply (Hafter chan); try done; [by apply not_elem_of_nil|]. by rewrite <- Hc1 in Hc.
Qed.

Lemma loop_while_serving fuel w :
  at_rest w → owned owner_garbage l → wpe exhausted (EventLoop.loop_while fuel l) (λ _ w', at_rest w') w.
Proof.
  intros Hw Hown. revert w Hw. induction fuel as [|fuel IH]; intros w Hw;
    pose proof Hw as (_ & _ & srv & loop & p & (Hsv & _)); simpl;
    apply wpe_bind, (wpe_deref _ _ loop); try apply Hsv; destruct (el_quit_ loop); try done.
  apply wpe_bind. eapply wpe_mono; [by apply loop_iteration_serving|]. intros [] w' [Hw' _]. by apply IH.
Qed.

Lemma loop_serving fuel w srv loop p :
  running w srv loop p [] → Serving.idle w → settled w → el_looping_ loop = false → owned owner_garbage l →
  wpe exhausted (EventLoop.loop fuel l) (λ _ w', at_rest w') w.
Proof.
  intros Hrun Hidle Htidy Hlo Hown. pose proof Hrun as (Hsv & Hrest & _).
  eapply wpe_eq; [apply Dispatch.loop_unfold; [apply Hsv|apply Hsv|done]|].
  assert (running (LoopFacts.put_loop l (Dispatch.started loop) w) srv (Dispatch.started loop) p [])
    as Hrun0 by by eapply running_loop.
  apply wpe_bind. eapply wpe_mono; [apply loop_while_serving; [split; [done|split; [by eapply settled_loop|by eexists _, _, _]]|done]|].
  intros ended w1 Hat. destruct ended; [|done].
  destruct Hat as (Hidle1 & Htidy1 & srv1 & loop1 & p1 & Hrun1). pose proof Hrun1 as (Hsv1 & Hrest1 & _).
  apply wpe_bind. eapply wpe_modify; [apply Hsv1|]. split; [done|].
  split; [by eapply settled_loop|]. eexists _, _, _. by eapply running_loop.
Qed.

End iterations.

(** ** Theorems *)
Section theorems.
Context `{K : Kernel} `{KL : !KernelLaws K} `{D : !Descriptors K} `{DL : !DescriptorLaws K}.
Context `{B : Build} `{BL : !BuildLaws B} `{A : !App} `{Mem : Memory}.
Context {L : Ledger} {LL : LedgerLaws L}.

(** C5: the invariant of a server at work.  Let a server without I/O threads be on
    its loop, between two iterations: every connection in its map is established, watched by
    the poller for input, and for output exactly while bytes are pending, and has its four callbacks, the
    array of the poller asks for the events its channels want, nothing else is watched but the listening
    socket, no functor is queued, no channel is handling events, every connection
    object has an owner, every descriptor that was accepted and not closed is of one of them, no descriptor
    was used or closed while it was not open, the other servers and loops of the process are as they
    were, and the books that the application keeps on its connections, for any
    books that meet [LedgerLaws], are in order.  Then
    one iteration of [EventLoop::loop], whatever the kernel reports, accepts,
    reads and writes within its laws and whatever an application within its laws sends,
    ends in such a state, the connections that went down destroyed and deleted, or stops because a
    buffer, a connection number or a time stamp outgrew its type: no assertion
    fails, no deleted object is used, no mutex is locked twice and no callback is empty. *)
Theorem iteration_keeps_invariant l s fcon fmsg `{AL : !AppLaws A fcon fmsg} others w :
  Serving.at_rest l s fcon fmsg others w → owned owner_garbage l →
  match EventLoop.loop_iteration l w with
  | Ok (_, w') => Serving.at_rest l s fcon fmsg others w'
  | Fault f => f = LengthError ∨ f = SignedOverflow
  end.
Proof.
  intros Hrest Hown. pose proof (loop_iteration_serving l s fcon fmsg others w Hrest Hown) as Hw.
  unfold wpe in Hw. destruct (EventLoop.loop_iteration l w) as [[? ?]|?]; [apply Hw|done].
Qed.

End theorems.
