(* ===== verification/Teardown.v ===== *)
(** * The end of a server (src/src/include/tcp_server.h, src/src/tcp_server.cpp)

    The destructors of [TcpServer] and of the parts it owns.  That of [TcpServer]
    has an empty body: the members end in the reverse order of their declaration,
    the map of the connections first, then the pool and the acceptor. *)

From S2P Require Import Prelude Timestamp Buffer Kernel State CurrentThread Channel Poller.
From S2P Require Import Descriptors EventLoop Dispatch SocketsOptions Socket TcpConnection Acceptor.
From S2P Require Import EventLoopThreadPool TcpServer Reactor Ledger Lifetime ServerTheorems Serving.

(** [~EventLoopThread], which quits the loop of its thread and joins it. *)
Class LoopEnders `{K : Kernel} : Type := {
  endLoop : LoopPtr → M unit
}.

Module Teardown.

Section operations.
Context `{K : Kernel} `{B : Build} `{A : !App} `{Mem : Memory} `{LE : !LoopEnders}.

(** The channel ends before the socket, which was declared before it. *)
Definition Acceptor_dtor (a : AcceptorPtr) : M unit :=
  acc ← deref a;
  chan ← deref (ac_channel_ acc);
  _ ← lift (Channel.Channel_dtor chan);
  _ ← free Channel (ac_channel_ acc);
  _ ← Socket.Socket_dtor (ac_socket_ acc);
  free Acceptor a.

(** The body is empty; the vector of the threads ends with the object. *)
Definition EventLoopThreadPool_dtor (pool : PoolPtr) : M unit :=
  t ← deref pool;
  _ ← for_each endLoop (tp_loops_ t);
  free EventLoopThreadPool pool.

(** One node of the map: its [shared_ptr] ends. *)
Definition drop_connection (s : ServerPtr) (e : string * ConnPtr) : M unit :=
  _ ← modify s (λ t, TcpServer.setConnections (delete e.1 (ts_connections_ t)) t);
  release e.2 [].

Definition TcpServer_dtor (s : ServerPtr) : M unit :=
  t ← deref s;
  _ ← for_each (drop_connection s) (map_to_list (ts_connections_ t));
  _ ← EventLoopThreadPool_dtor (ts_thread_pool_ t);
  _ ← Acceptor_dtor (ts_acceptor_ t);
  free TcpServer s.

End operations.

Section facts.
Context `{K : Kernel} `{KL : !KernelLaws K} `{D : !Descriptors K} `{DL : !DescriptorLaws K}.
Context `{B : Build} `{BL : !BuildLaws B} `{A : !App} `{Mem : Memory} `{LE : !LoopEnders}.
Context {L : Ledger} {LL : LedgerLaws L}.
Variables (l : LoopPtr) (s : ServerPtr) (fcon fmsg : UserFunction).
Variable others : gmap Z TcpServer * gmap Z EventLoop.

(** The server in the middle of its destructor: its map has the nodes [todo] left, which lead to all the
    connection objects there are; nothing else in the process owns one. *)
Record dismantling (w : World) (srv : TcpServer) (loop : EventLoop) (acc : Acceptor) (pool : EventLoopThreadPool)
    (todo : list (string * Z)) : Prop := {
  dm_servers : w_servers w = {[s := TcpServer.setConnections (list_to_map todo) srv]};
  dm_loops : w_loops w = {[l := loop]} ∧ el_pending_functors_ loop = [];
  dm_idle : Serving.idle w;
  dm_disciplined : Serving.disciplined w;
  dm_accounted : Serving.accounted_but [] w;
  dm_names : NoDup todo.*1;
  dm_objects : NoDup todo.*2;
  dm_all c : is_Some (w_conns w !! c) → c ∈ todo.*2;
  dm_conns c : c ∈ todo.*2 → ∃ conn chan, w_conns w !! c = Some conn ∧
    w_channels w !! tc_channel_ conn = Some chan ∧ Serving.bound_to c chan;
  dm_pool : w_pools w !! ts_thread_pool_ srv = Some pool ∧ tp_loops_ pool = [];
  dm_acceptor : w_acceptors w !! ts_acceptor_ srv = Some acc;
  dm_channel : ∃ chan, w_channels w !! ac_channel_ acc = Some chan ∧
    ch_read_cb_ chan = Some (cb_acceptorRead (ts_acceptor_ srv));
  dm_listening f : fd_after f (w_trace w) = FdListening ↔ f = ac_socket_ acc
}.

(** A server at rest that is alone in its process. *)
Lemma at_rest_dismantling w srv loop p :
  Serving.idle w → Serving.settled w → Serving.running l s fcon fmsg others w srv loop p [] →
  w_servers w = {[s := srv]} → w_loops w = {[l := loop]} →
  ∃ acc pool, dismantling w srv loop acc pool (map_to_list (ts_connections_ srv)).
Proof.
  intros Hidle [Htidy Hacc] (Hsv & Hrest & Hpend) Hs Hl.
  destruct (Serving.sv_listener _ _ _ _ _ _ _ _ _ _ _ Hsv) as (acc & achan & Hls).
  destruct (Serving.sv_pool _ _ _ _ _ _ _ _ _ _ _ Hsv) as (pool & Hpool & _ & Hnil).
  assert (∀ name c, (name, c) ∈ map_to_list (ts_connections_ srv) →
    ∃ conn chan, Serving.member l s fcon fmsg w p c conn chan ∧ tc_name_ conn = name) as Hmem.
  { intros name c Hin%elem_of_map_to_list.
    destruct (Serving.sv_members _ _ _ _ _ _ _ _ _ _ _ Hsv name c Hin) as (conn & chan & ? & ? & _); [done|].
    by exists conn, chan. }
  exists acc, pool. constructor; try done; try apply Hsv; try apply Hls.
  - rewrite Hs, list_to_map_to_list. by destruct srv.
  - apply NoDup_fst_map_to_list.
  - apply NoDup_fmap_2_strong; [|apply NoDup_map_to_list].
    intros [n1 c1] [n2 c2] H1 H2 Heq. simpl in Heq. subst c2.
    destruct (Hmem _ _ H1) as (conn1 & chan1 & M1 & <-), (Hmem _ _ H2) as (conn2 & chan2 & M2 & <-).
    pose proof (Serving.mb_conn _ _ _ _ _ _ _ _ _ M1). pose proof (Serving.mb_conn _ _ _ _ _ _ _ _ _ M2).
    congruence.
  - intros c Hc. specialize (Htidy c Hc). apply Serving.held_iff in Htidy as
      [(s' & srv' & name & Hs' & Hn)|(l' & loop' & f & Hl' & Hf & _)].
    + rewrite Hs in Hs'. apply lookup_singleton_Some in Hs' as [<- <-].
      apply list_elem_of_fmap. exists (name, c). split; [done|]. by apply elem_of_map_to_list.
    + rewrite Hl in Hl'. apply lookup_singleton_Some in Hl' as [<- <-]. rewrite Hpend in Hf.
      by apply not_elem_of_nil in Hf.
  - intros c [[name c'] [-> Hin]]%list_elem_of_fmap. destruct (Hmem _ _ Hin) as (conn & chan & M & _).
    exists conn, chan. split; [apply M|]. split; apply M.
  - split; [apply Hpool|done].
  - exists achan. split; [apply Hls|]. by destruct Hls as [_ _ _ _ (_ & _ & ? & _)].
Qed.

(** The process after the next node of the map is gone *)
Definition unmapped (w : World) (srv : TcpServer) (todo : list (string * Z)) : World :=
  set_servers {[s := TcpServer.setConnections (list_to_map todo) srv]} w.

Lemma unmapped_not_held w srv loop acc pool name c todo :
  dismantling w srv loop acc pool ((name, c) :: todo) → ¬ held c (unmapped w srv todo).
Proof.
  intros []. rewrite Serving.held_iff. simpl.
  intros [(s' & srv' & n & [<- <-]%lookup_singleton_Some & Hn)|(l' & loop' & f & Hl' & Hf & _)].
  - simpl in Hn. apply elem_of_list_to_map_2 in Hn. apply NoDup_cons in dm_objects0 as [Hc _]. apply Hc.
    apply list_elem_of_fmap. by exists (n, c).
  - destruct dm_loops0 as [Hl Hp]. rewrite Hl in Hl'. apply lookup_singleton_Some in Hl' as [<- <-].
    rewrite Hp in Hf. by apply not_elem_of_nil in Hf.
Qed.

Lemma dismantling_step w srv loop acc pool name c todo :
  dismantling w srv loop acc pool ((name, c) :: todo) →
  ∃ conn k, w_conns w !! c = Some conn ∧ open_fds k = open_fds (w_kernel w) ∖ {[tc_socket_ conn]} ∧
    let w' := Lifetime.freed (unmapped w srv todo) c conn k in
    drop_connection s (name, c) w = Ok ((), w') ∧ dismantling w' srv loop acc pool todo.
Proof.
  intros Hdm. pose proof (unmapped_not_held _ _ _ _ _ _ _ _ Hdm) as Hnh.
  destruct Hdm as [Hs [Hl Hp] Hidle Hdc Hacc Hnm Hob Hall Hconns Hpool Ha (achan & Hach & Hrc) Hlis].
  apply NoDup_cons in Hnm as [Hname Hnm], Hob as [Hc Hob].
  destruct (Hconns c) as (conn & chan & Hconn & Hch & Hbd); [by left|].
  set (w1 := unmapped w srv todo) in *.
  destruct (sys_close (tc_socket_ conn) (w_kernel w)) as [r k] eqn:Hclose.
  pose proof (fds_close (tc_socket_ conn) (w_kernel w)) as He. rewrite Hclose in He. simpl in He.
  exists conn, k. split; [done|]. split; [done|]. cbn zeta. fold w1. split.
  { unfold drop_connection, modify, mbind, M_bind, deref, store, update. simpl. rewrite Hs, lookup_singleton_eq.
    simpl. rewrite delete_insert_id by by apply not_elem_of_list_to_map_1.
    rewrite Hs, insert_singleton_eq. change (release c [] w1 = Ok ((), Lifetime.freed w1 c conn k)).
    rewrite Lifetime.release_last; [|done|by intros f []%not_elem_of_nil].
    eapply Lifetime.dtor_ok; [done..|by eapply Hidle|done]. }
  assert (∀ c', c' ∈ todo.*2 → c ≠ c') as Hne by by intros c' Hin <-.
  assert (Serving.disciplined w1) as Hdc1 by (eapply Serving.disciplined_frame; [exact Hdc|done|done|eauto]).
  constructor; try done.
  - by apply Serving.idle_freed.
  - apply Serving.disciplined_freed; [done|done|]. simpl. by rewrite He.
  - by apply Serving.accounted_freed.
  - intros c' Hin. simpl in Hin. apply lookup_delete_is_Some in Hin as [Hne' Hin].
    apply Hall in Hin. simpl in Hin. by apply elem_of_cons in Hin as [->|?].
  - intros c' Hin. destruct (Hconns c') as (conn' & chan' & Hconn' & Hch' & Hbd'); [by right|].
    exists conn', chan'. simpl. rewrite !lookup_delete_ne; [done| |by apply Hne].
    eapply Serving.bound_ne; [exact Hch|exact Hch'|done|done|by apply Hne].
  - exists achan. simpl. rewrite lookup_delete_ne; [done|]. intros Heq. rewrite Heq, Hach in Hch. simplify_eq.
    destruct Hbd as (_ & _ & Hr & _). congruence.
  - intros f. unfold w1. rewrite Serving.freed_trace by done. case_decide as Hf; [|done].
    rewrite <- Hlis, <- Hf. by rewrite (Serving.dc_conn _ Hdc _ _ Hconn).
Qed.

Lemma closed_not_open (X Y : gset Z) x : Y ⊆ X ∖ {[x]} → x ∉ Y.
Proof. intros HY Hx%HY. by apply elem_of_difference in Hx as [_ []%not_elem_of_singleton]. Qed.

Lemma closed_stays (X : gset Z) x y : x ∉ X → x ∉ X ∖ {[y]}.
Proof. intros Hx [? _]%elem_of_difference. done. Qed.

(** What is closed and deleted stays so. *)
Record shrunk (w w' : World) : Prop := {
  sh_fds : open_fds (w_kernel w') ⊆ open_fds (w_kernel w);
  sh_channels ch : w_channels w !! ch = None → w_channels w' !! ch = None;
  sh_conns c conn : w_conns w !! c = Some conn → w_conns w' !! c = None →
    (tc_socket_ conn ∉ open_fds (w_kernel w')) ∧ w_channels w' !! tc_channel_ conn = None
}.

Lemma dismantle_all todo w srv loop acc pool :
  dismantling w srv loop acc pool todo →
  ∃ w', for_each (drop_connection s) todo w = Ok ((), w') ∧ dismantling w' srv loop acc pool [] ∧
    shrunk w w'.
Proof.
  revert w. induction todo as [|[name c] todo IH]; intros w Hdm.
  { exists w. split; [done|]. split; [done|]. constructor; [done|done|congruence]. }
  destruct (dismantling_step _ _ _ _ _ _ _ _ Hdm) as (conn & k & Hconn & Hk & Hrun & Hdm1).
  destruct (IH _ Hdm1) as (w' & Hrest & Hdm' & [Hf Hch Hco]). simpl in Hf, Hch, Hco.
  exists w'. split; [simpl; unfold mbind, M_bind; by rewrite Hrun|]. split; [done|]. constructor.
  - etrans; [exact Hf|]. rewrite Hk. apply subseteq_difference_l. done.
  - intros ch Hn. apply Hch, lookup_delete_None. by right.
  - intros c0 conn0 H0 Hn. destruct (decide (c = c0)) as [<-|Hne].
    + simplify_eq. split; [eapply closed_not_open; by rewrite <- Hk|]. apply Hch, lookup_delete_eq.
    + apply (Hco c0); [|done]. by rewrite lookup_delete_ne.
Qed.

(** The server alone, without connections *)
Lemma TcpServer_dtor_bare w srv loop acc pool :
  dismantling w srv loop acc pool [] →
  ∃ w', (_ ← EventLoopThreadPool_dtor (ts_thread_pool_ srv);
         _ ← Acceptor_dtor (ts_acceptor_ srv);
         free TcpServer s) w = Ok ((), w') ∧
    w_servers w' = ∅ ∧ w_conns w' = ∅ ∧ w_loops w' = {[l := loop]} ∧
    w_channels w' = delete (ac_channel_ acc) (w_channels w) ∧
    w_trace w' = w_trace w ++ [EvClose (ac_socket_ acc)] ∧
    open_fds (w_kernel w') = open_fds (w_kernel w) ∖ {[ac_socket_ acc]}.
Proof.
  intros [Hs [Hl _] Hidle _ _ _ _ Hall _ [Hpool Hnil] Ha (achan & Hach & _) _].
  destruct (sys_close (ac_socket_ acc) (w_kernel w)) as [r k] eqn:Hclose.
  pose proof (fds_close (ac_socket_ acc) (w_kernel w)) as He. rewrite Hclose in He. simpl in He.
  eexists. split.
  { unfold EventLoopThreadPool_dtor, Acceptor_dtor, Channel.Channel_dtor, Socket.Socket_dtor, sockets.close,
      free, mbind, M_bind, deref, lift, update, emit, syscall. simpl.
    rewrite Hpool, Hnil. simpl. rewrite Hpool. simpl. rewrite Ha. simpl. rewrite Hach.
    rewrite assert_true by by rewrite (Hidle _ _ Hach). simpl. rewrite Hach. simpl. rewrite Hclose. simpl.
    rewrite Ha. simpl. rewrite Hs, lookup_singleton_eq. done. }
  simpl. split; [by rewrite Hs, delete_singleton_eq|]. split; [|done].
  apply map_eq. intros c. rewrite lookup_empty. destruct (w_conns w !! c) as [conn|] eqn:Hc; [|done].
  assert (c ∈ @nil Z) as []%not_elem_of_nil. apply (Hall c). by rewrite Hc.
Qed.

(** The destructor deletes every connection object and closes every descriptor that was accepted, and the
    listening one, in the history of the calls and in the kernel. *)
Lemma TcpServer_dtor_ok w srv loop p :
  Serving.idle w → Serving.settled w → Serving.running l s fcon fmsg others w srv loop p [] →
  w_servers w = {[s := srv]} → w_loops w = {[l := loop]} →
  ∃ w', TcpServer_dtor s w = Ok ((), w') ∧ w_servers w' = ∅ ∧ w_conns w' = ∅ ∧
    (∀ f, fd_after f (w_trace w') = FdClosed) ∧
    (∀ f, fd_after f (w_trace w) ≠ FdClosed → f ∉ open_fds (w_kernel w')) ∧
    w_loops w' = {[l := loop]} ∧
    (∀ fd ch, pl_channel_map_ p !! fd = Some ch → w_channels w' !! ch = None).
Proof.
  intros Hidle Hset Hrun Hs Hl.
  destruct (at_rest_dismantling _ _ _ _ Hidle Hset Hrun Hs Hl) as (acc & pool & Hdm).
  pose proof Hrun as (Hsv & _). pose proof (dm_acceptor _ _ _ _ _ _ Hdm) as Hacc0.
  destruct (dismantle_all _ _ _ _ _ _ Hdm) as (w1 & Hall & Hdm1 & [Hf Hch Hco]).
  destruct (TcpServer_dtor_bare _ _ _ _ _ Hdm1) as (w' & Hbare & Hs' & Hc' & Hl' & Hch' & Htr & Hk).
  assert (w_conns w1 = ∅) as Hno.
  { apply map_eq. intros c. rewrite lookup_empty. destruct (w_conns w1 !! c) as [conn|] eqn:Hc; [|done].
    assert (c ∈ @nil Z) as []%not_elem_of_nil. apply (dm_all _ _ _ _ _ _ Hdm1 c). by rewrite Hc. }
  assert (∀ c conn, w_conns w !! c = Some conn →
    (tc_socket_ conn ∉ open_fds (w_kernel w1)) ∧ w_channels w1 !! tc_channel_ conn = None) as Hgone.
  { intros c conn Hc. apply (Hco c); [done|]. by rewrite Hno, lookup_empty. }
  exists w'. split_and!; try done.
  - unfold TcpServer_dtor, mbind at 1, M_bind at 1, deref. simpl. rewrite Hs, lookup_singleton_eq.
    unfold mbind at 1, M_bind at 1. by rewrite Hall.
  - intros f. rewrite Htr. destruct (decide (ac_socket_ acc = f)) as [<-|Hne].
    + rewrite fd_after_this by done. by rewrite (proj2 (dm_listening _ _ _ _ _ _ Hdm1 _) eq_refl).
    + rewrite fd_after_other by done. destruct (fd_after f (w_trace w1)) eqn:Hst; [done|..].
      * by apply (dm_listening _ _ _ _ _ _ Hdm1) in Hst.
      * destruct (dm_accounted _ _ _ _ _ _ Hdm1 f Hst) as [?%not_elem_of_nil|(c & conn & Hc & _)]; [done|].
        by rewrite Hno, lookup_empty in Hc.
      * by apply (Serving.dc_sound _ (dm_disciplined _ _ _ _ _ _ Hdm1)) in Hst.
  - intros f Hst. rewrite Hk. destruct (fd_after f (w_trace w)) eqn:Heq; [done|..].
    + apply (dm_listening _ _ _ _ _ _ Hdm) in Heq as ->. by eapply closed_not_open.
    + destruct (dm_accounted _ _ _ _ _ _ Hdm f Heq) as [?%not_elem_of_nil|(c & conn & Hc & <-)]; [done|].
      apply closed_stays. by destruct (Hgone c conn Hc).
    + by apply (Serving.dc_sound _ (dm_disciplined _ _ _ _ _ _ Hdm)) in Heq.
  - intros fd ch Hm. rewrite Hch'. apply lookup_delete_None.
    destruct (Serving.sv_registered _ _ _ _ _ _ _ _ _ _ _ Hsv _ _ Hm) as [(acc' & Ha & <-)|(c & conn & _ & Hc & <-)].
    + left. congruence.
    + right. by destruct (Hgone c conn Hc).
Qed.

(** C35: a loop does not outlive its server.  The destructor of [TcpServer] takes no channel off the
    poller, neither that of the acceptor nor those of the connections: in a loop that goes on after
    it, the first poll that reports anything follows a pointer to a channel that was deleted. *)
Theorem poll_after_teardown_dangles w srv loop p w' timeout n revs k1 sec usec k2 now :
  Serving.idle w → Serving.settled w → Serving.running l s fcon fmsg others w srv loop p [] →
  w_servers w = {[s := srv]} → w_loops w = {[l := loop]} →
  TcpServer_dtor s w = Ok ((), w') →
  sys_poll (pl_poll_fds_ p) timeout (w_kernel w') = (Ret n, revs, k1) → 0 < n →
  sys_gettimeofday k1 = (sec, usec, k2) → Timestamp.now sec usec = Ok now →
  Poller.poll l timeout [] w' = Fault DanglingPointer.
Proof.
  intros Hidle Hset Hrun Hs Hl Hdtor Hpoll Hn Htime Hnow.
  destruct (TcpServer_dtor_ok _ _ _ _ Hidle Hset Hrun Hs Hl) as (w1 & Hdtor1 & _ & _ & _ & _ & Hl1 & Hgone).
  rewrite Hdtor1 in Hdtor. injection Hdtor as <-. pose proof Hrun as (Hsv & _).
  eapply Poller.poll_dangling; [by rewrite Hl1, lookup_singleton_eq|apply Hsv|apply Hsv|done..].
Qed.

End facts.

End Teardown.
