(* ===== verification/Echo.v ===== *)
(** * The echo application (src/example/echo.h, src/example/echo.cpp,
      src/example/main.cpp)

    [EchoServer] sends back what it receives.  Its [printf]s are left out; the
    calls of [CurrentThread::tid] among their arguments are not. *)

From S2P Require Import Prelude Timestamp Buffer Kernel State CurrentThread Channel Poller.
From S2P Require Import EventLoop Sample SocketsOptions Socket InetAddr TcpConnection Acceptor.
From S2P Require Import EventLoopThreadPool TcpServer.

Module EchoServer.
Section operations.
Context `{K : Kernel} `{B : Build}.

(** The numbers under which the two members are bound into the server. *)
Definition fn_onConnection : UserFunction := 1.
Definition fn_onMessage : UserFunction := 2.

Definition EchoServer_ctor (owner_garbage : LoopPtr) (loop : LoopPtr) (listenAddr : sockaddr_in)
    : M ServerPtr :=
  server_ ← TcpServer.TcpServer_ctor owner_garbage loop listenAddr;
  _ ← modify server_ (TcpServer.setConnectionCallback fn_onConnection);
  _ ← modify server_ (TcpServer.setMessageCallback fn_onMessage);
  mret server_.

Definition start `{LT : !LoopThreads} (server_ : ServerPtr) : M unit := TcpServer.start server_.

(** Both branches print, with the id of the thread. *)
Definition onConnection (conn : ConnPtr) : M unit :=
  t ← deref conn;
  if TcpConnection.connected t then _ ← CurrentThread.tid; mret ()
  else _ ← CurrentThread.tid; mret ().

(** [buf] is the input buffer of [conn]. *)
Definition onMessage (conn : ConnPtr) (recv_time : Timestamp.Timestamp) : M unit :=
  _ ← CurrentThread.tid;
  t ← deref conn;
  '(str, buf) ← lift (Buffer.retrieveAsString (tc_input_buffer_ t));
  _ ← modify conn (TcpConnection.setInput buf);
  TcpConnection.send conn str.

(** [main] of src/example/main.cpp; the first two arguments are what memory holds in the
    members that the constructor of the loop leaves alone. *)
Definition main (calling_garbage : bool) (wakeup_garbage : Z) (owner_garbage : LoopPtr)
    `{LT : !LoopThreads} `{CB : !Callbacks} `{F : !Functors} (fuel : nat) : M bool :=
  loop ← EventLoop.EventLoop_ctor calling_garbage wakeup_garbage;
  let listenAddr := InetAddress.InetAddress_port 2007 in
  server ← EchoServer_ctor owner_garbage loop listenAddr;
  _ ← start server;
  EventLoop.loop fuel loop.

#[export] Instance echo_app : App := {|
  app_connection _ conn := onConnection conn;
  app_message _ conn recv_time := onMessage conn recv_time;
  app_write_complete _ _ := mret ();
  app_functor _ := mret ()
|}.

End operations.

Section facts.
Context `{K : Kernel} `{B : Build} `{BL : !BuildLaws B} `{O : !ConnectionOwner}.

Lemma session_input w c conn chan loop p input evs k :
  TcpConnection.session w c conn chan loop p → Buffer.wf input →
  evs = [] ∨ (∃ d, evs = [EvRead (tc_socket_ conn) d]) →
  TcpConnection.session (TcpConnection.upd w c (TcpConnection.setInput input conn) chan loop evs k)
    c (TcpConnection.setInput input conn) chan loop p.
Proof.
  intros [Hlv Hfl Hst Hsd] Hwf Hevs. constructor; [by apply TcpConnection.handleRead_store|done..|].
  simpl. rewrite TcpConnection.shutdowns_app, Hsd. assert (TcpConnection.shutdowns (tc_socket_ conn) evs = 0%nat) as ->.
  { destruct Hevs as [->|[d ->]]; [done|]. unfold TcpConnection.shutdowns. by rewrite filter_cons_False. }
  by rewrite Nat.add_0_r.
Qed.

Lemma onMessage_ok `{KL : !KernelLaws K} w c conn chan loop p t :
  TcpConnection.session w c conn chan loop p → tc_state_ conn = Connected →
  TcpConnection.writer_room (tc_output_buffer_ conn)
    (zlen (Buffer.contents (tc_input_buffer_ conn))) →
  ∃ conn' chan' loop' p' w', onMessage c t w = Ok ((), w') ∧
    TcpConnection.session w' c conn' chan' loop' p' ∧ tc_state_ conn' = Connected ∧
    TcpConnection.out_stream w' conn' =
      TcpConnection.out_stream w conn ++ Buffer.contents (tc_input_buffer_ conn).
Proof.
  intros Hse Hs Hroom. pose proof Hse as [Hlv _ _ _].
  assert (Buffer.wf (tc_input_buffer_ conn)) as Hwf by by destruct Hlv.
  pose proof (session_input _ _ _ _ _ _ (Buffer.retrieveAll (tc_input_buffer_ conn)) [] (w_kernel w)
    Hse (Buffer.retrieveAll_wf _ Hwf) ltac:(by left)) as Hse1.
  destruct (TcpConnection.send_session _ _ _ _ _ _ (Buffer.contents (tc_input_buffer_ conn)) Hse1 Hs Hroom)
    as (conn' & chan' & loop' & p' & w' & Hsend & Hse' & Hs' & _ & Hout & _).
  exists conn', chan', loop', p', w'. split_and!; [|done|done|].
  - rewrite <- Hsend. destruct (TcpConnection.lv_thread _ _ _ _ _ _ Hlv) as (Hnz & Hcache & _).
    unfold onMessage, mbind, M_bind. rewrite tid_cached by done.
    unfold deref at 1. simpl. rewrite (TcpConnection.lv_conn _ _ _ _ _ _ Hlv).
    unfold lift. rewrite Buffer.retrieveAsString_ok by done.
    unfold modify, mbind, M_bind, deref, store, update. simpl.
    rewrite (TcpConnection.lv_conn _ _ _ _ _ _ Hlv).
    pose proof (TcpConnection.set_input_world _ _ _ _ _ _ (w_kernel w)
      (Buffer.retrieveAll (tc_input_buffer_ conn)) Hlv) as Heq.
    rewrite <- Heq. by destruct w.
  - rewrite Hout. unfold TcpConnection.out_stream. simpl. by rewrite app_nil_r.
Qed.

(** a connection of the echo server that reads the bytes [d] sends back
    what its input buffer held followed by [d]: afterwards these bytes follow the
    output given so far, on the wire or in the output buffer, and the connection
    is again in a correct session. *)
Theorem echo_sends_back_input `{KL : !KernelLaws K} w c conn chan loop p f d k t :
  TcpConnection.session w c conn chan loop p → tc_state_ conn = Connected →
  tc_message_cb_ conn = Some f → d ≠ [] →
  TcpConnection.writer_room (tc_input_buffer_ conn) (zlen d) →
  TcpConnection.writer_room (tc_output_buffer_ conn)
    (zlen (Buffer.contents (tc_input_buffer_ conn) ++ d)) →
  sys_readv (ch_fd_ chan) (Buffer.iov_room (tc_input_buffer_ conn)) (w_kernel w) =
    (Buffer.ReadvBytes d, k) →
  ∃ conn' chan' loop' p' w', TcpConnection.handleRead c t w = Ok ((), w') ∧
    TcpConnection.session w' c conn' chan' loop' p' ∧ tc_state_ conn' = Connected ∧
    TcpConnection.out_stream w' conn' =
      TcpConnection.out_stream w conn ++ Buffer.contents (tc_input_buffer_ conn) ++ d.
Proof.
  intros Hse Hs Hcb Hd Hin Hout Hr. pose proof Hse as [Hlv _ _ _].
  destruct (TcpConnection.handleRead_data _ _ _ _ _ _ d k t Hlv Hd Hin Hr)
    as (input & Hrun & Hlv1 & Hc).
  assert (Buffer.wf input) as Hwf by by destruct Hlv1.
  pose proof (session_input _ _ _ _ _ _ input [EvRead (tc_socket_ conn) d] k Hse Hwf
    ltac:(right; by exists d)) as Hse1.
  destruct (onMessage_ok _ _ _ _ _ _ t Hse1 Hs) as (conn' & chan' & loop' & p' & w' & Hmsg & Hse' & Hs' & Hstream).
  { simpl. by rewrite Hc. }
  exists conn', chan', loop', p', w'. split_and!; [|done|done|].
  - rewrite Hrun, Hcb. exact Hmsg.
  - rewrite Hstream. simpl. rewrite Hc. unfold TcpConnection.out_stream. simpl.
    by rewrite TcpConnection.sent_app, app_nil_r.
Qed.

End facts.

#[local] Existing Instance Scripted.kernel.
#[local] Existing Instance Scripted.kernel_laws.
#[local] Existing Instance debug_build.

Lemma echo_sample_session k :
  TcpConnection.session (Sample.world 7 k) 1 (Sample.conn Connected) Sample.chan Sample.loop
    Sample.poller.
Proof.
  constructor; [|vm_compute; done|by left|vm_compute; done].
  constructor; try done; [apply Sample.watchable|constructor; vm_compute; congruence..].
Qed.

Lemma echo_sends_back_input_witness :
  ∃ conn' w', TcpConnection.handleRead (O := TcpServer.connection_owner) 1 Timestamp.invalid
      (Sample.world 7 (Sample.script [Ret 1] [Buffer.ReadvBytes [x61; x62]])) = Ok ((), w') ∧
    TcpConnection.out_stream w' conn' = [x61; x62].
Proof.
  destruct (echo_sends_back_input (K := Scripted.kernel) (O := TcpServer.connection_owner)
    _ _ _ _ _ _ 2 [x61; x62] (Sample.script [Ret 1] []) Timestamp.invalid
    (echo_sample_session (Sample.script [Ret 1] [Buffer.ReadvBytes [x61; x62]])))
    as (conn' & chan' & loop' & p' & w' & Hrun & _ & _ & Hout); [done..| | |done|].
  - vm_compute. done.
  - vm_compute. done.
  - exists conn', w'. split; [exact Hrun|exact Hout].
Defined.

End EchoServer.
