(* ===== verification/EchoServing.v ===== *)
(** * The echo server from its construction to its loop

    The application of src/example meets the laws of [AppLaws], its
    construction and [start] reach the invariant of [Serving] on a loop that
    has a poller, and so its loop never faults; and with the books of this file,
    what it writes is what it reads. *)

From S2P Require Import Prelude Format Timestamp Buffer Kernel State CurrentThread Channel.
From S2P Require Import Descriptors Poller EventLoop Sample Dispatch SocketsOptions Socket InetAddr.
From S2P Require Import TcpConnection ConnectionTheorems Acceptor EventLoopThreadPool TcpServer.
From S2P Require Import Reactor Ledger ServerTheorems Serving ConnectionCallbacks ServingTheorems Teardown Echo.

Module EchoServing.

(** ** The books of the echo server

    What was read from a descriptor and what was written to it since it was last accepted *)
Definition traffic_step (fd : Z) (t : list byte * list byte) (e : event) : list byte * list byte :=
  match e with
  | EvAccept f => if f =? fd then ([], []) else t
  | EvRead f d => if f =? fd then (t.1 ++ d, t.2) else t
  | EvWrite f d => if f =? fd then (t.1, t.2 ++ d) else t
  | _ => t
  end.

Definition traffic (fd : Z) (tr : list event) : list byte * list byte :=
  foldl (traffic_step fd) ([], []) tr.

(** What was read is what was written and what is still to be written, and nothing waits in the input
    buffer but what was just read; of a descriptor alone, what was written is a prefix of what was read. *)
#[export] Instance echo_ledger : Ledger := {|
  led_conn fd tr s i o := s = Connected ∧ i = [] ∧ (traffic fd tr).1 = (traffic fd tr).2 ++ o;
  led_input fd tr s i o := s = Connected ∧ (traffic fd tr).1 = (traffic fd tr).2 ++ o ++ i;
  led_fd fd tr := (traffic fd tr).2 `prefix_of` (traffic fd tr).1
|}.

Lemma traffic_snoc fd tr e : traffic fd (tr ++ [e]) = traffic_step fd (traffic fd tr) e.
Proof. unfold traffic. by rewrite foldl_app. Qed.

Lemma traffic_other fd tr e : event_fd e ≠ fd → traffic fd (tr ++ [e]) = traffic fd tr.
Proof.
  intros Hne. rewrite traffic_snoc. destruct e; simpl in *; try done; by rewrite (proj2 (Z.eqb_neq _ _)).
Qed.

Lemma traffic_writes fd tr evs :
  TcpConnection.only_writes fd evs →
  traffic fd (tr ++ evs) = ((traffic fd tr).1, (traffic fd tr).2 ++ TcpConnection.sent fd evs).
Proof.
  intros Hevs. revert tr. induction Hevs as [|e evs [d ->] _ IH]; intros tr.
  - rewrite !app_nil_r. by destruct (traffic fd tr).
  - rewrite cons_middle, app_assoc, IH, traffic_snoc. simpl. rewrite Z.eqb_refl. simpl.
    by rewrite <- app_assoc.
Qed.

#[export] Instance echo_ledger_laws : LedgerLaws echo_ledger.
Proof.
  constructor; simpl.
  - intros fd tr s i o (_ & _ & ->). by eexists.
  - intros fd tr s i o e Hne. by rewrite traffic_other.
  - intros fd tr e Hne. by rewrite traffic_other.
  - intros fd tr. by rewrite traffic_snoc.
  - intros fd tr. by rewrite traffic_snoc.
  - intros fd tr. rewrite traffic_snoc. simpl. by rewrite Z.eqb_refl.
  - intros fd tr s i o d (-> & -> & Hr). rewrite traffic_snoc. simpl. rewrite Z.eqb_refl. simpl.
    by rewrite Hr, <- app_assoc.
  - intros fd tr s i o d (-> & -> & Hr). rewrite traffic_snoc. simpl. rewrite Z.eqb_refl. simpl.
    by rewrite Hr, <- app_assoc.
  - intros fd tr s i o. by rewrite traffic_snoc.
Qed.

#[local] Existing Instance EchoServer.echo_app.

Section laws.
Context `{K : Kernel} `{KL : !KernelLaws K} `{D : !Descriptors K} `{DL : !DescriptorLaws K}.
Context `{B : Build} `{BL : !BuildLaws B}.

Lemma keeps_send c m : keeps_fds (TcpConnection.send c m).
Proof.
  unfold TcpConnection.send, TcpConnection.sendInLoop, TcpConnection.write_directly,
    TcpConnection.buffer_rest, TcpConnection.queue_write_complete, EventLoop.runInLoop,
    EventLoop.queueInLoop, EventLoop.lock, EventLoop.unlock, EventLoop.wakeup, Channel.enableWriting,
    Channel.change, Channel.update, assertInLoopThread, isInLoopThread, CurrentThread.tid, emit.
  simpl. unfold EventLoop.updateChannel, Poller.updateChannel, Poller.on_poller, Poller.the_poller,
    assertInLoopThread, isInLoopThread, CurrentThread.tid.
  keeps_fds.
Qed.

(** [onMessage] up to its call of [send]. *)
Lemma onMessage_sends w c conn chan loop p t :
  TcpConnection.live w c conn chan loop p →
  EchoServer.onMessage c t w =
    TcpConnection.send c (Buffer.contents (tc_input_buffer_ conn))
      (TcpConnection.upd w c (TcpConnection.setInput (Buffer.retrieveAll (tc_input_buffer_ conn)) conn)
         chan loop [] (w_kernel w)).
Proof.
  intros Hlv. destruct (TcpConnection.lv_thread _ _ _ _ _ _ Hlv) as (Hnz & Hcache & _).
  assert (Buffer.wf (tc_input_buffer_ conn)) as Hwf by by destruct Hlv.
  unfold EchoServer.onMessage, mbind, M_bind. rewrite tid_cached by done.
  unfold deref at 1. simpl. rewrite (TcpConnection.lv_conn _ _ _ _ _ _ Hlv).
  unfold lift. rewrite Buffer.retrieveAsString_ok by done.
  unfold modify, mbind, M_bind, deref, store, update. simpl.
  rewrite (TcpConnection.lv_conn _ _ _ _ _ _ Hlv).
  rewrite <- (TcpConnection.set_input_world _ _ _ _ _ _ (w_kernel w) _ Hlv). by destruct w.
Qed.

Lemma onMessage_quiet w c conn chan loop p t :
  TcpConnection.live w c conn chan loop p → TcpConnection.flushing conn chan →
  Serving.unread w conn → quiet_step (EchoServer.onMessage c t) w c conn chan loop p.
Proof.
  intros Hlv Hfl [Hs Hbk]. unfold quiet_step.
  assert (Buffer.wf (tc_input_buffer_ conn)) as Hwf by by destruct Hlv.
  set (conn1 := TcpConnection.setInput (Buffer.retrieveAll (tc_input_buffer_ conn)) conn).
  assert (TcpConnection.live (TcpConnection.upd w c conn1 chan loop [] (w_kernel w)) c conn1 chan loop p)
    as Hlv1 by (apply TcpConnection.handleRead_store; [done|by apply Buffer.retrieveAll_wf]).
  eapply wpe_eq; [by eapply onMessage_sends|]. fold conn1.
  set (m := Buffer.contents _). set (w1 := TcpConnection.upd _ _ _ _ _ _ _) in *.
  assert (TcpConnection.send c m w1 = TcpConnection.sendInLoop c m w1) as Hsend.
  { unfold TcpConnection.send, mbind, M_bind, deref. simpl. rewrite lookup_insert_eq. simpl.
    rewrite Hs. simpl. by rewrite isInLoopThread_true by exact (TcpConnection.lv_thread _ _ _ _ _ _ Hlv1). }
  destruct (TcpConnection.sendInLoop_outcomes _ _ _ _ _ _ m Hlv1 Hfl)
    as [[Hf _]|(conn' & chan' & loop' & p' & evs & k' & Hm & Hlv' & Hfl' & Hk & Hs' & Hin & Hout & Hevs & _)].
  { by apply Buffer.contents_bound. }
  { eapply wpe_fault; [by rewrite Hsend|by left]. }
  cbn zeta in *. assert (Hm1 := Hm). rewrite <- Hsend in Hm1.
  pose proof (keeps_ok _ _ _ _ (keeps_send c m) Hm1) as Hfds.
  eapply wpe_ok; [exact Hm1|]. unfold w1 in Hlv', Hout |- *.
  rewrite TcpConnection.upd_upd in Hlv', Hout |- * by apply Hk.
  exists conn', chan', loop', p', evs, k'. split; [done|]. split; [exact Hlv'|]. split; [exact Hfl'|].
  split.
  { eapply (TcpConnection.kept_trans _ conn conn1).
    - apply TcpConnection.kept_same; [by eapply TcpConnection.lv_chan|done].
    - exact Hk. }
  split; [rewrite Hs'; change (tc_state_ conn1) with (tc_state_ conn); by rewrite Hs|].
  split; [rewrite Hout; apply prefix_app_r; unfold TcpConnection.out_stream; simpl; by rewrite app_nil_r|].
  split; [exact Hfds|].
  destruct Hk as [[(_ & _ & Hsock & _) _ _ _ _] _]. split.
  { eapply Forall_impl; [exact Hevs|]. by intros e [d ->]. }
  unfold TcpConnection.out_stream in Hout. simpl in Hout. rewrite Hsock in Hout. simpl in Hout.
  rewrite app_nil_r, TcpConnection.sent_app, <- !app_assoc in Hout. apply app_inv_head in Hout.
  unfold Serving.books. simpl. rewrite Hsock. simpl.
  split; [by rewrite Hs'|]. split; [by rewrite Hin; apply Buffer.retrieveAll_contents|].
  rewrite traffic_writes by done. simpl. rewrite Hbk, <- app_assoc. by rewrite Hout.
Qed.

#[export] Instance echo_laws :
  AppLaws EchoServer.echo_app EchoServer.fn_onConnection EchoServer.fn_onMessage.
Proof.
  constructor.
  - intros w c conn Hc (Hnz & Hcache & _). simpl. unfold EchoServer.onConnection, mbind, M_bind, deref.
    simpl. rewrite Hc. destruct (TcpConnection.connected conn); by rewrite tid_cached.
  - intros w c conn chan loop p t Hlv Hfl _ _ Hbk. by apply onMessage_quiet.
Qed.

End laws.

(** ** Construction and start *)
Section start.
Context `{K : Kernel} `{KL : !KernelLaws K} `{D : !Descriptors K} `{DL : !DescriptorLaws K}.
Context `{B : Build} `{BL : !BuildLaws B} `{Mem : Memory} `{LT : !LoopThreads}.

(** A loop in its thread, with an empty poller and nothing queued; no channel handles events, there is
    no connection yet and the trace begins. *)
Record fresh_loop (w : World) (l : Z) (loop : EventLoop) : Prop := {
  fl_thread : in_loop_thread l w;
  fl_loop : w_loops w !! l = Some loop;
  fl_poller : el_poller_ loop = Some (mkPoller [] ∅);
  fl_mutex : el_mutex_ loop = None;
  fl_calling : el_calling_pending_functors_ loop = false;
  fl_pending : el_pending_functors_ loop = [];
  fl_looping : el_looping_ loop = false;
  fl_idle : Serving.idle w;
  fl_conns : w_conns w = ∅;
  fl_trace : w_trace w = []
}.

(** The servers of the process and the loops other than [l] *)
Definition rest_of (w : World) (l : Z) : gmap Z TcpServer * gmap Z EventLoop :=
  (w_servers w, delete l (w_loops w)).

(** The socket type and protocol of the listening socket. *)
Definition listen_type : Z := Z.lor (Z.lor SOCK_STREAM SOCK_NONBLOCK) SOCK_CLOEXEC.

(** The objects a server is made of, at addresses that are free in [w]. *)
Definition new_acceptor (w : World) : Z := fresh (dom (w_acceptors w)).
Definition new_pool (w : World) : Z := fresh (dom (w_pools w)).
Definition new_server (w : World) : Z := fresh (dom (w_servers w)).

Lemma new_server_fresh w : w_servers w !! new_server w = None.
Proof. apply not_elem_of_dom_1. unfold new_server. apply is_fresh. Qed.

Definition listen_channel (l fd a : Z) : Channel :=
  Channel.setReadCallback (cb_acceptorRead a) (Channel.Channel_ctor owner_garbage l fd).

(** The process after the constructor of the echo server, with [started] and [listenning] for
    the flags of the server, its pool and its acceptor. *)
Definition built (w : World) (l : Z) (addr : sockaddr_in) (fd : Z) (k : kstate) (started listenning : bool)
    : World :=
  mkWorld k (w_tid w) (w_cachedTid w) (w_loopInThread w)
    (<[new_ch w := listen_channel l fd (new_acceptor w)]> (w_channels w)) (w_loops w) (w_conns w)
    (<[new_acceptor w := mkAcceptor l fd (new_ch w) (Some (new_server w)) listenning]> (w_acceptors w))
    (<[new_pool w := mkPool l started 0 0 []]> (w_pools w))
    (<[new_server w := mkTcpServer l (InetAddress.toHostPort addr) (new_acceptor w) (new_pool w)
         (Some EchoServer.fn_onConnection) (Some EchoServer.fn_onMessage) None started 1 ∅]>
       (w_servers w))
    (w_timers w) (w_timerQueues w) (w_trace w).

Lemma EchoServer_ctor_ok w l addr fd k :
  sys_socket listen_type IPPROTO_TCP (w_kernel w) = (Ret fd, k) →
  ∃ k', open_fds k ⊆ open_fds k' ∧
    EchoServer.EchoServer_ctor owner_garbage l addr w = Ok (new_server w, built w l addr fd k' false false).
Proof.
  intros Hs.
  pose proof (fds_setsockopt fd SOL_SOCKET SO_REUSEADDR 1 k) as Hk1.
  destruct (sys_setsockopt fd SOL_SOCKET SO_REUSEADDR 1 k) as [r1 k1] eqn:H1.
  pose proof (fds_bind fd addr k1) as Hk2. destruct (sys_bind fd addr k1) as [r2 k2] eqn:H2.
  exists k2. simpl in *. split; [by etrans|].
  unfold EchoServer.EchoServer_ctor, TcpServer.TcpServer_ctor, Acceptor.Acceptor_ctor,
    sockets.createNonblockingOrDie, EventLoopThreadPool.EventLoopThreadPool_ctor,
    Socket.setReuseAddr, Socket.set_option, Socket.bindAddress, sockets.bindOrDie, alloc, modify,
    store, update, read, deref, syscall, mbind, M_bind. simpl.
  unfold listen_type in Hs. rewrite Hs. simpl. rewrite H1. simpl. rewrite H2. simpl.
  repeat (rewrite lookup_insert_eq; simpl). rewrite !insert_insert_eq. done.
Qed.

(** [start] up to the call of [Acceptor::listen]. *)
Lemma start_listens w l addr fd k :
  in_loop_thread l w →
  EchoServer.start (new_server w) (built w l addr fd k false false) =
    Acceptor.listen (new_acceptor w) (built w l addr fd k true false).
Proof.
  intros Hin. assert (∀ k b, in_loop_thread l (built w l addr fd k b false)) as Hth.
  { intros k' b. revert Hin. apply in_loop_thread_frame; [done..|]. eauto. }
  unfold EchoServer.start, TcpServer.start, EventLoopThreadPool.start, Acceptor.listenning,
    modify, store, update, deref, mbind, M_bind, lift. simpl.
  repeat (rewrite lookup_insert_eq; simpl). rewrite assert_true by done.
  set (w1 := set_servers _ _). assert (in_loop_thread l w1) as Hth1.
  { pose proof (Hth k false) as H. revert H. apply in_loop_thread_frame; [done..|]. eauto. }
  rewrite assertInLoopThread_ok by done. unfold w1. simpl.
  repeat (rewrite lookup_insert_eq; simpl).
  unfold EventLoop.runInLoop, mbind, M_bind.
  set (w2 := set_pools _ _).
  assert (w2 = built w l addr fd k true false) as ->.
  { unfold w2, built, set_pools, set_servers. simpl. by rewrite !insert_insert_eq. }
  rewrite isInLoopThread_true; [done|]. pose proof (Hth k false) as H. revert H.
  apply in_loop_thread_frame; [done..|]. eauto.
Qed.

(** The process before the listening channel is enabled. *)
Definition bound (w : World) (l : Z) (addr : sockaddr_in) (fd : Z) (k : kstate) : World :=
  set_trace (w_trace w ++ [EvListen fd]) (built w l addr fd k true true).

Lemma listen_enables w l addr fd k :
  in_loop_thread l w →
  ∃ k', open_fds k ⊆ open_fds k' ∧
    Acceptor.listen (new_acceptor w) (built w l addr fd k true false) =
      Channel.enableReading (new_ch w) (bound w l addr fd k').
Proof.
  intros Hth. pose proof (fds_listen fd k) as Hk. destruct (sys_listen fd k) as [r k'] eqn:Hl.
  exists k'. split; [done|].
  unfold Acceptor.listen, Socket.listen, sockets.listenOrDie, modify, store, update, emit, deref,
    syscall, mbind, M_bind. simpl. repeat (rewrite lookup_insert_eq; simpl).
  rewrite assertInLoopThread_ok.
  2:{ revert Hth. apply in_loop_thread_frame; [done..|]. eauto. }
  simpl. rewrite lookup_insert_eq. simpl. rewrite Hl. simpl.
  unfold bound, built, update, set_trace, set_acceptors, set_kernel. simpl.
  by rewrite insert_insert_eq.
Qed.

(** The poller with the listening channel alone. *)
Lemma listening_watchable w l loop addr fd k :
  fresh_loop w l loop → 0 ≤ fd → owned owner_garbage l →
  LoopFacts.watchable (bound w l addr fd k) l (new_ch w) loop (mkPoller [] ∅)
    (listen_channel l fd (new_acceptor w)).
Proof.
  intros [Hth Hl Hp _ _ _ _ _ _ _] Hfd Hown. constructor; try done.
  split; [simpl; apply lookup_insert_eq|]. split; [done|]. split; [apply Channel.wf_none|].
  left. split_and!; [done|apply lookup_empty|simpl; change (zlen []) with 0; lia].
Qed.

(** The listening channel in the poller, and the process then *)
Definition watched_channel (l fd a i : Z) : Channel :=
  Channel.setIndex i (Channel.setEvents (Channel.withReading 0) (listen_channel l fd a)).

Definition listening (w : World) (l : Z) (loop : EventLoop) (addr : sockaddr_in) (fd : Z) (k : kstate)
    (i : Z) (p : Poller) : World :=
  Poller.put_poller l loop
    (<[new_ch w := watched_channel l fd (new_acceptor w) i]> (w_channels (bound w l addr fd k))) p
    (bound w l addr fd k).

(** The listening descriptor is the only one that is not closed. *)
Lemma listen_after f fd :
  fd_after f [EvListen fd] = FdClosed ∨ fd_after f [EvListen fd] = FdListening ∧ fd = f.
Proof.
  unfold fd_after, fd_next. simpl. destruct (fd =? f) eqn:Heq; [|by left].
  right. split; [done|]. by apply Z.eqb_eq.
Qed.

Lemma listening_idle w l loop addr fd k i p :
  fresh_loop w l loop → Serving.idle (listening w l loop addr fd k i p) ∧
    Serving.settled (listening w l loop addr fd k i p).
Proof.
  intros [_ _ _ _ _ _ _ Hidle Hno Htr]. split; [|split].
  - intros ch c Hc'. simpl in Hc'.
    apply lookup_insert_Some in Hc' as [[_ <-]|[_ Hc']]; [done|].
    apply lookup_insert_Some in Hc' as [[_ <-]|[_ Hc']]; [done|by eapply Hidle].
  - intros c [conn Hc']. simpl in Hc'. by rewrite Hno, lookup_empty in Hc'.
  - intros f. simpl. rewrite Htr. simpl. by destruct (listen_after f fd) as [->|[-> _]].
Qed.

(** It is in the invariant. *)
Lemma listening_running w l loop addr fd k i p' :
  fresh_loop w l loop → owned owner_garbage l → fd ∈ open_fds k →
  LoopFacts.watchable (listening w l loop addr fd k i p') l (new_ch w) (Poller.setPoller (Some p') loop) p'
    (watched_channel l fd (new_acceptor w) i) →
  LoopFacts.registered p' (new_ch w) (watched_channel l fd (new_acceptor w) i) →
  pl_channel_map_ p' = <[fd := new_ch w]> ∅ → Poller.asked (w_channels (listening w l loop addr fd k i p')) p' →
  Serving.running l (new_server w) EchoServer.fn_onConnection EchoServer.fn_onMessage (rest_of w l)
    (listening w l loop addr fd k i p') (mkTcpServer l (InetAddress.toHostPort addr) (new_acceptor w) (new_pool w)
         (Some EchoServer.fn_onConnection) (Some EchoServer.fn_onMessage) None true 1 ∅)
    (Poller.setPoller (Some p') loop) p' [].
Proof.
  intros [Hth Hl Hp Hm Hc Hpe Hlo Hidle Hno Htr] Hown Hin Hwt Hreg Hmap Hask.
  pose proof Hwt as [Hth' Hl' Hp' Hok' (Hch' & _) _ _]. pose proof (λ f, listen_after f fd) as Hfds.
  split; [|done]. constructor.
  - exact Hth'.
  - simpl. apply lookup_insert_eq.
  - done.
  - simpl. lia.
  - intros name c Hn. simpl in Hn. by rewrite lookup_empty in Hn.
  - exists (mkPool l true 0 0 []). split; [|done]. constructor; [simpl; apply lookup_insert_eq|done|done|done|done].
  - exact Hl'.
  - done.
  - exact Hok'.
  - exact Hask.
  - intros f Hf. rewrite Hmap in Hf. apply lookup_insert_is_Some in Hf as [<-|[_ [? Hf]]].
    + exact Hin.
    + by rewrite lookup_empty in Hf.
  - exists (mkAcceptor l fd (new_ch w) (Some (new_server w)) true),
      (watched_channel l fd (new_acceptor w) i).
    constructor; try done; [simpl; apply lookup_insert_eq|].
    intros f. simpl. rewrite Htr. simpl. split.
    + by destruct (Hfds f) as [->|[_ ->]].
    + intros ->. unfold fd_after, fd_next. simpl. by rewrite Z.eqb_refl.
  - intros name c Hn. simpl in Hn. by rewrite lookup_empty in Hn.
  - intros c Hn. by apply not_elem_of_nil in Hn.
  - constructor.
  - intros f ch Hf. rewrite Hmap in Hf. apply lookup_insert_Some in Hf as [[_ <-]|[_ Hf]].
    + left. eexists. split; [simpl; apply lookup_insert_eq|done].
    + by rewrite lookup_empty in Hf.
  - intros f. simpl. by rewrite Htr.
  - constructor; simpl; rewrite ?Htr, ?Hno; simpl.
    + intros f. by destruct (Hfds f) as [->|[-> _]].
    + intros f. destruct (Hfds f) as [->|[_ <-]]; [done|]. by intros _.
    + intros c conn H0. by rewrite lookup_empty in H0.
    + intros c1 c2 conn1 conn2 H0. by rewrite lookup_empty in H0.
  - simpl. rewrite delete_insert_eq, delete_id by apply new_server_fresh. by rewrite delete_insert_eq.
Qed.

(** [start] reaches the invariant. *)
Lemma start_running w l loop addr fd k :
  fresh_loop w l loop → 0 ≤ fd → owned owner_garbage l → fd ∈ open_fds k →
  ∃ w' srv loop' p', EchoServer.start (new_server w) (built w l addr fd k false false) = Ok ((), w') ∧
    Serving.running l (new_server w) EchoServer.fn_onConnection EchoServer.fn_onMessage (rest_of w l) w' srv loop' p' [] ∧
    Serving.idle w' ∧ Serving.settled w' ∧ el_looping_ loop' = false ∧ w_trace w' = w_trace w ++ [EvListen fd].
Proof.
  intros Hfl Hfd Hown Hin. destruct (listen_enables w l addr fd k (fl_thread _ _ _ Hfl)) as (k' & Hk & Hlis).
  destruct (LoopFacts.change_ok Channel.withReading _ _ _ _ _ _
    (listening_watchable w l loop addr fd k' Hfl Hfd Hown)) as (i & p' & Hch & Hwt & Hreg & Hmap & Hlk).
  { by apply Channel.wf_withReading. }
  cbn zeta in Hch, Hwt. simpl in Hmap.
  exists (listening w l loop addr fd k' i p'). eexists _, (Poller.setPoller (Some p') loop), p'.
  split; [by rewrite start_listens, Hlis by apply Hfl|].
  split; [|destruct (listening_idle w l loop addr fd k' i p' Hfl); split_and!; [done..|apply Hfl|done]].
  apply listening_running; [done|done|by apply Hk|exact Hwt|exact Hreg|exact Hmap|].
  eapply LoopFacts.change_asked; [by apply (listening_watchable w l loop addr fd k')|done|done|exact Hlk|].
  by apply Poller.asked_empty.
Qed.

(** Construction, [start] and any number of iterations *)
Lemma echo_run_ok fuel w l loop addr fd k :
  fresh_loop w l loop → owned owner_garbage l →
  sys_socket listen_type IPPROTO_TCP (w_kernel w) = (Ret fd, k) →
  match (s ← EchoServer.EchoServer_ctor owner_garbage l addr;
         _ ← EchoServer.start s;
         EventLoop.loop fuel l) w with
  | Ok (_, w') => ∃ s, Serving.at_rest l s EchoServer.fn_onConnection EchoServer.fn_onMessage (rest_of w l) w'
  | Fault f => f = LengthError ∨ f = SignedOverflow
  end.
Proof.
  intros Hfl Hown Hs. destruct (fds_socket _ _ _ _ _ Hs) as [Hk (Hfd & Hnew & Hin)].
  destruct (EchoServer_ctor_ok w l addr fd k Hs) as (k' & Hk' & Hctor).
  destruct (start_running w l loop addr fd k' Hfl Hfd Hown ltac:(by apply Hk'))
    as (w' & srv & loop' & p' & Hst & Hrun & Hidle & Htidy & Hlo & _).
  unfold mbind, M_bind. rewrite Hctor, Hst.
  pose proof (loop_serving l _ _ _ _ fuel w' srv loop' p' Hrun Hidle Htidy Hlo Hown) as Hw. unfold wpe in Hw.
  destruct (EventLoop.loop fuel l w') as [[? w'']|?]; [|exact Hw].
  by exists (new_server w).
Qed.

(** the echo server constructed and started in the thread of a loop with an
    empty poller, and then that loop for any number of iterations, whatever clients
    connect, send, stop reading or close and however much each system call
    takes: the process ends in the invariant of a server at work, or a buffer, a
    connection number or a time stamp outgrew its type.  No assertion of the
    library fails, nothing dangles, no connection object leaks and no mutex is locked twice.  The kernel must
    give a listening socket, and in a debug build the memory of a new [Channel] must happen to
    hold the loop in [owner_loop_], which the library never sets. *)
Theorem echo_server_never_faults fuel w l loop addr fd k :
  fresh_loop w l loop → owned owner_garbage l →
  sys_socket listen_type IPPROTO_TCP (w_kernel w) = (Ret fd, k) →
  match (s ← EchoServer.EchoServer_ctor owner_garbage l addr;
         _ ← EchoServer.start s;
         EventLoop.loop fuel l) w with
  | Ok (_, w') => ∃ s, Serving.at_rest l s EchoServer.fn_onConnection EchoServer.fn_onMessage (rest_of w l) w'
  | Fault f => f = LengthError ∨ f = SignedOverflow
  end.
Proof. apply echo_run_ok. Qed.

(** C1: the server echoes, on a loop that has a poller, which no constructor of the library gives
    it (see [main_dies_in_start]), when [socket()] gives the listening socket and, in a build with
    assertions, the memory of every new [Channel] happens to hold the loop in [owner_loop_], which
    is never set.  Whatever the clients do and whatever else the system calls answer within
    [KernelLaws] and [DescriptorLaws], what was written to a descriptor since it was last accepted is at any time a prefix
    of what was read from it; and for every connection that is still in the map, what was
    read is exactly what was written, followed by what waits in its output buffer, and
    nothing waits in its input buffer: no byte is lost, repeated, reordered or sent to
    another client, however the reads and writes were cut.  The process stops only when a
    buffer, a connection number or a time stamp outgrew its type. *)
Theorem echo_server_echoes fuel w l loop addr fd k :
  fresh_loop w l loop → owned owner_garbage l →
  sys_socket listen_type IPPROTO_TCP (w_kernel w) = (Ret fd, k) →
  match (s ← EchoServer.EchoServer_ctor owner_garbage l addr;
         _ ← EchoServer.start s;
         EventLoop.loop fuel l) w with
  | Ok (_, w') =>
      (∀ f, (traffic f (w_trace w')).2 `prefix_of` (traffic f (w_trace w')).1) ∧
      ∃ s srv, w_servers w' !! s = Some srv ∧
        ∀ name c, ts_connections_ srv !! name = Some c →
          ∃ conn, w_conns w' !! c = Some conn ∧ tc_state_ conn = Connected ∧
            Buffer.contents (tc_input_buffer_ conn) = [] ∧
            let t := traffic (tc_socket_ conn) (w_trace w') in
            t.1 = t.2 ++ Buffer.contents (tc_output_buffer_ conn)
  | Fault f => f = LengthError ∨ f = SignedOverflow
  end.
Proof.
  intros Hfl Hown Hs. pose proof (echo_run_ok fuel w l loop addr fd k Hfl Hown Hs) as Hrun.
  lazymatch type of Hrun with
  | match ?r with _ => _ end => destruct r as [[b w']|f]; [|exact Hrun]
  end.
  destruct Hrun as (s & _ & _ & srv & loop' & p & Hsv & _).
  split; [exact (Serving.sv_books _ _ _ _ _ _ _ _ _ _ _ Hsv)|]. exists s, srv. split; [apply Hsv|].
  intros name c Hn.
  destruct (Serving.sv_members _ _ _ _ _ _ _ _ _ _ _ Hsv name c Hn) as (conn & chan & Hmb & _); [done|].
  exists conn. split; [apply Hmb|]. exact (Serving.mb_books _ _ _ _ _ _ _ _ _ Hmb).
Qed.

(** C4: descriptors are neither leaked nor misused, on a loop that has a poller, which no
    constructor of the library gives it, when [socket()] gives the listening socket and, in a build
    with assertions, memory happens to hold the loop in [owner_loop_] of every new [Channel].
    Whatever the clients do, whatever else the system calls answer within [KernelLaws] and
    [DescriptorLaws] and however often a client connects and leaves, no descriptor was ever
    read, written, shut down or closed while it was not open, and none was accepted twice without a
    close; after any number of iterations the descriptors that were accepted and not closed are
    exactly those of the connection objects that exist, each of one object alone, which the map
    of a server or a queued functor holds, and the kernel has it open. *)
Theorem echo_server_descriptors fuel w l loop addr fd k :
  fresh_loop w l loop → owned owner_garbage l →
  sys_socket listen_type IPPROTO_TCP (w_kernel w) = (Ret fd, k) →
  match (s ← EchoServer.EchoServer_ctor owner_garbage l addr;
         _ ← EchoServer.start s;
         EventLoop.loop fuel l) w with
  | Ok (_, w') =>
      (∀ f, fd_after f (w_trace w') ≠ FdMisused) ∧
      (∀ f, fd_after f (w_trace w') = FdOpen ↔
         ∃ c conn, w_conns w' !! c = Some conn ∧ tc_socket_ conn = f) ∧
      (∀ c c' conn conn', w_conns w' !! c = Some conn → w_conns w' !! c' = Some conn' →
         tc_socket_ conn = tc_socket_ conn' → c = c') ∧
      ∀ c conn, w_conns w' !! c = Some conn → held c w' ∧ tc_socket_ conn ∈ open_fds (w_kernel w')
  | Fault f => f = LengthError ∨ f = SignedOverflow
  end.
Proof.
  intros Hfl Hown Hs. pose proof (echo_run_ok fuel w l loop addr fd k Hfl Hown Hs) as Hrun.
  lazymatch type of Hrun with
  | match ?r with _ => _ end => destruct r as [[b w']|f]; [|exact Hrun]
  end.
  destruct Hrun as (s & _ & [Htidy Hacc] & srv & loop' & p & Hsv & _).
  pose proof (Serving.sv_disciplined _ _ _ _ _ _ _ _ _ _ _ Hsv) as [Hsound Hopen Hconn Hinj].
  split; [done|]. split; [|split; [done|]].
  - intros f. split; [|intros (c & conn & Hc & <-); by eapply Hconn].
    intros Ho. by destruct (Hacc f Ho) as [?%elem_of_nil|?].
  - intros c conn Hc. split; [apply Htidy; by eexists|]. apply Hopen. by rewrite (Hconn _ _ Hc).
Qed.

(** What is alone in the process when it starts stays alone. *)
Lemma alone (w w' : World) l s srv loop :
  w_servers w = ∅ → (∃ loop0, w_loops w = {[l := loop0]}) →
  (delete s (w_servers w'), delete l (w_loops w')) = rest_of w l →
  w_servers w' !! s = Some srv → w_loops w' !! l = Some loop →
  w_servers w' = {[s := srv]} ∧ w_loops w' = {[l := loop]}.
Proof.
  intros Hs [loop0 Hl] [= Hos Hol] Hsrv Hloop. rewrite Hs in Hos. rewrite Hl, delete_singleton_eq in Hol.
  split.
  - by rewrite <- (insert_delete_id _ _ _ Hsrv), Hos.
  - by rewrite <- (insert_delete_id _ _ _ Hloop), Hol.
Qed.

(** C3: from its construction to its destruction.  In a process with one loop, which has a poller
    although no constructor of the library gives it one, and no other server, when [socket()] gives
    the listening socket and, in a build with assertions, memory happens to hold the loop in
    [owner_loop_] of every new [Channel]: the
    echo server is constructed, started, runs for any number of iterations under
    any clients and any kernel within [KernelLaws] and [DescriptorLaws], and is destroyed wherever the loop stands between two iterations:
    the destructor runs through, no connection object and no server is left, and every descriptor that was
    ever accepted or listened on has been closed exactly once.  Only a buffer, a
    connection number or a time stamp that outgrows its type can stop the process before. *)
Theorem echo_server_full_life `{LE : !LoopEnders} fuel w l loop addr fd k :
  fresh_loop w l loop → w_servers w = ∅ → w_loops w = {[l := loop]} → owned owner_garbage l →
  sys_socket listen_type IPPROTO_TCP (w_kernel w) = (Ret fd, k) →
  match (s ← EchoServer.EchoServer_ctor owner_garbage l addr;
         _ ← EchoServer.start s;
         _ ← EventLoop.loop fuel l;
         Teardown.TcpServer_dtor s) w with
  | Ok (_, w') => w_servers w' = ∅ ∧ w_conns w' = ∅ ∧ ∀ f, fd_after f (w_trace w') = FdClosed
  | Fault f => f = LengthError ∨ f = SignedOverflow
  end.
Proof.
  intros Hfl Hs0 Hl0 Hown Hs. destruct (fds_socket _ _ _ _ _ Hs) as [Hk (Hfd & Hnew & Hin)].
  destruct (EchoServer_ctor_ok w l addr fd k Hs) as (k' & Hk' & Hctor).
  destruct (start_running w l loop addr fd k' Hfl Hfd Hown ltac:(by apply Hk'))
    as (w' & srv & loop' & p' & Hst & Hrun & Hidle & Htidy & Hlo & _).
  unfold mbind, M_bind. rewrite Hctor, Hst.
  pose proof (loop_serving l _ _ _ _ fuel w' srv loop' p' Hrun Hidle Htidy Hlo Hown) as Hw. unfold wpe in Hw.
  destruct (EventLoop.loop fuel l w') as [[? w'']|?]; [|exact Hw].
  destruct Hw as (Hidle2 & Hset2 & srv2 & loop2 & p2 & Hrun2). pose proof Hrun2 as (Hsv2 & _).
  destruct (alone w w'' l (new_server w) srv2 loop2) as [Hs2 Hl2]; [done|by eexists|apply Hsv2..|].
  destruct (Teardown.TcpServer_dtor_ok _ _ _ _ _ _ _ _ _ Hidle2 Hset2 Hrun2 Hs2 Hl2)
    as (w3 & Hdtor & ? & ? & ? & _). by rewrite Hdtor.
Qed.

(** Enabling a channel of a loop without a poller. *)
Lemma change_without_poller f w l loop ch c :
  in_loop_thread l w → w_loops w !! l = Some loop → el_poller_ loop = None →
  w_channels w !! ch = Some c → ch_loop_ c = l →
  Channel.change f ch w = Fault (if NDEBUG || (ch_owner_loop_ c =? l) then NullPointer else Assertion).
Proof.
  intros Hth Hl Hp Hc Hhome. unfold Channel.change, Channel.update, modify, mbind, M_bind, deref, store,
    update. simpl. rewrite Hc. simpl. rewrite lookup_insert_eq. simpl. rewrite Hhome.
  unfold EventLoop.updateChannel, mbind, M_bind, deref. simpl. rewrite lookup_insert_eq. simpl.
  assert (lift (assert_ (ch_owner_loop_ c =? l)) (set_channels (<[ch := Channel.setEvents (f (ch_events_ c)) c]>
    (w_channels w)) w) = if NDEBUG || (ch_owner_loop_ c =? l) then Ok ((), set_channels (<[ch :=
    Channel.setEvents (f (ch_events_ c)) c]> (w_channels w)) w) else Fault Assertion) as ->.
  { unfold lift, assert_. destruct NDEBUG; [done|]. by destruct (_ =? _). }
  destruct (NDEBUG || _); [|done]. rewrite assertInLoopThread_ok.
  2:{ revert Hth. apply in_loop_thread_frame; [done..|]. eauto. }
  unfold Poller.the_poller, mbind, M_bind, deref. simpl. by rewrite Hl, Hp.
Qed.

(** C7: the program as it is, [main] of the example: when the kernel gives it a
    socket, it dies in [server.start()], before it waits for the first client.  The
    constructor of [EventLoop] leaves [poller_] null, so the update of the listening
    channel dereferences it; in a debug build the assertion on [owner_loop_], which no
    constructor sets, fails first unless memory happens to hold the loop there. *)
Theorem main_dies_in_start calling wakeup fuel w fd k :
  w_tid w ≠ 0 → CurrentThread.t_cachedTid w = w_tid w →
  sys_socket listen_type IPPROTO_TCP (w_kernel w) = (Ret fd, k) →
  EchoServer.main calling wakeup owner_garbage fuel w =
    Fault (if NDEBUG || (owner_garbage =? fresh (dom (w_loops w))) then NullPointer else Assertion).
Proof.
  intros Hnz Hc Hs. unfold EchoServer.main. set (l := fresh (dom (w_loops w))).
  assert (∃ w1 loop, EventLoop.EventLoop_ctor calling wakeup w = Ok (l, w1) ∧ w_kernel w1 = w_kernel w ∧
    in_loop_thread l w1 ∧ w_loops w1 !! l = Some loop ∧ el_poller_ loop = None)
    as (w1 & loop & Hctor & Hk1 & Hth & Hl & Hp).
  { unfold EventLoop.EventLoop_ctor, mbind, M_bind. rewrite tid_cached by done.
    unfold alloc, read, update, mbind, M_bind. simpl. fold l.
    destruct (w_loopInThread w !! w_tid w); simpl; eexists _, _; (split; [done|]);
      (split; [done|]); (split; [|split; [apply lookup_insert_eq|done]]);
      (split; [done|]); (split; [done|]); eexists; (split; [apply lookup_insert_eq|done]). }
  unfold mbind at 1, M_bind at 1. rewrite Hctor. cbn zeta. set (addr := InetAddress.InetAddress_port 2007).
  rewrite <- Hk1 in Hs. destruct (EchoServer_ctor_ok w1 l addr fd k Hs) as (k' & _ & Hserver).
  unfold mbind at 1, M_bind at 1. rewrite Hserver. unfold mbind at 1, M_bind at 1.
  rewrite start_listens by done. destruct (listen_enables w1 l addr fd k' Hth) as (k2 & _ & ->).
  unfold Channel.enableReading.
  rewrite (change_without_poller _ _ l loop _ (listen_channel l fd (new_acceptor w1))); try done.
  - simpl. apply lookup_insert_eq.
Qed.

End start.

(** ** On a concrete process *)

#[local] Existing Instance Tabled.kernel.
#[local] Existing Instance Tabled.kernel_laws.
#[local] Existing Instance Tabled.table.
#[local] Existing Instance Tabled.descriptor_laws.
#[local] Existing Instance debug_build.
#[local] Instance echo_memory : Memory := {| owner_garbage := 1 |}.
#[local] Instance no_threads : LoopThreads := {| startLoop := fail NullPointer |}.

(** A client connects, sends two bytes, of which one can be sent back at once,
    takes the other, and closes; descriptors 0, 1, 2 and 4 are open at the start. *)
Definition client : Tabled.state :=
  (Scripted.mkState [Ret 1] [Buffer.ReadvBytes [x61; x62]; Buffer.ReadvBytes []]
     [[(3, POLLIN)]; [(9, POLLIN)]; [(9, POLLOUT)]; [(9, POLLIN)]] []
     [(Ret 9, Scripted.null_addr)], {[0; 1; 2; 4]}).

Definition echo_loop : EventLoop := {|
  el_looping_ := false; el_quit_ := true; el_calling_pending_functors_ := false;
  el_thread_id_ := 7; el_poll_return_time_ := Timestamp.invalid; el_poller_ := Some (mkPoller [] ∅);
  el_timer_queue_ := None; el_wakeup_fd_ := 4; el_active_channels_ := []; el_mutex_ := None; el_pending_functors_ := []
|}.

Definition echo_world : World := {|
  w_kernel := client; w_tid := 7; w_cachedTid := {[7 := 7]}; w_loopInThread := {[7 := 1]};
  w_channels := ∅; w_loops := {[1 := echo_loop]}; w_conns := ∅; w_acceptors := ∅; w_pools := ∅;
  w_servers := ∅; w_timers := ∅; w_timerQueues := ∅; w_trace := []
|}.

Lemma echo_fresh_loop : fresh_loop echo_world 1 echo_loop.
Proof.
  constructor; try done. split; [done|]. split; [done|]. by eexists.
Qed.

(** The echo server on that loop, for four iterations. *)
Definition echo_run : M bool :=
  s ← EchoServer.EchoServer_ctor owner_garbage 1 (InetAddress.InetAddress_port 80);
  _ ← EchoServer.start s;
  EventLoop.loop 4 1.

Lemma echo_server_never_faults_witness :
  ∃ w', echo_run echo_world = Ok (false, w') ∧
    w_trace w' = [EvListen 3; EvAccept 9; EvRead 9 [x61; x62]; EvWrite 9 [x61]; EvWrite 9 [x62]; EvClose 9] ∧
    ∃ s, Serving.at_rest 1 s 1 2 (rest_of echo_world 1) w'.
Proof.
  pose proof (echo_server_never_faults 4 echo_world 1 echo_loop (InetAddress.InetAddress_port 80) 3
    (fst client, {[3]} ∪ snd client) echo_fresh_loop (or_intror eq_refl) ltac:(reflexivity)) as Hsafe.
  assert (match echo_run echo_world with
          | Ok (b, w') => Some (b, w_trace w')
          | Fault _ => None
          end = Some (false, [EvListen 3; EvAccept 9; EvRead 9 [x61; x62]; EvWrite 9 [x61]; EvWrite 9 [x62]; EvClose 9])) as Hrun
    by (vm_compute; reflexivity).
  change (match echo_run echo_world with
          | Ok (_, w') => ∃ s, Serving.at_rest 1 s 1 2 (rest_of echo_world 1) w'
          | Fault f => f = LengthError ∨ f = SignedOverflow
          end) in Hsafe.
  destruct (echo_run echo_world) as [[b w']|f]; [|discriminate].
  injection Hrun as -> Htr. exists w'. split; [done|]. by split.
Defined.

(** The same server for two iterations: two bytes were read and one was written. *)
Definition echo_short : M bool :=
  s ← EchoServer.EchoServer_ctor owner_garbage 1 (InetAddress.InetAddress_port 80);
  _ ← EchoServer.start s;
  EventLoop.loop 2 1.

Lemma echo_server_echoes_witness :
  ∃ w', echo_short echo_world = Ok (false, w') ∧
    traffic 9 (w_trace w') = ([x61; x62], [x61]) ∧
    ∃ s srv, w_servers w' !! s = Some srv ∧
      ∀ name c, ts_connections_ srv !! name = Some c →
        ∃ conn, w_conns w' !! c = Some conn ∧ tc_state_ conn = Connected ∧
          Buffer.contents (tc_input_buffer_ conn) = [] ∧
          let t := traffic (tc_socket_ conn) (w_trace w') in
          t.1 = t.2 ++ Buffer.contents (tc_output_buffer_ conn).
Proof.
  pose proof (echo_server_echoes 2 echo_world 1 echo_loop (InetAddress.InetAddress_port 80) 3
    (fst client, {[3]} ∪ snd client) echo_fresh_loop (or_intror eq_refl) ltac:(reflexivity)) as Hecho.
  assert (match echo_short echo_world with
          | Ok (b, w') => Some (b, traffic 9 (w_trace w'))
          | Fault _ => None
          end = Some (false, ([x61; x62], [x61]))) as Hrun by (vm_compute; reflexivity).
  lazymatch type of Hecho with
  | match ?r with _ => _ end => change r with (echo_short echo_world) in Hecho
  end.
  destruct (echo_short echo_world) as [[b w']|f]; [|discriminate].
  injection Hrun as -> Htr. exists w'. split; [done|]. split; [exact Htr|]. apply Hecho.
Defined.

(** After two iterations the client's descriptor is open and in use; after four it is closed. *)
Lemma echo_server_descriptors_witness :
  (∃ w', echo_short echo_world = Ok (false, w') ∧ fd_after 9 (w_trace w') = FdOpen ∧
     ∃ c conn, w_conns w' !! c = Some conn ∧ tc_socket_ conn = 9 ∧ held c w') ∧
  (∃ w', echo_run echo_world = Ok (false, w') ∧ fd_after 9 (w_trace w') = FdClosed ∧ w_conns w' = ∅).
Proof.
  pose proof (λ n, echo_server_descriptors n echo_world 1 echo_loop (InetAddress.InetAddress_port 80) 3
    (fst client, {[3]} ∪ snd client) echo_fresh_loop (or_intror eq_refl) ltac:(reflexivity)) as Hfds. split.
  - specialize (Hfds 2%nat).
    assert (match echo_short echo_world with
            | Ok (b, w') => Some (b, fd_after 9 (w_trace w'))
            | Fault _ => None
            end = Some (false, FdOpen)) as Hrun by (vm_compute; reflexivity).
    lazymatch type of Hfds with
    | match ?r with _ => _ end => change r with (echo_short echo_world) in Hfds
    end.
    destruct (echo_short echo_world) as [[b w']|f]; [|discriminate].
    injection Hrun as -> Htr. exists w'. split; [done|]. split; [exact Htr|].
    destruct Hfds as (_ & Hiff & _ & Hheld). apply Hiff in Htr as (c & conn & Hc & Hs).
    exists c, conn. split; [done|]. split; [done|]. by eapply Hheld.
  - assert (match echo_run echo_world with
            | Ok (b, w') => Some (b, fd_after 9 (w_trace w'), map_to_list (w_conns w'))
            | Fault _ => None
            end = Some (false, FdClosed, [])) as Hrun by (vm_compute; reflexivity).
    destruct (echo_run echo_world) as [[b w']|f]; [|discriminate].
    injection Hrun as -> Htr Hno. exists w'. split; [done|]. split; [exact Htr|].
    by apply map_to_list_empty_iff.
Defined.

#[local] Instance no_enders : LoopEnders := {| endLoop _ := fail NullPointer |}.

(** The server is destroyed while the client is connected. *)
Lemma echo_server_full_life_witness :
  ∃ w', (s ← EchoServer.EchoServer_ctor owner_garbage 1 (InetAddress.InetAddress_port 80);
         _ ← EchoServer.start s;
         _ ← EventLoop.loop 2 1;
         Teardown.TcpServer_dtor s) echo_world = Ok ((), w') ∧
    w_trace w' = [EvListen 3; EvAccept 9; EvRead 9 [x61; x62]; EvWrite 9 [x61]; EvClose 9; EvClose 3] ∧
    w_conns w' = ∅ ∧ ∀ f, fd_after f (w_trace w') = FdClosed.
Proof.
  pose proof (echo_server_full_life 2 echo_world 1 echo_loop (InetAddress.InetAddress_port 80) 3
    (fst client, {[3]} ∪ snd client) echo_fresh_loop eq_refl eq_refl (or_intror eq_refl) ltac:(reflexivity)) as Hlife.
  assert (match (s ← EchoServer.EchoServer_ctor owner_garbage 1 (InetAddress.InetAddress_port 80);
         _ ← EchoServer.start s;
         _ ← EventLoop.loop 2 1;
         Teardown.TcpServer_dtor s) echo_world with
          | Ok (_, w') => Some (w_trace w')
          | Fault _ => None
          end = Some [EvListen 3; EvAccept 9; EvRead 9 [x61; x62]; EvWrite 9 [x61]; EvClose 9; EvClose 3])
    as Hrun by (vm_compute; reflexivity).
  lazymatch type of Hlife with
  | match ?r with _ => _ end => destruct r as [[[] w']|f]; [|discriminate]
  end.
  injection Hrun as Htr. exists w'. split; [done|]. split; [exact Htr|]. apply Hlife.
Defined.

(** What the poll after the destruction will answer, and the time after it *)
Definition next_poll (w1 w2 : World) : option (sysret * result Timestamp.Timestamp) :=
  loop ← w_loops w1 !! 1;
  p ← el_poller_ loop;
  let '(r, _, k) := sys_poll (pl_poll_fds_ p) 10000 (w_kernel w2) in
  let '(sec, usec, _) := sys_gettimeofday k in
  Some (r, Timestamp.now sec usec).

Definition echo_then_destroy : M (option (sysret * result Timestamp.Timestamp)) :=
  s ← EchoServer.EchoServer_ctor owner_garbage 1 (InetAddress.InetAddress_port 80);
  _ ← EchoServer.start s;
  _ ← EventLoop.loop 2 1;
  w1 ← read (λ w, w);
  _ ← Teardown.TcpServer_dtor s;
  w2 ← read (λ w, w);
  mret (next_poll w1 w2).

(** The same server after two iterations, destroyed: the loop of the process polls on, and the kernel has
    something to report for the client's descriptor. *)
Lemma poll_after_teardown_dangles_witness :
  ∃ s w1 w2, (s ← EchoServer.EchoServer_ctor owner_garbage 1 (InetAddress.InetAddress_port 80);
              _ ← EchoServer.start s; _ ← EventLoop.loop 2 1; mret s) echo_world = Ok (s, w1) ∧
    Teardown.TcpServer_dtor s w1 = Ok ((), w2) ∧ Poller.poll 1 10000 [] w2 = Fault DanglingPointer.
Proof.
  destruct (EchoServer_ctor_ok (Mem := echo_memory) echo_world 1 (InetAddress.InetAddress_port 80) 3
    (fst client, {[3]} ∪ snd client) ltac:(reflexivity)) as (k & Hk & Hctor).
  destruct (start_running (K := Tabled.kernel) (Mem := echo_memory) (LT := no_threads) echo_world 1 echo_loop (InetAddress.InetAddress_port 80) 3 k echo_fresh_loop
    ltac:(lia) (or_intror eq_refl)) as (w1 & srv & loop & p & Hstart & Hrun & Hidle & Hset & Hlo & _).
  { apply Hk. vm_compute. done. }
  pose proof (loop_serving (K := Tabled.kernel) (Mem := echo_memory) 1 _ 1 2 _ 2 w1 srv loop p Hrun Hidle Hset Hlo (or_intror eq_refl)) as Hloop.
  assert (match echo_then_destroy echo_world with
          | Ok (r, _) => r
          | Fault _ => None
          end = Some (Ret 1, Ok Timestamp.invalid)) as Hcalc by (vm_compute; reflexivity).
  unfold echo_then_destroy, mbind, M_bind in Hcalc. rewrite Hctor, Hstart in Hcalc.
  unfold wpe in Hloop. destruct (EventLoop.loop 2 1 w1) as [[ended w2]|f] eqn:Hrun2; [|discriminate].
  destruct Hloop as (Hidle2 & Hset2 & srv2 & loop2 & p2 & Hrunning2). pose proof Hrunning2 as (Hsv2 & _).
  destruct (alone echo_world w2 1 (new_server echo_world) srv2 loop2) as [Hs2 Hl2];
    [done|by eexists|apply Hsv2..|].
  unfold read in Hcalc. destruct (Teardown.TcpServer_dtor _ w2) as [[[] w3]|f] eqn:Hdtor; [|discriminate].
  simpl in Hcalc. unfold next_poll in Hcalc. rewrite Hl2, lookup_singleton_eq in Hcalc. simpl in Hcalc.
  rewrite (Serving.sv_poller _ _ _ _ _ _ _ _ _ _ _ Hsv2) in Hcalc. simpl in Hcalc.
  destruct (Tabled.poll _ _ _) as [[r revs] k1] eqn:Hpoll.
  destruct (Tabled.lifted _ k1) as [[sec usec] k2] eqn:Htime. injection Hcalc as -> Hnow.
  exists (new_server echo_world), w2, w3. split; [|split; [exact Hdtor|]].
  { unfold mbind, M_bind. by rewrite Hctor, Hstart, Hrun2. }
  by eapply (Teardown.poll_after_teardown_dangles (K := Tabled.kernel) 1 _ 1 2 _ w2 srv2 loop2 p2 w3
    10000 1 revs k1 sec usec k2 _ Hidle2 Hset2 Hrunning2 Hs2 Hl2 Hdtor Hpoll).
Defined.

(** The first iteration of the same server: the client is accepted. *)
Lemma iteration_keeps_invariant_witness :
  ∃ s w1 w2, (s ← EchoServer.EchoServer_ctor owner_garbage 1 (InetAddress.InetAddress_port 80);
              _ ← EchoServer.start s; mret s) echo_world = Ok (s, w1) ∧
    EventLoop.loop_iteration 1 w1 = Ok ((), w2) ∧ w_trace w2 = [EvListen 3; EvAccept 9] ∧
    Serving.at_rest 1 s 1 2 (rest_of echo_world 1) w2.
Proof.
  destruct (EchoServer_ctor_ok (Mem := echo_memory) echo_world 1 (InetAddress.InetAddress_port 80) 3
    (fst client, {[3]} ∪ snd client) ltac:(reflexivity)) as (k & Hk & Hctor).
  destruct (start_running (K := Tabled.kernel) (Mem := echo_memory) (LT := no_threads) echo_world 1 echo_loop (InetAddress.InetAddress_port 80) 3 k echo_fresh_loop
    ltac:(lia) (or_intror eq_refl)) as (w1 & srv & loop & p & Hstart & Hrun & Hidle & Htidy & _).
  { apply Hk. vm_compute. done. }
  pose proof (iteration_keeps_invariant 1 _ 1 2 _ w1 (conj Hidle (conj Htidy (ex_intro _ srv
    (ex_intro _ loop (ex_intro _ p Hrun))))) (or_intror eq_refl)) as Hinv.
  assert (match (s ← EchoServer.EchoServer_ctor owner_garbage 1 (InetAddress.InetAddress_port 80);
                 _ ← EchoServer.start s; EventLoop.loop_iteration 1) echo_world with
          | Ok (_, w') => Some (w_trace w')
          | Fault _ => None
          end = Some [EvListen 3; EvAccept 9]) as Htr by (vm_compute; reflexivity).
  unfold mbind, M_bind in Htr. rewrite Hctor, Hstart in Htr.
  destruct (EventLoop.loop_iteration 1 w1) as [[[] w2]|f] eqn:Hit; [|discriminate].
  injection Htr as Htr. exists (new_server echo_world), w1, w2. split; [|by split].
  unfold mbind, M_bind. by rewrite Hctor, Hstart.
Defined.

Lemma main_dies_in_start_witness :
  EchoServer.main false 0 (@owner_garbage echo_memory) 4 echo_world = Fault Assertion.
Proof.
  pose proof (main_dies_in_start (Mem := echo_memory) (LT := no_threads) false 0 4 echo_world 3
    (fst client, {[3]} ∪ snd client) ltac:(done) eq_refl ltac:(reflexivity)) as Hmain.
  assert ((if NDEBUG || (owner_garbage =? fresh (dom (w_loops echo_world))) then NullPointer else Assertion)
    = Assertion) as Heq by (vm_compute; reflexivity).
  by rewrite Heq in Hmain.
Defined.

End EchoServing.
