(* ===== verification/Draining.v ===== *)
(** * What is pending leaves

    The iterations of a server's loop deliver the bytes that wait in the output buffers: with a kernel that
    reports a socket writable when it is asked and takes at least a byte then, no iteration passes without
    one.  The example is the echo server, on a kernel that takes the bytes one at a time. *)

From S2P Require Import Prelude Format Timestamp Buffer Kernel State CurrentThread Channel.
From S2P Require Import Descriptors Poller EventLoop Sample Dispatch SocketsOptions Socket InetAddr.
From S2P Require Import TcpConnection ConnectionTheorems Acceptor EventLoopThreadPool TcpServer.
From S2P Require Import Reactor Ledger Lifetime ServerTheorems Serving Frames ConnectionCallbacks.
From S2P Require Import ServingTheorems Echo EchoServing.

Module Draining.

Section draining.
Context `{K : Kernel} `{KL : !KernelLaws K} `{D : !Descriptors K} `{DL : !DescriptorLaws K}.
Context `{B : Build} `{BL : !BuildLaws B} `{A : !App} `{Mem : Memory}.
Context {L : Ledger} {LL : LedgerLaws L}.
Variables (l : LoopPtr) (s : ServerPtr) (fcon fmsg : Z) (others : gmap Z TcpServer * gmap Z EventLoop).
Context `{AL : !AppLaws A fcon fmsg}.

#[local] Abbreviation at_rest := (Serving.at_rest l s fcon fmsg others).
#[local] Abbreviation served := (Frames.served s).

#[local] Instance served_dec w c : Decision (served w c).
Proof.
  destruct (w_servers w !! s) as [srv|] eqn:Hs.
  - destruct (decide (map_Exists (λ _ c', c' = c) (ts_connections_ srv))) as [Hn|Hn]; [left|right].
    { destruct Hn as (name & c' & Hn & ->). by exists srv, name. }
    intros (srv' & name & Hs' & Hc). rewrite Hs in Hs'. injection Hs' as <-. apply Hn. by exists name, c.
  - right. intros (srv' & name & Hs' & _). by rewrite Hs in Hs'.
Qed.

(** The connection [conn], last seen in [w0], left the server, or it is there still and all the bytes that it
    held are sent. *)
Definition delivered (w0 : World) (c : Z) (conn : TcpConnection) (w : World) : Prop :=
  ¬ served w c ∨
  Frames.in_use (tc_socket_ conn) (w_trace w0) (w_trace w) ∧
  TcpConnection.out_stream w0 conn `prefix_of` TcpConnection.sent (tc_socket_ conn) (w_trace w).

(** The same, unless the loop has [ended] *)
Definition delivers (w0 : World) (c : Z) (conn : TcpConnection) (ended : bool) (w : World) : Prop :=
  at_rest w ∧ (ended = true ∨ delivered w0 c conn w).

Lemma loop_while_at_once w w0 c conn :
  at_rest w → delivered w0 c conn w → wpe exhausted (EventLoop.loop_while 0 l) (delivers w0 c conn) w.
Proof.
  intros Hat Hd. pose proof Hat as (_ & _ & srv & loop & p & (Hsv & _)). simpl.
  apply wpe_bind, (wpe_deref _ _ loop); [apply Hsv|]. destruct (el_quit_ loop); split; auto.
Qed.

Lemma loop_while_turn n w w0 c conn :
  at_rest w →
  wpe exhausted (EventLoop.loop_iteration l)
    (λ _ w', wpe exhausted (EventLoop.loop_while n l) (delivers w0 c conn) w') w →
  wpe exhausted (EventLoop.loop_while (S n) l) (delivers w0 c conn) w.
Proof.
  intros Hat Hit. pose proof Hat as (_ & _ & srv & loop & p & (Hsv & _)). simpl.
  apply wpe_bind, (wpe_deref _ _ loop); [apply Hsv|]. destruct (el_quit_ loop); [split; auto|].
  by apply wpe_bind.
Qed.

(** When enough bytes were sent, those that it held are among them. *)
Lemma delivered_enough w0 w c conn conn' :
  Frames.goes_on w0 w c conn conn' →
  (length (TcpConnection.out_stream w0 conn) ≤ length (TcpConnection.sent (tc_socket_ conn) (w_trace w)))%nat →
  delivered w0 c conn w.
Proof.
  intros Hg Hle. right. split; [apply Hg|]. eapply Frames.goes_on_left; [exact Hg|].
  unfold TcpConnection.out_stream in Hle. by rewrite length_app in Hle.
Qed.

(** By induction on the bytes that are left to send; [w0] is where the connection was seen. *)
Lemma bytes_leave m w0 w c conn conn' :
  owned owner_garbage l → at_rest w → served w c → Frames.goes_on w0 w c conn conn' →
  reports_writable (tc_socket_ conn) → takes_bytes (tc_socket_ conn) →
  (length (TcpConnection.out_stream w0 conn) ≤
     length (TcpConnection.sent (tc_socket_ conn) (w_trace w)) + m)%nat →
  ∃ n, (n ≤ m)%nat ∧ wpe exhausted (EventLoop.loop_while n l) (delivers w0 c conn) w.
Proof.
  intros Hown. revert w conn'.
  induction m as [|m IH]; intros w conn' Hat Hs Hg Hrep Htake Hlen;
    (destruct (decide (length (TcpConnection.out_stream w0 conn) ≤
      length (TcpConnection.sent (tc_socket_ conn) (w_trace w)))%nat) as [Hle|Hlt];
    [exists O; split; [lia|]; apply loop_while_at_once; [done|by eapply delivered_enough]|]); [lia|].
  pose proof (loop_iteration_serving l s fcon fmsg others w Hat Hown) as Hit. unfold wpe in Hit.
  destruct (EventLoop.loop_iteration l w) as [[[] w1]|f] eqn:Hrun.
  2:{ exists 1%nat. split; [lia|]. apply loop_while_turn; [done|]. by eapply wpe_fault. }
  destruct Hit as [Hat1 Hadv]. destruct (decide (served w1 c)) as [Hs1|Hs1].
  2:{ exists 1%nat. split; [lia|]. apply loop_while_turn; [done|]. eapply wpe_ok; [exact Hrun|].
      apply loop_while_at_once; [done|by left]. }
  pose proof Hg as (Hc & (_ & _ & Hso & _) & _ & Hout).
  destruct (Hadv c conn' Hs Hc Hs1) as (conn1 & Hg1 & Hprog). rewrite Hso in Hprog.
  assert (TcpConnection.pending conn' ≠ []) as Hne.
  { intros Hp. apply Hlt. apply prefix_length in Hout. unfold TcpConnection.out_stream in Hout at 2.
    by rewrite Hp, app_nil_r, Hso in Hout. }
  specialize (Hprog Hrep Htake Hne).
  destruct (IH w1 conn1) as (n & Hn & Hrest); try done; [by eapply Frames.goes_on_trans|lia|].
  exists (S n). split; [lia|]. apply loop_while_turn; [done|]. by eapply wpe_ok.
Qed.

(** As many iterations as there are bytes *)
Lemma held_bytes_leave w c conn :
  owned owner_garbage l → at_rest w → served w c → w_conns w !! c = Some conn →
  reports_writable (tc_socket_ conn) → takes_bytes (tc_socket_ conn) →
  ∃ n, (n ≤ length (TcpConnection.pending conn))%nat ∧
    match EventLoop.loop_while n l w with
    | Ok (ended, w') => delivers w c conn ended w'
    | Fault f => exhausted f
    end.
Proof.
  intros Hown Hat Hs Hc Hrep Htake.
  destruct (bytes_leave (length (TcpConnection.pending conn)) w w c conn conn) as (n & Hn & Hw); try done;
    [by apply Frames.goes_on_refl|unfold TcpConnection.out_stream; by rewrite length_app|].
  exists n. split; [done|]. unfold wpe in Hw. by destruct (EventLoop.loop_while n l w) as [[? ?]|?].
Qed.

End draining.

Section theorems.
Context `{K : Kernel} `{KL : !KernelLaws K} `{D : !Descriptors K} `{DL : !DescriptorLaws K}.
Context `{B : Build} `{BL : !BuildLaws B}.

(** C6: what is pending leaves.  Let a server be at rest, as in [iteration_keeps_invariant], with a
    connection in its map that has bytes in its output buffer, on a socket that the kernel reports
    writable whenever a poll asks for it and that takes at least a byte of each write.  Then in no more iterations
    of the loop than there are bytes pending, whatever else the kernel reports and the application sends
    meanwhile, all these bytes are sent, in order and after those that were sent before; else the connection
    left the map before, the loop was asked to quit, or a buffer, a connection number or a time stamp
    outgrew its type. *)
Theorem pending_bytes_leave `{A : !App} `{Mem : Memory} {L : Ledger} {LL : LedgerLaws L}
    l s fcon fmsg `{AL : !AppLaws A fcon fmsg} others w c conn :
  Serving.at_rest l s fcon fmsg others w → owned owner_garbage l →
  Frames.served s w c → w_conns w !! c = Some conn →
  reports_writable (tc_socket_ conn) → takes_bytes (tc_socket_ conn) →
  ∃ n, (n ≤ length (TcpConnection.pending conn))%nat ∧
    match EventLoop.loop_while n l w with
    | Ok (ended, w') => Serving.at_rest l s fcon fmsg others w' ∧
        (ended = true ∨ ¬ Frames.served s w' c ∨
         Frames.in_use (tc_socket_ conn) (w_trace w) (w_trace w') ∧
         (TcpConnection.sent (tc_socket_ conn) (w_trace w) ++ TcpConnection.pending conn)
           `prefix_of` TcpConnection.sent (tc_socket_ conn) (w_trace w'))
    | Fault f => f = LengthError ∨ f = SignedOverflow
    end.
Proof. intros Hat Hown Hs Hc Hrep Htake. by apply held_bytes_leave. Qed.

End theorems.

(** ** The echo server *)
#[local] Existing Instances EchoServer.echo_app EchoServing.echo_ledger.
#[local] Existing Instances EchoServing.echo_ledger_laws EchoServing.echo_laws.

Section echo.
Context `{K : Kernel} `{KL : !KernelLaws K} `{D : !Descriptors K} `{DL : !DescriptorLaws K}.
Context `{B : Build} `{BL : !BuildLaws B}.

(** What was written while the descriptor stayed with its connection *)
Lemma traffic_event fd tr e :
  (event_fd e = fd → io_event fd e) →
  (EchoServing.traffic fd (tr ++ [e])).2 = (EchoServing.traffic fd tr).2 ++ TcpConnection.sent fd [e].
Proof.
  intros He. destruct (decide (event_fd e = fd)) as [Hfd|Hfd].
  - specialize (He Hfd). rewrite EchoServing.traffic_snoc.
    destruct e; simpl in He |- *; try done; subst; by rewrite ?Z.eqb_refl, ?app_nil_r.
  - rewrite EchoServing.traffic_other, Frames.sent_others by (done || by repeat constructor).
    by rewrite app_nil_r.
Qed.

Lemma traffic_in_use fd tr tr' :
  Frames.in_use fd tr tr' →
  ∃ d, TcpConnection.sent fd tr' = TcpConnection.sent fd tr ++ d ∧
    (EchoServing.traffic fd tr').2 = (EchoServing.traffic fd tr).2 ++ d.
Proof.
  intros (evs & -> & Hevs). exists (TcpConnection.sent fd evs).
  split; [apply TcpConnection.sent_app|]. revert tr.
  induction Hevs as [|e evs He _ IH]; intros tr; [by rewrite !app_nil_r|].
  rewrite cons_middle, app_assoc, IH, traffic_event by done.
  change (e :: evs) with ([e] ++ evs). by rewrite TcpConnection.sent_app, app_assoc.
Qed.

(** C2: the echo server answers.  Let it be at rest with a client whose socket the kernel reports writable
    whenever a poll asks for it, and that takes at least a byte of each write.  Then in no more iterations of the
    loop than there are bytes still to be sent, everything that was read from the client so far has been written
    back to it, whatever it and the others send meanwhile; else the client left before, the loop was asked
    to quit, or a buffer, a connection number or a time stamp outgrew its type. *)
Theorem echo_server_answers `{Mem : Memory} l s others w c conn :
  Serving.at_rest l s EchoServer.fn_onConnection EchoServer.fn_onMessage others w → owned owner_garbage l →
  Frames.served s w c → w_conns w !! c = Some conn →
  reports_writable (tc_socket_ conn) → takes_bytes (tc_socket_ conn) →
  ∃ n, (n ≤ length (TcpConnection.pending conn))%nat ∧
    match EventLoop.loop_while n l w with
    | Ok (ended, w') =>
        Serving.at_rest l s EchoServer.fn_onConnection EchoServer.fn_onMessage others w' ∧
        (ended = true ∨ ¬ Frames.served s w' c ∨
         (EchoServing.traffic (tc_socket_ conn) (w_trace w)).1
           `prefix_of` (EchoServing.traffic (tc_socket_ conn) (w_trace w')).2)
    | Fault f => f = LengthError ∨ f = SignedOverflow
    end.
Proof.
  intros Hat Hown Hs Hc Hrep Htake.
  assert (Serving.books w conn) as (_ & _ & Hbk).
  { destruct Hat as (_ & _ & srv & loop & p & Hrun).
    destruct (served_member _ _ _ _ _ _ _ _ _ _ _ Hrun Hs) as (conn0 & chan & _ & Hmb & _).
    pose proof (Serving.mb_conn _ _ _ _ _ _ _ _ _ Hmb) as Hc0. rewrite Hc in Hc0. injection Hc0 as <-.
    apply Hmb. }
  destruct (held_bytes_leave l s EchoServer.fn_onConnection EchoServer.fn_onMessage others w c conn)
    as (n & Hn & Hw); try done.
  exists n. split; [done|]. destruct (EventLoop.loop_while n l w) as [[ended w']|f]; [|done].
  destruct Hw as [Hat' Hd]. split; [done|]. destruct Hd as [?|[?|[Huse Hd]]]; [by left|by right; left|].
  right. right. destruct (traffic_in_use _ _ _ Huse) as (d & Hd1 & ->). rewrite Hbk.
  unfold TcpConnection.out_stream in Hd. rewrite Hd1 in Hd. apply prefix_app_inv in Hd. by apply prefix_app.
Qed.

End echo.

(** ** On a concrete process

    The kernel of [Tabled], but a poll reports each socket writable that it is asked about, and a
    write takes one byte *)
Definition eager (p : pollfd) (r : Z) : Z :=
  if (0 <=? fd p) && Channel.has (events p) POLLOUT then Z.lor r POLLOUT else r.

Definition eager_poll (fds : list pollfd) (t : Z) (k : Tabled.state) : sysret * list Z * Tabled.state :=
  let '(_, revs, k') := Tabled.poll fds t k in
  let revs' := zip_with eager fds revs in (Ret (count_pos revs'), revs', k').

#[local] Instance eager_kernel : Kernel := {|
  kstate := Tabled.state;
  sys_poll := eager_poll;
  sys_gettimeofday := sys_gettimeofday (Kernel := Tabled.kernel);
  sys_write _ d k := (Ret (Z.min 1 (zlen d)), k);
  sys_readv := sys_readv (Kernel := Tabled.kernel); sys_read := sys_read (Kernel := Tabled.kernel);
  sys_shutdown_wr := sys_shutdown_wr (Kernel := Tabled.kernel);
  sys_socket := sys_socket (Kernel := Tabled.kernel); sys_bind := sys_bind (Kernel := Tabled.kernel);
  sys_setsockopt := sys_setsockopt (Kernel := Tabled.kernel);
  sys_listen := sys_listen (Kernel := Tabled.kernel); sys_accept := sys_accept (Kernel := Tabled.kernel);
  sys_close := sys_close (Kernel := Tabled.kernel);
  sys_getsockname := sys_getsockname (Kernel := Tabled.kernel);
  sys_so_error := sys_so_error (Kernel := Tabled.kernel);
  sys_timerfd_create := sys_timerfd_create (Kernel := Tabled.kernel);
  sys_timerfd_settime := sys_timerfd_settime (Kernel := Tabled.kernel)
|}.

#[local] Instance eager_table : Descriptors eager_kernel :=
  Build_Descriptors eager_kernel (@open_fds Tabled.kernel Tabled.table).

Lemma eager_range p r : 0 ≤ r < 2 ^ 15 → 0 ≤ eager p r < 2 ^ 15.
Proof.
  intros Hr. unfold eager. destruct (_ && _); [|done].
  assert (0 ≤ Z.lor r POLLOUT) by (apply Z.lor_nonneg; split; [lia|done]). split; [done|].
  destruct (decide (Z.lor r POLLOUT = 0)) as [->|Hne]; [lia|].
  apply Z.log2_lt_pow2; [lia|]. rewrite Z.log2_lor by (unfold POLLOUT; lia).
  apply Z.max_lub_lt; [|done]. destruct (decide (r = 0)) as [->|]; [done|]. apply Z.log2_lt_pow2; lia.
Qed.

(** The bits of a [revents] but [POLLOUT] are as before. *)
Lemma eager_has p r b : Z.land POLLOUT b = 0 → Channel.has (eager p r) b = Channel.has r b.
Proof.
  intros Hb. unfold eager. destruct (_ && _); [|done]. unfold Channel.has.
  by rewrite Z.land_lor_distr_l, Hb, Z.lor_0_r.
Qed.

#[local] Instance eager_kernel_laws : KernelLaws eager_kernel.
Proof.
  pose proof Tabled.kernel_laws as [_ Hroom Hlen Hrev Hign _ Hacc]. constructor; try done.
  - intros fd d k n k' H. cbn in H. simplify_eq. pose proof (zlen_nonneg d). lia.
  - intros fds t k r revs k' H. cbn in H. unfold eager_poll in H.
    destruct (Tabled.poll fds t k) as [[r1 revs1] k1] eqn:Hp. simplify_eq.
    apply (Hlen fds t) in Hp. rewrite length_zip_with. lia.
  - intros fds t k r revs k' H. cbn in H. unfold eager_poll in H.
    destruct (Tabled.poll fds t k) as [[r1 revs1] k1] eqn:Hp. simplify_eq.
    apply (Hrev fds t) in Hp. apply Forall_lookup. intros i x Hx.
    apply lookup_zip_with_Some in Hx as (p & y & -> & _ & Hy). apply eager_range.
    by eapply Forall_lookup_1 in Hp.
  - intros fds t k r revs k' i p H Hi Hneg. cbn in H. unfold eager_poll in H.
    destruct (Tabled.poll fds t k) as [[r1 revs1] k1] eqn:Hp. simplify_eq.
    apply (Hign fds t _ _ _ _ i p) in Hp; [|done..]. rewrite lookup_zip_with, Hi, Hp. simpl.
    unfold eager. by rewrite (proj2 (Z.leb_gt _ _) Hneg).
  - intros fds t k n revs k' H. cbn in H. unfold eager_poll in H.
    destruct (Tabled.poll fds t k) as [[r1 revs1] k1]. by simplify_eq.
Qed.

#[local] Instance eager_descriptor_laws : DescriptorLaws eager_kernel.
Proof.
  pose proof Tabled.descriptor_laws as [? Hpoll ? ? ? ? ? ? ? ? ? ? ? ? Hhup].
  constructor; try done.
  - intros fds t k. specialize (Hpoll fds t k). cbn in Hpoll |- *. unfold eager_poll.
    by destruct (Tabled.poll fds t k) as [[? ?] ?].
  - intros fds t k r revs k' x H Hx Hh. cbn in H. unfold eager_poll in H.
    destruct (Tabled.poll fds t k) as [[r1 revs1] k1] eqn:Hp. simplify_eq.
    apply list_elem_of_lookup in Hx as [i Hx]. apply lookup_zip_with_Some in Hx as (p & y & -> & _ & Hy).
    unfold Channel.readable, Channel.hup in *. rewrite !eager_has in * by done.
    apply (Hhup fds t k _ _ _ y Hp); [by eapply list_elem_of_lookup_2|done].
Qed.

Lemma eager_reports f : 0 ≤ f → reports_writable (K := eager_kernel) f.
Proof.
  intros Hf fds t k r revs k' i q H Hi Hq Hev. cbn in H. unfold eager_poll in H.
  destruct (Tabled.poll fds t k) as [[r1 revs1] k1] eqn:Hp. simplify_eq.
  pose proof (@poll_length _ Tabled.kernel_laws fds t _ _ _ _ Hp) as Hl.
  destruct (lookup_lt_is_Some_2 revs1 i) as [y Hy]; [rewrite Hl; by eapply lookup_lt_Some|].
  exists (count_pos (zip_with eager fds revs1)), (eager q y). split; [done|].
  split; [by rewrite lookup_zip_with, Hi, Hy|]. unfold eager. rewrite Hev, (proj2 (Z.leb_le _ _) Hf). simpl.
  unfold Channel.writable, Channel.has. rewrite Z.land_lor_distr_l. change (Z.land POLLOUT POLLOUT) with POLLOUT.
  apply negb_true_iff, Z.eqb_neq. intros H0%Z.lor_eq_0_iff. by destruct H0.
Qed.

Lemma eager_takes f : takes_bytes (K := eager_kernel) f.
Proof.
  intros d k Hd. eexists _, _. split; [reflexivity|]. destruct d; [done|]. unfold zlen. simpl. lia.
Qed.

#[local] Existing Instance debug_build.
#[local] Instance echo_memory : Memory := {| owner_garbage := 1 |}.
#[local] Instance no_threads : LoopThreads := {| startLoop := fail NullPointer |}.

(** A client connects and sends four bytes. *)
Definition client : kstate (Kernel := eager_kernel) :=
  (Scripted.mkState [] [Buffer.ReadvBytes [x61; x62; x63; x64]]
     [[(3, POLLIN)]; [(9, POLLIN)]] [] [(Ret 9, Scripted.null_addr)], {[0; 1; 2; 4]}).

Definition eager_world : World (K := eager_kernel) := {|
  w_kernel := client; w_tid := 7; w_cachedTid := {[7 := 7]}; w_loopInThread := {[7 := 1]};
  w_channels := ∅; w_loops := {[1 := EchoServing.echo_loop]}; w_conns := ∅; w_acceptors := ∅; w_pools := ∅;
  w_servers := ∅; w_timers := ∅; w_timerQueues := ∅; w_trace := []
|}.

(** The echo server serves for [n] iterations. *)
Definition echo_for (n : nat) : M bool :=
  s ← EchoServer.EchoServer_ctor owner_garbage 1 (InetAddress.InetAddress_port 80);
  _ ← EchoServer.start s;
  EventLoop.loop n 1.

(** The connections in the map of the server at [s] *)
Definition served_conns (s : ServerPtr) (w : World (K := eager_kernel)) : list Z :=
  match w_servers w !! s with Some srv => (map_to_list (ts_connections_ srv)).*2 | None => [] end.

Lemma served_conns_spec s w c : c ∈ served_conns s w → Frames.served s w c.
Proof.
  unfold served_conns. destruct (w_servers w !! s) as [srv|] eqn:Hs; [|by intros ?%not_elem_of_nil].
  intros ([name c'] & -> & Hin)%list_elem_of_fmap. exists srv, name. split; [done|].
  by apply elem_of_map_to_list in Hin.
Qed.

(** What was sent, the traffic, what is pending on the connection at 0, and the connections of the server *)
Definition seen (w : World (K := eager_kernel)) :
    option (list byte * (list byte * list byte) * Z * list byte * list Z) :=
  conn ← w_conns w !! 0;
  Some (TcpConnection.sent 9 (w_trace w), EchoServing.traffic 9 (w_trace w), tc_socket_ conn,
    TcpConnection.pending conn, served_conns (EchoServing.new_server eager_world) w).

(** The connections in the map [n] iterations after the second, and whether the loop ended *)
Definition later (n : nat) : option (bool * list Z) :=
  match (_ ← echo_for 2; EventLoop.loop_while n 1) eager_world with
  | Ok (ended, w) => Some (ended, served_conns (EchoServing.new_server eager_world) w)
  | Fault _ => None
  end.

Lemma later_served n : (n ≤ 3)%nat → later n = Some (false, [0]).
Proof. intros Hn. do 4 (destruct n as [|n]; [vm_compute; done|]). lia. Qed.

(** The server is at rest after two iterations: four bytes were read, one was sent and three are pending.  The
    client stays. *)
Record two_rounds (w : World (K := eager_kernel)) (conn : TcpConnection) : Prop := {
  tr_run : echo_for 2 eager_world = Ok (false, w);
  tr_rest : Serving.at_rest 1 (EchoServing.new_server eager_world) EchoServer.fn_onConnection
    EchoServer.fn_onMessage (EchoServing.rest_of eager_world 1) w;
  tr_served : Frames.served (EchoServing.new_server eager_world) w 0;
  tr_conn : w_conns w !! 0 = Some conn;
  tr_socket : tc_socket_ conn = 9;
  tr_sent : TcpConnection.sent 9 (w_trace w) = [x61];
  tr_traffic : EchoServing.traffic 9 (w_trace w) = ([x61; x62; x63; x64], [x61]);
  tr_pending : TcpConnection.pending conn = [x62; x63; x64];
  tr_later n : (n ≤ 3)%nat → ∃ w', EventLoop.loop_while n 1 w = Ok (false, w') ∧
    Frames.served (EchoServing.new_server eager_world) w' 0
}.

Lemma after_two_rounds : ∃ w conn, two_rounds w conn.
Proof.
  destruct (EchoServing.EchoServer_ctor_ok (Mem := echo_memory) eager_world 1 (InetAddress.InetAddress_port 80) 3
    (fst client, {[3]} ∪ snd client) ltac:(reflexivity)) as (k & Hk & Hctor).
  assert (EchoServing.fresh_loop eager_world 1 EchoServing.echo_loop) as Hfresh.
  { constructor; try done. split; [done|]. split; [done|]. by eexists. }
  destruct (EchoServing.start_running (K := eager_kernel) (Mem := echo_memory) (LT := no_threads) eager_world 1
    EchoServing.echo_loop (InetAddress.InetAddress_port 80) 3 k Hfresh ltac:(lia) (or_intror eq_refl))
    as (w1 & srv & loop & p & Hstart & Hrun & Hidle & Hset & Hlo & _); [apply Hk; vm_compute; done|].
  pose proof (loop_serving (K := eager_kernel) (Mem := echo_memory) 1 _ 1 2 _ 2 w1 srv loop p Hrun Hidle Hset
    Hlo (or_intror eq_refl)) as Hloop.
  assert (echo_for 2 eager_world = EventLoop.loop 2 1 w1) as Heq.
  { unfold echo_for, mbind, M_bind. by rewrite Hctor, Hstart. }
  unfold wpe in Hloop. rewrite <- Heq in Hloop. clear Heq Hctor Hstart.
  assert (match echo_for 2 eager_world with
          | Ok (b, w) => Some (b, seen w)
          | Fault _ => None
          end = Some (false, Some ([x61], ([x61; x62; x63; x64], [x61]), 9, [x62; x63; x64], [0]))) as Hsee
    by (vm_compute; reflexivity).
  pose proof later_served as Hlater. unfold later, mbind, M_bind in Hlater.
  destruct (echo_for 2 eager_world) as [[ended w]|f] eqn:Hfor; [|discriminate]. injection Hsee as -> Hsee.
  unfold seen in Hsee. destruct (w_conns w !! 0) as [conn|] eqn:Hc; [|discriminate].
  injection Hsee as Hsent Htraffic Hsock Hpend Hin.
  exists w, conn. constructor; try assumption; [apply served_conns_spec; rewrite Hin; by left|].
  intros n Hn. specialize (Hlater n Hn).
  destruct (EventLoop.loop_while n 1 w) as [[ended w']|f] eqn:Hrun2; [|discriminate].
  injection Hlater as -> Hin'. exists w'. split; [done|]. apply served_conns_spec. rewrite Hin'. by left.
Qed.

(** They are sent in at most three more. *)
Lemma pending_bytes_leave_witness :
  ∃ w n w', echo_for 2 eager_world = Ok (false, w) ∧ TcpConnection.sent 9 (w_trace w) = [x61] ∧
    (n ≤ 3)%nat ∧ EventLoop.loop_while n 1 w = Ok (false, w') ∧
    [x61; x62; x63; x64] `prefix_of` TcpConnection.sent 9 (w_trace w').
Proof.
  destruct after_two_rounds as (w & conn & [Hrun Hat Hs Hc Hsock Hsent _ Hpend Hlater]).
  destruct (pending_bytes_leave (K := eager_kernel) (Mem := echo_memory) 1 _ 1 2 _ w 0 conn Hat (or_intror eq_refl) Hs Hc)
    as (n & Hn & Hpost); [rewrite Hsock; by apply eager_reports|apply eager_takes|].
  rewrite Hpend in Hn, Hpost. rewrite Hsock, Hsent in Hpost. destruct (Hlater n Hn) as (w' & Hw & Hs').
  rewrite Hw in Hpost. exists w, n, w'. do 4 (split; [assumption|]).
  destruct Hpost as [_ [He|[Hno|[_ Hpre]]]]; [discriminate He|destruct (Hno Hs')|exact Hpre].
Defined.

(** Four bytes were read from the client and one was written; in at most three iterations all four are. *)
Lemma echo_server_answers_witness :
  ∃ w n w', echo_for 2 eager_world = Ok (false, w) ∧
    EchoServing.traffic 9 (w_trace w) = ([x61; x62; x63; x64], [x61]) ∧
    (n ≤ 3)%nat ∧ EventLoop.loop_while n 1 w = Ok (false, w') ∧
    [x61; x62; x63; x64] `prefix_of` (EchoServing.traffic 9 (w_trace w')).2.
Proof.
  destruct after_two_rounds as (w & conn & [Hrun Hat Hs Hc Hsock _ Htraffic Hpend Hlater]).
  destruct (echo_server_answers (K := eager_kernel) (Mem := echo_memory) 1 _ _ w 0 conn Hat (or_intror eq_refl) Hs Hc)
    as (n & Hn & Hpost); [rewrite Hsock; by apply eager_reports|apply eager_takes|].
  rewrite Hpend in Hn. rewrite Hsock, Htraffic in Hpost. destruct (Hlater n Hn) as (w' & Hw & Hs').
  rewrite Hw in Hpost. exists w, n, w'. do 4 (split; [assumption|]).
  destruct Hpost as [_ [He|[Hno|Hpre]]]; [discriminate He|destruct (Hno Hs')|exact Hpre].
Defined.

End Draining.
